(* ===== verification/_CoqProject ===== *)
-Q . S2P
Prelude.v
Multierr.v
Signal.v
Codec.v
Json.v
Float64.v
Storage.v
Memory.v
Heap.v
MergeIterator.v
LevelDB.v
OtherStorages.v
Headers.v
Stats.v
Proxy.v
PartitionTable.v
Recovery.v
Promise.v
Emitter.v
Graph.v
View.v
Context.v
PartitionProcessor.v
Failover.v
Apps.v
Messaging.v
Copartition.v
TopicManager.v
Processor.v
Typing.v
Examples.v
Paths.v
Options.v
Builders.v
WaitReady.v
StatsExchange.v
Tester.v
TesterGroup.v
TesterClients.v
TesterRounds.v
TesterTable.v
MockConsumer.v
MockGroup.v
Logging.v
Web.v
