(* ===== verification/Prelude.v ===== *)
(** * A verification library for goka

    Goka is a Go library for stream processing on Kafka.  A user describes a processor group by a graph
    of topics; the processors of the group share the partitions of the topics among them, run a callback
    for every message, keep their state in a table that is stored locally and written to a topic of its
    own (its changelog), and rebuild the table from that topic when a partition moves.  Views are
    read-only copies of such tables, emitters write messages into topics.  This library models the code
    of the repository as executable definitions and proves what makes it correct.

    ** Parts of the program and the files that model them

    The files are grouped by the parts they model; [_CoqProject] has them in dependency order.

    - [Prelude]: Go data (strings, byte slices that may be nil, errors, wrap-around integers, [sort]),
      the outcome of a computation (it returns, panics or blocks for ever), tactics, the hint database
      [goka], and lemmas on lists and on counting the entries of a map.
    - [Multierr] ([multierr/]): error collections, groups of goroutines (the list of their results in the
      order in which they end) and waiting for several channels.
    - [Signal] ([signal.go]): observable states: a state, waiters and observers with their channels.
    - [Codec] ([codec/codec.go], with [strconv]): the bundled codecs.  [Json] ([encoding/json], as far as
      the example applications use it): UTF-8, quoting, printing and parsing, and reading into structs
      and slices.  [Float64]: the float64 arithmetic of the copartitioning strategy and of an example.
    - [Storage] ([storage/storage.go]): the interfaces of storages and iterators as classes, what
      their clients rely on as classes of laws, and the abstract storage (a map and an offset) that
      every lawful storage refines.
    - [Memory] ([storage/memory.go]), [Heap] and [MergeIterator] ([container/heap] and
      [storage/merge_iterator.go]), [LevelDB] ([storage/storage.go], [storage/iterator.go]),
      [OtherStorages] ([storage/null.go], [storage/append.go], [storage/redis/redis.go]): the storages.
      The databases themselves are classes with laws and reference instances.
    - [Headers] ([headers/headers.go]), [Stats] ([stats.go]: counters on a heap, because snapshots share
      them), [Proxy] ([once.go], [proxy.go] and the update callback of [options.go]), [Promise]
      ([promise.go]).
    - [PartitionTable] ([partition_table.go], [simple_backoff.go]): a table partition: opening its
      storage, recovery, catching up, reading, writing.  [Recovery] has its properties.
    - [Emitter] ([emitter.go], [producer.go]): emitters over the asynchronous producer, as a step
      relation.
    - [Graph] ([graph.go]), [View] ([view.go], [iterator.go]), [Context] ([context.go]: what a callback
      does, and the protocol that decides when its message is committed), [PartitionProcessor]
      ([partition_processor.go]), [Copartition] ([copartition_strategy.go]), [TopicManager] ([topic_manager.go], over a cluster with laws), [Processor]
      ([processor.go], [assignment.go]), [WaitReady] ([WaitForReady] and [Stop] of [processor.go], as the
      goroutine that waits while the processor changes), [Options] ([options.go]), [Builders]
      ([config.go], [builders.go], [storage/builders.go], with the configurations on a heap, and [Paths]
      for [filepath.Join]).
    - [Failover] and [Typing] have no code of their own: they compose the context, the partition
      processor, its table and its graph, and the construction of a processor with its views.
    - [Apps] ([examples/1-simplest]), [Examples] ([examples/2-clicks], [5-multiple], [7-redis],
      [8-monitoring], [9-defer-commit]) and [Messaging] ([examples/3-messaging]): the applications that
      the repository builds with the library: their values, codecs, callbacks and groups.  [Apps] also
      has what they share: how a callback reads and writes through its context, the callbacks that
      update the value of the key ([aggregate]), the promise of the codec of such a value (the class
      [StateCodec]), and the abstract application they implement ([app_spec]).
    - [StatsExchange] ([RunStatsLoop], [runStatsLoop] and [fetchStats] of tables and partition
      processors, the statistics of views and processors): requesting statistics, as a step relation.
    - [Tester], [TesterGroup] and [TesterClients] ([tester/]): the in-process replacement for Kafka that
      the library offers to the tests of its users; [TesterRounds] has the termination of its rounds,
      [TesterTable] composes it with the partition table.
    - [MockConsumer] and [MockGroup] ([mockautoconsumers.go]): the mock consumer and the mock consumer
      group, with their channels, expectations and counters.
    - [Logging] ([logger.go], and the stack traces of [errors.go]); [Web] ([web/]): the query, monitor
      and index servers, with the shared slices of template names on a heap.

    ** How the code is modelled

    A struct is a record, an operation a function that takes the old state and returns the new one;
    an operation with an error returns [res] or [option error], one that can panic or block returns
    [outcome].  Operations keep the names of the source where they are unique, with the type's name in
    front of them otherwise ([memory_Get], [table_Get], [view_Get]).  What the code leaves to others is
    an argument: the results of builders, the order in which a Go map is visited, what a [select]
    receives (as a list of events), user callbacks.  Where goroutines interleave, an operation is cut
    into the steps between which others can run, and the properties hold for every sequence of steps:
    the synchronisation of LevelDB's offset, also while the storage is closed, emits and [Finish], signals and their observers, the
    operations of a callback and the acknowledgements of what it emitted, the statistics loops, the
    catch-up of the tester and the marks of the processor, [WaitForReady] and the rebalances of the
    processor.

    Interfaces are classes: [Storage]/[StorageLaws], [Iterator]/[IteratorLaws]/[SnapshotLaws],
    [LevelDB]/[LevelDBLaws], [Redis]/[RedisLaws], [Cluster]/[ClusterLaws],
    [TopicManager]/[TopicManagerLaws], [StatsServer]/[StatsServerLaws], [StateCodec].  Tables, views, contexts and
    processors are proved against the laws; the implementations discharge them.

    ** What the theorems show

    - Recovery ([Recovery.load_recovers]): over a broker that answers questions for offsets and delivers
      a log, which may be compacted, from the offset on that the code asks for, recovery ends with the
      contents of the whole log, if the local contents reflect a part of it that reaches at least to the
      stored offset ([reflects]: what an earlier, possibly interrupted, recovery leaves).
      Offsets only grow ([storeNewestOffset_monotone]).
    - Processing ([Context.message_committed_once], [Context.table_follows_changelog],
      [PartitionProcessor.commits_only_processed], [Context.resolution_progress]): a message is
      committed once, after everything it emitted was acknowledged, or fails with exactly the errors that
      were reported; the table is what its changelog says, unless the processor is shutting down
      ([shutdown_emit_escapes]).  [commit_out_of_order] shows that messages of a partition can be committed out of order.
      [Failover.failover_same_table] composes processing and recovery: the processor that takes over a
      partition recovers exactly the table of the one before it.  [Typing.group_type_safe]: if the
      codecs of the graph of a new processor fit the types of its topics, callbacks see and emit only
      values of them, also through the views that the processor creates.
    - Applications ([Apps.stateful_app_refines], [Apps.state_survives_failover]): a group whose callbacks
      fold the messages of a key into its value implements the abstract application, and its state
      survives a failover.  The examples are instances: [Examples.clicks_counted],
      [Messaging.collector_keeps_latest], [Messaging.detector_counts_and_reports], [blocker_run]; further
      [Messaging.detectSpammer_exact] (float64 does not change the verdict),
      [filter_drops_and_translates], [messaging_codecs_roundtrip] and
      [Examples.forward_commits_with_emit] (a commit deferred until an external emit succeeded).
    - Groups ([Copartition.Plan_copartitions], [Plan_order_independent] for copartitioned topics,
      [Processor.planned_sessions_accepted], [rebalance_session], [prepareTopics_copartitions],
      [assignmentFromSession_iff], [Graph]'s theorems, [TopicManager.ensureExists_establishes],
      [Options.lookup_view_options_agree]): what is defined, planned and set up is copartitioned.
    - Storages and iterators: the iteration theorems of [Memory], [MergeIterator], [LevelDB] and [View]
      (each pair once, in order, and the loops end without error); [LevelDB.leveldb_offset_was_set] and
      [leveldb_close_reopen] for the offset, with [leveldb_close_race] for what can go wrong; [OtherStorages.redis_refines_map].
    - Reading ([Processor.processor_Get_reads], [View.view_find_panics_iff]): the partition of a key.
    - Concurrency helpers ([Signal]'s theorems, [Emitter.emitter_safe], [emitter_Finish_returns],
      [StatsExchange.stats_fetches_answered], [stats_abandoned_wedge]).
    - Readiness ([WaitReady.WaitForReady_was_ready]): [WaitForReady] returns only after all partitions
      were running; [WaitForReady_stuck] is a run in which it does not return.
    - Construction ([Builders.client_configs], [table_paths_distinct]): with which settings every client
      ends up, and that the tables of a directory do not share a database.
    - Round trips of codecs and headers; the tester delivers each message once
      ([TesterGroup.catchup_delivers_once], [Tester.consumer_gets_each_once]), [Consume] returns in every
      schedule of the sessions and their processors, with all clients caught up
      ([TesterRounds.Consume_returns]), and tables recover from it
      ([TesterTable.table_recovers_on_tester]).  The mocks deliver and count what they are given
      ([MockConsumer.mock_partition_lifecycle], [MockGroup.mock_group_wait]).
    - Web ([Web.query_page_value], [monitor_panics_iff], [request_templates]): what the pages show, when
      the monitor panics, and which templates concurrent requests load.
    - Theorems that record where the code does not do what it means to or what it documents, each with
      a concrete run: for instance [load_closed_early_marks_recovered], [leveldb_sync_race],
      [leveldb_offset_zero_lost], [leveldb_nil_limit], [view_iterator_empty_value],
      [redis_iteration_broken], [view_running_before_all_reported], [cancelled_catchup_panics],
      [mock_unclaimed_waits], [closed_partition_reported].

    ** Bounds and fuel

    Integers are [Z] with their wrap-around written out ([int64], [int32], [uint64]); where a theorem
    needs that a counter does not overflow it says so (fewer than 2^31 partitions and members in
    [Copartition], where the products stay exact enough for float64 up to 2^53; fewer than 2^63 - 1
    messages in a queue, which [Consume_returns] bounds by the descendants that the messages can have).
    float64 is rounding of rationals to 53 bits, to nearest and ties to even,
    without exponent bounds, which the operands do not reach; the multiplication and the addition are
    rounded separately, as on platforms that do not fuse them.  Loops over channels are driven by the
    list of what they receive and answer [Blocked] when it ends, which is what waiting for ever is;
    loops over iterators take one more step than there are entries ([collect_all], [iter_keys],
    [read_all]), and the theorems show that they end by themselves; the catch-up rounds of the tester
    ([waitForClients]) are bounded by a fuel, of which [Consume_returns] shows that two more than the
    highest stage of the topics is enough; [format_digits] has 20 steps, one
    more than an int64 has digits; the JSON parser has twice the length of the text and one more step,
    and [parse_json_fuel] shows that more do not change its result (the limit of the nesting that newer
    versions of Go have is not modelled).

    ** Not modelled

    Mocks generated by gomock ([mocks.go], [mockssarama.go], [mockstorage.go]), generated assets
    ([web/templates/bindata.go]), helpers for the repository's own tests ([mockbuilder.go],
    [internal/test], [storage/test.go]); of the examples the main functions, the loops that emit a
    message per tick, the command-line tools and [examples/6-reconnecting-view]; Kafka, sarama, LevelDB and Redis
    themselves, which are classes with laws or arguments; the routing of HTTP requests, the template
    engine and the JSON of the web pages, which are arguments; marshalling a value of a type that a codec
    is not meant for (the argument [other] of the JSON codecs); time, except where the code compares times (timeouts are
    events); accessors that only return a field, and methods of the mocks that only panic. *)
From Stdlib Require Import ZArith Lia.
From stdpp Require Import base gmap strings list sorting.

Declare Scope goka_scope.
Delimit Scope goka_scope with goka.
Open Scope goka_scope.
Open Scope Z_scope.

Create HintDb goka.
Create Rewrite HintDb goka.

(** ** Go data *)

(** A Go [string] is a byte sequence, modelled by [string]; a [[]byte] is a byte sequence or
    [nil], and the code distinguishes the two, so it is an [option string] with [None] for
    [nil]. *)
Abbreviation bytes := (option string).

(** [len(b)] of a [[]byte]: the length of [nil] is 0. *)
Definition bytes_len (b : bytes) : Z :=
  match b with None => 0 | Some s => Z.of_nat (String.length s) end.

(** [string(b)]: the conversion of [nil] is the empty string. *)
Definition string_of_bytes (b : bytes) : string := default EmptyString b.

(** [bytes.Compare]: lexicographic on the bytes, [nil] counts as empty. *)
Definition bytes_Compare (a b : bytes) : comparison :=
  String.compare (string_of_bytes a) (string_of_bytes b).

(** Errors are values.  [ErrWrap m e] is [fmt.Errorf("m: %v", e)]; the sentinels the code compares
    by identity have a constructor of their own. *)
#[warnings="-register-all"]
Inductive error : Type :=
| ErrNew (msg : string)
| ErrWrap (msg : string) (cause : error)
| ErrMulti (es : list error)
| ErrProcessing (wrapped : error)
| ErrTopicNotFound
| ErrEmitterAlreadyClosed
| ErrLevelDBNotFound
| ErrContextCanceled.

(** The result of a Go function of type [(T, error)]. *)
Inductive res (A : Type) : Type :=
| Ok (a : A)
| Err (e : error).
Arguments Ok {A} a.
Arguments Err {A} e.

#[export] Instance res_ret : MRet res := fun A a => Ok a.
#[export] Instance res_bind : MBind res := fun A B k m =>
  match m with Ok a => k a | Err e => Err e end.

(** [err], the error half of a result, [None] for [nil]. *)
Definition res_err {A} (r : res A) : option error :=
  match r with Ok _ => None | Err e => Some e end.

(** A computation returns, panics, or blocks for ever on a channel operation. *)
Inductive outcome (A : Type) : Type :=
| Ret (a : A)
| Panic (e : error)
| Blocked.
Arguments Ret {A} a.
Arguments Panic {A} e.
Arguments Blocked {A}.

#[export] Instance outcome_ret : MRet outcome := fun A a => Ret a.
#[export] Instance outcome_bind : MBind outcome := fun A B k m =>
  match m with Ret a => k a | Panic e => Panic e | Blocked => Blocked end.

(** The value a computation returns, for evaluating it on concrete inputs. *)
Definition is_ret {A} (o : outcome A) : bool := match o with Ret _ => true | _ => false end.
Definition ret_or {A} (d : A) (o : outcome A) : A := match o with Ret a => a | _ => d end.

Lemma ret_or_ok {A} (d : A) o : is_ret o = true -> o = Ret (ret_or d o).
Proof. by destruct o. Qed.

Lemma ret_or_pair {A B} (d : A * B) o a : is_ret o = true -> (ret_or d o).1 = a -> o = Ret (a, (ret_or d o).2).
Proof. destruct o as [[]| |]; simpl; congruence. Qed.

Lemma ret_pair_inj {A B} (a c : A) (b d : B) : Ret (a, b) = Ret (c, d) -> b = d.
Proof. by intros [= _ ->]. Qed.

Lemma pair_default {A B} (d : B) (x : A * option B) a :
  x.1 = a -> (if x.2 then true else false) = true -> x = (a, Some (default d x.2)).
Proof. destruct x as [? [?|]]; simpl; congruence. Qed.

(** ** Machine integers *)

(** The value of a signed [w]-bit integer after wrap-around. *)
Definition wrapS (w z : Z) : Z := (z + 2 ^ (w - 1)) mod 2 ^ w - 2 ^ (w - 1).
Definition int64 (z : Z) : Z := wrapS 64 z.
Definition int32 (z : Z) : Z := wrapS 32 z.
Definition uint32 (z : Z) : Z := z mod 2 ^ 32.

Definition in_int64 (z : Z) : Prop := - 2 ^ 63 <= z < 2 ^ 63.
Definition in_int32 (z : Z) : Prop := - 2 ^ 31 <= z < 2 ^ 31.

#[export] Instance in_int64_dec z : Decision (in_int64 z).
Proof. unfold in_int64. apply _. Defined.
#[export] Instance in_int32_dec z : Decision (in_int32 z).
Proof. unfold in_int32. apply _. Defined.

(** [sort.Strings]: the sorted permutation, unique because the order on strings is total. *)
Definition sort_Strings (l : list string) : list string := merge_sort String.le l.

(** ** Tactics *)

(** Split every [if] and [match] of the goal on a boolean comparison. *)
Ltac simp_bool :=
  repeat match goal with
  | H : Z.eqb _ _ = true |- _ => apply Z.eqb_eq in H
  | H : Z.eqb _ _ = false |- _ => apply Z.eqb_neq in H
  | H : Z.ltb _ _ = true |- _ => apply Z.ltb_lt in H
  | H : Z.ltb _ _ = false |- _ => apply Z.ltb_ge in H
  | H : Z.leb _ _ = true |- _ => apply Z.leb_le in H
  | H : Z.leb _ _ = false |- _ => apply Z.leb_gt in H
  | H : Nat.eqb _ _ = true |- _ => apply Nat.eqb_eq in H
  | H : Nat.eqb _ _ = false |- _ => apply Nat.eqb_neq in H
  | H : String.eqb _ _ = true |- _ => apply String.eqb_eq in H
  | H : String.eqb _ _ = false |- _ => apply String.eqb_neq in H
  | H : _ && _ = true |- _ => apply andb_true_iff in H; destruct H
  | H : _ || _ = false |- _ => apply orb_false_iff in H; destruct H
  | H : negb _ = true |- _ => apply negb_true_iff in H
  | H : negb _ = false |- _ => apply negb_false_iff in H
  end.

(** Case analysis on the scrutinee of a [match] or [if] of the goal, keeping its equation. *)
Ltac case_goal :=
  match goal with
  | |- context [match ?x with _ => _ end] =>
      lazymatch x with
      | context [match _ with _ => _ end] => fail
      | _ => destruct x eqn:?
      end
  end.

Ltac crush := repeat (case_goal; simp_bool; simplify_eq/=); try done; try lia.

(** ** Shared lemmas *)

Lemma str_app_nil_r (s : string) : s +:+ "" = s.
Proof. induction s as [|c s IH]; [done|]. change (String c (s +:+ "") = String c s). by rewrite IH. Qed.

Lemma str_app_assoc (s t u : string) : s +:+ (t +:+ u) = (s +:+ t) +:+ u.
Proof.
  induction s as [|c s IH]; [done|]. change (String c (s +:+ (t +:+ u)) = String c ((s +:+ t) +:+ u)). by rewrite IH.
Qed.

Lemma wrapS_range w z : 0 < w -> - 2 ^ (w - 1) <= wrapS w z < 2 ^ (w - 1).
Proof.
  intros Hw. unfold wrapS.
  assert (2 ^ w = 2 * 2 ^ (w - 1)) as E.
  { rewrite <- Z.pow_succ_r by lia. f_equal. lia. }
  pose proof (Z.mod_pos_bound (z + 2 ^ (w - 1)) (2 ^ w)) as Hb.
  assert (0 < 2 ^ (w - 1)) by (apply Z.pow_pos_nonneg; lia).
  lia.
Qed.

Lemma wrapS_id w z : 0 < w -> - 2 ^ (w - 1) <= z < 2 ^ (w - 1) -> wrapS w z = z.
Proof.
  intros Hw Hz. unfold wrapS.
  assert (2 ^ w = 2 * 2 ^ (w - 1)) as E.
  { rewrite <- Z.pow_succ_r by lia. f_equal. lia. }
  rewrite Z.mod_small; lia.
Qed.

Lemma int64_id z : in_int64 z -> int64 z = z.
Proof. intros H. apply wrapS_id; [lia|exact H]. Qed.

Lemma int32_id z : in_int32 z -> int32 z = z.
Proof. intros H. apply wrapS_id; [lia|exact H]. Qed.

Lemma int64_range z : in_int64 (int64 z).
Proof. apply (wrapS_range 64). lia. Qed.

(** Adding on wraps around once. *)
Lemma int64_add_l a b : int64 (int64 a + b) = int64 (a + b).
Proof.
  unfold int64, wrapS. f_equal.
  replace ((a + 2 ^ (64 - 1)) mod 2 ^ 64 - 2 ^ (64 - 1) + b + 2 ^ (64 - 1)) with ((a + 2 ^ (64 - 1)) mod 2 ^ 64 + b) by lia.
  rewrite Z.add_mod_idemp_l by lia. f_equal. lia.
Qed.

Lemma int32_range z : in_int32 (int32 z).
Proof. apply (wrapS_range 32). lia. Qed.

#[export] Hint Resolve int64_range int32_range : goka.
#[export] Hint Rewrite int64_id int32_id using done : goka.

Lemma sort_Strings_perm l : sort_Strings l ≡ₚ l.
Proof. apply merge_sort_Permutation. Qed.

Lemma sort_Strings_sorted l : Sorted String.le (sort_Strings l).
Proof. apply (Sorted_merge_sort _). Qed.

(** [sort.Strings] does not depend on the order of its input: whatever order a map iteration
    produced the list in, the sorted list is the same. *)
Lemma sort_Strings_proper l1 l2 : l1 ≡ₚ l2 -> sort_Strings l1 = sort_Strings l2.
Proof.
  intros H. apply (Sorted_unique String.le).
  - apply sort_Strings_sorted.
  - apply sort_Strings_sorted.
  - by rewrite !sort_Strings_perm.
Qed.

#[export] Instance sort_Strings_Proper : Proper ((≡ₚ) ==> (=)) sort_Strings.
Proof. intros l1 l2. apply sort_Strings_proper. Qed.

Lemma filter_id {A} (P : A -> Prop) `{forall x, Decision (P x)} (l : list A) :
  (forall x, x ∈ l -> P x) -> filter P l = l.
Proof.
  induction l as [|x l IH]; intros Hl; [done|].
  rewrite filter_cons_True by (apply Hl; left). f_equal. apply IH. intros. apply Hl. by right.
Qed.

Lemma filter_ext_in {A} (P Q : A -> Prop) `{forall x, Decision (P x)} `{forall x, Decision (Q x)} (l : list A) :
  (forall x, x ∈ l -> P x <-> Q x) -> filter P l = filter Q l.
Proof.
  induction l as [|x l IH]; intros HPQ; [done|]. pose proof (HPQ x (list_elem_of_here _ _)) as Hx.
  assert (filter P l = filter Q l) as E by (apply IH; intros y Hy; apply HPQ; by right).
  destruct (decide (P x)).
  - rewrite !filter_cons_True by tauto. by rewrite E.
  - rewrite !filter_cons_False by tauto. done.
Qed.

Lemma filter_none {A} (P : A -> Prop) `{forall x, Decision (P x)} (l : list A) :
  (forall x, x ∈ l -> ~ P x) -> filter P l = [].
Proof.
  induction l as [|x l IH]; intros Hl; [done|].
  rewrite filter_cons_False by (apply Hl; left). apply IH. intros. apply Hl. by right.
Qed.

Lemma NoDup_fmap_filter {A B} (f : A -> B) (P : A -> Prop) `{forall x, Decision (P x)} (l : list A) :
  NoDup (f <$> l) -> NoDup (f <$> filter P l).
Proof.
  induction l as [|x l IH]; [done|]. rewrite fmap_cons, NoDup_cons. intros [Hx Hl].
  rewrite filter_cons. case_decide; [|by apply IH].
  rewrite fmap_cons, NoDup_cons. split; [|by apply IH].
  intros (y & Hy & Hin)%list_elem_of_fmap. apply Hx. apply list_elem_of_fmap.
  exists y. split; [done|]. by apply list_elem_of_filter in Hin as [_ ?].
Qed.

Lemma NoDup_fmap_inj {A B} (f : A -> B) (l : list A) x y :
  NoDup (f <$> l) -> x ∈ l -> y ∈ l -> f x = f y -> x = y.
Proof.
  intros Hnd [i Hi]%list_elem_of_lookup [j Hj]%list_elem_of_lookup Heq.
  assert (i = j) as ->; [|congruence].
  eapply (NoDup_lookup (f <$> l)); [done|rewrite list_lookup_fmap, Hi; done|].
  by rewrite list_lookup_fmap, Hj, Heq.
Qed.

Lemma omap_length_le {A B} (f : A -> option B) (l : list A) : (length (omap f l) <= length l)%nat.
Proof. induction l as [|x l IH]; csimpl; [done|]. destruct (f x); csimpl; lia. Qed.

Lemma StronglySorted_sublist {A} (R : relation A) l k :
  l `sublist_of` k -> StronglySorted R k -> StronglySorted R l.
Proof.
  induction 1 as [|x l k Hsub IH|x l k Hsub IH]; intros Hs; [done| |].
  - apply StronglySorted_cons in Hs as [Hall Hs]. constructor; [by apply IH|].
    rewrite Forall_forall in *. intros y Hy. apply Hall.
    eapply elem_of_submseteq; [exact Hy|by apply sublist_submseteq].
  - apply StronglySorted_cons in Hs as [_ Hs]. by apply IH.
Qed.

(** ** Counting the entries of a map *)

Definition b2n (b : bool) : nat := if b then 1 else 0.

(** The number of entries of a map whose values pass a test. *)
Definition count_map {K A} `{Countable K} (f : A -> bool) (m : gmap K A) : nat :=
  size (filter (fun x => f x.2 = true) m).

Lemma count_map_delete {K A} `{Countable K} (f : A -> bool) (m : gmap K A) i :
  (count_map f (delete i m) + match m !! i with Some old => b2n (f old) | None => 0 end = count_map f m)%nat.
Proof.
  unfold count_map. set (g := fun x : K * A => f x.2 = true). rewrite map_filter_delete.
  destruct (m !! i) as [old|] eqn:E.
  - destruct (f old) eqn:Eo; simpl.
    + assert (filter g m !! i = Some old) as Hi by (by apply map_lookup_filter_Some).
      rewrite map_size_delete, Hi. simpl. assert (size (filter g m) <> 0)%nat; [|lia].
      intros Hz. apply map_size_empty_iff in Hz. by rewrite Hz, lookup_empty in Hi.
    + rewrite delete_id; [lia|]. apply map_lookup_filter_None. right. intros x Hx. simplify_eq. unfold g. simpl. congruence.
  - rewrite delete_id; [lia|]. apply map_lookup_filter_None. by left.
Qed.

(** How the count changes when an entry is written. *)
Lemma count_map_insert {K A} `{Countable K} (f : A -> bool) (m : gmap K A) i x :
  (count_map f (<[i := x]> m) + match m !! i with Some old => b2n (f old) | None => 0 end =
   count_map f m + b2n (f x))%nat.
Proof.
  pose proof (count_map_delete f m i) as Hdel. pose proof (count_map_delete f (<[i := x]> m) i) as Hins.
  rewrite delete_insert_eq, lookup_insert_eq in Hins. lia.
Qed.

Lemma count_map_zero {K A} `{Countable K} (f : A -> bool) (m : gmap K A) :
  count_map f m = 0%nat <-> forall i x, m !! i = Some x -> f x = false.
Proof.
  unfold count_map. rewrite map_size_empty_iff. split.
  - intros E i x Hi. destruct (f x) eqn:Ef; [|done].
    assert (filter (fun y => f y.2 = true) m !! i = Some x) as Hx by (by apply map_lookup_filter_Some).
    by rewrite E, lookup_empty in Hx.
  - intros Hall. apply map_empty. intros i. apply map_lookup_filter_None. right. intros x Hx. simpl.
    by rewrite (Hall i x Hx).
Qed.

Lemma count_map_pos {K A} `{Countable K} (f : A -> bool) (m : gmap K A) :
  count_map f m <> 0%nat -> exists i x, m !! i = Some x /\ f x = true.
Proof.
  unfold count_map. intros Hne. destruct (map_choose (filter (fun y => f y.2 = true) m)) as (i & x & Hx).
  - intros Hz. by rewrite Hz, map_size_empty in Hne.
  - exists i, x. by apply map_lookup_filter_Some in Hx.
Qed.
