(* ===== verification/Multierr.v ===== *)
(** * Error collection

    [multierr/errors.go], [multierr/errgroup.go] and [multierr/multiwait.go]: the list of errors a component gathers while
    it runs and shuts down, the error group whose goroutines feed such a list, and waiting for several channels. *)
From Stdlib Require Import ZArith Lia Ascii.
From stdpp Require Import base gmap strings list.
From S2P Require Import Prelude.
Open Scope Z_scope.

(** [type Errors struct]; the mutex serialises the operations and holds no data. *)
Record Errors : Type := mkErrors { errs : list error }.

Definition new_Errors : Errors := mkErrors [].

Definition Errors_Collect (e : Errors) (err : option error) : Errors :=
  match err with
  | None => e
  | Some x => mkErrors (errs e ++ [x])
  end.

Definition Errors_Merge (e : Errors) (o : option Errors) : Errors :=
  match o with
  | None => e
  | Some o => mkErrors (errs e ++ errs o)
  end.

Definition Errors_HasErrors (e : Errors) : bool := 0 <? Z.of_nat (length (errs e)).

(** The text of a list of errors, given the text of each: one message stands alone, several
    become a bullet list. *)
Definition multi_text (msgs : list string) : string :=
  match msgs with
  | [] => EmptyString
  | [m] => m
  | _ => fold_left (fun str m => str +:+ (String "009"%char "* " +:+ m +:+ String "010"%char ""))
                   msgs ("Errors:" +:+ String "010"%char "")
  end%string.

(** [err.Error()] of every error the code builds. *)
Fixpoint error_Error (e : error) : string :=
  match e with
  | ErrNew m => m
  | ErrWrap m c => (m +:+ ": " +:+ error_Error c)%string
  | ErrMulti es => multi_text (map error_Error es)
  | ErrProcessing w => ("error processing message: " +:+ error_Error w)%string
  | ErrTopicNotFound => "requested topic was not found"
  | ErrEmitterAlreadyClosed => "emitter already closed"
  | ErrLevelDBNotFound => "leveldb: not found"
  | ErrContextCanceled => "context canceled"
  end.

Definition Errors_Error (e : Errors) : string :=
  if negb (Errors_HasErrors e) then EmptyString else multi_text (map error_Error (errs e)).

Definition Errors_NilOrError (e : Errors) : option error :=
  if Errors_HasErrors e then Some (ErrMulti (errs e)) else None.

(** The deferred idiom of [load], [loadMessages], [run] and [rebalanceLoop]:
    [errs.Collect(rerr); rerr = errs.NilOrError()]. *)
Definition collect_return (e : Errors) (rerr : option error) : option error :=
  Errors_NilOrError (Errors_Collect e rerr).

(** [type ErrGroup struct]: the errors collected so far and whether the derived context has been
    cancelled. *)
Record ErrGroup : Type := mkErrGroup { eg_err : Errors; eg_ctx_done : bool }.

Definition NewErrGroup : ErrGroup := mkErrGroup new_Errors false.

(** One goroutine started with [Go] terminates with [err]: the error is collected, and the
    embedded group cancels the derived context on the first one. *)
Definition ErrGroup_Go (g : ErrGroup) (err : option error) : ErrGroup :=
  match err with
  | Some e => mkErrGroup (Errors_Collect (eg_err g) (Some e)) true
  | None => g
  end.

(** [Wait] once the goroutines have terminated, their results listed in the order of
    termination.  The embedded group cancels the context when [Wait] returns. *)
Definition ErrGroup_Wait (g : ErrGroup) (results : list (option error)) : Errors * bool :=
  let g' := fold_left ErrGroup_Go results g in
  (eg_err g', true).

(** Whether a goroutine's result is an error. *)
Definition res_is_err (r : option error) : bool :=
  match r with Some _ => true | None => false end.

(** ** Lemmas *)

Lemma HasErrors_spec e : Errors_HasErrors e = true <-> errs e <> [].
Proof. unfold Errors_HasErrors. destruct (errs e); simpl; split; intros; try done; lia. Qed.

Lemma HasErrors_false e : Errors_HasErrors e = false <-> errs e = [].
Proof. unfold Errors_HasErrors. destruct (errs e); simpl; split; intros; try done; lia. Qed.

Lemma NilOrError_None e : Errors_NilOrError e = None <-> errs e = [].
Proof.
  unfold Errors_NilOrError. destruct (Errors_HasErrors e) eqn:E.
  - apply HasErrors_spec in E. by split.
  - apply HasErrors_false in E. by split.
Qed.

Lemma errs_Collect e err : errs (Errors_Collect e err) = errs e ++ option_list err.
Proof. destruct err; simpl; [done|by rewrite app_nil_r]. Qed.

(** An error once collected makes the component return an error, whatever happens later. *)
Lemma Collect_Some_NilOrError e x : Errors_NilOrError (Errors_Collect e (Some x)) <> None.
Proof. rewrite NilOrError_None. simpl. by destruct (errs e). Qed.

Lemma collect_return_None e rerr : collect_return e rerr = None <-> errs e = [] /\ rerr = None.
Proof.
  unfold collect_return. rewrite NilOrError_None, errs_Collect.
  destruct rerr; simpl; [|rewrite app_nil_r; naive_solver].
  split; [by destruct (errs e)|naive_solver].
Qed.

Lemma fold_ErrGroup_Go l g :
  errs (eg_err (fold_left ErrGroup_Go l g)) = errs (eg_err g) ++ omap id l /\
  eg_ctx_done (fold_left ErrGroup_Go l g) = eg_ctx_done g || existsb res_is_err l.
Proof.
  revert g. induction l as [|[e|] l IH]; intros g; simpl.
  - rewrite app_nil_r, orb_false_r. done.
  - edestruct IH as [-> ->]. simpl. split; [by rewrite <- app_assoc|].
    by rewrite orb_true_r.
  - edestruct IH as [-> ->]. done.
Qed.

(** The group reports exactly the errors its goroutines returned, in the order of their
    termination, and no error iff every goroutine succeeded. *)
Lemma ErrGroup_Wait_errs l :
  errs (ErrGroup_Wait NewErrGroup l).1 = omap id l.
Proof. unfold ErrGroup_Wait. simpl. by rewrite (proj1 (fold_ErrGroup_Go l NewErrGroup)). Qed.

Lemma ErrGroup_Wait_None l :
  Errors_NilOrError (ErrGroup_Wait NewErrGroup l).1 = None <-> Forall (.= None) l.
Proof.
  rewrite NilOrError_None, ErrGroup_Wait_errs. induction l as [|[e|] l IH]; simpl.
  - split; [constructor|done].
  - split; [done|]. inversion 1. done.
  - rewrite IH, Forall_cons. naive_solver.
Qed.

#[export] Hint Rewrite errs_Collect NilOrError_None : goka.

(** ** Waiting for several channels *)

(** [type MultiWait struct] with its goroutines: the counter of the wait group, whether the context is
    done, and the goroutines that still wait for their channel. *)
Record MultiWait : Type := mkMultiWait { mw_wg : Z; mw_ctx_done : bool; mw_waiting : gset nat; mw_next : nat }.

(** [NewMultiWait]: [wg.Add(num)] panics for a negative number. *)
Definition NewMultiWait (num : Z) : outcome MultiWait :=
  if num <? 0 then Panic (ErrNew "sync: negative WaitGroup counter") else Ret (mkMultiWait num false ∅ 0).

(** [Add] starts a goroutine. *)
Definition MultiWait_Add (m : MultiWait) : MultiWait :=
  mkMultiWait (mw_wg m) (mw_ctx_done m) ({[mw_next m]} ∪ mw_waiting m) (S (mw_next m)).

(** Goroutine [i] finds its channel closed, or its context done. *)
Definition goroutine_done (i : nat) (m : MultiWait) : outcome MultiWait :=
  if decide (i ∈ mw_waiting m) then
    if mw_wg m - 1 <? 0 then Panic (ErrNew "sync: negative WaitGroup counter")
    else Ret (mkMultiWait (mw_wg m - 1) (mw_ctx_done m) (mw_waiting m ∖ {[i]}) (mw_next m))
  else Blocked.
Definition goroutine_cancelled (i : nat) (m : MultiWait) : outcome MultiWait :=
  if mw_ctx_done m && bool_decide (i ∈ mw_waiting m)
  then Ret (mkMultiWait (mw_wg m) true (mw_waiting m ∖ {[i]}) (mw_next m)) else Blocked.

(** The channel that [Done] returns is closed once the counter is 0. *)
Definition MultiWait_Done (m : MultiWait) : bool := mw_wg m =? 0.

(** The results [Wait] can return: true if everything is done, false if the context is. *)
Definition MultiWait_Wait (m : MultiWait) : list bool :=
  (if MultiWait_Done m then [true] else []) ++ (if mw_ctx_done m then [false] else []).

Inductive mw_event : Type := MAdd | MDone (i : nat) | MCancelled (i : nat) | MCtxDone.

Definition mw_step (e : mw_event) (m : MultiWait) : outcome MultiWait :=
  match e with
  | MAdd => Ret (MultiWait_Add m)
  | MDone i => goroutine_done i m
  | MCancelled i => goroutine_cancelled i m
  | MCtxDone => Ret (mkMultiWait (mw_wg m) true (mw_waiting m) (mw_next m))
  end.

Fixpoint mw_run (l : list mw_event) (m : MultiWait) : outcome MultiWait :=
  match l with
  | [] => Ret m
  | e :: l => m ← mw_step e m; mw_run l m
  end.

Definition is_mdone (e : mw_event) : bool := match e with MDone _ => true | _ => false end.

Lemma mw_run_counts l m m' :
  mw_run l m = Ret m' -> mw_wg m' = mw_wg m - Z.of_nat (length (filter (fun e => is_mdone e = true) l)) /\
    (mw_ctx_done m' = true <-> mw_ctx_done m = true \/ MCtxDone ∈ l).
Proof.
  revert m. induction l as [|e l IH]; intros m Hr; simpl in Hr.
  { injection Hr as <-. simpl. split; [lia|]. set_solver. }
  destruct (mw_step e m) as [m1| |] eqn:E; [|done|done]. simpl in Hr. destruct (IH m1 Hr) as [-> ->]. clear IH Hr.
  destruct e as [|i|i|]; simpl in E.
  - injection E as <-. rewrite filter_cons_False by done. simpl. split; [lia|]. set_solver.
  - unfold goroutine_done in E. case_decide; [|done]. destruct (_ <? 0); [done|]. injection E as <-.
    rewrite filter_cons_True by done. simpl. split; [lia|]. set_solver.
  - unfold goroutine_cancelled in E. destruct (mw_ctx_done m) eqn:Ec; [|done]. simpl in E.
    destruct (bool_decide _); [|done]. injection E as <-. rewrite filter_cons_False by done. simpl. split; [lia|]. set_solver.
  - injection E as <-. rewrite filter_cons_False by done. simpl. split; [lia|]. set_solver.
Qed.

(** [Wait] returns true only when as many channels have closed as were announced, and false only when
    the context is done; if neither has happened it waits. *)
Theorem multiwait_Wait (num : Z) (l : list mw_event) (m0 m : MultiWait) (b : bool) :
  NewMultiWait num = Ret m0 -> mw_run l m0 = Ret m ->
  b ∈ MultiWait_Wait m <->
  if b then Z.of_nat (length (filter (fun e => is_mdone e = true) l)) = num else MCtxDone ∈ l.
Proof.
  unfold NewMultiWait. destruct (num <? 0); [done|]. intros [= <-] Hr. apply mw_run_counts in Hr as [Hw Hc]. simpl in *.
  assert (mw_ctx_done m = true <-> MCtxDone ∈ l) as Hc' by (rewrite Hc; naive_solver). clear Hc.
  unfold MultiWait_Wait, MultiWait_Done. rewrite Hw, elem_of_app. set (n := Z.of_nat _). destruct b.
  - transitivity (num - n = 0); [|lia]. destruct (Z.eqb_spec (num - n) 0) as [E|E]; [set_solver|].
    split; [|lia]. intros [Hb|Hb]; [set_solver|]. destruct (mw_ctx_done m); set_solver.
  - rewrite <- Hc'. destruct (mw_ctx_done m); [set_solver|]. split; [|done].
    intros [Hb|Hb]; [|set_solver]. destruct (num - n =? 0); set_solver.
Qed.
