(* ===== verification/Signal.v ===== *)
(** * Signals

    [signal.go]: a state variable that goroutines wait on and observe.  A [Signal] is a record; the
    channels the code allocates are identified by numbers, and the set of closed ones is part of
    the state, so that closing a channel twice is the panic it is in Go.  The operations that hold
    the mutex are functions; [Blocked] is the send to an observer that is not being read, during
    which the code keeps the mutex. *)
From Stdlib Require Import ZArith Lia.
From stdpp Require Import base gmap strings list.
From S2P Require Import Prelude.
Open Scope Z_scope.

(** ** Data *)

(** [type waiter struct]; [w_done] names the channel. *)
Record waiter : Type := mkWaiter { w_done : nat; w_state : Z; w_minState : bool }.

(** [type StateChangeObserver struct]: the buffer of [c] (capacity 1), whether [c] and [closed]
    have been closed. *)
Record StateChangeObserver : Type := mkObserver {
  obs_c : list Z;
  obs_c_closed : bool;
  obs_closed : bool
}.

(** [type Signal struct], with the heap of observers it points to, the closed waiter channels and
    the next unused name. *)
Record Signal : Type := mkSignal {
  sig_state : Z;
  sig_waiters : list waiter;
  sig_observers : list (option nat);
  sig_allowed : gmap Z bool;
  sig_heap : gmap nat StateChangeObserver;
  sig_chans : gset nat;
  sig_next : nat
}.

Definition NewSignal (states : list Z) : Signal :=
  mkSignal 0 [] [] (fold_left (fun m st => <[st := true]> m) states ∅) ∅ ∅ 0.

(** [s.allowedStates[state]]: a missing key reads as [false]. *)
Definition is_allowed (s : Signal) (st : Z) : bool := default false (sig_allowed s !! st).

(** [close(ch)] panics on a closed channel. *)
Definition close_chan (c : nat) (closed : gset nat) : outcome (gset nat) :=
  if decide (c ∈ closed) then Panic (ErrNew "close of closed channel")
  else Ret ({[c]} ∪ closed).

(** The condition under which [SetState] releases a waiter. *)
Definition satisfied (st : Z) (w : waiter) : bool :=
  (w_state w =? st) || (w_minState w && (w_state w <=? st)).

(** The waiter loop of [SetState]: the released waiters are closed, the others kept in order. *)
Fixpoint release_waiters (st : Z) (ws : list waiter) (closed : gset nat)
  : outcome (list waiter * gset nat) :=
  match ws with
  | [] => Ret ([], closed)
  | w :: ws =>
      if satisfied st w then
        closed ← close_chan (w_done w) closed;
        release_waiters st ws closed
      else
        '(kept, closed) ← release_waiters st ws closed;
        Ret (w :: kept, closed)
  end.

(** [obs.notify(state)].  [pick] is the choice of [select] when both cases are ready: [true] takes
    the [closed] case.  Sending on a closed channel panics. *)
Definition observer_notify (pick : bool) (st : Z) (o : StateChangeObserver)
  : outcome StateChangeObserver :=
  let sendable := obs_c_closed o || (Nat.ltb (length (obs_c o)) 1) in
  let send := if obs_c_closed o then Panic (ErrNew "send on closed channel")
              else Ret (mkObserver (obs_c o ++ [st]) (obs_c_closed o) (obs_closed o)) in
  if obs_closed o then (if sendable && negb pick then send else Ret o)
  else if sendable then send else Blocked.

(** The observer loop of [SetState]; a [nil] entry is a nil dereference. *)
Fixpoint notify_observers (pick : nat -> bool) (st : Z) (l : list (option nat))
    (h : gmap nat StateChangeObserver) : outcome (gmap nat StateChangeObserver) :=
  match l with
  | [] => Ret h
  | None :: _ => Panic (ErrNew "nil pointer dereference")
  | Some i :: l =>
      match h !! i with
      | None => Panic (ErrNew "nil pointer dereference")
      | Some o => o' ← observer_notify (pick i) st o;
                  notify_observers pick st l (<[i := o']> h)
      end
  end.

Definition Signal_SetState (pick : nat -> bool) (st : Z) (s : Signal) : outcome Signal :=
  if negb (is_allowed s st) then Panic (ErrNew "trying to set illegal state")
  else if sig_state s =? st then Ret s
  else
    '(ws, closed) ← release_waiters st (sig_waiters s) (sig_chans s);
    h ← notify_observers pick st (sig_observers s) (sig_heap s);
    Ret (mkSignal st ws (sig_observers s) (sig_allowed s) h closed (sig_next s)).

Definition Signal_IsState (st : Z) (s : Signal) : bool := sig_state s =? st.

Definition Signal_State (s : Signal) : Z := sig_state s.

(** [waitForWaiter]: closes the waiter at once when the state is already reached. *)
Definition waitForWaiter (st : Z) (w : waiter) (s : Signal) : outcome (nat * Signal) :=
  if (st =? sig_state s) || (w_minState w && (st <=? sig_state s)) then
    closed ← close_chan (w_done w) (sig_chans s);
    Ret (w_done w, mkSignal (sig_state s) (sig_waiters s) (sig_observers s) (sig_allowed s)
                            (sig_heap s) closed (sig_next s))
  else
    Ret (w_done w, mkSignal (sig_state s) (sig_waiters s ++ [w]) (sig_observers s) (sig_allowed s)
                            (sig_heap s) (sig_chans s) (sig_next s)).

(** [make(chan struct{})]: a fresh name. *)
Definition fresh_chan (s : Signal) : nat * Signal :=
  (sig_next s, mkSignal (sig_state s) (sig_waiters s) (sig_observers s) (sig_allowed s)
                        (sig_heap s) (sig_chans s) (S (sig_next s))).

Definition WaitForStateMin (st : Z) (s : Signal) : outcome (nat * Signal) :=
  let '(c, s) := fresh_chan s in waitForWaiter st (mkWaiter c st true) s.

Definition WaitForState (st : Z) (s : Signal) : outcome (nat * Signal) :=
  let '(c, s) := fresh_chan s in waitForWaiter st (mkWaiter c st false) s.

(** [ObserveStateChange]: the observer starts with the current state in its buffer. *)
Definition ObserveStateChange (s : Signal) : outcome (nat * Signal) :=
  o ← observer_notify false (sig_state s) (mkObserver [] false false);
  let i := sig_next s in
  Ret (i, mkSignal (sig_state s) (sig_waiters s) (sig_observers s ++ [Some i]) (sig_allowed s)
                   (<[i := o]> (sig_heap s)) (sig_chans s) (S i)).

(** A receive from [observer.C()]. *)
Definition observer_recv (i : nat) (s : Signal) : outcome (option Z * Signal) :=
  match sig_heap s !! i with
  | None => Panic (ErrNew "nil pointer dereference")
  | Some o =>
      match obs_c o with
      | st :: rest =>
          Ret (Some st, mkSignal (sig_state s) (sig_waiters s) (sig_observers s) (sig_allowed s)
                 (<[i := mkObserver rest (obs_c_closed o) (obs_closed o)]> (sig_heap s))
                 (sig_chans s) (sig_next s))
      | [] => if obs_c_closed o then Ret (None, s) else Blocked
      end
  end.

(** First half of [stop], before the mutex is taken: [close(observer.closed)]. *)
Definition stop_close (i : nat) (s : Signal) : outcome Signal :=
  match sig_heap s !! i with
  | None => Panic (ErrNew "nil pointer dereference")
  | Some o =>
      if obs_closed o then Panic (ErrNew "close of closed channel")
      else Ret (mkSignal (sig_state s) (sig_waiters s) (sig_observers s) (sig_allowed s)
                  (<[i := mkObserver (obs_c o) (obs_c_closed o) true]> (sig_heap s))
                  (sig_chans s) (sig_next s))
  end.

(** The removal loop of [stop].  The [range] clause evaluates the slice once, so the loop visits
    [todo] indices from [idx] of the backing array [arr], which the body shifts in place; [n] is
    the current length of the slice. *)
Fixpoint remove_loop (i : nat) (todo idx : nat) (arr : list (option nat)) (n : nat)
  : outcome (list (option nat) * nat) :=
  match todo with
  | O => Ret (arr, n)
  | S todo =>
      match arr !! idx with
      | Some (Some j) =>
          if decide (j = i) then
            if decide (n < S idx)%nat then Panic (ErrNew "slice bounds out of range")
            else
              let arr := take idx arr ++ take (n - S idx) (drop (S idx) arr) ++ drop (n - 1) arr in
              remove_loop i todo (S idx) (<[(n - 1)%nat := None]> arr) (n - 1)
          else remove_loop i todo (S idx) arr n
      | _ => remove_loop i todo (S idx) arr n
      end
  end.

(** Second half of [stop], under the mutex. *)
Definition stop_remove (i : nat) (s : Signal) : outcome Signal :=
  let n := length (sig_observers s) in
  '(arr, n') ← remove_loop i n 0 (sig_observers s) n;
  match sig_heap s !! i with
  | None => Panic (ErrNew "nil pointer dereference")
  | Some o =>
      if obs_c_closed o then Panic (ErrNew "close of closed channel")
      else Ret (mkSignal (sig_state s) (sig_waiters s) (take n' arr) (sig_allowed s)
                  (<[i := mkObserver (obs_c o) true (obs_closed o)]> (sig_heap s))
                  (sig_chans s) (sig_next s))
  end.

Definition observer_Stop (i : nat) (s : Signal) : outcome Signal :=
  s ← stop_close i s; stop_remove i s.

(** ** Operations as an interleaving

    The calls of any number of goroutines on one signal, in the order the mutex serialises them;
    [stop] is two calls because it closes [observer.closed] before it takes the mutex. *)
Inductive signal_op : Type :=
| OpSetState (pick : nat -> bool) (st : Z)
| OpWait (min : bool) (st : Z)
| OpObserve
| OpRecv (i : nat)
| OpStopClose (i : nat)
| OpStopRemove (i : nat).

Definition signal_exec (op : signal_op) (s : Signal) : outcome Signal :=
  match op with
  | OpSetState pick st => Signal_SetState pick st s
  | OpWait true st => p ← WaitForStateMin st s; Ret p.2
  | OpWait false st => p ← WaitForState st s; Ret p.2
  | OpObserve => p ← ObserveStateChange s; Ret p.2
  | OpRecv i => p ← observer_recv i s; Ret p.2
  | OpStopClose i => stop_close i s
  | OpStopRemove i => stop_remove i s
  end.

Fixpoint signal_execs (ops : list signal_op) (s : Signal) : outcome Signal :=
  match ops with
  | [] => Ret s
  | op :: ops => s ← signal_exec op s; signal_execs ops s
  end.

(** The states that [SetState] was called with. *)
Definition op_states (ops : list signal_op) : list Z :=
  omap (fun op => match op with OpSetState _ st => Some st | _ => None end) ops.

(** ** The invariant *)

(** Every waiter still registered has a channel of its own that is open, and is not satisfied by
    the current state; every registered observer exists, is registered once and has an open
    channel with at most one buffered state. *)
Record signal_wf (s : Signal) : Prop := {
  wf_nodup : NoDup (w_done <$> sig_waiters s);
  wf_open : forall w, w ∈ sig_waiters s -> (w_done w ∉ sig_chans s) /\ (w_done w < sig_next s)%nat;
  wf_chans : forall c, c ∈ sig_chans s -> (c < sig_next s)%nat;
  wf_unsat : forall w, w ∈ sig_waiters s -> satisfied (sig_state s) w = false;
  wf_obs_nodup : NoDup (sig_observers s);
  wf_obs : forall x, x ∈ sig_observers s ->
    exists i o, x = Some i /\ sig_heap s !! i = Some o /\ obs_c_closed o = false;
  wf_heap : forall i o, sig_heap s !! i = Some o ->
    (i < sig_next s)%nat /\ (length (obs_c o) <= 1)%nat
}.

(** ** Lemmas *)

Lemma close_chan_ok c closed : c ∉ closed -> close_chan c closed = Ret ({[c]} ∪ closed).
Proof. intros H. unfold close_chan. by rewrite decide_False. Qed.

Lemma release_waiters_ok st ws closed :
  NoDup (w_done <$> ws) -> (forall w, w ∈ ws -> w_done w ∉ closed) ->
  release_waiters st ws closed =
    Ret (filter (fun w => satisfied st w = false) ws,
         list_to_set (w_done <$> filter (fun w => satisfied st w = true) ws) ∪ closed).
Proof.
  revert closed. induction ws as [|w ws IH]; intros closed Hnd Hopen.
  { simpl. f_equal. f_equal. set_solver. }
  rewrite fmap_cons in Hnd. apply NoDup_cons in Hnd as [Hw Hnd].
  cbn [release_waiters]. rewrite !filter_cons.
  destruct (satisfied st w) eqn:E; simpl.
  - rewrite close_chan_ok by (apply Hopen; left). simpl.
    rewrite IH; [|done|].
    + f_equal. f_equal. simpl. set_solver.
    + intros w' Hw'. apply not_elem_of_union. split; [|apply Hopen; by right].
      rewrite elem_of_singleton. intros Heq. apply Hw. rewrite <- Heq.
      by apply list_elem_of_fmap_2.
  - rewrite IH; [done|done|]. intros w' Hw'. apply Hopen. by right.
Qed.

Lemma observer_notify_cases pick st o :
  obs_c_closed o = false -> (length (obs_c o) <= 1)%nat ->
  (exists o', observer_notify pick st o = Ret o' /\ obs_c_closed o' = false /\
     (length (obs_c o') <= 1)%nat /\ obs_closed o' = obs_closed o /\
     (obs_closed o = false -> obs_c o = [] /\ obs_c o' = [st])) \/
  (observer_notify pick st o = Blocked /\ obs_closed o = false /\ obs_c o <> []).
Proof.
  intros Hc Hl. unfold observer_notify. rewrite Hc. simpl.
  destruct (obs_c o) as [|x [|y l]] eqn:E; simpl in *; [| |lia].
  - left. destruct (obs_closed o) eqn:Hcl; [destruct pick|]; simpl.
    + exists o. rewrite E, Hcl. split_and!; simpl; done || lia.
    + eexists. split_and!; [done|..]; simpl; done || lia.
    + eexists. split_and!; [done|..]; simpl; done || lia.
  - destruct (obs_closed o) eqn:Hcl; simpl; [left|by right].
    exists o. rewrite E, Hcl. split_and!; simpl; done || lia.
Qed.

(** Notifying the registered observers never panics; it either stores the state in every buffer or
    blocks on an observer that is neither stopped nor read. *)
Lemma notify_observers_cases pick st l h :
  NoDup l ->
  (forall x, x ∈ l -> exists i o, x = Some i /\ h !! i = Some o /\ obs_c_closed o = false) ->
  (forall i o, h !! i = Some o -> (length (obs_c o) <= 1)%nat) ->
  (exists h', notify_observers pick st l h = Ret h' /\
     (forall i o, h !! i = Some o -> exists o', h' !! i = Some o' /\
        obs_c_closed o' = obs_c_closed o /\ obs_closed o' = obs_closed o /\
        (length (obs_c o') <= 1)%nat /\
        (Some i ∈ l -> obs_closed o = false -> obs_c o = [] /\ obs_c o' = [st]) /\
        (Some i ∉ l -> o' = o)) /\
     (forall i, h !! i = None -> h' !! i = None)) \/
  (notify_observers pick st l h = Blocked /\
     exists i o, Some i ∈ l /\ h !! i = Some o /\ obs_closed o = false /\ obs_c o <> []).
Proof.
  revert h. induction l as [|x l IH]; intros h Hnd Hreg Hlen.
  { left. exists h. split; [done|]. split; [|done].
    intros i o Hi. exists o. split_and!; eauto; set_solver. }
  apply NoDup_cons in Hnd as [Hx Hnd].
  destruct (Hreg x) as (i & o & -> & Hi & Hc); [by left|].
  cbn [notify_observers]. rewrite Hi.
  destruct (observer_notify_cases (pick i) st o Hc (Hlen _ _ Hi))
    as [(o' & -> & Hc' & Hl' & Hcl' & Hst)|(-> & Hcl & Hne)]; simpl.
  2:{ right. split; [done|]. exists i, o. split_and!; try done. by left. }
  destruct (IH (<[i:=o']> h)) as [(h' & -> & Hh' & Hno)|(-> & j & oj & Hj & Hjh & Hjc & Hje)].
  - done.
  - intros x' Hx'. destruct (Hreg x') as (j & oj & -> & Hj & Hjc); [by right|].
    exists j, oj. rewrite lookup_insert_ne by congruence. done.
  - intros j oj. rewrite lookup_insert. case_decide; [naive_solver|apply Hlen].
  - left. exists h'. split; [done|]. split.
    + intros j oj Hj. destruct (decide (i = j)) as [->|Hij].
      * simplify_eq. destruct (Hh' j o') as (o'' & Hj' & ? & ? & ? & ? & Heq); [by simplify_map_eq|].
        rewrite (Heq Hx) in *. exists o'. split_and!; try congruence; [by intros; apply Hst|].
        set_solver.
      * destruct (Hh' j oj) as (o'' & Hj' & ? & ? & ? & ? & Heq); [by simplify_map_eq|].
        exists o''. split_and!; try done; set_solver.
    + intros j Hj. apply Hno. rewrite lookup_insert_ne; congruence.
  - right. split; [done|]. exists j, oj. rewrite lookup_insert_ne in Hjh; [set_solver|congruence].
Qed.

(** ** The invariant is preserved *)

Ltac wf_split := constructor; simpl; [..|intros].

Lemma NewSignal_wf states : signal_wf (NewSignal states).
Proof. constructor; simpl; try set_solver; try constructor; by rewrite lookup_empty in *. Qed.

Lemma SetState_wf pick st s s' :
  signal_wf s -> Signal_SetState pick st s = Ret s' ->
  signal_wf s' /\ sig_state s' = st /\
  sig_waiters s' = filter (fun w => satisfied st w = false) (sig_waiters s) /\
  (forall c, c ∈ sig_chans s' <->
     c ∈ sig_chans s \/ (exists w, w ∈ sig_waiters s /\ w_done w = c /\ satisfied st w = true)).
Proof.
  intros W. unfold Signal_SetState.
  destruct (is_allowed s st); simpl; [|done].
  destruct (sig_state s =? st) eqn:Est.
  { apply Z.eqb_eq in Est. intros [= <-]. subst st. split_and!; try done.
    - symmetry. apply filter_id. apply W.
    - intros c. split; [by left|]. intros [?|(w & Hw & <- & Hs)]; [done|].
      by rewrite W.(wf_unsat s) in Hs. }
  rewrite release_waiters_ok by (apply W || (intros; by apply W.(wf_open s))). simpl.
  destruct (notify_observers_cases pick st (sig_observers s) (sig_heap s))
    as [(h' & -> & Hh' & Hno)|(-> & _)]; simpl; [apply W|apply W|by intros; eapply W.(wf_heap s)| |done].
  intros [= <-]. simpl.
  assert (forall c, c ∈ list_to_set (w_done <$> filter (fun w => satisfied st w = true) (sig_waiters s))
                        ∪ sig_chans s <->
          c ∈ sig_chans s \/ (exists w, w ∈ sig_waiters s /\ w_done w = c /\ satisfied st w = true)) as Hch.
  { intros c. rewrite elem_of_union, elem_of_list_to_set, list_elem_of_fmap.
    setoid_rewrite list_elem_of_filter. naive_solver. }
  split_and!; try done. constructor; simpl.
  - apply NoDup_fmap_filter, W.
  - intros w [Hs Hw]%list_elem_of_filter. split; [|by apply W]. rewrite Hch.
    intros [?|(w' & Hw' & Heq & Hs')]; [by eapply W.(wf_open s)|].
    assert (w' = w) as ->; [|congruence].
    eapply (NoDup_fmap_inj w_done); [apply W|done..].
  - intros c [?|(w & Hw & <- & _)]%Hch; by apply W.
  - by intros w [? _]%list_elem_of_filter.
  - apply W.
  - intros x Hx. destruct (W.(wf_obs s) x Hx) as (i & o & -> & Hi & Hc).
    destruct (Hh' i o Hi) as (o' & ? & ? & _). exists i, o'. split_and!; congruence.
  - intros i o' Hi'. destruct (sig_heap s !! i) as [o|] eqn:Hi.
    + destruct (Hh' i o Hi) as (o'' & ? & ? & ? & ? & _). simplify_eq.
      split; [by eapply W.(wf_heap s)|done].
    + rewrite Hno in Hi' by done. done.
Qed.

(** Without observers an allowed state change always returns. *)
Lemma SetState_quiet pick st s :
  signal_wf s -> sig_observers s = [] -> is_allowed s st = true ->
  exists s', Signal_SetState pick st s = Ret s' /\ signal_wf s' /\ sig_observers s' = [] /\
    sig_allowed s' = sig_allowed s /\ sig_state s' = st.
Proof.
  intros W Hobs Ha.
  assert (exists s', Signal_SetState pick st s = Ret s' /\ sig_observers s' = [] /\
            sig_allowed s' = sig_allowed s) as (s' & Hs' & Ho' & Ha').
  { unfold Signal_SetState. rewrite Ha. simpl. destruct (sig_state s =? st); [by exists s|].
    rewrite release_waiters_ok by (apply W || (intros; by apply (wf_open s W))). simpl.
    rewrite Hobs. simpl. eexists. done. }
  destruct (SetState_wf pick st s s' W Hs') as (W' & Hst' & _). by exists s'.
Qed.

(** Registering a waiter: it is released at once when the current state satisfies it. *)
Lemma wait_wf min st s s' :
  signal_wf s -> signal_exec (OpWait min st) s = Ret s' ->
  let w := mkWaiter (sig_next s) st min in
  signal_wf s' /\ sig_state s' = sig_state s /\ sig_next s' = S (sig_next s) /\
  sig_chans s ⊆ sig_chans s' /\ sig_waiters s ⊆ sig_waiters s' /\
  (if satisfied (sig_state s) w then w_done w ∈ sig_chans s' else w ∈ sig_waiters s').
Proof.
  intros W Hex w.
  assert (waitForWaiter st w (fresh_chan s).2 = Ret (sig_next s, s')) as Hw.
  { destruct min; simpl in Hex |- *; unfold WaitForState, WaitForStateMin in Hex; simpl in Hex;
      destruct (waitForWaiter _ _ _) as [[c s'']| |] eqn:E; simplify_eq/=;
      unfold waitForWaiter in E |- *; simpl in *; destruct ((_ =? _) || _);
      unfold close_chan in *; repeat case_decide; by simplify_eq/=. }
  clear Hex. unfold waitForWaiter in Hw. simpl in Hw.
  assert ((st =? sig_state s) || (min && (st <=? sig_state s)) = satisfied (sig_state s) w) as Heq
    by done.
  assert (sig_next s ∉ sig_chans s) as Hfresh by (intros ?%(wf_chans s W); lia).
  rewrite Heq in Hw. destruct (satisfied (sig_state s) w) eqn:Hs.
  - rewrite close_chan_ok in Hw by done. simplify_eq/=. split_and!; try done; [|set_solver..].
    destruct W. constructor; simpl; try done.
    + intros w' Hw'. destruct (wf_open0 w' Hw'). split; [set_solver by lia|lia].
    + intros c. rewrite elem_of_union, elem_of_singleton. intros [->|Hc]; [lia|]. apply wf_chans0 in Hc. lia.
    + intros i o Hi%wf_heap0. lia.
  - simplify_eq/=. split_and!; try done; [|set_solver..].
    destruct W. constructor; simpl; try done.
    + rewrite fmap_app, NoDup_app. split_and!; [done| |apply NoDup_singleton].
      intros c (w' & Hcw & Hw')%list_elem_of_fmap Hc. apply list_elem_of_singleton in Hc.
      subst. simpl in *. destruct (wf_open0 w' Hw'). lia.
    + intros w' [Hw'|Hw'%list_elem_of_singleton]%elem_of_app; [|subst w'; simpl; split; [done|lia]].
      destruct (wf_open0 w' Hw'). split; [done|lia].
    + intros c Hc%wf_chans0. lia.
    + intros w' [Hw'|Hw'%list_elem_of_singleton]%elem_of_app; [by apply wf_unsat0|by subst w'].
    + intros i o Hi%wf_heap0. lia.
Qed.

(** Changing the heap entry of one observer, without reopening or overfilling it. *)
Lemma heap_wf s obs i o o' :
  signal_wf s -> sig_heap s !! i = Some o -> (length (obs_c o') <= 1)%nat ->
  sublist obs (sig_observers s) -> (Some i ∈ obs -> obs_c_closed o' = false) ->
  signal_wf (mkSignal (sig_state s) (sig_waiters s) obs (sig_allowed s)
               (<[i := o']> (sig_heap s)) (sig_chans s) (sig_next s)).
Proof.
  intros W Hi Hl Hsub Hc. destruct W. constructor; simpl; try done.
  - eapply sublist_NoDup; done.
  - intros x Hx. destruct (wf_obs0 x) as (j & oj & -> & Hj & Hjc).
    { by eapply elem_of_sublist. }
    destruct (decide (i = j)) as [<-|].
    + exists i, o'. rewrite lookup_insert_eq. auto.
    + exists j, oj. by rewrite lookup_insert_ne.
  - intros j oj. rewrite lookup_insert. case_decide as Hij; [|apply wf_heap0].
    intros [= <-]. subst. split; [by eapply wf_heap0|done].
Qed.

Lemma observe_wf s s' :
  signal_wf s -> signal_exec OpObserve s = Ret s' ->
  signal_wf s' /\ sig_state s' = sig_state s /\ sig_chans s' = sig_chans s /\
  sig_waiters s' = sig_waiters s.
Proof.
  intros W. simpl. unfold ObserveStateChange. simpl. intros [= <-]. simpl.
  split_and!; try done. destruct W. constructor; simpl; try done.
  - intros w Hw. destruct (wf_open0 w Hw). split; [done|lia].
  - intros c Hc%wf_chans0. lia.
  - apply NoDup_app. split_and!; [done| |apply NoDup_singleton].
    intros x Hx Hx'. apply list_elem_of_singleton in Hx'. subst x.
    destruct (wf_obs0 _ Hx) as (i & o & ? & Hi & _). simplify_eq.
    apply wf_heap0 in Hi. lia.
  - intros x [Hx|Hx]%elem_of_app; [|apply list_elem_of_singleton in Hx; subst x].
    + destruct (wf_obs0 x Hx) as (i & o & -> & Hi & Hc). exists i, o.
      rewrite lookup_insert_ne; [done|]. intros <-. apply wf_heap0 in Hi. lia.
    + eexists _, _. by rewrite lookup_insert_eq.
  - intros i o. rewrite lookup_insert. case_decide; [|intros Hi; apply wf_heap0 in Hi; lia].
    intros [= <-]. subst. simpl. lia.
Qed.

(** The in-place removal of [stop] is the removal of one element. *)
Lemma remove_loop_absent i todo idx arr n :
  Some i ∉ drop idx arr -> remove_loop i todo idx arr n = Ret (arr, n).
Proof.
  revert idx. induction todo as [|todo IH]; intros idx H; simpl; [done|].
  assert (Some i ∉ drop (S idx) arr) as H'.
  { intros Hin. apply H. apply list_elem_of_lookup in Hin as [k Hk]. rewrite lookup_drop in Hk.
    apply list_elem_of_lookup. exists (S k). rewrite lookup_drop. rewrite <- Hk. f_equal. lia. }
  destruct (arr !! idx) as [[j|]|] eqn:E; [|by apply IH..].
  rewrite decide_False; [by apply IH|]. intros ->. apply H.
  apply list_elem_of_lookup. exists 0%nat. by rewrite lookup_drop, Nat.add_0_r.
Qed.

Lemma remove_loop_present i pre l1 l2 :
  Some i ∉ l1 -> Some i ∉ l2 ->
  let arr := pre ++ l1 ++ Some i :: l2 in
  remove_loop i (length l1 + S (length l2)) (length pre) arr (length arr) =
    Ret (pre ++ l1 ++ l2 ++ [None], (length arr - 1)%nat).
Proof.
  revert pre. induction l1 as [|x l1 IH]; intros pre H1 H2; simpl.
  - rewrite list_lookup_middle by done. rewrite decide_True by done.
    rewrite length_app. simpl. rewrite decide_False by lia.
    rewrite take_app_length, drop_app_ge by lia.
    replace (S (length pre) - length pre)%nat with 1%nat by lia. simpl.
    replace (length pre + S (length l2) - S (length pre))%nat with (length l2) by lia.
    replace (length pre + S (length l2) - 1)%nat with (length pre + length l2)%nat by lia.
    rewrite firstn_all, drop_0.
    assert (exists y, drop (length pre + length l2) (pre ++ Some i :: l2) = [y]) as [y ->].
    { pose proof (length_drop (pre ++ Some i :: l2) (length pre + length l2)) as Hl.
      rewrite length_app in Hl. simpl in Hl.
      destruct (drop _ _) as [|y [|]]; simpl in Hl; [lia|eauto|lia]. }
    rewrite app_assoc, insert_app_r_alt by (rewrite length_app; lia).
    rewrite length_app, Nat.sub_diag. simpl. rewrite <- app_assoc.
    rewrite remove_loop_absent; [done|].
    replace (S (length pre)) with (length pre + 1)%nat by lia. rewrite drop_app_add.
    intros Hin. apply (elem_of_sublist _ (l2 ++ [None])) in Hin; [|apply sublist_drop].
    apply elem_of_app in Hin as [?|Hin%list_elem_of_singleton]; done.
  - apply not_elem_of_cons in H1 as [Hx H1].
    rewrite list_lookup_middle by done. specialize (IH (pre ++ [x]) H1 H2).
    rewrite <- !app_assoc in IH. simpl in IH. rewrite length_app, Nat.add_1_r in IH.
    destruct x as [j|]; [rewrite decide_False by congruence|]; done.
Qed.

Lemma remove_loop_filter i l :
  NoDup l ->
  exists arr n, remove_loop i (length l) 0 l (length l) = Ret (arr, n) /\
    take n arr = filter (fun x => x <> Some i) l.
Proof.
  intros Hnd. destruct (decide (Some i ∈ l)) as [Hin|Hnin].
  - apply list_elem_of_split in Hin as (l1 & l2 & ->).
    apply NoDup_app in Hnd as (_ & Hd & Hnd2). apply NoDup_cons in Hnd2 as [Hi2 _].
    assert (Some i ∉ l1) as Hi1 by (intros H; apply (Hd _ H); left).
    pose proof (remove_loop_present i [] l1 l2 Hi1 Hi2) as Hr. simpl in Hr.
    rewrite length_app in Hr |- *. simpl in Hr |- *. rewrite Hr. do 2 eexists. split; [done|].
    rewrite filter_app, filter_cons_False, !filter_id by naive_solver.
    rewrite app_assoc, take_app_le by (rewrite length_app; lia).
    rewrite <- (firstn_all (l1 ++ l2)) at 2. f_equal. rewrite length_app. lia.
  - exists l, (length l). rewrite remove_loop_absent by done. split; [done|].
    rewrite firstn_all, filter_id; [done|]. congruence.
Qed.

Lemma stop_remove_wf i s s' :
  signal_wf s -> stop_remove i s = Ret s' ->
  signal_wf s' /\ sig_state s' = sig_state s /\ sig_chans s' = sig_chans s /\
  sig_waiters s' = sig_waiters s /\
  sig_observers s' = filter (fun x => x <> Some i) (sig_observers s).
Proof.
  intros W. unfold stop_remove.
  destruct (remove_loop_filter i (sig_observers s)) as (arr & n & -> & Ht); [apply W|]. simpl.
  destruct (sig_heap s !! i) as [o|] eqn:Hi; [|done].
  destruct (obs_c_closed o); [done|]. intros [= <-]. simpl. rewrite Ht. split_and!; try done.
  eapply heap_wf; [done|done| | |].
  - simpl. apply (wf_heap s W i o Hi).
  - apply sublist_filter.
  - by intros [? _]%list_elem_of_filter.
Qed.

(** One step of the interleaving preserves the invariant, reopens no channel, and releases exactly
    the registered waiters that the new state satisfies. *)
Lemma exec_step op s s' :
  signal_wf s -> signal_exec op s = Ret s' ->
  signal_wf s' /\ sig_chans s ⊆ sig_chans s' /\
  forall w, w ∈ sig_waiters s ->
    match op with
    | OpSetState _ st => if satisfied st w then w_done w ∈ sig_chans s' else w ∈ sig_waiters s'
    | _ => w ∈ sig_waiters s'
    end.
Proof.
  intros W Hex. destruct op as [pick st|min st| |i|i|i].
  - apply SetState_wf in Hex as (W' & _ & Hw & Hc); [|done]. split_and!; [done|set_solver|].
    intros w Hin. destruct (satisfied st w) eqn:E; [naive_solver|].
    rewrite Hw. by apply list_elem_of_filter.
  - apply wait_wf in Hex as (W' & _ & _ & Hc & Hw & _); [|done]. split_and!; [done|done|].
    intros w Hin. by apply Hw.
  - apply observe_wf in Hex as (W' & _ & -> & ->); [|done]. done.
  - simpl in Hex. unfold observer_recv in Hex.
    destruct (sig_heap s !! i) as [o|] eqn:Hi; [|done].
    destruct (obs_c o) as [|x l] eqn:Ho; [destruct (obs_c_closed o); by simplify_eq/=|].
    simplify_eq/=. split_and!; try done.
    pose proof (wf_heap s W i o Hi) as [_ Hl]. rewrite Ho in Hl. simpl in Hl.
    eapply heap_wf; [done|done|simpl; lia|done|]. simpl.
    intros Hreg. destruct (wf_obs s W _ Hreg) as (j & oj & ? & ? & ?). congruence.
  - simpl in Hex. unfold stop_close in Hex.
    destruct (sig_heap s !! i) as [o|] eqn:Hi; [|done].
    destruct (obs_closed o); simplify_eq/=. split_and!; try done.
    eapply heap_wf; [done|done|apply (wf_heap s W i o Hi)|done|]. simpl.
    intros Hreg. destruct (wf_obs s W _ Hreg) as (j & oj & ? & ? & ?). congruence.
  - apply stop_remove_wf in Hex as (W' & _ & -> & -> & _); done.
Qed.

Lemma execs_step ops s s' :
  signal_wf s -> signal_execs ops s = Ret s' ->
  signal_wf s' /\ sig_chans s ⊆ sig_chans s' /\
  forall w, w ∈ sig_waiters s ->
    if existsb (fun st => satisfied st w) (op_states ops)
    then w_done w ∈ sig_chans s' else w ∈ sig_waiters s'.
Proof.
  revert s. induction ops as [|op ops IH]; intros s W Hex; simpl in Hex; [by simplify_eq|].
  destruct (signal_exec op s) as [s1| |] eqn:Hop; simplify_eq/=.
  destruct (exec_step op s s1 W Hop) as (W1 & Hc1 & Hw1).
  destruct (IH s1 W1 Hex) as (W' & Hc & Hw). split_and!; [done|set_solver|].
  intros w Hin. specialize (Hw1 w Hin).
  destruct op; simpl; try by apply Hw.
  destruct (satisfied st w); simpl; [by apply Hc|by apply Hw].
Qed.

(** ** Properties *)

(** C32. No lost and no spurious wake-up.  The channel that [WaitForState] or [WaitForStateMin]
    returns is closed after any interleaving of later operations if and only if the state at the
    time of the call, or one of the states set since, is the awaited state (or is at least the
    awaited state, for the [Min] variant). *)
Theorem wait_channel_closed_iff min st ops s s1 s2 :
  signal_wf s ->
  signal_exec (OpWait min st) s = Ret s1 ->
  signal_execs ops s1 = Ret s2 ->
  (sig_next s ∈ sig_chans s2 <->
   exists x, x ∈ sig_state s :: op_states ops /\ (x = st \/ (min = true /\ st <= x))).
Proof.
  intros W Hw Hex. destruct (wait_wf min st s s1 W Hw) as (W1 & _ & _ & _ & _ & Hin).
  destruct (execs_step ops s1 s2 W1 Hex) as (W2 & Hc & Hrel).
  set (w := mkWaiter (sig_next s) st min) in *.
  assert (forall x, satisfied x w = true <-> x = st \/ (min = true /\ st <= x)) as Hsat.
  { intros x. unfold satisfied. simpl. destruct min; simpl; lia. }
  setoid_rewrite <- Hsat. destruct (satisfied (sig_state s) w) eqn:E.
  { split; [|by intros _; apply Hc, Hin]. intros _. exists (sig_state s). split; [left|done]. }
  specialize (Hrel w Hin).
  destruct (existsb _ _) eqn:Hx.
  - split; [|by intros _]. intros _. apply existsb_exists in Hx as (x & Hx%list_elem_of_In & Hs).
    exists x. split; [by right|done].
  - split; [by intros ?%(wf_open s2 W2 w Hrel)|].
    intros (x & Hxin & Hs). apply elem_of_cons in Hxin as [->|Hxin]; [congruence|].
    assert (existsb (fun st => satisfied st w) (op_states ops) = true); [|congruence].
    apply existsb_exists. exists x. split; [by apply list_elem_of_In|done].
Qed.

Definition signal_demo : Signal := NewSignal [0; 1; 2].

Definition demo_ops : list signal_op :=
  [OpSetState (fun _ => false) 1; OpObserve; OpRecv 1; OpSetState (fun _ => true) 2].

Lemma wait_channel_closed_iff_witness :
  exists s1 s2, signal_exec (OpWait false 2) signal_demo = Ret s1 /\
    signal_execs demo_ops s1 = Ret s2 /\
    (sig_next signal_demo ∈ sig_chans s2 <->
     exists x, x ∈ sig_state signal_demo :: op_states demo_ops /\
        (x = 2 \/ (false = true /\ 2 <= x))).
Proof.
  eexists _, _. split; [vm_compute; reflexivity|]. split; [vm_compute; reflexivity|].
  eapply (wait_channel_closed_iff false 2); [apply NewSignal_wf|vm_compute; reflexivity..].
Defined.

(** The operations on a signal that are programming errors: an illegal state, an observer that does
    not exist, a second [Stop] of the same observer. *)
Definition misuse (op : signal_op) (s : Signal) : Prop :=
  match op with
  | OpSetState _ st => is_allowed s st = false
  | OpWait _ _ | OpObserve => False
  | OpRecv i => sig_heap s !! i = None
  | OpStopClose i => sig_heap s !! i = None \/ exists o, sig_heap s !! i = Some o /\ obs_closed o = true
  | OpStopRemove i => sig_heap s !! i = None \/ exists o, sig_heap s !! i = Some o /\ obs_c_closed o = true
  end.

(** C33. The only panics are misuse: in a well-formed signal no operation closes a channel twice,
    sends on a closed channel, follows a nil observer or indexes out of range, and every operation
    that returns leaves the signal well-formed. *)
Theorem signal_safe op s :
  signal_wf s ->
  match signal_exec op s with
  | Ret s' => signal_wf s'
  | Panic _ => misuse op s
  | Blocked => True
  end.
Proof.
  intros W. destruct (signal_exec op s) as [s'|e|] eqn:Hex; [by eapply exec_step| |done].
  destruct op as [pick st|min st| |i|i|i]; simpl in *.
  - unfold Signal_SetState in Hex. destruct (is_allowed s st); [|done]. simpl in Hex.
    destruct (sig_state s =? st); [done|].
    rewrite release_waiters_ok in Hex by (apply W || (intros; by apply W.(wf_open s))).
    simpl in Hex.
    destruct (notify_observers_cases pick st (sig_observers s) (sig_heap s))
      as [(h' & Hn & _)|(Hn & _)]; [apply W|apply W|by intros; eapply W.(wf_heap s)|..];
      by rewrite Hn in Hex.
  - assert (sig_next s ∉ sig_chans s) as Hf by (intros ?%(wf_chans s W); lia).
    destruct min; unfold WaitForState, WaitForStateMin, waitForWaiter in Hex; simpl in Hex;
      destruct (_ || _); simpl in Hex; try done; by rewrite close_chan_ok in Hex.
  - done.
  - unfold observer_recv in Hex. destruct (sig_heap s !! i) as [o|]; [|done].
    destruct (obs_c o); [destruct (obs_c_closed o)|]; done.
  - unfold stop_close in Hex. destruct (sig_heap s !! i) as [o|]; [|by left].
    destruct (obs_closed o) eqn:E; [|done]. right. eauto.
  - unfold stop_remove in Hex.
    destruct (remove_loop_filter i (sig_observers s)) as (arr & n & Hr & _); [apply W|].
    rewrite Hr in Hex. simpl in Hex. destruct (sig_heap s !! i) as [o|]; [|by left].
    destruct (obs_c_closed o) eqn:E; [|done]. right. eauto.
Qed.

Lemma signal_safe_witness :
  match signal_exec (OpSetState (fun _ => false) 2) signal_demo with
  | Ret s' => signal_wf s'
  | Panic _ => misuse (OpSetState (fun _ => false) 2) signal_demo
  | Blocked => True
  end.
Proof. apply (signal_safe (OpSetState (fun _ => false) 2)). apply NewSignal_wf. Defined.

(** A state change reaches every observer that is being read, and blocks exactly when some
    running observer has not been read: for an allowed new state, either [SetState] returns with
    the new state current and in the buffer of every observer that has not been stopped, or it
    blocks and an observer that has not been stopped still holds an unread state. *)
Theorem SetState_delivers pick st s :
  signal_wf s -> is_allowed s st = true -> sig_state s <> st ->
  (exists s', Signal_SetState pick st s = Ret s' /\ sig_state s' = st /\
     sig_observers s' = sig_observers s /\
     forall i o, Some i ∈ sig_observers s -> sig_heap s !! i = Some o -> obs_closed o = false ->
       obs_c o = [] /\ exists o', sig_heap s' !! i = Some o' /\ obs_c o' = [st]) \/
  (Signal_SetState pick st s = Blocked /\
     exists i o, Some i ∈ sig_observers s /\ sig_heap s !! i = Some o /\
       obs_closed o = false /\ obs_c o <> []).
Proof.
  intros W Ha Hne. unfold Signal_SetState. rewrite Ha. simpl.
  rewrite (proj2 (Z.eqb_neq _ _) Hne).
  rewrite release_waiters_ok by (apply W || (intros; by apply W.(wf_open s))). simpl.
  destruct (notify_observers_cases pick st (sig_observers s) (sig_heap s))
    as [(h' & -> & Hh' & _)|(-> & Hb)]; [apply W|apply W|by intros; eapply W.(wf_heap s)|..]; simpl.
  - left. eexists. split; [done|]. simpl. split_and!; [done|done|].
    intros i o Hin Hi Hcl. destruct (Hh' i o Hi) as (o' & Hi' & _ & _ & _ & Hst & _).
    destruct (Hst Hin Hcl) as [? ?]. eauto.
  - by right.
Qed.

Lemma SetState_delivers_witness :
  exists s', signal_exec OpObserve signal_demo = Ret s' /\
    Signal_SetState (fun _ => false) 1 s' = Blocked.
Proof.
  eexists. split; [vm_compute; reflexivity|].
  edestruct (SetState_delivers (fun _ => false) 1) as [(s' & Hs & _)|[Hb _]];
    [eapply observe_wf; [apply (NewSignal_wf [0;1;2])|vm_compute; reflexivity]
    |vm_compute; reflexivity|vm_compute; discriminate| |exact Hb].
  vm_compute in Hs. discriminate Hs.
Defined.

(** [Stop] removes its own observer and nothing else: the in-place shifting loop leaves the
    other observers registered in their order, the stopped observer can no longer block a state
    change, and its channel is closed. *)
Theorem Stop_removes i s s' :
  signal_wf s -> observer_Stop i s = Ret s' ->
  sig_observers s' = filter (fun x => x <> Some i) (sig_observers s) /\
  sig_state s' = sig_state s /\
  (exists o, sig_heap s' !! i = Some o /\ obs_c_closed o = true /\ obs_closed o = true) /\
  (forall j, j <> i -> sig_heap s' !! j = sig_heap s !! j).
Proof.
  intros W. unfold observer_Stop. destruct (stop_close i s) as [s1| |] eqn:Hc; simpl; try done.
  intros Hr. assert (signal_wf s1) as W1 by (eapply (exec_step (OpStopClose i)); eauto).
  pose proof (stop_remove_wf i s1 s' W1 Hr) as (_ & Hst & _ & _ & Ho).
  unfold stop_close in Hc. destruct (sig_heap s !! i) as [o|] eqn:Hi; [|done].
  destruct (obs_closed o); simplify_eq/=. split_and!; try done.
  - unfold stop_remove in Hr. simpl in Hr. rewrite lookup_insert_eq in Hr.
    destruct (remove_loop _ _ _ _ _) as [[arr n]| |]; simpl in Hr; try done.
    destruct (obs_c_closed o); simplify_eq/=. rewrite insert_insert_eq, lookup_insert_eq. eauto.
  - intros j Hj. unfold stop_remove in Hr. simpl in Hr. rewrite lookup_insert_eq in Hr.
    destruct (remove_loop _ _ _ _ _) as [[arr n]| |]; simpl in Hr; try done.
    destruct (obs_c_closed o); simplify_eq/=. by rewrite insert_insert_eq, lookup_insert_ne.
Qed.

Definition signal_demo2 : Signal :=
  match signal_execs [OpObserve; OpObserve; OpObserve] signal_demo with Ret s => s | _ => signal_demo end.

Lemma signal_demo2_wf : signal_wf signal_demo2.
Proof.
  unfold signal_demo2. destruct (signal_execs _ _) eqn:E; try apply NewSignal_wf.
  eapply execs_step; [apply (NewSignal_wf [0;1;2])|exact E].
Qed.

Lemma Stop_removes_witness :
  exists s', observer_Stop 1 signal_demo2 = Ret s' /\
    sig_observers s' = filter (fun x => x <> Some 1%nat) (sig_observers signal_demo2).
Proof.
  eexists. split; [vm_compute; reflexivity|].
  eapply (Stop_removes 1); [apply signal_demo2_wf|vm_compute; reflexivity].
Defined.
