(* ===== verification/Codec.v ===== *)
(** * Codecs

    [codec.go] and [codec/codec.go], with the two functions of [strconv] that the codecs and the
    offset storage rely on.  A codec turns an [interface{}] into bytes and back. *)
From Stdlib Require Import ZArith Lia Ascii.
From stdpp Require Import base gmap strings list.
From S2P Require Import Prelude.
Open Scope Z_scope.

(** ** Data *)

(** The dynamic values that occur: [nil], the types the bundled codecs test for, and values of
    other types, which they reject: the name of the type and the value, as a number (a countable type
    gives one to each of its elements). *)
Inductive value : Type :=
| VNil
| VBytes (b : bytes)
| VString (s : string)
| VInt64 (z : Z)
| VOther (ty : string) (n : positive).

(** [type Codec interface]. *)
Record Codec : Type := mkCodec {
  Encode : value -> res bytes;
  Decode : bytes -> res value
}.

(** ** strconv *)

Definition digit_char (d : Z) : ascii := ascii_of_nat (48 + Z.to_nat d).

Definition char_digit (c : ascii) : option Z :=
  let n := Z.of_nat (nat_of_ascii c) in
  if (48 <=? n) && (n <=? 57) then Some (n - 48) else None.

(** The decimal digits of [n], most significant first, in front of [acc]. *)
Fixpoint format_digits (fuel : nat) (n : Z) (acc : string) : string :=
  match fuel with
  | O => acc
  | S fuel =>
      let acc := String (digit_char (n mod 10)) acc in
      if n <? 10 then acc else format_digits fuel (n / 10) acc
  end.

(** [strconv.FormatInt(z, 10)]; an int64 has at most 19 digits. *)
Definition FormatInt (z : Z) : string :=
  if z <? 0 then String "-"%char (format_digits 20 (- z) EmptyString)
  else format_digits 20 z EmptyString.

Definition ErrSyntax : error := ErrNew "invalid syntax".
Definition ErrRange : error := ErrNew "value out of range".

Definition maxUint64 : Z := 2 ^ 64 - 1.

(** The digit loop of [strconv.ParseUint(s, 10, 64)]; [None] stands for [ErrRange]. *)
Fixpoint parse_uint (s : string) (n : Z) : res (option Z) :=
  match s with
  | EmptyString => Ok (Some n)
  | String c s =>
      match char_digit c with
      | None => Err ErrSyntax
      | Some d =>
          if maxUint64 / 10 + 1 <=? n then Ok None
          else
            let n10 := n * 10 in
            let n1 := (n10 + d) mod 2 ^ 64 in
            if (n1 <? n10) || (maxUint64 <? n1) then Ok None else parse_uint s n1
      end
  end.

Definition ParseUint (s : string) : res (option Z) :=
  match s with EmptyString => Err ErrSyntax | _ => parse_uint s 0 end.

(** [strconv.ParseInt(s, 10, 64)]. *)
Definition ParseInt (s : string) : res Z :=
  let go (neg : bool) (digits : string) : res Z :=
    un ← ParseUint digits;
    match un with
    | None => Err ErrRange
    | Some un =>
        if negb neg && (2 ^ 63 <=? un) then Err ErrRange
        else if neg && (2 ^ 63 <? un) then Err ErrRange
        else let n := int64 un in Ok (if neg then int64 (- n) else n)
    end in
  match s with
  | EmptyString => Err ErrSyntax
  | String c rest =>
      if Ascii.eqb c "+"%char then go false rest
      else if Ascii.eqb c "-"%char then go true rest
      else go false s
  end.

(** ** The codecs *)

Definition Bytes_Encode (v : value) : res bytes :=
  match v with
  | VBytes b => Ok b
  | _ => Err (ErrNew "DefaultCodec: value to encode is not of type []byte")
  end.

Definition Bytes_Decode (data : bytes) : res value := Ok (VBytes data).

Definition String_Encode (v : value) : res bytes :=
  match v with
  | VString s => Ok (Some s)
  | _ => Err (ErrNew "String: value to encode is not of type string")
  end.

Definition String_Decode (data : bytes) : res value := Ok (VString (string_of_bytes data)).

Definition Int64_Encode (v : value) : res bytes :=
  match v with
  | VInt64 z => Ok (Some (FormatInt z))
  | _ => Err (ErrNew "Int64: value to encode is not of type int64")
  end.

Definition Int64_Decode (data : bytes) : res value :=
  match ParseInt (string_of_bytes data) with
  | Ok z => Ok (VInt64 z)
  | Err e => Err (ErrWrap "Error parsing data from string" e)
  end.

Definition BytesCodec : Codec := mkCodec Bytes_Encode Bytes_Decode.
Definition StringCodec : Codec := mkCodec String_Encode String_Decode.
Definition Int64Codec : Codec := mkCodec Int64_Encode Int64_Decode.

(** ** Lemmas *)

Lemma char_digit_char d : 0 <= d < 10 -> char_digit (digit_char d) = Some d.
Proof.
  intros H. unfold char_digit, digit_char.
  rewrite nat_ascii_embedding by lia.
  replace (Z.of_nat (48 + Z.to_nat d)) with (48 + d) by lia.
  rewrite (proj2 (Z.leb_le _ _)), (proj2 (Z.leb_le _ _)) by lia. simpl. f_equal. lia.
Qed.

(** Reading the digits back yields the number, for every number a [uint64] can hold. *)
Lemma parse_format_digits fuel n acc :
  0 <= n <= maxUint64 -> n < 10 ^ Z.of_nat fuel ->
  parse_uint (format_digits fuel n acc) 0 = parse_uint acc n.
Proof.
  unfold maxUint64.
  revert n acc. induction fuel as [|fuel IH]; intros n acc Hn Hf; [simpl in Hf; f_equal; lia|].
  assert (0 <= n mod 10 < 10) as Hd by (apply Z.mod_pos_bound; lia).
  pose proof (Z.div_mod n 10) as Hdm.
  assert (parse_uint (String (digit_char (n mod 10)) acc) (n / 10) = parse_uint acc n) as Hstep.
  { cbn [parse_uint]. rewrite char_digit_char by done. unfold maxUint64.
    assert (n / 10 < (2 ^ 64 - 1) / 10 + 1) by (apply Z.lt_succ_r, Z.div_le_mono; lia).
    rewrite (proj2 (Z.leb_gt _ _)) by lia.
    replace (n / 10 * 10 + n mod 10) with n by lia. rewrite Z.mod_small by lia.
    rewrite (proj2 (Z.ltb_ge _ _)), (proj2 (Z.ltb_ge _ _)) by lia. done. }
  cbn [format_digits]. destruct (n <? 10) eqn:E; simp_bool.
  - rewrite <- Hstep. f_equal. rewrite Z.div_small; lia.
  - rewrite IH; [exact Hstep|split; [apply Z.div_pos; lia|]|].
    + etransitivity; [apply (Z.div_le_upper_bound _ _ n)|]; lia.
    + apply Z.div_lt_upper_bound; [lia|].
      rewrite Nat2Z.inj_succ, Z.pow_succ_r in Hf by lia. lia.
Qed.

Lemma format_digits_head fuel n acc :
  exists d rest, 0 <= d < 10 /\ format_digits (S fuel) n acc = String (digit_char d) rest.
Proof.
  revert n acc. induction fuel as [|fuel IH]; intros n acc;
    assert (0 <= n mod 10 < 10) as Hd by (apply Z.mod_pos_bound; lia);
    cbn [format_digits].
  - destruct (n <? 10); eauto.
  - destruct (n <? 10); [eauto|]. apply IH.
Qed.

Lemma digit_char_not_sign d :
  0 <= d < 10 ->
  Ascii.eqb (digit_char d) "+"%char = false /\ Ascii.eqb (digit_char d) "-"%char = false.
Proof.
  intros H.
  assert (d = 0 \/ d = 1 \/ d = 2 \/ d = 3 \/ d = 4 \/ d = 5 \/ d = 6 \/ d = 7 \/ d = 8 \/ d = 9)
    as Hc by lia.
  destruct_or? Hc; subst d; done.
Qed.

Lemma ParseInt_unsigned c rest n :
  Ascii.eqb c "+"%char = false -> Ascii.eqb c "-"%char = false ->
  ParseUint (String c rest) = Ok (Some n) -> 0 <= n < 2 ^ 63 ->
  ParseInt (String c rest) = Ok n.
Proof.
  intros E1 E2 HU Hn. unfold ParseInt. rewrite E1, E2, HU.
  cbn -[int64 Z.pow]. rewrite (proj2 (Z.leb_gt _ _)) by lia.
  f_equal. apply int64_id. unfold in_int64. lia.
Qed.

Lemma ParseInt_negative s n :
  ParseUint s = Ok (Some n) -> 0 <= n <= 2 ^ 63 -> ParseInt (String "-"%char s) = Ok (- n).
Proof.
  intros HU Hn. unfold ParseInt.
  change (Ascii.eqb "-"%char "+"%char) with false. change (Ascii.eqb "-"%char "-"%char) with true.
  cbv iota. rewrite HU. cbn -[int64 Z.pow]. rewrite (proj2 (Z.ltb_ge _ _)) by lia. f_equal.
  destruct (decide (n = 2 ^ 63)) as [->|]; [reflexivity|].
  rewrite (int64_id n) by (unfold in_int64; lia). apply int64_id. unfold in_int64. lia.
Qed.

Lemma ParseUint_format n : 0 <= n <= 2 ^ 63 -> ParseUint (format_digits 20 n "") = Ok (Some n).
Proof.
  intros Hn. destruct (format_digits_head 19 n "") as (d & rest & _ & E).
  assert (parse_uint (format_digits 20 n "") 0 = Ok (Some n)) as H.
  { rewrite parse_format_digits; [done|unfold maxUint64; lia|].
    replace (10 ^ Z.of_nat 20) with 100000000000000000000 by reflexivity. lia. }
  rewrite E in *. exact H.
Qed.

(** [ParseInt] inverts [FormatInt] on every int64. *)
Lemma ParseInt_FormatInt z : in_int64 z -> ParseInt (FormatInt z) = Ok z.
Proof.
  intros Hz. unfold in_int64 in Hz. unfold FormatInt. destruct (z <? 0) eqn:E; simp_bool.
  - rewrite (ParseInt_negative _ (- z)); [f_equal; lia|apply ParseUint_format; lia|lia].
  - pose proof (ParseUint_format z) as HU.
    destruct (format_digits_head 19 z "") as (d & rest & Hd & Ed). rewrite Ed in *.
    destruct (digit_char_not_sign d Hd). apply ParseInt_unsigned; [done|done|apply HU; lia|lia].
Qed.

(** The decimal form of a number has digits only, but for the sign, so a separator in front of it can be
    found again. *)
Fixpoint no_char (sep : ascii) (s : string) : bool :=
  match s with EmptyString => true | String c s => negb (Ascii.eqb c sep) && no_char sep s end.

Lemma digit_char_not_sep sep d : char_digit sep = None -> 0 <= d < 10 -> Ascii.eqb (digit_char d) sep = false.
Proof. intros Hs Hd. apply Ascii.eqb_neq. intros <-. by rewrite char_digit_char in Hs. Qed.

Lemma no_char_digits sep fuel n acc :
  char_digit sep = None -> no_char sep acc = true -> no_char sep (format_digits fuel n acc) = true.
Proof.
  intros Hs. revert n acc. induction fuel as [|fuel IH]; intros n acc Ha; [done|]. cbn [format_digits].
  assert (no_char sep (String (digit_char (n mod 10)) acc) = true) as Hd.
  { cbn [no_char]. rewrite Ha, digit_char_not_sep; [done|done|apply Z.mod_pos_bound; lia]. }
  destruct (n <? 10); [exact Hd|by apply IH].
Qed.

Lemma no_char_FormatInt sep z :
  char_digit sep = None -> 0 <= z \/ sep <> "-"%char -> no_char sep (FormatInt z) = true.
Proof.
  intros Hs Hz. unfold FormatInt. destruct (z <? 0) eqn:E; simp_bool; [|by apply no_char_digits].
  destruct Hz as [?|Hne]; [lia|]. cbn [no_char]. apply andb_true_iff. split; [|by apply no_char_digits].
  apply negb_true_iff, Ascii.eqb_neq. congruence.
Qed.

Lemma no_char_app sep s f : no_char sep (s +:+ String sep f) = false.
Proof.
  induction s as [|c s IH].
  - change (negb (Ascii.eqb sep sep) && no_char sep f = false). by rewrite Ascii.eqb_refl.
  - change (negb (Ascii.eqb c sep) && no_char sep (s +:+ String sep f) = false). rewrite IH. apply andb_false_r.
Qed.

Lemma sep_split sep s1 s2 f1 f2 :
  no_char sep f1 = true -> no_char sep f2 = true -> s1 +:+ String sep f1 = s2 +:+ String sep f2 -> s1 = s2 /\ f1 = f2.
Proof.
  intros H1 H2. revert s2. induction s1 as [|c s1 IH]; intros [|c' s2] E.
  - by injection E.
  - injection E as _ ->. by rewrite no_char_app in H1.
  - injection E as _ <-. by rewrite no_char_app in H2.
  - injection E as -> E. destruct (IH s2 E) as [-> ->]. done.
Qed.

Lemma FormatInt_inj a b : in_int64 a -> in_int64 b -> FormatInt a = FormatInt b -> a = b.
Proof. intros Ha Hb E. pose proof (ParseInt_FormatInt a Ha) as H. rewrite E, (ParseInt_FormatInt b Hb) in H. by injection H. Qed.

Lemma FormatInt_nonempty z : FormatInt z <> ""%string.
Proof.
  unfold FormatInt. destruct (z <? 0); [done|]. destruct (format_digits_head 19 z "") as (d & rest & _ & E). by rewrite E.
Qed.

(** The decimal form: a sign perhaps, and digits that begin with zero only for zero itself. *)
Fixpoint all_digits (s : string) : bool :=
  match s with EmptyString => true | String c s => bool_decide (is_Some (char_digit c)) && all_digits s end.

Lemma format_digits_shape fuel n acc :
  0 <= n < 10 ^ Z.of_nat (S fuel) -> all_digits acc = true ->
  exists d ds, format_digits (S fuel) n acc = String (digit_char d) ds /\ 0 <= d < 10 /\ all_digits ds = true /\
    (d = 0 -> n = 0 /\ ds = acc).
Proof.
  revert n acc. induction fuel as [|fuel IH]; intros n acc Hn Ha;
    assert (0 <= n mod 10 < 10) as Hd by (apply Z.mod_pos_bound; lia).
  - exists (n mod 10), acc. simpl in *. destruct (n <? 10) eqn:E; simp_bool; [|lia].
    split_and!; [done|lia|lia|done|]. rewrite Z.mod_small by lia. done.
  - change (exists d ds, (let acc := String (digit_char (n mod 10)) acc in
      if n <? 10 then acc else format_digits (S fuel) (n / 10) acc) = String (digit_char d) ds /\ 0 <= d < 10 /\
      all_digits ds = true /\ (d = 0 -> n = 0 /\ ds = acc)). cbv zeta. destruct (n <? 10) eqn:E; simp_bool.
    + exists (n mod 10), acc. split_and!; [done|lia|lia|done|]. rewrite Z.mod_small by lia. done.
    + destruct (IH (n / 10) (String (digit_char (n mod 10)) acc)) as (d & ds & -> & Hd' & Hds & H0).
      * rewrite Nat2Z.inj_succ, Z.pow_succ_r in Hn by lia. split; [apply Z.div_pos; lia|apply Z.div_lt_upper_bound; lia].
      * cbn [all_digits]. by rewrite char_digit_char, Ha.
      * exists d, ds. split_and!; [done|lia|lia|done|]. intros [H1 _]%H0.
        assert (10 / 10 <= n / 10) as H2 by (apply Z.div_le_mono; lia). rewrite H1 in H2. by vm_compute in H2.
Qed.

Lemma FormatInt_shape z :
  in_int64 z -> exists sign d ds, FormatInt z = sign +:+ String (digit_char d) ds /\ (sign = "" \/ sign = "-")%string /\
    0 <= d < 10 /\ all_digits ds = true /\ (d = 0 -> ds = ""%string).
Proof.
  intros Hz. unfold in_int64 in Hz. assert (10 ^ Z.of_nat 20 = 100000000000000000000) as E20 by reflexivity.
  unfold FormatInt. destruct (z <? 0) eqn:E; simp_bool.
  - destruct (format_digits_shape 19 (- z) "") as (d & ds & Hf & Hd & Hds & H0); [lia|done|].
    exists "-"%string, d, ds. rewrite Hf. split_and!; [done|by right|lia|lia|done|]. by intros [? ?]%H0.
  - destruct (format_digits_shape 19 z "") as (d & ds & Hf & Hd & Hds & H0); [lia|done|].
    exists ""%string, d, ds. rewrite Hf. split_and!; [done|by left|lia|lia|done|]. by intros [? ?]%H0.
Qed.

#[global] Opaque FormatInt ParseInt.

(** ** Properties *)

(** Round trip of the bundled codecs: decoding an encoded byte slice, string or int64 gives the
    value back, for every int64 including the smallest. *)
Theorem codec_roundtrip :
  (forall b, (Bytes_Encode (VBytes b) ≫= Bytes_Decode) = Ok (VBytes b)) /\
  (forall s, (String_Encode (VString s) ≫= String_Decode) = Ok (VString s)) /\
  (forall z, in_int64 z -> (Int64_Encode (VInt64 z) ≫= Int64_Decode) = Ok (VInt64 z)).
Proof.
  split_and!; [done|done|]. intros z Hz. simpl. unfold Int64_Decode. simpl.
  by rewrite ParseInt_FormatInt.
Qed.

Lemma codec_roundtrip_witness :
  (Int64_Encode (VInt64 (- 2 ^ 63)) ≫= Int64_Decode) = Ok (VInt64 (- 2 ^ 63)).
Proof. apply (proj2 (proj2 codec_roundtrip)). unfold in_int64. lia. Defined.
