(* ===== verification/Json.v ===== *)
(** * JSON

    What the programs under [examples/] use of [encoding/json]: the text of structs whose fields are
    integers, booleans and strings and of slices of them, and reading such values from any text.  The
    text of a value is a tree printed without spaces; reading parses the text into a tree first, as
    [Unmarshal] checks the whole text before it stores anything, and then fills in the fields.  (The
    nesting limit of later versions of Go is not modelled.) *)
From Stdlib Require Import ZArith Lia Ascii.
From stdpp Require Import base gmap strings list.
From S2P Require Import Prelude Codec.
Open Scope Z_scope.

(** ** Bytes and UTF-8 *)

Definition byte_val (c : ascii) : Z := Z.of_N (N_of_ascii c).
Definition byte_of (z : Z) : ascii := ascii_of_N (Z.to_N z).
Definition byte_in (lo hi : Z) (c : ascii) : bool := (lo <=? byte_val c) && (byte_val c <=? hi).

Definition quotation_mark : ascii := "034"%char.
Definition backslash : ascii := "092"%char.

(** A continuation byte, and the first two bytes of a rune of three or four bytes: no overlong forms,
    no surrogates, nothing above U+10FFFF. *)
Definition utf8_cont (c : ascii) : bool := byte_in 128 191 c.
Definition utf8_lead3 (c0 c1 : ascii) : bool :=
  if byte_val c0 =? 224 then byte_in 160 191 c1
  else if byte_val c0 =? 237 then byte_in 128 159 c1
  else byte_in 225 239 c0 && utf8_cont c1.
Definition utf8_lead4 (c0 c1 : ascii) : bool :=
  if byte_val c0 =? 240 then byte_in 144 191 c1
  else if byte_val c0 =? 244 then byte_in 128 143 c1
  else byte_in 241 243 c0 && utf8_cont c1.

(** The size [utf8.DecodeRuneInString] answers, [None] for an invalid encoding. *)
Definition utf8_size (s : string) : option nat :=
  match s with
  | EmptyString => None
  | String c0 s =>
      if byte_val c0 <? 128 then Some 1%nat
      else match s with
      | EmptyString => None
      | String c1 s =>
          if byte_in 194 223 c0 && utf8_cont c1 then Some 2%nat
          else match s with
          | EmptyString => None
          | String c2 s =>
              if utf8_lead3 c0 c1 && utf8_cont c2 then Some 3%nat
              else match s with
              | EmptyString => None
              | String c3 _ => if utf8_lead4 c0 c1 && utf8_cont c2 && utf8_cont c3 then Some 4%nat else None
              end
          end
      end
  end.

(** [utf8.ValidString] of the string behind the next [skip] bytes. *)
Fixpoint utf8_valid (skip : nat) (s : string) : bool :=
  match s with
  | EmptyString => (skip =? 0)%nat
  | String _ rest =>
      match skip, utf8_size s with
      | S k, _ => utf8_valid k rest
      | O, Some n => utf8_valid (pred n) rest
      | O, None => false
      end
  end.

(** [utf8.EncodeRune] of a rune that is not a surrogate. *)
Definition encode_rune (r : Z) : string :=
  if r <? 128 then String (byte_of r) ""
  else if r <? 2048 then String (byte_of (192 + r / 64)) (String (byte_of (128 + r mod 64)) "")
  else if r <? 65536 then
    String (byte_of (224 + r / 4096)) (String (byte_of (128 + r / 64 mod 64)) (String (byte_of (128 + r mod 64)) ""))
  else
    String (byte_of (240 + r / 262144)) (String (byte_of (128 + r / 4096 mod 64))
      (String (byte_of (128 + r / 64 mod 64)) (String (byte_of (128 + r mod 64)) ""))).

(** [utf8.RuneError], U+FFFD. *)
Definition RuneError : Z := 65533.

(** ** String literals *)

Definition hex_digit (n : Z) : ascii := if n <? 10 then byte_of (48 + n) else byte_of (87 + n).
Definition hex_val (c : ascii) : option Z :=
  let n := byte_val c in
  if byte_in 48 57 c then Some (n - 48)
  else if byte_in 97 102 c then Some (n - 87)
  else if byte_in 65 70 c then Some (n - 55)
  else None.

(** The escape of an ASCII character: [encodeState.string] with HTML escaping, as [Marshal] calls it. *)
Definition escape (c : ascii) : string :=
  let n := byte_val c in
  if Ascii.eqb c quotation_mark || Ascii.eqb c backslash then String backslash (String c "")
  else if n =? 10 then String backslash "n"
  else if n =? 13 then String backslash "r"
  else if n =? 9 then String backslash "t"
  else if (n <? 32) || (n =? 60) || (n =? 62) || (n =? 38)
  then String backslash (String "u" (String "0" (String "0" (String (hex_digit (n / 16)) (String (hex_digit (n mod 16)) "")))))
  else String c "".

(** U+2028 and U+2029 are escaped too: the last digit of their code. *)
Definition line_separator (s : string) : option ascii :=
  match s with
  | String c0 (String c1 (String c2 _)) =>
      if (byte_val c0 =? 226) && (byte_val c1 =? 128) && ((byte_val c2 =? 168) || (byte_val c2 =? 169))
      then Some (hex_digit (byte_val c2 - 160)) else None
  | _ => None
  end.

(** The text between the quotation marks; the first [skip] bytes belong to a rune that is copied. *)
Fixpoint quote_body (skip : nat) (s : string) : string :=
  match s with
  | EmptyString => EmptyString
  | String c rest =>
      match skip with
      | S k => String c (quote_body k rest)
      | O =>
          if byte_val c <? 128 then escape c +:+ quote_body 0 rest
          else match line_separator s with
          | Some d =>
              String backslash (String "u" (String "2" (String "0" (String "2" (String d
                match rest with String _ (String _ rest) => quote_body 0 rest | _ => EmptyString end)))))
          | None =>
              match utf8_size s with
              | Some n => String c (quote_body (pred n) rest)
              | None => String backslash "ufffd" +:+ quote_body 0 rest
              end
          end
      end
  end.

Definition quote (s : string) : string := String quotation_mark (quote_body 0 s +:+ String quotation_mark "").

(** The characters that may follow a backslash, with what they stand for. *)
Definition simple_escape (c : ascii) : option ascii :=
  if Ascii.eqb c quotation_mark || Ascii.eqb c backslash || Ascii.eqb c "/" then Some c
  else if Ascii.eqb c "b" then Some (byte_of 8)
  else if Ascii.eqb c "f" then Some (byte_of 12)
  else if Ascii.eqb c "n" then Some (byte_of 10)
  else if Ascii.eqb c "r" then Some (byte_of 13)
  else if Ascii.eqb c "t" then Some (byte_of 9)
  else None.

Definition prepend (p : string) (r : option (string * string)) : option (string * string) :=
  match r with Some (s, t) => Some (p +:+ s, t) | None => None end.

(** The scanner inside a string literal: the text up to the closing quotation mark and what is behind
    it, [None] for a syntax error. *)
Fixpoint scan_string (s : string) : option (string * string) :=
  match s with
  | EmptyString => None
  | String c s =>
      if Ascii.eqb c quotation_mark then Some (EmptyString, s)
      else if Ascii.eqb c backslash then
        match s with
        | EmptyString => None
        | String e s =>
            match simple_escape e with
            | Some _ => prepend (String c (String e "")) (scan_string s)
            | None =>
                if Ascii.eqb e "u" then
                  match s with
                  | String h1 (String h2 (String h3 (String h4 s))) =>
                      match hex_val h1, hex_val h2, hex_val h3, hex_val h4 with
                      | Some _, Some _, Some _, Some _ =>
                          prepend (String c (String e (String h1 (String h2 (String h3 (String h4 "")))))) (scan_string s)
                      | _, _, _, _ => None
                      end
                  | _ => None
                  end
                else None
            end
        end
      else if byte_val c <? 32 then None
      else prepend (String c "") (scan_string s)
  end.

(** [getu4] of the four digits. *)
Definition getu4 (h1 h2 h3 h4 : ascii) : Z :=
  let v h := default 0 (hex_val h) in ((v h1 * 16 + v h2) * 16 + v h3) * 16 + v h4.

Definition is_surrogate (r : Z) : bool := (55296 <=? r) && (r <? 57344).

(** [utf16.DecodeRune]. *)
Definition utf16_decode (r1 r2 : Z) : option Z :=
  if (55296 <=? r1) && (r1 <? 56320) && (56320 <=? r2) && (r2 <? 57344)
  then Some ((r1 - 55296) * 1024 + (r2 - 56320) + 65536) else None.

(** [unquote] of a scanned text. *)
Fixpoint unquote (skip : nat) (s : string) : string :=
  match s with
  | EmptyString => EmptyString
  | String c rest =>
      match skip with
      | S k => String c (unquote k rest)
      | O =>
          if Ascii.eqb c backslash then
            match rest with
            | EmptyString => EmptyString
            | String e rest =>
                match simple_escape e with
                | Some d => String d (unquote 0 rest)
                | None =>
                    match rest with
                    | String h1 (String h2 (String h3 (String h4 rest))) =>
                        let rr := getu4 h1 h2 h3 h4 in
                        if is_surrogate rr then
                          match rest with
                          | String b (String u (String g1 (String g2 (String g3 (String g4 rest'))))) =>
                              match (if Ascii.eqb b backslash && Ascii.eqb u "u"
                                     then utf16_decode rr (getu4 g1 g2 g3 g4) else None) with
                              | Some r => encode_rune r +:+ unquote 0 rest'
                              | None => encode_rune RuneError +:+ unquote 0 rest
                              end
                          | _ => encode_rune RuneError +:+ unquote 0 rest
                          end
                        else encode_rune rr +:+ unquote 0 rest
                    | _ => EmptyString
                    end
                end
            end
          else if byte_val c <? 128 then String c (unquote 0 rest)
          else match utf8_size s with
          | Some n => String c (unquote (pred n) rest)
          | None => encode_rune RuneError +:+ unquote 0 rest
          end
      end
  end.

(** ** Values *)

(** Numbers keep their literal. *)
#[warnings="-register-all"]
Inductive json : Type :=
| JNull
| JBool (b : bool)
| JNum (lit : string)
| JStr (s : string)
| JArr (l : list json)
| JObj (l : list (string * json)).

(** The texts of a list, separated by commas. *)
Fixpoint sep_by (l : list string) : string :=
  match l with
  | [] => EmptyString
  | [x] => x
  | x :: l => x +:+ String "," (sep_by l)
  end.

(** The text that [Marshal] writes. *)
Fixpoint print (j : json) : string :=
  match j with
  | JNull => "null"
  | JBool true => "true"
  | JBool false => "false"
  | JNum lit => lit
  | JStr s => quote s
  | JArr l => String "[" (sep_by (map print l) +:+ "]")
  | JObj l => String "{" (sep_by (map (fun kv => quote kv.1 +:+ String ":" (print kv.2)) l) +:+ "}")
  end.

Definition is_space (c : ascii) : bool :=
  (byte_val c =? 32) || (byte_val c =? 9) || (byte_val c =? 13) || (byte_val c =? 10).

Fixpoint skip_space (s : string) : string :=
  match s with
  | String c rest => if is_space c then skip_space rest else s
  | EmptyString => EmptyString
  end.

(** The longest prefix of digits, and the rest. *)
Fixpoint span_digits (s : string) : string * string :=
  match s with
  | String c rest =>
      if byte_in 48 57 c then let '(d, t) := span_digits rest in (String c d, t) else (EmptyString, s)
  | EmptyString => (EmptyString, EmptyString)
  end.

(** One or more digits. *)
Definition scan_digits (s : string) : option (string * string) :=
  match span_digits s with (EmptyString, _) => None | r => Some r end.

Definition scan_int (s : string) : option (string * string) :=
  match s with
  | String c rest => if Ascii.eqb c "0" then Some (String c "", rest) else scan_digits s
  | EmptyString => None
  end.

Definition scan_fraction (s : string) : option (string * string) :=
  match s with
  | String c rest => if Ascii.eqb c "." then prepend (String c "") (scan_digits rest) else Some (EmptyString, s)
  | EmptyString => Some (EmptyString, EmptyString)
  end.

Definition scan_exponent (s : string) : option (string * string) :=
  match s with
  | String c rest =>
      if Ascii.eqb c "e" || Ascii.eqb c "E" then
        prepend (String c "")
          match rest with
          | String d rest' =>
              if Ascii.eqb d "+" || Ascii.eqb d "-" then prepend (String d "") (scan_digits rest') else scan_digits rest
          | EmptyString => None
          end
      else Some (EmptyString, s)
  | EmptyString => Some (EmptyString, EmptyString)
  end.

Definition scan_unsigned (s : string) : option (string * string) :=
  '(i, s) ← scan_int s; '(f, s) ← scan_fraction s; '(e, s) ← scan_exponent s; Some (i +:+ f +:+ e, s).

(** A number literal and the rest. *)
Definition scan_number (s : string) : option (string * string) :=
  match s with
  | String c rest => if Ascii.eqb c "-" then prepend (String c "") (scan_unsigned rest) else scan_unsigned s
  | EmptyString => None
  end.

(** The rest behind a given word. *)
Fixpoint expect (w s : string) : option string :=
  match w, s with
  | EmptyString, _ => Some s
  | String a w, String b s => if Ascii.eqb a b then expect w s else None
  | _, EmptyString => None
  end.

(** The parser.  [fuel] bounds the calls: every call but those of [parse_value] by the other two
    consumes a character. *)
Fixpoint parse_value (fuel : nat) (s : string) : option (json * string) :=
  match fuel with
  | O => None
  | S fuel =>
      match skip_space s with
      | EmptyString => None
      | String c rest =>
          if Ascii.eqb c "{" then
            match skip_space rest with
            | String d rest' =>
                if Ascii.eqb d "}" then Some (JObj [], rest')
                else '(l, t) ← parse_members fuel rest; Some (JObj l, t)
            | EmptyString => None
            end
          else if Ascii.eqb c "[" then
            match skip_space rest with
            | String d rest' =>
                if Ascii.eqb d "]" then Some (JArr [], rest')
                else '(l, t) ← parse_elements fuel rest; Some (JArr l, t)
            | EmptyString => None
            end
          else if Ascii.eqb c quotation_mark then '(b, t) ← scan_string rest; Some (JStr (unquote 0 b), t)
          else if Ascii.eqb c "t" then t ← expect "rue" rest; Some (JBool true, t)
          else if Ascii.eqb c "f" then t ← expect "alse" rest; Some (JBool false, t)
          else if Ascii.eqb c "n" then t ← expect "ull" rest; Some (JNull, t)
          else '(lit, t) ← scan_number (String c rest); Some (JNum lit, t)
      end
  end
with parse_elements (fuel : nat) (s : string) : option (list json * string) :=
  match fuel with
  | O => None
  | S fuel =>
      '(j, t) ← parse_value fuel s;
      match skip_space t with
      | EmptyString => None
      | String c rest =>
          if Ascii.eqb c "," then '(l, t) ← parse_elements fuel rest; Some (j :: l, t)
          else if Ascii.eqb c "]" then Some ([j], rest)
          else None
      end
  end
with parse_members (fuel : nat) (s : string) : option (list (string * json) * string) :=
  match fuel with
  | O => None
  | S fuel =>
      match skip_space s with
      | EmptyString => None
      | String q rest =>
          if Ascii.eqb q quotation_mark then
            '(b, t) ← scan_string rest;
            match skip_space t with
            | EmptyString => None
            | String c rest =>
                if Ascii.eqb c ":" then
                  '(j, t) ← parse_value fuel rest;
                  match skip_space t with
                  | EmptyString => None
                  | String c rest =>
                      if Ascii.eqb c "," then '(l, t) ← parse_members fuel rest; Some ((unquote 0 b, j) :: l, t)
                      else if Ascii.eqb c "}" then Some ([(unquote 0 b, j)], rest)
                      else None
                  end
                else None
            end
          else None
      end
  end.

Definition ErrJSONSyntax : error := ErrNew "invalid character in JSON input".

(** The tree of a text. *)
Definition parse_json (s : string) : res json :=
  match parse_value (2 * String.length s + 1) s with
  | Some (j, t) => match skip_space t with EmptyString => Ok j | _ => Err ErrJSONSyntax end
  | None => Err ErrJSONSyntax
  end.

(** ** Reading values *)

Definition ErrUnmarshalType : error := ErrNew "json: cannot unmarshal into Go value".

(** Reading a value of a field or an element, given what it held: null changes nothing. *)
Definition read_int (j : json) (old : Z) : res Z :=
  match j with
  | JNull => Ok old
  | JNum lit => match ParseInt lit with Ok z => Ok z | Err _ => Err ErrUnmarshalType end
  | _ => Err ErrUnmarshalType
  end.
Definition read_bool (j : json) (old : bool) : res bool :=
  match j with JNull => Ok old | JBool b => Ok b | _ => Err ErrUnmarshalType end.
Definition read_string (j : json) (old : string) : res string :=
  match j with JNull => Ok old | JStr s => Ok s | _ => Err ErrUnmarshalType end.

(** The folding that field names are matched with: ASCII case, the long s and the Kelvin sign. *)
Definition lower_char (c : ascii) : ascii := if byte_in 65 90 c then byte_of (byte_val c + 32) else c.

Fixpoint fold_name (s : string) : string :=
  match s with
  | EmptyString => EmptyString
  | String c rest =>
      match rest with
      | EmptyString => String (lower_char c) ""
      | String d rest1 =>
          if (byte_val c =? 197) && (byte_val d =? 191) then String "s" (fold_name rest1)
          else match rest1 with
          | EmptyString => String (lower_char c) (fold_name rest)
          | String e rest2 =>
              if (byte_val c =? 226) && (byte_val d =? 132) && (byte_val e =? 170) then String "k" (fold_name rest2)
              else String (lower_char c) (fold_name rest)
          end
      end
  end.

(** The fields of a struct: their names, and how a value is stored. *)
Definition fields (A : Type) : Type := list (string * (json -> A -> res A)).

Definition find_field {A} (fs : fields A) (name : string) : option (json -> A -> res A) :=
  match find (fun f => String.eqb f.1 name) fs with
  | Some f => Some f.2
  | None => snd <$> find (fun f => String.eqb (fold_name f.1) (fold_name name)) fs
  end.

(** Storing the members of an object one after the other; unknown names are skipped.  The first
    error is the one that [Unmarshal] returns. *)
Fixpoint read_members {A} (fs : fields A) (l : list (string * json)) (a : A) : res A :=
  match l with
  | [] => Ok a
  | (name, j) :: l =>
      a ← match find_field fs name with Some store => store j a | None => Ok a end; read_members fs l a
  end.

Definition read_struct {A} (fs : fields A) (j : json) (a : A) : res A :=
  match j with
  | JNull => Ok a
  | JObj l => read_members fs l a
  | _ => Err ErrUnmarshalType
  end.

Fixpoint read_all_elements {A} (f : json -> A -> res A) (zero : A) (l : list json) : res (list A) :=
  match l with
  | [] => Ok []
  | j :: l => a ← f j zero; l ← read_all_elements f zero l; Ok (a :: l)
  end.

(** A slice: nil or its elements. *)
Definition read_slice {A} (f : json -> A -> res A) (zero : A) (j : json) : res (option (list A)) :=
  match j with
  | JNull => Ok None
  | JArr l => l ← read_all_elements f zero l; Ok (Some l)
  | _ => Err ErrUnmarshalType
  end.

(** [json.Unmarshal(data, &v)] with [v] read by [f]. *)
Definition Unmarshal {A} (f : json -> res A) (data : bytes) : res A := parse_json (string_of_bytes data) ≫= f.

(** [json.Marshal]; it does not fail for the types here. *)
Definition Marshal (j : json) : res bytes := Ok (Some (print j)).

(** [json.Marshal] of a value that does not have the type of the codec, which the programs never
    encode, is an argument of the codecs. *)
Abbreviation marshaller := (value -> res bytes).

Definition json_Encode {A} (assert : value -> option A) (to_json : A -> json) (other : marshaller) (v : value) : res bytes :=
  match assert v with Some a => Marshal (to_json a) | None => other v end.

(** ** Lemmas on strings *)

Lemma length_append s t : String.length (s +:+ t) = (String.length s + String.length t)%nat.
Proof. induction s as [|c s IH]; [done|]. change (S (String.length (s +:+ t)) = S (String.length s + String.length t)). by rewrite IH. Qed.

Lemma append_assoc s1 s2 s3 : (s1 +:+ s2) +:+ s3 = s1 +:+ s2 +:+ s3.
Proof. induction s1 as [|c s IH]; [done|]. change (String c ((s +:+ s2) +:+ s3) = String c (s +:+ s2 +:+ s3)). by rewrite IH. Qed.

Lemma append_nil_r s : s +:+ "" = s.
Proof. induction s as [|c s IH]; [done|]. change (String c (s +:+ "") = String c s). by rewrite IH. Qed.

Lemma byte_of_val c : byte_of (byte_val c) = c.
Proof. unfold byte_of, byte_val. rewrite N2Z.id. apply ascii_N_embedding. Qed.

Lemma byte_val_inj c z : byte_val c = z -> c = byte_of z.
Proof. intros <-. by rewrite byte_of_val. Qed.

Lemma byte_high c : (byte_val c <? 128) = false -> Ascii.eqb c quotation_mark = false /\ Ascii.eqb c backslash = false /\ (byte_val c <? 32) = false.
Proof.
  intros H. simp_bool. split_and!.
  - apply Ascii.eqb_neq. intros ->. by vm_compute in H.
  - apply Ascii.eqb_neq. intros ->. by vm_compute in H.
  - apply Z.ltb_ge. lia.
Qed.

Lemma byte_in_high lo hi c : 128 <= lo -> byte_in lo hi c = true -> (byte_val c <? 128) = false.
Proof. unfold byte_in. intros Hl H. simp_bool. apply Z.ltb_ge. lia. Qed.

(** The encodings of more than one byte, as [utf8_size] tells them. *)
Inductive wide : string -> Prop :=
| wide2 c0 c1 : (byte_val c0 <? 128) = false -> byte_in 194 223 c0 && utf8_cont c1 = true ->
    wide (String c0 (String c1 ""))
| wide3 c0 c1 c2 : (byte_val c0 <? 128) = false -> byte_in 194 223 c0 && utf8_cont c1 = false ->
    utf8_lead3 c0 c1 && utf8_cont c2 = true -> wide (String c0 (String c1 (String c2 "")))
| wide4 c0 c1 c2 c3 : (byte_val c0 <? 128) = false -> byte_in 194 223 c0 && utf8_cont c1 = false ->
    utf8_lead3 c0 c1 && utf8_cont c2 = false -> utf8_lead4 c0 c1 && utf8_cont c2 && utf8_cont c3 = true ->
    wide (String c0 (String c1 (String c2 (String c3 "")))).

Lemma utf8_size_spec s n :
  utf8_size s = Some n ->
  (exists c t, s = String c t /\ (byte_val c <? 128) = true /\ n = 1%nat) \/
  (exists p t, s = p +:+ t /\ wide p /\ n = String.length p).
Proof.
  unfold utf8_size. intros H. destruct s as [|c0 s]; [done|]. destruct (byte_val c0 <? 128) eqn:E0.
  { injection H as <-. left. by exists c0, s. }
  right. destruct s as [|c1 s]; [done|]. destruct (byte_in _ _ _ && _) eqn:E1.
  { injection H as <-. exists (String c0 (String c1 "")), s. split_and!; [done|by constructor|done]. }
  destruct s as [|c2 s]; [done|]. destruct (utf8_lead3 _ _ && _) eqn:E2.
  { injection H as <-. exists (String c0 (String c1 (String c2 ""))), s. split_and!; [done|by constructor|done]. }
  destruct s as [|c3 s]; [done|]. destruct (utf8_lead4 _ _ && _ && _) eqn:E3; [|done].
  injection H as <-. exists (String c0 (String c1 (String c2 (String c3 "")))), s. split_and!; [done|by constructor|done].
Qed.

Lemma utf8_size_wide p t : wide p -> utf8_size (p +:+ t) = Some (String.length p).
Proof.
  intros [c0 c1 E0 E1|c0 c1 c2 E0 E1 E2|c0 c1 c2 c3 E0 E1 E2 E3]; unfold utf8_size; simpl; by rewrite ?E0, ?E1, ?E2, ?E3.
Qed.

(** What comes first in a string of valid runes. *)
Lemma utf8_valid_skip p t : utf8_valid (String.length p) (p +:+ t) = utf8_valid 0 t.
Proof. induction p as [|c p IH]; [done|]. exact IH. Qed.

Lemma utf8_rune_ind (P : string -> Prop) :
  P ""%string -> (forall c t, (byte_val c <? 128) = true -> P t -> P (String c t)) ->
  (forall p t, wide p -> P t -> P (p +:+ t)) -> forall s, utf8_valid 0 s = true -> P s.
Proof.
  intros H0 H1 H2 s. remember (String.length s) as n eqn:Hn. revert s Hn.
  induction (lt_wf n) as [n _ IH]. intros s -> Hv. destruct s as [|c s]; [done|].
  cbn [utf8_valid] in Hv. destruct (utf8_size (String c s)) as [k|] eqn:E; [|done].
  apply utf8_size_spec in E as [(c' & t & [= <- <-] & Hc & ->)|(p & t & Hs & Hw & ->)].
  - apply H1; [done|]. eapply IH; [|done|done]. simpl. lia.
  - rewrite Hs in *. apply H2; [done|]. destruct p as [|c' p]; [by inversion Hw|]. injection Hs as <- ->.
    change (utf8_valid (String.length p) (p +:+ t) = true) in Hv. rewrite utf8_valid_skip in Hv. eapply IH; [|done|done]. simpl. rewrite length_append. lia.
Qed.

Ltac all_bytes c := destruct c as [[] [] [] [] [] [] [] []].

Lemma unquote_escape c t : (byte_val c <? 128) = true -> unquote 0 (escape c +:+ t) = String c (unquote 0 t).
Proof. intros H. all_bytes c; (discriminate H || reflexivity). Qed.

Lemma scan_escape c t : (byte_val c <? 128) = true -> scan_string (escape c +:+ t) = prepend (escape c) (scan_string t).
Proof. intros H. all_bytes c; (discriminate H || reflexivity). Qed.

(** The bytes of a wide rune pass the scanner and [unquote] as they are. *)
Lemma wide_high p : wide p -> Forall (fun c => (byte_val c <? 128) = false) (String.list_ascii_of_string p).
Proof.
  assert (forall c, utf8_cont c = true -> (byte_val c <? 128) = false) as Hc by (intros c; by apply byte_in_high).
  assert (forall c0 c1, utf8_lead3 c0 c1 = true -> (byte_val c1 <? 128) = false) as H3.
  { intros c0 c1. unfold utf8_lead3. destruct (_ =? _); [by apply byte_in_high|]. destruct (_ =? _); [by apply byte_in_high|].
    intros [_ ?]%andb_true_iff. by apply Hc. }
  assert (forall c0 c1, utf8_lead4 c0 c1 = true -> (byte_val c1 <? 128) = false) as H4.
  { intros c0 c1. unfold utf8_lead4. destruct (_ =? _); [by apply byte_in_high|]. destruct (_ =? _); [by apply byte_in_high|].
    intros [_ ?]%andb_true_iff. by apply Hc. }
  intros [c0 c1 E0 E1|c0 c1 c2 E0 E1 E2|c0 c1 c2 c3 E0 E1 E2 E3]; repeat match goal with
    | H : _ && _ = true |- _ => apply andb_true_iff in H as [? ?] end; repeat constructor; eauto.
Qed.

Lemma scan_high p t :
  Forall (fun c => (byte_val c <? 128) = false) (String.list_ascii_of_string p) ->
  scan_string (p +:+ t) = prepend p (scan_string t).
Proof.
  induction p as [|c p IH]; intros HF; [change (scan_string t = prepend "" (scan_string t)); by destruct (scan_string t) as [[??]|]|].
  apply Forall_cons in HF as [Hc HF]. destruct (byte_high c Hc) as (E1 & E2 & E3).
  change (scan_string (String c (p +:+ t)) = prepend (String c p) (scan_string t)). cbn [scan_string].
  rewrite E1, E2, E3, (IH HF). by destruct (scan_string t) as [[??]|].
Qed.

Lemma unquote_skip p t : unquote (String.length p) (p +:+ t) = p +:+ unquote 0 t.
Proof. induction p as [|c p IH]; [done|]. change (String c (unquote (String.length p) (p +:+ t)) = String c (p +:+ unquote 0 t)). by rewrite IH. Qed.

Lemma quote_skip p t : quote_body (String.length p) (p +:+ t) = p +:+ quote_body 0 t.
Proof. induction p as [|c p IH]; [done|]. change (String c (quote_body (String.length p) (p +:+ t)) = String c (p +:+ quote_body 0 t)). by rewrite IH. Qed.

Lemma unquote_wide p t : wide p -> unquote 0 (p +:+ t) = p +:+ unquote 0 t.
Proof.
  intros Hw. pose proof (utf8_size_wide p t Hw) as Hs. pose proof (wide_high p Hw) as HF.
  destruct p as [|c p]; [by inversion Hw|]. apply Forall_cons in HF as [Hc _]. destruct (byte_high c Hc) as (_ & E & _).
  change (String c p +:+ t) with (String c (p +:+ t)) in *. cbn [unquote]. rewrite E, Hc, Hs.
  change (String c (unquote (String.length p) (p +:+ t)) = String c (p +:+ unquote 0 t)). by rewrite unquote_skip.
Qed.

(** A line separator. *)
Lemma line_separator_spec p t d :
  wide p -> line_separator (p +:+ t) = Some d ->
  (d = "8"%char /\ p = encode_rune 8232) \/ (d = "9"%char /\ p = encode_rune 8233).
Proof.
  intros Hw H. unfold line_separator in H.
  destruct Hw as [c0 c1 E0 E1|c0 c1 c2 E0 E1 E2|c0 c1 c2 c3 E0 E1 E2 E3]; simpl in H.
  - destruct t as [|c2 t]; [done|]. destruct (_ && _) eqn:E in H; [|done]. exfalso. simp_bool. destruct_and?.
    unfold byte_in in *. simp_bool. lia.
  - destruct (_ && _) eqn:E in H; [|done]. injection H as <-. apply andb_true_iff in E as [[A B]%andb_true_iff C].
    apply Z.eqb_eq, byte_val_inj in A as ->. apply Z.eqb_eq, byte_val_inj in B as ->.
    apply orb_true_iff in C as [C|C]; apply Z.eqb_eq, byte_val_inj in C as ->; [by left|by right].
  - destruct (_ && _) eqn:E in H; [|done]. apply andb_true_iff in E as [[A B]%andb_true_iff C].
    apply Z.eqb_eq, byte_val_inj in A as ->. done.
Qed.

(** How a rune is quoted: its escape or its bytes. *)
Lemma quote_wide p t :
  wide p ->
  quote_body 0 (p +:+ t) = p +:+ quote_body 0 t \/
  exists d, (d = "8"%char /\ p = encode_rune 8232 \/ d = "9"%char /\ p = encode_rune 8233) /\
    quote_body 0 (p +:+ t) = String backslash (String "u" (String "2" (String "0" (String "2" (String d (quote_body 0 t)))))).
Proof.
  intros Hw. destruct (line_separator (p +:+ t)) as [d|] eqn:El.
  - right. exists d. pose proof (line_separator_spec p t d Hw El) as Hd. split; [done|]. by destruct Hd as [[-> ->]|[-> ->]].
  - left. pose proof (utf8_size_wide p t Hw) as Hs. pose proof (wide_high p Hw) as HF.
    destruct p as [|c p]; [by inversion Hw|]. apply Forall_cons in HF as [Hc _].
    change (String c p +:+ t) with (String c (p +:+ t)) in *. cbn [quote_body]. rewrite Hc, El, Hs.
    change (String c (quote_body (String.length p) (p +:+ t)) = String c (p +:+ quote_body 0 t)). by rewrite quote_skip.
Qed.

Lemma quote_ascii c t : (byte_val c <? 128) = true -> quote_body 0 (String c t) = escape c +:+ quote_body 0 t.
Proof. intros H. cbn [quote_body]. by rewrite H. Qed.

Lemma unquote_quote s : utf8_valid 0 s = true -> unquote 0 (quote_body 0 s) = s.
Proof.
  revert s. apply utf8_rune_ind; [done| |].
  - intros c t Hc IH. by rewrite quote_ascii, unquote_escape, IH.
  - intros p t Hw IH. destruct (quote_wide p t Hw) as [->|(d & Hd & ->)]; [by rewrite unquote_wide, IH|].
    by destruct Hd as [[-> ->]|[-> ->]]; rewrite <- IH at 2.
Qed.

Lemma scan_quote s t : utf8_valid 0 s = true -> scan_string (quote_body 0 s +:+ String quotation_mark t) = Some (quote_body 0 s, t).
Proof.
  revert s. apply utf8_rune_ind; [done| |].
  - intros c u Hc IH. by rewrite quote_ascii, append_assoc, scan_escape, IH.
  - intros p u Hw IH. destruct (quote_wide p u Hw) as [->|(d & Hd & ->)].
    + rewrite append_assoc, scan_high, IH; [done|by apply wide_high].
    + assert (scan_string (String backslash (String "u" (String "2" (String "0" (String "2" (String d
        (quote_body 0 u +:+ String quotation_mark t))))))) = prepend (String backslash (String "u" (String "2" (String "0"
        (String "2" (String d "")))))) (scan_string (quote_body 0 u +:+ String quotation_mark t))) as E
        by (by destruct Hd as [[-> _]|[-> _]]).
      transitivity (scan_string (String backslash (String "u" (String "2" (String "0" (String "2" (String d
        (quote_body 0 u +:+ String quotation_mark t)))))))); [done|]. by rewrite E, IH.
Qed.

(** ** Lemmas on numbers *)

(** What follows a value in a printed text. *)
Definition ends_value (t : string) : bool :=
  match t with
  | EmptyString => true
  | String c _ => Ascii.eqb c "," || Ascii.eqb c "]" || Ascii.eqb c "}"
  end.

(** [lit] is scanned as a number wherever it can stand. *)
Definition number_literal (lit : string) : Prop := forall t, ends_value t = true -> scan_number (lit +:+ t) = Some (lit, t).

Lemma char_digit_byte c : is_Some (char_digit c) -> byte_in 48 57 c = true.
Proof. all_bytes c; intros [? H]; (discriminate H || reflexivity). Qed.

Lemma ends_value_char c t : ends_value (String c t) = true ->
  byte_in 48 57 c = false /\ Ascii.eqb c "." = false /\ Ascii.eqb c "e" = false /\ Ascii.eqb c "E" = false.
Proof.
  intros [[H|H]%orb_true_iff|H]%orb_true_iff; apply Ascii.eqb_eq in H as ->; done.
Qed.

Lemma span_all_digits ds t : all_digits ds = true -> ends_value t = true -> span_digits (ds +:+ t) = (ds, t).
Proof.
  intros Hd Ht. induction ds as [|c ds IH].
  - destruct t as [|c t]; [done|]. destruct (ends_value_char c t Ht) as [E _]. change (span_digits (String c t) = (""%string, String c t)).
    cbn [span_digits]. by rewrite E.
  - cbn [all_digits] in Hd. apply andb_true_iff in Hd as [Hc%bool_decide_eq_true Hd].
    change (span_digits (String c (ds +:+ t)) = (String c ds, t)). cbn [span_digits].
    by rewrite (char_digit_byte c Hc), IH.
Qed.

Lemma no_fraction t : ends_value t = true -> scan_fraction t = Some (""%string, t) /\ scan_exponent t = Some (""%string, t).
Proof.
  intros Ht. destruct t as [|c t]; [done|]. destruct (ends_value_char c t Ht) as (_ & E1 & E2 & E3).
  unfold scan_fraction, scan_exponent. by rewrite E1, E2, E3.
Qed.

Lemma scan_unsigned_digits d ds t :
  0 <= d < 10 -> all_digits ds = true -> (d = 0 -> ds = ""%string) -> ends_value t = true ->
  scan_unsigned (String (digit_char d) ds +:+ t) = Some (String (digit_char d) ds, t).
Proof.
  intros Hd Hds H0 Ht. destruct (no_fraction t Ht) as [Ef Ee]. unfold scan_unsigned.
  assert (scan_int (String (digit_char d) ds +:+ t) = Some (String (digit_char d) ds, t)) as ->.
  2:{ cbn [mbind option_bind]. rewrite Ef. cbn [mbind option_bind]. rewrite Ee. cbn [mbind option_bind]. by rewrite !append_nil_r. }
  change (String (digit_char d) ds +:+ t) with (String (digit_char d) (ds +:+ t)). unfold scan_int.
  destruct (decide (d = 0)) as [->|Hne]; [by rewrite (H0 eq_refl)|].
  replace (Ascii.eqb (digit_char d) "0") with false.
  2:{ symmetry. apply Ascii.eqb_neq. intros E. apply (f_equal char_digit) in E. rewrite char_digit_char in E by done.
      injection E as ->. by apply Hne. }
  unfold scan_digits. cbn [span_digits]. rewrite char_digit_byte by (rewrite char_digit_char by done; done).
  by rewrite span_all_digits.
Qed.

Lemma FormatInt_literal z : in_int64 z -> number_literal (FormatInt z).
Proof.
  intros Hz t Ht. destruct (FormatInt_shape z Hz) as (sign & d & ds & -> & Hs & Hd & Hds & H0).
  pose proof (scan_unsigned_digits d ds t Hd Hds H0 Ht) as Hu. rewrite append_assoc. destruct Hs as [->| ->].
  - change (("" +:+ String (digit_char d) ds +:+ t)) with (String (digit_char d) (ds +:+ t)). unfold scan_number.
    destruct (digit_char_not_sign d Hd) as [_ ->]. exact Hu.
  - change ("-" +:+ String (digit_char d) ds +:+ t) with (String "-" (String (digit_char d) ds +:+ t)).
    unfold scan_number. change (Ascii.eqb "-" "-") with true. cbv iota. by rewrite Hu.
Qed.

Lemma number_literal_head lit : number_literal lit -> exists c r, lit = String c r /\ (c = "-"%char \/ byte_in 48 57 c = true).
Proof.
  intros H. specialize (H ""%string eq_refl). rewrite append_nil_r in H. destruct lit as [|c r]; [done|]. exists c, r. split; [done|].
  unfold scan_number in H. destruct (Ascii.eqb_spec c "-"); [by left|]. right.
  unfold scan_unsigned, scan_int, scan_digits in H. destruct (Ascii.eqb_spec c "0") as [->|]; [done|].
  cbn [span_digits] in H. by destruct (byte_in 48 57 c).
Qed.

(** ** Printed texts are read back *)

(** Trees whose strings are valid UTF-8 and whose numbers are number literals. *)
#[warnings="-register-all"]
Inductive json_ok : json -> Prop :=
| ok_null : json_ok JNull
| ok_bool b : json_ok (JBool b)
| ok_num lit : number_literal lit -> json_ok (JNum lit)
| ok_str s : utf8_valid 0 s = true -> json_ok (JStr s)
| ok_arr l : Forall json_ok l -> json_ok (JArr l)
| ok_obj l : Forall (fun kv => utf8_valid 0 kv.1 = true /\ json_ok kv.2) l -> json_ok (JObj l).

Definition print_member (kv : string * json) : string := quote kv.1 +:+ String ":" (print kv.2).

Lemma print_head j : json_ok j -> exists c r, print j = String c r /\ is_space c = false /\ Ascii.eqb c "]" = false.
Proof.
  destruct 1 as [|[]|lit H|s _|l _|l _]; try by eexists _, _.
  destruct (number_literal_head lit H) as (c & r & -> & Hc). exists c, r. split; [done|].
  destruct Hc as [->|Hc]; [done|]. all_bytes c; (discriminate Hc || done).
Qed.

Lemma skip_space_head c r : is_space c = false -> skip_space (String c r) = String c r.
Proof. intros H. cbn [skip_space]. by rewrite H. Qed.

Lemma parse_number f lit t :
  number_literal lit -> ends_value t = true -> parse_value (S f) (lit +:+ t) = Some (JNum lit, t).
Proof.
  intros H Ht. pose proof (H t Ht) as Hs. destruct (number_literal_head lit H) as (c & r & -> & Hc).
  change (String c r +:+ t) with (String c (r +:+ t)) in *.
  assert (is_space c = false /\ Ascii.eqb c "{" = false /\ Ascii.eqb c "[" = false /\ Ascii.eqb c quotation_mark = false /\
    Ascii.eqb c "t" = false /\ Ascii.eqb c "f" = false /\ Ascii.eqb c "n" = false) as (E0 & E1 & E2 & E3 & E4 & E5 & E6).
  { destruct Hc as [->|Hc]; [done|]. all_bytes c; (discriminate Hc || done). }
  cbn [parse_value]. rewrite skip_space_head, E1, E2, E3, E4, E5, E6, Hs by done. done.
Qed.

(** What the parser promises of printed texts with a given fuel. *)
Record reads_back (f : nat) : Prop := {
  rb_value j t : json_ok j -> ends_value t = true -> (2 * String.length (print j) + 1 <= f)%nat ->
    parse_value f (print j +:+ t) = Some (j, t);
  rb_elements l t : Forall json_ok l -> l <> [] -> (2 * String.length (sep_by (print <$> l)) + 2 <= f)%nat ->
    parse_elements f (sep_by (print <$> l) +:+ String "]" t) = Some (l, t);
  rb_members l t : Forall (fun kv => utf8_valid 0 kv.1 = true /\ json_ok kv.2) l -> l <> [] ->
    (2 * String.length (sep_by (print_member <$> l)) + 2 <= f)%nat ->
    parse_members f (sep_by (print_member <$> l) +:+ String "}" t) = Some (l, t)
}.

Lemma sep_by_cons x y l t : sep_by (x :: y :: l) +:+ t = x +:+ String "," (sep_by (y :: l) +:+ t).
Proof. change (sep_by (x :: y :: l)) with (x +:+ String "," (sep_by (y :: l))). by rewrite append_assoc. Qed.

Lemma sep_by_cons_length x y l :
  String.length (sep_by (x :: y :: l)) = S (String.length x + String.length (sep_by (y :: l))).
Proof.
  change (sep_by (x :: y :: l)) with (x +:+ String "," (sep_by (y :: l))). rewrite length_append.
  change (String.length (String "," (sep_by (y :: l)))) with (S (String.length (sep_by (y :: l)))). lia.
Qed.

(** Past a character that the parser tests. *)
Ltac parse_step := cbn [mbind option_bind]; rewrite ?skip_space_head by done; cbn [Ascii.eqb Bool.eqb]; cbv iota.

Lemma reads_back_elements f l t :
  reads_back f -> Forall json_ok l -> l <> [] -> (2 * String.length (sep_by (print <$> l)) + 2 <= S f)%nat ->
  parse_elements (S f) (sep_by (print <$> l) +:+ String "]" t) = Some (l, t).
Proof.
  intros IH HF Hne Hf. destruct l as [|j l]; [done|]. apply Forall_cons in HF as [Hj HF].
  destruct l as [|j2 l].
  - change (sep_by (print <$> [j])) with (print j) in *. cbn [parse_elements]. rewrite (rb_value f IH) by (done || lia). done.
  - rewrite !fmap_cons, sep_by_cons_length in Hf. rewrite !fmap_cons, sep_by_cons. rewrite <- fmap_cons in *.
    cbn [parse_elements]. rewrite (rb_value f IH) by (done || lia). parse_step.
    rewrite (rb_elements f IH) by (done || lia). done.
Qed.

Lemma quote_append k t : quote k +:+ t = String quotation_mark (quote_body 0 k +:+ String quotation_mark t).
Proof.
  change (String quotation_mark ((quote_body 0 k +:+ String quotation_mark "") +:+ t) =
    String quotation_mark (quote_body 0 k +:+ String quotation_mark t)). by rewrite append_assoc.
Qed.

(** One member: its name and its value. *)
Lemma parse_member f k j u :
  reads_back f -> utf8_valid 0 k = true -> json_ok j -> ends_value u = true ->
  (2 * String.length (print j) + 1 <= f)%nat ->
  parse_members (S f) (print_member (k, j) +:+ u) =
  match skip_space u with
  | EmptyString => None
  | String c rest =>
      if Ascii.eqb c "," then '(l, t) ← parse_members f rest; Some ((k, j) :: l, t)
      else if Ascii.eqb c "}" then Some ([(k, j)], rest)
      else None
  end.
Proof.
  intros IH Hk Hj Hu Hf. change (print_member (k, j)) with (quote k +:+ String ":" (print j)). rewrite append_assoc, quote_append.
  cbn [parse_members]. parse_step. rewrite Ascii.eqb_refl. rewrite scan_quote by done. parse_step.
  change (String ":" (print j) +:+ u) with (String ":" (print j +:+ u)). parse_step.
  rewrite (rb_value f IH) by done. parse_step. by rewrite unquote_quote.
Qed.

Lemma reads_back_members f l t :
  reads_back f -> Forall (fun kv => utf8_valid 0 kv.1 = true /\ json_ok kv.2) l -> l <> [] ->
  (2 * String.length (sep_by (print_member <$> l)) + 2 <= S f)%nat ->
  parse_members (S f) (sep_by (print_member <$> l) +:+ String "}" t) = Some (l, t).
Proof.
  intros IH HF Hne Hf. destruct l as [|[k j] l]; [done|]. apply Forall_cons in HF as [[Hk Hj] HF]. simpl in Hk, Hj.
  assert (String.length (print j) < String.length (print_member (k, j)))%nat as Hlt.
  { unfold print_member. rewrite length_append. simpl. lia. }
  destruct l as [|kv l].
  - change (sep_by (print_member <$> [(k, j)])) with (print_member (k, j)) in *.
    rewrite parse_member by (done || lia). done.
  - rewrite !fmap_cons, sep_by_cons_length in Hf. rewrite !fmap_cons, sep_by_cons. rewrite <- fmap_cons in *.
    rewrite parse_member by (done || lia). parse_step. rewrite (rb_members f IH) by (done || lia). done.
Qed.

(** The first character of a list: neither a space nor the bracket that closes the list. *)
Lemma sep_by_first c r l u : exists r', sep_by (String c r :: l) +:+ u = String c r'.
Proof.
  destruct l as [|y l]; [by exists (r +:+ u)|]. exists (r +:+ String "," (sep_by (y :: l) +:+ u)). by rewrite sep_by_cons.
Qed.

Lemma parse_array f l t :
  reads_back f -> Forall json_ok l -> (2 * String.length (print (JArr l)) + 1 <= S f)%nat ->
  parse_value (S f) (print (JArr l) +:+ t) = Some (JArr l, t).
Proof.
  intros IH HF Hf. destruct l as [|j l]; [done|].
  change (print (JArr (j :: l)) +:+ t) with (String "[" ((sep_by (print <$> j :: l) +:+ "]") +:+ t)).
  change (String.length (print (JArr (j :: l)))) with (S (String.length (sep_by (print <$> j :: l) +:+ "]"))) in Hf.
  rewrite length_append in Hf. change (String.length "]") with 1%nat in Hf. rewrite append_assoc. change ("]" +:+ t) with (String "]" t).
  pose proof (rb_elements f IH (j :: l) t HF ltac:(done) ltac:(lia)) as He.
  apply Forall_cons in HF as [Hj _]. destruct (print_head j Hj) as (c & r & Ec & Hs & Hc).
  rewrite fmap_cons, Ec in *. destruct (sep_by_first c r (print <$> l) (String "]" t)) as [r' Er]. rewrite Er in *.
  cbn [parse_value]. parse_step. by rewrite Hc, He.
Qed.

Lemma parse_object f l t :
  reads_back f -> Forall (fun kv => utf8_valid 0 kv.1 = true /\ json_ok kv.2) l ->
  (2 * String.length (print (JObj l)) + 1 <= S f)%nat ->
  parse_value (S f) (print (JObj l) +:+ t) = Some (JObj l, t).
Proof.
  intros IH HF Hf. destruct l as [|kv l]; [done|].
  change (print (JObj (kv :: l)) +:+ t) with (String "{" ((sep_by (print_member <$> kv :: l) +:+ "}") +:+ t)).
  change (String.length (print (JObj (kv :: l)))) with (S (String.length (sep_by (print_member <$> kv :: l) +:+ "}"))) in Hf.
  rewrite length_append in Hf. change (String.length "}") with 1%nat in Hf. rewrite append_assoc. change ("}" +:+ t) with (String "}" t).
  pose proof (rb_members f IH (kv :: l) t HF ltac:(done) ltac:(lia)) as He.
  rewrite fmap_cons in *. unfold print_member at 1 in He. unfold print_member at 1. rewrite quote_append in *.
  destruct (sep_by_first quotation_mark (quote_body 0 kv.1 +:+ String quotation_mark (String ":" (print kv.2)))
    (print_member <$> l) (String "}" t)) as [r' Er]. rewrite Er in *.
  cbn [parse_value]. parse_step. by rewrite He.
Qed.

Lemma reads_back_all f : reads_back f.
Proof.
  induction f as [|f IH]; [by constructor; intros; lia|]. constructor.
  - intros j t Hj Ht Hf. destruct Hj as [|[]|lit H|s Hs|l HF|l HF]; try done.
    + by apply parse_number.
    + change (print (JStr s)) with (quote s). rewrite quote_append. cbn [parse_value]. parse_step.
      rewrite Ascii.eqb_refl, scan_quote by done. cbn [mbind option_bind]. by rewrite unquote_quote.
    + by apply parse_array.
    + by apply parse_object.
  - intros l t. by apply reads_back_elements.
  - intros l t. by apply reads_back_members.
Qed.

(** The text of a tree is read as the tree. *)
Lemma parse_print j : json_ok j -> parse_json (print j) = Ok j.
Proof.
  intros Hj. unfold parse_json. pose proof (rb_value _ (reads_back_all (2 * String.length (print j) + 1)) j "" Hj eq_refl) as H.
  rewrite append_nil_r in H. by rewrite H.
Qed.

Lemma Unmarshal_print {A} (f : json -> res A) j : json_ok j -> Unmarshal f (Some (print j)) = f j.
Proof.
  intros Hj. unfold Unmarshal. change (string_of_bytes (Some (print j))) with (print j). by rewrite parse_print.
Qed.

(** ** The fuel is enough *)

Lemma prepend_Some p r s t : prepend p r = Some (s, t) -> exists s', r = Some (s', t).
Proof. destruct r as [[s' t']|]; [|done]. intros [= _ <-]. by exists s'. Qed.

Lemma skip_space_length s : (String.length (skip_space s) <= String.length s)%nat.
Proof. induction s as [|c s IH]; [done|]. cbn [skip_space]. destruct (is_space c); simpl; lia. Qed.

Lemma scan_string_length s b t : scan_string s = Some (b, t) -> (String.length t < String.length s)%nat.
Proof.
  remember (String.length s) as n eqn:Hn. revert s Hn b. induction (lt_wf n) as [n _ IH]. intros s -> b H.
  destruct s as [|c s]; [done|]. cbn [scan_string] in H. destruct (Ascii.eqb c quotation_mark).
  { injection H as _ <-. simpl. lia. }
  assert (forall p u b', (String.length u <= String.length s)%nat -> prepend p (scan_string u) = Some (b', t) ->
    (String.length t < String.length (String c s))%nat) as Hrec.
  { intros p u b' Hu [b2 E]%prepend_Some. apply (IH (String.length u) ltac:(simpl; lia) u eq_refl) in E. simpl. lia. }
  destruct (Ascii.eqb c backslash).
  - destruct s as [|e s]; [done|]. destruct (simple_escape e); [apply Hrec in H; [done|simpl; lia]|].
    destruct (Ascii.eqb e "u"); [|done]. destruct s as [|h1 [|h2 [|h3 [|h4 s]]]]; try done.
    destruct (hex_val h1), (hex_val h2), (hex_val h3), (hex_val h4); try done.
    apply Hrec in H; [done|simpl; lia].
  - destruct (_ <? _); [done|]. by apply Hrec in H.
Qed.

Lemma span_digits_length s : (String.length (span_digits s).1 + String.length (span_digits s).2 = String.length s)%nat.
Proof.
  induction s as [|c s IH]; [done|]. cbn [span_digits]. destruct (byte_in 48 57 c); [|done].
  destruct (span_digits s) as [d t]. simpl in *. lia.
Qed.

Lemma scan_digits_length s d t : scan_digits s = Some (d, t) -> (String.length t < String.length s)%nat.
Proof.
  unfold scan_digits. pose proof (span_digits_length s) as H. destruct (span_digits s) as [[|c d'] t']; [done|].
  intros [= _ <-]. simpl in *. lia.
Qed.

Lemma scan_number_length s lit t : scan_number s = Some (lit, t) -> (String.length t < String.length s)%nat.
Proof.
  assert (forall u i v, scan_int u = Some (i, v) -> (String.length v < String.length u)%nat) as Hi.
  { intros [|c u] i v; [done|]. unfold scan_int. destruct (Ascii.eqb c "0"); [|by apply scan_digits_length].
    intros [= _ <-]. simpl. lia. }
  assert (forall u i v, scan_fraction u = Some (i, v) -> (String.length v <= String.length u)%nat) as Hf.
  { intros [|c u] i v; [by intros [= _ <-]|]. unfold scan_fraction. destruct (Ascii.eqb c "."); [|by intros [= _ <-]].
    intros [d H]%prepend_Some. apply scan_digits_length in H. simpl. lia. }
  assert (forall u i v, scan_exponent u = Some (i, v) -> (String.length v <= String.length u)%nat) as He.
  { intros [|c u] i v; [by intros [= _ <-]|]. unfold scan_exponent. destruct (_ || _); [|by intros [= _ <-]].
    intros [d H]%prepend_Some. destruct u as [|c1 u]; [done|]. destruct (_ || _).
    - apply prepend_Some in H as [d1 H]. apply scan_digits_length in H. simpl. lia.
    - apply scan_digits_length in H. simpl in *. lia. }
  assert (forall u i v, scan_unsigned u = Some (i, v) -> (String.length v < String.length u)%nat) as Hu.
  { intros u i v H. unfold scan_unsigned in H.
    apply bind_Some in H as ([i1 u1] & H1 & H). apply bind_Some in H as ([i2 u2] & H2 & H).
    apply bind_Some in H as ([i3 u3] & H3 & H). injection H as _ <-. apply Hi in H1. apply Hf in H2. apply He in H3. lia. }
  destruct s as [|c s]; [done|]. unfold scan_number. destruct (Ascii.eqb c "-"); [|apply Hu].
  intros [d H]%prepend_Some. apply Hu in H. simpl. lia.
Qed.

Lemma expect_length w s t : expect w s = Some t -> (String.length t <= String.length s)%nat.
Proof.
  revert s. induction w as [|a w IH]; intros s H; [by injection H as <-|]. destruct s as [|b s]; [done|]. simpl in *.
  destruct (Ascii.eqb a b); [|done]. apply IH in H. lia.
Qed.

(** A call leaves less than it was given. *)
Record consumes (f : nat) : Prop := {
  cs_value s j t : parse_value f s = Some (j, t) -> (String.length t < String.length s)%nat;
  cs_elements s l t : parse_elements f s = Some (l, t) -> (String.length t < String.length s)%nat;
  cs_members s l t : parse_members f s = Some (l, t) -> (String.length t < String.length s)%nat
}.

(** Case analysis of a call that returned. *)
Ltac parse_inv H :=
  repeat match type of H with
  | (_ ≫= _) = Some _ => let x := fresh "x" in let E := fresh "E" in apply bind_Some in H as (x & E & H)
  | (let '(_, _) := ?x in _) = Some _ => destruct x
  | match skip_space ?s with _ => _ end = Some _ =>
      let Hl := fresh "Hl" in pose proof (skip_space_length s) as Hl; destruct (skip_space s); [done|]
  | (if ?b then _ else _) = Some _ => destruct b
  | None = Some _ => discriminate H
  end.

Lemma consumes_all f : consumes f.
Proof.
  induction f as [|f IH]; [by constructor|].
  constructor; intros s r t H; cbn [parse_value parse_elements parse_members] in H; parse_inv H; injection H as _ <-;
    repeat match goal with
    | E : parse_value f _ = _ |- _ => apply (cs_value f IH) in E
    | E : parse_elements f _ = _ |- _ => apply (cs_elements f IH) in E
    | E : parse_members f _ = _ |- _ => apply (cs_members f IH) in E
    | E : scan_string _ = _ |- _ => apply scan_string_length in E
    | E : scan_number _ = _ |- _ => apply scan_number_length in E
    | E : expect _ _ = _ |- _ => apply expect_length in E
    end; simpl in *; lia.
Qed.

(** A call depends only on the calls it makes, which are on shorter texts. *)
Lemma value_ext f1 f2 s :
  (forall t, (String.length t < String.length s)%nat ->
    parse_elements f1 t = parse_elements f2 t /\ parse_members f1 t = parse_members f2 t) ->
  parse_value (S f1) s = parse_value (S f2) s.
Proof.
  intros H. cbn [parse_value]. pose proof (skip_space_length s) as Hl. destruct (skip_space s) as [|c rest]; [done|].
  simpl in Hl. destruct (H rest) as [-> ->]; [lia|done].
Qed.

Lemma elements_ext f1 f2 s :
  parse_value f1 s = parse_value f2 s ->
  (forall t, (String.length t < String.length s)%nat -> parse_elements f1 t = parse_elements f2 t) ->
  parse_elements (S f1) s = parse_elements (S f2) s.
Proof.
  intros Hv H. cbn [parse_elements]. rewrite Hv. destruct (parse_value f2 s) as [[j t]|] eqn:E; [|done]. cbn [mbind option_bind].
  apply (cs_value f2 (consumes_all f2)) in E. pose proof (skip_space_length t) as Hl.
  destruct (skip_space t) as [|c rest]; [done|]. simpl in Hl. by rewrite (H rest) by lia.
Qed.

Lemma members_ext f1 f2 s :
  (forall t, (String.length t < String.length s)%nat ->
    parse_value f1 t = parse_value f2 t /\ parse_members f1 t = parse_members f2 t) ->
  parse_members (S f1) s = parse_members (S f2) s.
Proof.
  intros H. cbn [parse_members]. pose proof (skip_space_length s) as Hl. destruct (skip_space s) as [|c rest]; [done|]. simpl in Hl.
  destruct (Ascii.eqb c quotation_mark); [|done]. destruct (scan_string rest) as [[b t]|] eqn:E; [|done]. cbn [mbind option_bind].
  apply scan_string_length in E. pose proof (skip_space_length t) as Hl1. destruct (skip_space t) as [|c1 r1]; [done|]. simpl in Hl1.
  destruct (Ascii.eqb c1 ":"); [|done]. destruct (H r1) as [-> _]; [lia|].
  destruct (parse_value f2 r1) as [[j u]|] eqn:E1; [|done]. cbn [mbind option_bind].
  apply (cs_value f2 (consumes_all f2)) in E1. pose proof (skip_space_length u) as Hl2.
  destruct (skip_space u) as [|c2 r2]; [done|]. simpl in Hl2. destruct (H r2) as [_ ->]; [lia|done].
Qed.

(** Any fuel above the bound gives the same answer. *)
Lemma parse_fuel f1 f2 s :
  ((2 * String.length s + 1 <= f1)%nat -> (2 * String.length s + 1 <= f2)%nat -> parse_value f1 s = parse_value f2 s) /\
  ((2 * String.length s + 2 <= f1)%nat -> (2 * String.length s + 2 <= f2)%nat ->
    parse_elements f1 s = parse_elements f2 s /\ parse_members f1 s = parse_members f2 s).
Proof.
  revert f2 s. induction f1 as [|f1 IH]; intros f2 s; [lia|]. destruct f2 as [|f2]; [lia|]. split; intros H1 H2.
  - apply value_ext. intros t Ht. apply IH; lia.
  - split; [apply elements_ext; [apply IH; lia|]|apply members_ext]; intros t Ht.
    + apply IH; lia.
    + split; [apply IH; lia|]. apply IH; lia.
Qed.

(** So a text that [parse_json] rejects is rejected with any fuel. *)
Lemma parse_json_fuel f s :
  (2 * String.length s + 1 <= f)%nat ->
  parse_json s = match parse_value f s with
                 | Some (j, t) => match skip_space t with EmptyString => Ok j | _ => Err ErrJSONSyntax end
                 | None => Err ErrJSONSyntax
                 end.
Proof. intros Hf. unfold parse_json. by rewrite (proj1 (parse_fuel (2 * String.length s + 1) f s)) by lia. Qed.

(** ** What is read is valid UTF-8 *)

Lemma byte_val_of z : 0 <= z < 256 -> byte_val (byte_of z) = z.
Proof. intros Hz. unfold byte_val, byte_of. rewrite N_ascii_embedding by lia. lia. Qed.

Lemma utf8_valid_ascii c t : (byte_val c <? 128) = true -> utf8_valid 0 (String c t) = utf8_valid 0 t.
Proof. intros H. cbn [utf8_valid utf8_size]. unfold utf8_size. by rewrite H. Qed.

Lemma utf8_valid_wide p t : wide p -> utf8_valid 0 (p +:+ t) = utf8_valid 0 t.
Proof.
  intros Hw. pose proof (utf8_size_wide p t Hw) as Hs. destruct p as [|c p]; [by inversion Hw|].
  change (String c p +:+ t) with (String c (p +:+ t)) in *. cbn [utf8_valid]. rewrite Hs. apply (utf8_valid_skip p).
Qed.

Ltac euclid := Z.to_euclidean_division_equations; lia.

(** Proving a test on bytes that were computed. *)
Ltac byte_test := unfold byte_in; rewrite ?andb_true_iff, ?andb_false_iff, ?Z.leb_le, ?Z.leb_gt, ?Z.ltb_ge, ?byte_val_of by euclid; euclid.

Lemma encode_rune_wide r :
  128 <= r < 1114112 -> is_surrogate r = false -> wide (encode_rune r).
Proof.
  intros Hr Hs. unfold encode_rune. rewrite (proj2 (Z.ltb_ge r 128)) by lia.
  destruct (r <? 2048) eqn:E1; simp_bool.
  { constructor; [byte_test|]. rewrite andb_true_iff. unfold utf8_cont. split; byte_test. }
  destruct (r <? 65536) eqn:E2; simp_bool.
  - assert (r < 55296 \/ 57344 <= r) as Hsur by (unfold is_surrogate in Hs; apply andb_false_iff in Hs as [?|?]; simp_bool; lia).
    constructor; [byte_test|rewrite andb_false_iff; left; byte_test|].
    rewrite andb_true_iff. split; [|unfold utf8_cont; byte_test]. unfold utf8_lead3, utf8_cont. rewrite !byte_val_of by euclid.
    destruct (Z.eqb_spec (224 + r / 4096) 224); [byte_test|]. destruct (Z.eqb_spec (224 + r / 4096) 237); [byte_test|].
    rewrite andb_true_iff. split; byte_test.
  - constructor; [byte_test|rewrite andb_false_iff; left; byte_test| |].
    + rewrite andb_false_iff. left. unfold utf8_lead3. rewrite !byte_val_of by euclid.
      destruct (Z.eqb_spec (240 + r / 262144) 224); [euclid|]. destruct (Z.eqb_spec (240 + r / 262144) 237); [euclid|].
      rewrite andb_false_iff. left. byte_test.
    + rewrite !andb_true_iff. unfold utf8_lead4, utf8_cont. split_and!; [|byte_test|byte_test]. rewrite !byte_val_of by euclid.
      destruct (Z.eqb_spec (240 + r / 262144) 240); [byte_test|]. destruct (Z.eqb_spec (240 + r / 262144) 244); [byte_test|].
      rewrite andb_true_iff. split; byte_test.
Qed.

Lemma encode_rune_valid r t :
  0 <= r < 1114112 -> is_surrogate r = false -> utf8_valid 0 (encode_rune r +:+ t) = utf8_valid 0 t.
Proof.
  intros Hr Hs. destruct (Z.le_gt_cases 128 r) as [H|H]; [apply utf8_valid_wide, encode_rune_wide; [lia|done]|].
  unfold encode_rune. rewrite (proj2 (Z.ltb_lt r 128)) by lia. apply (utf8_valid_ascii (byte_of r) t).
  apply Z.ltb_lt. rewrite byte_val_of; lia.
Qed.

Lemma simple_escape_ascii e d : simple_escape e = Some d -> (byte_val d <? 128) = true.
Proof. all_bytes e; intros [= <-]; done. Qed.

Lemma getu4_range h1 h2 h3 h4 : 0 <= getu4 h1 h2 h3 h4 < 65536.
Proof.
  assert (forall h, 0 <= default 0 (hex_val h) < 16) as H by (intros h; all_bytes h; vm_compute; split; congruence).
  pose proof (H h1). pose proof (H h2). pose proof (H h3). pose proof (H h4). unfold getu4. cbv zeta. lia.
Qed.

Lemma utf16_decode_range r1 r2 r : utf16_decode r1 r2 = Some r -> 65536 <= r < 1114112.
Proof. unfold utf16_decode. destruct (_ && _) eqn:E; [|done]. simp_bool. intros [= <-]. lia. Qed.

Lemma RuneError_valid t : utf8_valid 0 (encode_rune RuneError +:+ t) = utf8_valid 0 t.
Proof. by apply encode_rune_valid. Qed.

(** The effect of an escape with four digits. *)
Lemma unquote_u4_valid e h1 h2 h3 h4 s :
  simple_escape e = None ->
  (forall t, (String.length t <= String.length s)%nat -> utf8_valid 0 (unquote 0 t) = true) ->
  utf8_valid 0 (unquote 0 (String backslash (String e (String h1 (String h2 (String h3 (String h4 s))))))) = true.
Proof.
  intros He IH. cbn [unquote]. rewrite Ascii.eqb_refl, He. pose proof (getu4_range h1 h2 h3 h4) as Hr.
  destruct (is_surrogate (getu4 h1 h2 h3 h4)) eqn:Es; [|rewrite encode_rune_valid by (done || lia); by apply IH].
  destruct s as [|b [|u [|g1 [|g2 [|g3 [|g4 s']]]]]]; try (rewrite RuneError_valid; by apply IH).
  destruct (if Ascii.eqb b backslash && Ascii.eqb u "u" then _ else None) as [r|] eqn:Ep; [|rewrite RuneError_valid; by apply IH].
  destruct (Ascii.eqb b backslash && Ascii.eqb u "u"); [|done]. apply utf16_decode_range in Ep.
  rewrite encode_rune_valid; [apply IH; simpl; lia|lia|]. unfold is_surrogate. rewrite andb_false_iff, Z.ltb_ge. lia.
Qed.

Lemma unquote_valid s : utf8_valid 0 (unquote 0 s) = true.
Proof.
  remember (String.length s) as n eqn:Hn. revert s Hn. induction (lt_wf n) as [n _ IH]. intros s ->.
  assert (forall t, (String.length t < String.length s)%nat -> utf8_valid 0 (unquote 0 t) = true) as Hrec
    by (intros t Ht; by eapply (IH (String.length t))).
  destruct s as [|c s]; [done|]. simpl in Hrec. destruct (Ascii.eqb_spec c backslash) as [->|Hc].
  - destruct s as [|e s]; [done|]. destruct (simple_escape e) as [d|] eqn:He.
    + cbn [unquote]. rewrite Ascii.eqb_refl, He, utf8_valid_ascii by (by eapply simple_escape_ascii). apply Hrec. simpl. lia.
    + destruct s as [|h1 [|h2 [|h3 [|h4 s]]]]; try (cbn [unquote]; by rewrite Ascii.eqb_refl, He).
      apply unquote_u4_valid; [done|]. intros t Ht. apply Hrec. simpl. lia.
  - destruct (utf8_size (String c s)) as [k|] eqn:Ek.
    + apply utf8_size_spec in Ek as [(c' & t & [= <- <-] & Hlt & ->)|(p & t & Hs & Hw & _)].
      * cbn [unquote]. rewrite (proj2 (Ascii.eqb_neq _ _) Hc), Hlt, utf8_valid_ascii by done. apply Hrec. lia.
      * rewrite Hs, unquote_wide, utf8_valid_wide by done. apply Hrec. apply (f_equal String.length) in Hs.
        rewrite length_append in Hs. simpl in Hs. destruct p; [by inversion Hw|simpl in Hs; lia].
    + cbn [unquote]. rewrite (proj2 (Ascii.eqb_neq _ _) Hc), Ek. unfold utf8_size in Ek. destruct (byte_val c <? 128); [done|].
      rewrite RuneError_valid. apply Hrec. lia.
Qed.

(** Trees whose strings are valid. *)
#[warnings="-register-all"]
Inductive json_utf8 : json -> Prop :=
| utf8_null : json_utf8 JNull
| utf8_bool b : json_utf8 (JBool b)
| utf8_num lit : json_utf8 (JNum lit)
| utf8_str s : utf8_valid 0 s = true -> json_utf8 (JStr s)
| utf8_arr l : Forall json_utf8 l -> json_utf8 (JArr l)
| utf8_obj l : Forall (fun kv => json_utf8 kv.2) l -> json_utf8 (JObj l).

Record parses_utf8 (f : nat) : Prop := {
  pu_value s j t : parse_value f s = Some (j, t) -> json_utf8 j;
  pu_elements s l t : parse_elements f s = Some (l, t) -> Forall json_utf8 l;
  pu_members s l t : parse_members f s = Some (l, t) -> Forall (fun kv => json_utf8 kv.2) l
}.

Lemma parses_utf8_all f : parses_utf8 f.
Proof.
  induction f as [|f IH]; [by constructor|].
  constructor; intros s r t H; cbn [parse_value parse_elements parse_members] in H; parse_inv H; injection H as <- _;
    repeat constructor; simpl; eauto using unquote_valid, pu_value, pu_elements, pu_members.
Qed.

Lemma parse_json_utf8 s j : parse_json s = Ok j -> json_utf8 j.
Proof.
  unfold parse_json. destruct (parse_value _ s) as [[j' t]|] eqn:E; [|done]. destruct (skip_space t); [|done].
  intros [= <-]. by eapply pu_value in E; [|apply parses_utf8_all].
Qed.

Lemma Unmarshal_Ok {A} (f : json -> res A) data a :
  Unmarshal f data = Ok a -> exists j, json_utf8 j /\ f j = Ok a.
Proof.
  unfold Unmarshal. destruct (parse_json _) as [j|] eqn:E; [|done]. intros H. exists j. split; [by eapply parse_json_utf8|done].
Qed.

(** What the stores of all fields preserve, reading a struct preserves. *)
Lemma find_field_elem {A} (fs : fields A) name store : find_field fs name = Some store -> store ∈ fs.*2.
Proof.
  unfold find_field. intros H. destruct (find _ fs) as [f|] eqn:E1.
  - injection H as <-. apply find_some in E1 as [E1%list_elem_of_In _]. by apply list_elem_of_fmap_2.
  - destruct (find (fun f => String.eqb (fold_name f.1) (fold_name name)) fs) as [f|] eqn:E2; [|done].
    injection H as <-. apply find_some in E2 as [E2%list_elem_of_In _]. by apply list_elem_of_fmap_2.
Qed.

Lemma read_struct_inv {A} (P : A -> Prop) (fs : fields A) j a a' :
  Forall (fun store : json -> A -> res A => forall j a a', json_utf8 j -> P a -> store j a = Ok a' -> P a') fs.*2 ->
  json_utf8 j -> P a -> read_struct fs j a = Ok a' -> P a'.
Proof.
  intros HF Hj Ha H. destruct j as [| | | | |l]; try done; simpl in H; [by injection H as <-|].
  inversion Hj as [| | | | |l' Hl]; subst. revert a Ha H. induction Hl as [|[name j] l Hj' Hl IH]; intros a Ha H; simpl in H; [by injection H as <-|].
  destruct (find_field fs name) as [store|] eqn:Ef; [|by eapply IH; [by constructor|exact Ha|]].
  destruct (store j a) as [a1|] eqn:Es; [|done]. simpl in H. apply IH in H; [done|by constructor|].
  apply find_field_elem in Ef. rewrite Forall_forall in HF. by eapply HF.
Qed.
