(* ===== verification/Float64.v ===== *)
(** * float64

    A [float64] is a rational number rounded to 53 significant bits, to nearest and ties to even,
    without exponent bounds. *)
From Stdlib Require Import ZArith QArith Qround Lia Lqa.
From stdpp Require Import base tactics.
From S2P Require Import Prelude.
Open Scope Z_scope.

(** ** Rounding *)

(** The exponent [e] of [n / d] with [2^e <= n / d < 2^(e+1)]. *)
Definition qlog2 (n d : Z) : Z :=
  let e := Z.log2 n - Z.log2 d in
  if (if 0 <=? e then d * 2 ^ e <=? n else d <=? n * 2 ^ (- e)) then e else e - 1.

(** Round half to even. *)
Definition div_round_even (n d : Z) : Z :=
  let q := n / d in
  let r := n mod d in
  if 2 * r <? d then q
  else if d <? 2 * r then q + 1
  else if Z.even q then q else q + 1.

(** The nearest [float64] of a non-negative rational in the normal range. *)
Definition float64 (x : Q) : Q :=
  let n := Qnum x in
  let d := Zpos (Qden x) in
  if n <=? 0 then 0%Q
  else
    let k := 52 - qlog2 n d in
    if 0 <=? k then div_round_even (n * 2 ^ k) d # Z.to_pos (2 ^ k)
    else inject_Z (div_round_even n (d * 2 ^ (- k)) * 2 ^ (- k)).

(** ** Errors *)

Lemma div_round_even_error n d : 0 < d -> - d <= 2 * (d * div_round_even n d - n) <= d.
Proof.
  intros Hd. unfold div_round_even. pose proof (Z.div_mod n d ltac:(lia)) as E.
  pose proof (Z.mod_pos_bound n d Hd) as Hr. destruct (2 * (n mod d) <? d) eqn:E1; simp_bool; [nia|].
  destruct (d <? 2 * (n mod d)) eqn:E2; simp_bool; [nia|]. destruct (Z.even _); nia.
Qed.

Lemma qlog2_lower n d :
  0 < n -> 0 < d -> if 0 <=? qlog2 n d then d * 2 ^ qlog2 n d <= n else d <= n * 2 ^ (- qlog2 n d).
Proof.
  intros Hn Hd. unfold qlog2. set (e := Z.log2 n - Z.log2 d).
  destruct (Z.log2_spec n Hn) as [Hn1 Hn2], (Z.log2_spec d Hd) as [Hd1 Hd2].
  pose proof (Z.log2_nonneg n). pose proof (Z.log2_nonneg d).
  destruct (if 0 <=? e then d * 2 ^ e <=? n else d <=? n * 2 ^ (- e)) eqn:E.
  - destruct (0 <=? e); simp_bool; done.
  - clear E. destruct (Z.leb_spec 0 (e - 1)) as [H1|H1].
    + (* d * 2^(e-1) < 2^(log2 d + 1) * 2^(e-1) = 2^(log2 n) <= n *)
      assert (2 ^ Z.log2 n = 2 ^ Z.succ (Z.log2 d) * 2 ^ (e - 1)) as E.
      { rewrite <- Z.pow_add_r by lia. f_equal. lia. }
      assert (0 < 2 ^ (e - 1)) by (apply Z.pow_pos_nonneg; lia). nia.
    + assert (2 ^ Z.succ (Z.log2 d) = 2 ^ Z.log2 n * 2 ^ (- (e - 1))) as E.
      { rewrite <- Z.pow_add_r by lia. f_equal. lia. }
      assert (0 < 2 ^ (- (e - 1))) by (apply Z.pow_pos_nonneg; lia). nia.
Qed.

(** The scaled numerator has at least 53 bits. *)
Lemma qlog2_scaled n d :
  0 < n -> 0 < d -> qlog2 n d <= 52 -> d * 2 ^ 52 <= n * 2 ^ (52 - qlog2 n d).
Proof.
  intros Hn Hd Hle. pose proof (qlog2_lower n d Hn Hd) as Hl. destruct (Z.leb_spec 0 (qlog2 n d)) as [H|H].
  - replace (2 ^ 52) with (2 ^ qlog2 n d * 2 ^ (52 - qlog2 n d)) by (rewrite <- Z.pow_add_r by lia; f_equal; lia).
    assert (0 < 2 ^ (52 - qlog2 n d)) by (apply Z.pow_pos_nonneg; lia). nia.
  - replace (52 - qlog2 n d) with (- qlog2 n d + 52) by lia. rewrite Z.pow_add_r by lia.
    assert (0 < 2 ^ 52) by lia. nia.
Qed.

Lemma qlog2_upper n d : 0 < n -> 0 < d -> n < d * 2 ^ 53 -> qlog2 n d <= 52.
Proof.
  intros Hn Hd Hlt. pose proof (qlog2_lower n d Hn Hd) as Hl. destruct (Z.leb_spec 0 (qlog2 n d)) as [H|H]; [|lia].
  destruct (Z.le_gt_cases (qlog2 n d) 52); [done|].
  assert (2 ^ 53 <= 2 ^ qlog2 n d) by (apply Z.pow_le_mono_r; lia). nia.
Qed.

(** The relative error of rounding is at most 2^-53. *)
Definition ulp_half : Q := 1 # 9007199254740992.

(** Powers of two as literals, for linear arithmetic over rationals. *)
Ltac qconst :=
  change (inject_Z (2 ^ 31)) with (2147483648 # 1)%Q in *;
  change (inject_Z (2 ^ 53)) with (9007199254740992 # 1)%Q in *;
  change (inject_Z 1) with 1%Q in *;
  unfold ulp_half in *.

Lemma float64_error (x : Q) :
  (0 <= x)%Q -> (x < inject_Z (2 ^ 53))%Q ->
  (x * (1 - ulp_half) <= float64 x /\ float64 x <= x * (1 + ulp_half))%Q.
Proof.
  destruct x as [n d]. intros Hx Hlt. unfold Qle, Qlt in Hx, Hlt. simpl in Hx, Hlt.
  unfold float64. cbn [Qnum Qden]. destruct (n <=? 0) eqn:En; simp_bool.
  { assert (n = 0) as -> by lia. unfold Qle. simpl. lia. }
  assert (qlog2 n (Zpos d) <= 52) as Hq by (apply qlog2_upper; lia).
  rewrite (proj2 (Z.leb_le 0 (52 - qlog2 n (Zpos d)))) by lia.
  pose proof (qlog2_scaled n (Zpos d) ltac:(lia) ltac:(lia) Hq) as Hs.
  set (k := 52 - qlog2 n (Zpos d)) in *. set (N := n * 2 ^ k) in *.
  pose proof (div_round_even_error N (Zpos d) ltac:(lia)) as He. set (m := div_round_even N (Zpos d)) in *.
  assert (0 < 2 ^ k) as Hk by (apply Z.pow_pos_nonneg; lia).
  assert (N * (2 ^ 53 - 1) <= Zpos d * m * 2 ^ 53 <= N * (2 ^ 53 + 1)) as [Hlo Hhi]
    by (generalize dependent (Zpos d * m); intros; lia).
  unfold ulp_half, Qle, Qmult. cbn [Qnum Qden]. rewrite !Pos2Z.inj_mul, !Z2Pos.id by lia.
  change (Qnum (1 - (1 # 9007199254740992))%Q) with (2 ^ 53 - 1). change (Zpos (Qden (1 - (1 # 9007199254740992))%Q)) with (2 ^ 53).
  change (Qnum (1 + (1 # 9007199254740992))%Q) with (2 ^ 53 + 1). change (Zpos (Qden (1 + (1 # 9007199254740992))%Q)) with (2 ^ 53).
  unfold N in Hlo, Hhi. split.
  - replace (n * (2 ^ 53 - 1) * 2 ^ k) with (n * 2 ^ k * (2 ^ 53 - 1)) by ring.
    replace (m * (Zpos d * 2 ^ 53)) with (Zpos d * m * 2 ^ 53) by ring. exact Hlo.
  - replace (n * (2 ^ 53 + 1) * 2 ^ k) with (n * 2 ^ k * (2 ^ 53 + 1)) by ring.
    replace (m * (Zpos d * 2 ^ 53)) with (Zpos d * m * 2 ^ 53) by ring. exact Hhi.
Qed.

(** Integers up to 2^53 are exact. *)
Lemma float64_int n : 0 <= n < 2 ^ 53 -> (float64 (inject_Z n) == inject_Z n)%Q.
Proof.
  intros Hn. unfold float64. cbn [Qnum Qden inject_Z]. destruct (n <=? 0) eqn:En; simp_bool.
  { assert (n = 0) as -> by lia. reflexivity. }
  assert (qlog2 n 1 <= 52) as Hq by (apply qlog2_upper; lia).
  rewrite (proj2 (Z.leb_le 0 (52 - qlog2 n 1))) by lia. set (k := 52 - qlog2 n 1) in *.
  assert (0 < 2 ^ k) as Hk by (apply Z.pow_pos_nonneg; lia).
  unfold div_round_even. rewrite Z.div_1_r, Z.mod_1_r. unfold Qeq. cbn [Qnum Qden inject_Z].
  change (2 * 0 <? 1) with true. cbv iota. rewrite Z2Pos.id by lia. lia.
Qed.

Lemma qlog2_half n d : 0 < n -> 0 < d -> d <= 2 * n -> -1 <= qlog2 n d.
Proof.
  intros Hn Hd H. assert (Z.log2 d <= Z.log2 n + 1) as Hl.
  { transitivity (Z.log2 (2 * n)); [by apply Z.log2_le_mono|]. rewrite Z.log2_double by lia. lia. }
  unfold qlog2. set (e := Z.log2 n - Z.log2 d). destruct (Z.leb_spec 0 e) as [He|He].
  - destruct (_ <=? _); lia.
  - assert (e = -1) as -> by lia. rewrite (proj2 (Z.leb_le d (n * 2 ^ (- -1)))) by (change (2 ^ (- -1)) with 2; lia). lia.
Qed.

(** Rounding does not cross one half. *)
Lemma float64_half (x : Q) : ((1 # 2) <= x)%Q -> (x < inject_Z (2 ^ 53))%Q -> ((1 # 2) <= float64 x)%Q.
Proof.
  destruct x as [n d]. intros Hx Hlt. unfold Qle, Qlt in Hx, Hlt. cbn [Qnum Qden inject_Z] in Hx, Hlt.
  unfold float64. cbn [Qnum Qden]. rewrite (proj2 (Z.leb_gt n 0)) by lia.
  assert (qlog2 n (Zpos d) <= 52) as Hq by (apply qlog2_upper; lia).
  assert (-1 <= qlog2 n (Zpos d)) as Hq1 by (apply qlog2_half; lia).
  rewrite (proj2 (Z.leb_le 0 (52 - qlog2 n (Zpos d)))) by lia.
  pose proof (qlog2_scaled n (Zpos d) ltac:(lia) ltac:(lia) Hq) as Hs.
  assert (2 ^ (52 - qlog2 n (Zpos d)) <= 2 ^ 53) as Hk by (apply Z.pow_le_mono_r; lia).
  set (k := 52 - qlog2 n (Zpos d)) in *. assert (0 < 2 ^ k) as Hk0 by (apply Z.pow_pos_nonneg; lia).
  assert (2 ^ 52 <= div_round_even (n * 2 ^ k) (Zpos d)) as Hm.
  { assert (2 ^ 52 <= n * 2 ^ k / Zpos d) as Hd by (apply Z.div_le_lower_bound; lia).
    unfold div_round_even. destruct (_ <? _); [done|]. destruct (_ <? _); [lia|]. destruct (Z.even _); lia. }
  unfold Qle. cbn [Qnum Qden]. rewrite Z2Pos.id by lia. lia.
Qed.

Lemma float64_below_half (x : Q) : (0 <= x)%Q -> (x <= (1 # 2) - (1 # 18014398509481984))%Q -> (float64 x < (1 # 2))%Q.
Proof.
  intros H0 Hx. destruct (float64_error x H0) as [_ H].
  { eapply Qle_lt_trans; [exact Hx|]. by vm_compute. }
  eapply Qle_lt_trans; [exact H|]. unfold ulp_half in *. lra.
Qed.
