(* ===== verification/Storage.v ===== *)
(** * The storage interface

    The interfaces [storage.Storage] and [storage.Iterator] of [storage/storage.go] as type
    classes, and what their clients rely on as classes of laws.  The partition table, the view and
    the processor are proved against the laws; the in-memory and the LevelDB storage discharge
    them. *)
From Stdlib Require Import ZArith Lia.
From stdpp Require Import base gmap strings list sorting.
From S2P Require Import Prelude.
Open Scope Z_scope.

(** [const offsetKey]: the reserved key under which LevelDB and Redis keep the offset. *)
Definition offsetKey : string := "__offset".

(** [type Iterator interface].  [it_Key] and [it_Value] are called after [it_Next] or [it_Seek]
    returned [true]. *)
Class Iterator (I : Type) : Type := {
  it_Next : I -> bool * I;
  it_Err : I -> option error;
  it_Key : I -> bytes;
  it_Value : I -> res bytes;
  it_Release : I -> I;
  it_Seek : bytes -> I -> bool * I
}.

(** [type Storage interface].  A write returns the error, if any, with the new storage; closing a
    channel twice can make [Close] and [MarkRecovered] panic. *)
Class Storage (S I : Type) : Type := {
  st_Open : S -> option error * S;
  st_Close : S -> outcome (option error * S);
  st_Has : string -> S -> res bool;
  st_Get : string -> S -> res bytes;
  st_Set : string -> bytes -> S -> option error * S;
  st_Delete : string -> S -> option error * S;
  st_GetOffset : Z -> S -> res Z;
  st_SetOffset : Z -> S -> option error * S;
  st_MarkRecovered : S -> outcome (option error * S);
  st_Iterator : S -> res I;
  st_IteratorWithRange : bytes -> bytes -> S -> res I
}.

(** What the clients rely on: a healthy storage ([st_ok]) is a finite map together with an offset.
    [st_reserved] are the keys the storage keeps for itself, [st_offset_ok] the offsets that
    [SetOffset] makes readable, [st_unrecovered] that [MarkRecovered] has not been called. *)
Class StorageLaws (S I : Type) `{Storage S I} : Type := {
  st_ok : S -> Prop;
  st_reserved : string -> Prop;
  st_contents : S -> gmap string string;
  st_offset : S -> option Z;
  st_unrecovered : S -> Prop;
  st_offset_ok : S -> Z -> Prop;
  law_Get s k : st_ok s -> ~ st_reserved k -> st_Get k s = Ok (st_contents s !! k);
  law_Has s k : st_ok s -> ~ st_reserved k ->
    st_Has k s = Ok (bool_decide (is_Some (st_contents s !! k)));
  law_Set s k v : st_ok s -> ~ st_reserved k ->
    exists s', st_Set k (Some v) s = (None, s') /\ st_ok s' /\
      st_contents s' = <[k := v]> (st_contents s) /\ st_offset s' = st_offset s /\
      (st_unrecovered s -> st_unrecovered s');
  law_Delete s k : st_ok s -> ~ st_reserved k ->
    exists s', st_Delete k s = (None, s') /\ st_ok s' /\
      st_contents s' = delete k (st_contents s) /\ st_offset s' = st_offset s /\
      (st_unrecovered s -> st_unrecovered s');
  law_GetOffset s d : st_ok s -> st_GetOffset d s = Ok (default d (st_offset s));
  law_SetOffset s o : st_ok s -> in_int64 o ->
    exists s', st_SetOffset o s = (None, s') /\ st_ok s' /\
      st_contents s' = st_contents s /\ (st_offset_ok s o -> st_offset s' = Some o) /\
      (st_unrecovered s -> st_unrecovered s');
  law_offset_pos s o : 0 < o -> st_offset_ok s o;
  law_MarkRecovered s : st_ok s -> st_unrecovered s ->
    exists s', st_MarkRecovered s = Ret (None, s') /\ st_ok s' /\
      st_contents s' = st_contents s /\ st_offset s' = st_offset s
}.

(** The strict order on keys that the iterators follow. *)
Definition string_lt (a b : string) : Prop := String.le a b /\ a <> b.

#[export] Instance string_lt_trans : Transitive string_lt.
Proof.
  intros a b c [Hab Hne] [Hbc Hne']. split; [by transitivity b|].
  intros ->. apply Hne. by apply (anti_symm String.le).
Qed.

Lemma StronglySorted_lt_NoDup l : StronglySorted string_lt l -> NoDup l.
Proof.
  induction 1 as [|x l Hs IH Hall]; constructor; [|done].
  intros Hx. rewrite Forall_forall in Hall. by destruct (Hall x Hx).
Qed.

Lemma Sorted_le_lt l : Sorted String.le l -> NoDup l -> StronglySorted string_lt l.
Proof.
  intros Hs%Sorted_StronglySorted; [|apply _]. induction Hs as [|x l Hs IH Hall]; intros Hnd.
  { constructor. }
  apply NoDup_cons in Hnd as [Hx Hnd]. constructor; [by apply IH|].
  rewrite Forall_forall in *. intros y Hy. split; [by apply Hall|]. by intros ->.
Qed.

(** What an iterator promises: [it_rest] are the pairs that [Next] has not delivered yet; [Next]
    delivers them in order and then reports the end; there is no error. *)
Class IteratorLaws (I : Type) `{Iterator I} : Type := {
  it_ok : I -> Prop;
  it_rest : I -> list (string * string);
  law_Next_nil i : it_ok i -> it_rest i = [] -> (it_Next i).1 = false /\ it_Err (it_Next i).2 = None;
  law_Next_cons i k v l : it_ok i -> it_rest i = (k, v) :: l ->
    (it_Next i).1 = true /\ it_ok (it_Next i).2 /\ it_rest (it_Next i).2 = l /\
    it_Key (it_Next i).2 = Some k /\ it_Value (it_Next i).2 = Ok (Some v)
}.

(** An iterator over a healthy storage delivers a sorted snapshot of its contents, without the
    offset key. *)
Class SnapshotLaws (S I : Type) `{StorageLaws S I} `{IteratorLaws I} : Type := {
  law_Iterator s : st_ok s ->
    exists it, st_Iterator s = Ok it /\ it_ok it /\ StronglySorted string_lt (it_rest it).*1 /\
      forall k v, (k, v) ∈ it_rest it <-> st_contents s !! k = Some v /\ k <> offsetKey
}.

(** The client loop [for it.Next() { ... it.Key() ... it.Value() ... }] for at most [fuel]
    rounds: the pairs seen and, if the loop ended by itself, what [Err] reports then. *)
Fixpoint collect_all {I} `{Iterator I} (fuel : nat) (it : I) : list (bytes * res bytes) * option (option error) :=
  match fuel with
  | O => ([], None)
  | S fuel =>
      match it_Next it with
      | (false, it) => ([], Some (it_Err it))
      | (true, it) =>
          let '(l, fin) := collect_all fuel it in ((it_Key it, it_Value it) :: l, fin)
      end
  end.

(** A client that loops long enough sees exactly the pairs of [it_rest], in order, and no error. *)
Lemma collect_rest {I} `{IteratorLaws I} fuel (it : I) :
  it_ok it -> (length (it_rest it) < fuel)%nat ->
  collect_all fuel it = ((fun kv => (Some kv.1, Ok (Some kv.2))) <$> it_rest it, Some None).
Proof.
  revert it. induction fuel as [|fuel IH]; intros it Hok Hf; [lia|]. simpl.
  destruct (it_rest it) as [|[k v] l] eqn:E.
  - destruct (law_Next_nil it Hok E) as [Hn He]. destruct (it_Next it) as [b it']. simpl in *.
    subst. by rewrite He.
  - destruct (law_Next_cons it k v l Hok E) as (Hn & Hok' & Hl & Hk & Hv).
    destruct (it_Next it) as [b it']. simpl in *. subst.
    rewrite IH by (done || lia). by rewrite Hk, Hv.
Qed.

(** ** The abstract storage *)

(** The writes of a client. *)
Inductive st_write : Type :=
| WSet (key value : string)
| WDelete (key : string)
| WSetOffset (offset : Z).

(** The abstract storage: a map and an offset. *)
Record abs_store : Type := mkAbs { abs_map : gmap string string; abs_offset : option Z }.

Definition abs_write (a : abs_store) (w : st_write) : abs_store :=
  match w with
  | WSet k v => mkAbs (<[k := v]> (abs_map a)) (abs_offset a)
  | WDelete k => mkAbs (delete k (abs_map a)) (abs_offset a)
  | WSetOffset o => mkAbs (abs_map a) (Some o)
  end.

Section abstract.
Context {S I : Type} {ST : Storage S I} {SL : StorageLaws S I}.

Definition st_exec (w : st_write) (s : S) : option error * S :=
  match w with
  | WSet k v => st_Set k (Some v) s
  | WDelete k => st_Delete k s
  | WSetOffset o => st_SetOffset o s
  end.

(** A sequence of writes stops at the first error. *)
Fixpoint st_execs (l : list st_write) (s : S) : option error * S :=
  match l with
  | [] => (None, s)
  | w :: l => let '(err, s) := st_exec w s in
              match err with Some e => (Some e, s) | None => st_execs l s end
  end.

Definition write_ok (w : st_write) : Prop :=
  match w with
  | WSet k _ | WDelete k => ~ st_reserved k
  | WSetOffset o => 0 < o /\ in_int64 o
  end.

Definition abs_of (s : S) : abs_store := mkAbs (st_contents s) (st_offset s).

Lemma st_exec_refines w s :
  st_ok s -> write_ok w -> exists s', st_exec w s = (None, s') /\ st_ok s' /\ abs_of s' = abs_write (abs_of s) w.
Proof.
  intros Hok Hw. unfold abs_of. destruct w as [k v|k|o]; simpl in *.
  - destruct (law_Set s k v Hok Hw) as (s' & E & Hok' & Hc & Ho & _). exists s'. by rewrite Hc, Ho.
  - destruct (law_Delete s k Hok Hw) as (s' & E & Hok' & Hc & Ho & _). exists s'. by rewrite Hc, Ho.
  - destruct Hw as [Hpos Hin]. destruct (law_SetOffset s o Hok Hin) as (s' & E & Hok' & Hc & Ho & _).
    exists s'. rewrite Hc, Ho; [done|]. by apply law_offset_pos.
Qed.

Lemma st_execs_refine l s :
  st_ok s -> Forall write_ok l ->
  exists s', st_execs l s = (None, s') /\ st_ok s' /\ abs_of s' = fold_left abs_write l (abs_of s).
Proof.
  revert s. induction l as [|w l IH]; intros s Hok HF; [by exists s|].
  apply Forall_cons in HF as [Hw HF]. destruct (st_exec_refines w s Hok Hw) as (s1 & E1 & Hok1 & Ha1).
  destruct (IH s1 Hok1 HF) as (s' & E & Hok' & Ha). exists s'. simpl. rewrite E1, <- Ha1. done.
Qed.
End abstract.
