(* ===== verification/Memory.v ===== *)
(** * The in-memory storage

    [storage/memory.go]: a map with a sorted key list, and iterators over snapshots of it. *)
From Stdlib Require Import ZArith Lia.
From stdpp Require Import base gmap strings list sorting.
From S2P Require Import Prelude Storage.
Open Scope Z_scope.

(** ** Data *)

(** [type memory struct]. *)
Record memory : Type := mkMemory {
  mem_keys : list string;
  mem_storage : gmap string string;
  mem_offset : option Z;
  mem_recovered : bool
}.

(** [type memiter struct]; [current] starts at -1. *)
Record memiter : Type := mkMemiter {
  mi_current : Z;
  mi_keys : list string;
  mi_storage : gmap string string
}.

(** ** Operations *)

Definition NewMemory : memory := mkMemory [] ∅ None false.

Definition memory_Has (key : string) (m : memory) : res bool :=
  Ok (bool_decide (is_Some (mem_storage m !! key))).

Definition memory_Get (key : string) (m : memory) : res bytes := Ok (mem_storage m !! key).

Definition memory_Set (key : string) (value : bytes) (m : memory) : option error * memory :=
  match value with
  | None => (Some (ErrNew "cannot write nil value"), m)
  | Some v =>
      let keys := if bool_decide (is_Some (mem_storage m !! key)) then mem_keys m
                  else sort_Strings (mem_keys m ++ [key]) in
      (None, mkMemory keys (<[key := v]> (mem_storage m)) (mem_offset m) (mem_recovered m))
  end.

(** The loop of [Delete]: the first occurrence of the key is cut out. *)
Fixpoint cut_key (key : string) (keys : list string) : list string :=
  match keys with
  | [] => []
  | k :: keys => if String.eqb k key then keys else k :: cut_key key keys
  end.

Definition memory_Delete (key : string) (m : memory) : option error * memory :=
  (None, mkMemory (cut_key key (mem_keys m)) (delete key (mem_storage m))
                  (mem_offset m) (mem_recovered m)).

Definition memory_Iterator (m : memory) : res memiter :=
  Ok (mkMemiter (-1) (mem_keys m) (mem_storage m)).

(** [bytes.Compare([]byte(k), start) > -1 && bytes.Compare([]byte(k), limit) < 1]. *)
Definition in_range (start limit : bytes) (k : string) : bool :=
  match bytes_Compare (Some k) start, bytes_Compare (Some k) limit with
  | Lt, _ | _, Gt => false
  | _, _ => true
  end.

Section WithBytesPrefix.
(** [util.BytesPrefix(start).Limit] of goleveldb. *)
Context (BytesPrefix_Limit : bytes -> bytes).

Definition memory_IteratorWithRange (start limit : bytes) (m : memory) : res memiter :=
  let limit := if bytes_len limit =? 0 then BytesPrefix_Limit start else limit in
  let keys := filter (fun k => in_range start limit k = true) (mem_keys m) in
  Ok (mkMemiter (-1) keys
        (list_to_map (omap (fun k => (fun v => (k, v)) <$> mem_storage m !! k) keys))).
End WithBytesPrefix.

Definition memory_MarkRecovered (m : memory) : option error := None.
Definition memory_Recovered (m : memory) : bool := mem_recovered m.

Definition memory_SetOffset (offset : Z) (m : memory) : option error * memory :=
  (None, mkMemory (mem_keys m) (mem_storage m) (Some offset) (mem_recovered m)).

Definition memory_GetOffset (defValue : Z) (m : memory) : res Z :=
  match mem_offset m with None => Ok defValue | Some o => Ok o end.

Definition memory_Open (m : memory) : option error := None.
Definition memory_Close (m : memory) : option error := None.

(** *** The iterator *)

Definition memiter_exhausted (i : memiter) : bool := Z.of_nat (length (mi_keys i)) <=? mi_current i.

Definition set_current (c : Z) (i : memiter) : memiter := mkMemiter c (mi_keys i) (mi_storage i).

(** [i.keys[i.current]] panics before the first [Next]. *)
Definition mi_key_at (i : memiter) : outcome string :=
  if mi_current i <? 0 then Panic (ErrNew "index out of range")
  else match mi_keys i !! Z.to_nat (mi_current i) with
       | Some k => Ret k
       | None => Panic (ErrNew "index out of range")
       end.

Definition memiter_Key (i : memiter) : outcome bytes :=
  if memiter_exhausted i then Ret None else k ← mi_key_at i; Ret (Some k).

Definition memiter_Next (i : memiter) : outcome (bool * memiter) :=
  let i := set_current (mi_current i + 1) i in
  k ← memiter_Key i;
  let i := if String.eqb (string_of_bytes k) offsetKey then set_current (mi_current i + 1) i
           else i in
  Ret (negb (memiter_exhausted i), i).

Definition memiter_Err (i : memiter) : option error := None.

Definition memiter_Value (i : memiter) : outcome (res bytes) :=
  if memiter_exhausted i then Ret (Ok None)
  else k ← mi_key_at i; Ret (Ok (mi_storage i !! k)).

Definition memiter_Release (i : memiter) : memiter :=
  set_current (Z.of_nat (length (mi_keys i))) i.

(** The loop of [Seek]: [rest] are the keys from position [c] on. *)
Fixpoint seek_loop (key : string) (rest : list string) (c : Z) : Z :=
  match rest with
  | [] => c
  | k :: rest => if String.prefix key k then c else seek_loop key rest (c + 1)
  end.

Definition memiter_Seek (key : bytes) (i : memiter) : outcome (bool * memiter) :=
  if memiter_exhausted i then Ret (false, i)
  else
    '(go, i) ← (if mi_current i <? 0 then memiter_Next i else Ret (true, i));
    if negb go then Ret (false, i)
    else
      let i := set_current (seek_loop (string_of_bytes key)
                              (drop (Z.to_nat (mi_current i)) (mi_keys i)) (mi_current i)) i in
      Ret (negb (memiter_exhausted i), i).

(** ** The instances *)

(** The interface view of the iterator; [Key], [Value] and [Next] do not panic on the iterators
    the code builds ([memiter_never_panics] below). *)
Definition from_ret {A} (d : A) (o : outcome A) : A := match o with Ret a => a | _ => d end.

#[export] Instance memiter_Iterator : Iterator memiter := {
  it_Next i := from_ret (false, i) (memiter_Next i);
  it_Err := memiter_Err;
  it_Key i := from_ret None (memiter_Key i);
  it_Value i := from_ret (Ok None) (memiter_Value i);
  it_Release := memiter_Release;
  it_Seek k i := from_ret (false, i) (memiter_Seek k i)
}.

Definition memory_Storage (BytesPrefix_Limit : bytes -> bytes) : Storage memory memiter := {|
  st_Open m := (memory_Open m, m);
  st_Close m := Ret (memory_Close m, m);
  st_Has := memory_Has;
  st_Get := memory_Get;
  st_Set := memory_Set;
  st_Delete := memory_Delete;
  st_GetOffset := memory_GetOffset;
  st_SetOffset := memory_SetOffset;
  st_MarkRecovered m := Ret (memory_MarkRecovered m, m);
  st_Iterator := memory_Iterator;
  st_IteratorWithRange := memory_IteratorWithRange BytesPrefix_Limit
|}.

(** ** The invariant *)

(** The key list is strictly sorted and lists exactly the keys of the map. *)
Record memory_wf (m : memory) : Prop := {
  mwf_sorted : StronglySorted string_lt (mem_keys m);
  mwf_keys : forall k, k ∈ mem_keys m <-> is_Some (mem_storage m !! k)
}.

(** ** Lemmas *)

Lemma string_lt_not_eq a b : string_lt a b -> a <> b.
Proof. by intros [_ ?]. Qed.

Lemma cut_key_filter key l : NoDup l -> cut_key key l = filter (fun k => k <> key) l.
Proof.
  induction l as [|k l IH]; intros Hnd; [done|]. apply NoDup_cons in Hnd as [Hk Hnd]. simpl.
  destruct (String.eqb k key) eqn:E; simp_bool.
  - subst. rewrite filter_cons_False by naive_solver. symmetry. apply filter_id. naive_solver.
  - rewrite filter_cons_True by done. f_equal. by apply IH.
Qed.

Lemma StronglySorted_filter {A} (R : relation A) (P : A -> Prop) `{forall x, Decision (P x)} l :
  StronglySorted R l -> StronglySorted R (filter P l).
Proof.
  induction 1 as [|x l Hs IH Hall]; [constructor|]. rewrite filter_cons. case_decide; [|done].
  constructor; [done|]. rewrite Forall_forall in *. intros y [_ Hy]%list_elem_of_filter. by apply Hall.
Qed.

Lemma NewMemory_wf : memory_wf NewMemory.
Proof. constructor; simpl; [constructor|]. intros k. rewrite lookup_empty. split; [set_solver|by intros []]. Qed.

Lemma memory_Set_wf key v m :
  memory_wf m ->
  exists m', memory_Set key (Some v) m = (None, m') /\ memory_wf m' /\
    mem_storage m' = <[key := v]> (mem_storage m) /\ mem_offset m' = mem_offset m.
Proof.
  intros W. eexists. split; [done|]. split_and!; [|done|done]. destruct W as [Hs Hk].
  constructor; simpl; case_bool_decide as Hin.
  - done.
  - apply Sorted_le_lt; [apply sort_Strings_sorted|]. rewrite sort_Strings_perm.
    apply NoDup_app. split_and!; [by apply StronglySorted_lt_NoDup| |apply NoDup_singleton].
    intros x Hx ->%list_elem_of_singleton. apply Hin. by apply Hk.
  - intros k. rewrite Hk, lookup_insert. case_decide; [subst; naive_solver|done].
  - intros k. rewrite sort_Strings_perm, elem_of_app, list_elem_of_singleton, Hk, lookup_insert.
    case_decide; [subst; naive_solver|]. naive_solver.
Qed.

Lemma memory_Delete_wf key m :
  memory_wf m ->
  exists m', memory_Delete key m = (None, m') /\ memory_wf m' /\
    mem_storage m' = delete key (mem_storage m) /\ mem_offset m' = mem_offset m.
Proof.
  intros W. eexists. split; [done|]. split_and!; [|done|done]. destruct W as [Hs Hk].
  pose proof (StronglySorted_lt_NoDup _ Hs) as Hnd.
  constructor; simpl; rewrite cut_key_filter by done.
  - by apply StronglySorted_filter.
  - intros k. rewrite list_elem_of_filter, Hk, lookup_delete. case_decide.
    + subst. split; [naive_solver|by intros []].
    + naive_solver.
Qed.

(** The in-memory storage meets the laws; it reserves no key. *)
#[export, refine] Instance memory_Laws BPL : StorageLaws memory memiter (H := memory_Storage BPL) := {|
  st_ok := memory_wf;
  st_reserved _ := False;
  st_contents := mem_storage;
  st_offset := mem_offset;
  st_unrecovered _ := True;
  st_offset_ok _ _ := True
|}.
Proof.
  - done.
  - done.
  - intros s k v W _. destruct (memory_Set_wf k v s W) as (m' & ? & ? & ? & ?). eauto 10.
  - intros s k W _. destruct (memory_Delete_wf k s W) as (m' & ? & ? & ? & ?). eauto 10.
  - intros s d W. simpl. unfold memory_GetOffset. by destruct (mem_offset s).
  - intros s o [Hs Hk] _. eexists. split; [done|]. done.
  - done.
  - intros s W _. eexists. done.
Defined.

(** *** Iteration *)

(** The pairs an iterator still has to deliver. *)
Definition mi_pairs (st : gmap string string) (keys : list string) : list (string * string) :=
  omap (fun k => if decide (k = offsetKey) then None else (fun v => (k, v)) <$> st !! k) keys.

#[local] Arguments mi_pairs : simpl never.

Definition mi_rest (i : memiter) : list (string * string) :=
  mi_pairs (mi_storage i) (drop (Z.to_nat (mi_current i + 1)) (mi_keys i)).

(** An iterator the code can hold: the position is at least -1 and every key has a value. *)
Record memiter_ok (i : memiter) : Prop := {
  mi_pos : -1 <= mi_current i;
  mi_nodup : NoDup (mi_keys i);
  mi_vals : forall k, k ∈ mi_keys i -> is_Some (mi_storage i !! k)
}.

Lemma mi_lookup i k rest :
  memiter_ok i -> drop (Z.to_nat (mi_current i + 1)) (mi_keys i) = k :: rest ->
  mi_keys i !! Z.to_nat (mi_current i + 1) = Some k /\
  drop (Z.to_nat (mi_current i + 2)) (mi_keys i) = rest /\
  memiter_exhausted (set_current (mi_current i + 1) i) = false.
Proof.
  intros [Hp _ _] Hd.
  assert (mi_keys i !! Z.to_nat (mi_current i + 1) = Some k) as Hk.
  { rewrite <- (Nat.add_0_r (Z.to_nat _)), <- lookup_drop, Hd. done. }
  split_and!; [done| |].
  - replace (Z.to_nat (mi_current i + 2)) with (Z.to_nat (mi_current i + 1) + 1)%nat by lia.
    by rewrite <- drop_drop, Hd.
  - unfold memiter_exhausted. simpl. apply lookup_lt_Some in Hk. apply Z.leb_gt. lia.
Qed.

Lemma memiter_Key_at c k i :
  0 <= c -> mi_keys i !! Z.to_nat c = Some k -> memiter_Key (set_current c i) = Ret (Some k).
Proof.
  intros Hc Hk. unfold memiter_Key, memiter_exhausted, mi_key_at. simpl.
  pose proof (lookup_lt_Some _ _ _ Hk).
  rewrite (proj2 (Z.leb_gt _ _)), (proj2 (Z.ltb_ge _ _)) by lia. by rewrite Hk.
Qed.

Lemma memiter_Value_at c k i :
  0 <= c -> mi_keys i !! Z.to_nat c = Some k ->
  memiter_Value (set_current c i) = Ret (Ok (mi_storage i !! k)).
Proof.
  intros Hc Hk. unfold memiter_Value, memiter_exhausted, mi_key_at. simpl.
  pose proof (lookup_lt_Some _ _ _ Hk).
  rewrite (proj2 (Z.leb_gt _ _)), (proj2 (Z.ltb_ge _ _)) by lia. by rewrite Hk.
Qed.

(** [Next] never panics: it moves by one key, by two over the offset key. *)
Lemma memiter_Next_spec i :
  memiter_ok i ->
  memiter_Next i =
    match drop (Z.to_nat (mi_current i + 1)) (mi_keys i) with
    | [] => Ret (false, set_current (mi_current i + 1) i)
    | k :: rest =>
        if decide (k = offsetKey) then
          Ret (match rest with [] => false | _ => true end, set_current (mi_current i + 2) i)
        else Ret (true, set_current (mi_current i + 1) i)
    end.
Proof.
  intros Hok. unfold memiter_Next.
  destruct (drop _ _) as [|k rest] eqn:Hd.
  - assert (memiter_exhausted (set_current (mi_current i + 1) i) = true) as He.
    { unfold memiter_exhausted. simpl. apply Z.leb_le.
      apply (f_equal length) in Hd. rewrite length_drop in Hd. simpl in Hd.
      destruct Hok. lia. }
    unfold memiter_Key. rewrite He. simpl. by rewrite He.
  - destruct (mi_lookup i k rest Hok Hd) as (Hk & Hr & He). destruct Hok as [Hp Hnd Hv].
    rewrite (memiter_Key_at _ k) by (lia || done). cbn [mbind outcome_bind].
    simpl. destruct (String.eqb k offsetKey) eqn:E; simp_bool.
    + subst k. rewrite decide_True by done.
      replace (set_current (mi_current i + 1 + 1) (set_current (mi_current i + 1) i))
        with (set_current (mi_current i + 2) i) by (unfold set_current; simpl; f_equal; lia).
      f_equal. f_equal. unfold memiter_exhausted. simpl.
      apply (f_equal length) in Hd. rewrite length_drop in Hd. simpl in Hd.
      destruct rest; simpl in Hd; [rewrite (proj2 (Z.leb_le _ _))|rewrite (proj2 (Z.leb_gt _ _))];
        done || lia.
    + rewrite decide_False by done. by rewrite He.
Qed.

Lemma memiter_ok_set c i : memiter_ok i -> -1 <= c -> memiter_ok (set_current c i).
Proof. intros [? ? ?] Hc. by constructor. Qed.

Lemma mi_pairs_vals st keys k rest :
  (forall k, k ∈ keys -> is_Some (st !! k)) -> keys = k :: rest -> k <> offsetKey ->
  exists v, st !! k = Some v /\ mi_pairs st keys = (k, v) :: mi_pairs st rest.
Proof.
  intros Hv -> Hne. destruct (Hv k) as [v Hk]; [by left|]. exists v. split; [done|].
  unfold mi_pairs. simpl. by rewrite decide_False, Hk.
Qed.

(** One call of [Next]: the end, or the next pair in order. *)
Lemma memiter_Next_cases i :
  memiter_ok i ->
  (mi_rest i = [] /\ exists c, memiter_Next i = Ret (false, set_current c i)) \/
  (exists c k v, memiter_Next i = Ret (true, set_current c i) /\ 0 <= c /\
     mi_keys i !! Z.to_nat c = Some k /\ mi_storage i !! k = Some v /\ k <> offsetKey /\
     mi_rest i = (k, v) :: mi_rest (set_current c i)).
Proof.
  intros Hok. rewrite memiter_Next_spec by done. unfold mi_rest.
  destruct (drop _ _) as [|k rest] eqn:Hd; [left; eauto|].
  destruct (mi_lookup i k rest Hok Hd) as (Hk & Hr & _). destruct Hok as [Hp Hnd Hv].
  assert (NoDup (k :: rest) /\ forall k', k' ∈ k :: rest -> k' ∈ mi_keys i) as [Hnd' Hsub].
  { rewrite <- Hd. split; [eapply sublist_NoDup; [apply Hnd|apply sublist_drop]|].
    intros k' Hk'. eapply elem_of_sublist; [exact Hk'|apply sublist_drop]. }
  apply NoDup_cons in Hnd' as [Hk_rest Hnd'].
  destruct (decide (k = offsetKey)) as [->|Hne].
  - destruct rest as [|k' rest].
    { left. eauto. }
    right. assert (k' <> offsetKey) as Hne by set_solver.
    destruct (mi_pairs_vals (mi_storage i) (k' :: rest) k' rest) as (v & Hv' & Hp').
    { intros; apply Hv, Hsub; by right. } { done. } { done. }
    exists (mi_current i + 2), k', v. simpl. split_and!; [done|lia| |done|done|].
    + rewrite <- (Nat.add_0_r (Z.to_nat _)), <- lookup_drop, Hr. done.
    + change (mi_pairs (mi_storage i) (offsetKey :: k' :: rest)) with (mi_pairs (mi_storage i) (k' :: rest)).
      rewrite Hp'. f_equal. f_equal.
      replace (Z.to_nat (mi_current i + 2 + 1)) with (Z.to_nat (mi_current i + 2) + 1)%nat by lia.
      rewrite <- drop_drop, Hr. done.
  - right. destruct (mi_pairs_vals (mi_storage i) (k :: rest) k rest) as (v & Hv' & Hp').
    { intros; by apply Hv, Hsub. } { done. } { done. }
    exists (mi_current i + 1), k, v. split_and!; [done|lia|done|done|done|]. rewrite Hp'. simpl.
    replace (mi_current i + 1 + 1) with (mi_current i + 2) by lia. by rewrite Hr.
Qed.

#[export, refine] Instance memiter_Laws : IteratorLaws memiter := {|
  it_ok := memiter_ok;
  it_rest := mi_rest
|}.
Proof.
  - intros i Hok Hr. split; [|done]. simpl.
    destruct (memiter_Next_cases i Hok) as [(_ & c & ->)|(c & k & v & _ & _ & _ & _ & _ & H)];
      [done|congruence].
  - intros i k v l Hok Hr.
    destruct (memiter_Next_cases i Hok) as [(H & _)|(c & k' & v' & Hn & Hc & Hk & Hv & _ & H)];
      [congruence|].
    rewrite Hr in H. simplify_eq. simpl. rewrite Hn. simpl.
    rewrite (memiter_Key_at c k'), (memiter_Value_at c k') by done. rewrite Hv.
    split_and!; try done. apply memiter_ok_set; [done|lia].
Defined.

Lemma memory_Iterator_ok m : memory_wf m -> memiter_ok (mkMemiter (-1) (mem_keys m) (mem_storage m)).
Proof.
  intros [Hs Hk]. constructor; simpl; [lia|by apply StronglySorted_lt_NoDup|]. intros k. apply Hk.
Qed.

Lemma elem_of_mi_pairs st keys k v :
  (k, v) ∈ mi_pairs st keys <-> k ∈ keys /\ k <> offsetKey /\ st !! k = Some v.
Proof.
  unfold mi_pairs. rewrite list_elem_of_omap. split.
  - intros (k' & Hin & Heq). case_decide; [done|].
    apply fmap_Some in Heq as (v' & Hv & ?). by simplify_eq.
  - intros (Hin & Hne & Hv). exists k. split; [done|]. by rewrite decide_False, Hv.
Qed.

Lemma mi_pairs_sorted st keys :
  StronglySorted string_lt keys -> StronglySorted string_lt (mi_pairs st keys).*1.
Proof.
  induction 1 as [|k keys Hs IH Hall]; [constructor|]. unfold mi_pairs. simpl.
  case_decide; [done|]. destruct (st !! k) as [v|]; [|done]. simpl. constructor; [done|].
  rewrite Forall_forall in *. intros x ([k' v'] & -> & Hx)%list_elem_of_fmap.
  apply elem_of_mi_pairs in Hx as (Hin & _). by apply Hall.
Qed.

#[export] Instance memory_Snapshot BPL :
  SnapshotLaws memory memiter (H0 := memory_Laws BPL).
Proof.
  constructor.
  intros m W. exists (mkMemiter (-1) (mem_keys m) (mem_storage m)).
  split_and!; [done|by apply memory_Iterator_ok|by apply mi_pairs_sorted, W|].
  intros k v. cbn [it_rest memiter_Laws mi_rest mi_current mi_keys mi_storage]. simpl. unfold mi_rest. simpl.
  rewrite elem_of_mi_pairs, (mwf_keys m W). naive_solver.
Defined.

(** ** Properties *)

(** Iterating over the in-memory storage terminates and delivers every pair of the map exactly
    once, in strictly ascending key order, and never the reserved offset key. *)
Theorem memory_iteration m :
  memory_wf m ->
  exists it pairs, memory_Iterator m = Ok it /\
    collect_all (S (length (mem_keys m))) it = ((fun kv => (Some kv.1, Ok (Some kv.2))) <$> pairs, Some None) /\
    StronglySorted string_lt pairs.*1 /\
    forall k v, (k, v) ∈ pairs <-> mem_storage m !! k = Some v /\ k <> offsetKey.
Proof.
  intros W. exists (mkMemiter (-1) (mem_keys m) (mem_storage m)), (mi_pairs (mem_storage m) (mem_keys m)).
  split_and!; [done| | |].
  - rewrite collect_rest; [done|by apply memory_Iterator_ok|].
    cbn [it_rest memiter_Laws mi_rest mi_current mi_keys mi_storage]. simpl.
    apply le_n_S. unfold mi_pairs. apply omap_length_le.
  - apply mi_pairs_sorted, W.
  - intros k v. rewrite elem_of_mi_pairs, (mwf_keys m W). naive_solver.
Qed.

Definition mem_of (kvs : list (string * string)) : memory :=
  fold_left (fun m kv => (memory_Set kv.1 (Some kv.2) m).2) kvs NewMemory.

Lemma mem_of_wf kvs : memory_wf (mem_of kvs).
Proof.
  unfold mem_of. generalize NewMemory_wf. generalize NewMemory.
  induction kvs as [|kv kvs IH]; intros m W; [done|]. simpl. apply IH.
  destruct (memory_Set_wf kv.1 kv.2 m W) as (m' & Hm & W' & _). simpl in Hm. by simplify_eq.
Qed.

Lemma memory_iteration_witness :
  let m := mem_of [("b", "2"); ("__offset", "7"); ("a", "1")]%string in
  exists it pairs, memory_Iterator m = Ok it /\
    collect_all (S (length (mem_keys m))) it = ((fun kv => (Some kv.1, Ok (Some kv.2))) <$> pairs, Some None) /\
    StronglySorted string_lt pairs.*1 /\
    forall k v, (k, v) ∈ pairs <-> mem_storage m !! k = Some v /\ k <> offsetKey.
Proof. intros m. apply (memory_iteration m). apply mem_of_wf. Defined.

Lemma in_range_spec start limit k :
  in_range start limit k = true <->
  String.le (string_of_bytes start) k /\ String.le k (string_of_bytes limit).
Proof.
  unfold in_range, bytes_Compare, String.le, String.leb. simpl.
  rewrite (String.compare_antisym (string_of_bytes start) k).
  destruct (String.compare k (string_of_bytes start)), (String.compare k (string_of_bytes limit));
    simpl; unfold Is_true; intuition discriminate.
Qed.

Lemma range_storage_lookup (st : gmap string string) keys k :
  NoDup keys -> k ∈ keys ->
  (list_to_map (omap (fun k => (fun v => (k, v)) <$> st !! k) keys) : gmap string string) !! k = st !! k.
Proof.
  intros Hnd Hin. induction keys as [|k' keys IH]; [set_solver|].
  apply NoDup_cons in Hnd as [Hk' Hnd]. csimpl.
  assert (forall k, k ∉ keys -> (list_to_map (omap (fun k => (fun v => (k, v)) <$> st !! k) keys)
             : gmap string string) !! k = None) as Hno.
  { intros k0 Hk0. apply not_elem_of_list_to_map. intros Hx. apply Hk0.
    apply list_elem_of_fmap in Hx as ([k1 v1] & -> & Hx).
    apply list_elem_of_omap in Hx as (k2 & Hk2 & (v2 & _ & ?)%fmap_Some). by simplify_eq/=. }
  destruct (st !! k') as [v|] eqn:E; csimpl.
  - destruct (decide (k = k')) as [->|]; [by rewrite lookup_insert_eq|].
    rewrite lookup_insert_ne by done. apply IH; set_solver.
  - destruct (decide (k = k')) as [->|]; [by rewrite E, Hno|]. apply IH; set_solver.
Qed.

(** A range iterator delivers, in ascending order, exactly the pairs whose key lies between
    [start] and [limit], both ends included. *)
Theorem memory_range_iteration BPL start l m :
  memory_wf m -> l <> EmptyString ->
  exists it pairs, memory_IteratorWithRange BPL start (Some l) m = Ok it /\
    collect_all (S (length (mem_keys m))) it = ((fun kv => (Some kv.1, Ok (Some kv.2))) <$> pairs, Some None) /\
    StronglySorted string_lt pairs.*1 /\
    forall k v, (k, v) ∈ pairs <->
      mem_storage m !! k = Some v /\ k <> offsetKey /\
      String.le (string_of_bytes start) k /\ String.le k l.
Proof.
  intros W Hl. pose proof (StronglySorted_lt_NoDup _ (mwf_sorted m W)) as Hnd.
  unfold memory_IteratorWithRange.
  assert ((bytes_len (Some l) =? 0) = false) as ->.
  { apply Z.eqb_neq. destruct l; [done|]. simpl. lia. }
  set (keys := filter _ _). set (st := list_to_map _).
  assert (NoDup keys) as Hndk by by apply NoDup_filter.
  assert (forall k, k ∈ keys <-> in_range start (Some l) k = true /\ k ∈ mem_keys m) as Hkeys
    by (intros; unfold keys; by rewrite list_elem_of_filter).
  assert (forall k, k ∈ keys -> st !! k = mem_storage m !! k) as Hst.
  { intros k Hk. by apply range_storage_lookup. }
  exists (mkMemiter (-1) keys st), (mi_pairs st keys). split_and!; [done| | |].
  - rewrite collect_rest; [done| |].
    + constructor; simpl; [lia|done|]. intros k Hk. rewrite Hst by done.
      apply (mwf_keys m W), Hkeys, Hk.
    + cbn [it_rest memiter_Laws mi_rest mi_current mi_keys mi_storage].
      apply le_n_S. etransitivity; [apply omap_length_le|]. apply length_filter.
  - apply mi_pairs_sorted, StronglySorted_filter, W.
  - intros k v. rewrite elem_of_mi_pairs, Hkeys, in_range_spec, (mwf_keys m W). simpl.
    split.
    + intros ((Hr & Hs) & Hne & Hv). rewrite Hst in Hv; [naive_solver|].
      apply Hkeys. rewrite in_range_spec, (mwf_keys m W). done.
    + intros (Hv & Hne & Hr). split_and!; [naive_solver..|done|].
      rewrite Hst; [done|]. apply Hkeys. rewrite in_range_spec, (mwf_keys m W). naive_solver.
Qed.

Lemma memory_range_iteration_witness :
  let m := mem_of [("b", "2"); ("c", "3"); ("a", "1")]%string in
  exists it pairs, memory_IteratorWithRange (fun _ => None) (Some "a"%string) (Some "b"%string) m = Ok it /\
    collect_all (S (length (mem_keys m))) it = ((fun kv => (Some kv.1, Ok (Some kv.2))) <$> pairs, Some None) /\
    StronglySorted string_lt pairs.*1 /\
    forall k v, (k, v) ∈ pairs <->
      mem_storage m !! k = Some v /\ k <> offsetKey /\ String.le "a" k /\ String.le k "b".
Proof.
  intros m. apply (memory_range_iteration (fun _ => None) (Some "a"%string) "b" m).
  - apply mem_of_wf.
  - discriminate.
Defined.

Lemma seek_loop_spec key rest c :
  exists l1 l2, rest = l1 ++ l2 /\ seek_loop key rest c = c + Z.of_nat (length l1) /\
    Forall (fun k => String.prefix key k = false) l1 /\
    match l2 with [] => True | k :: _ => String.prefix key k = true end.
Proof.
  revert c. induction rest as [|k rest IH]; intros c; simpl.
  { exists [], []. split_and!; [done|simpl; lia|constructor|done]. }
  destruct (String.prefix key k) eqn:E.
  - exists [], (k :: rest). split_and!; [done|simpl; lia|constructor|done].
  - destruct (IH (c + 1)) as (l1 & l2 & -> & -> & Hl1 & Hl2).
    exists (k :: l1), l2. split_and!; [done|simpl; lia|by constructor|done].
Qed.

(** [Seek] on the in-memory iterator finds, from the current position on, the first key that
    has the given key as a prefix, and fails exactly when no such key remains.  (The interface
    documents the first key that is greater or equal instead: see [memiter_Seek_misses].) *)
Theorem memiter_Seek_prefix key i :
  memiter_ok i -> 0 <= mi_current i ->
  exists b i', memiter_Seek key i = Ret (b, i') /\ memiter_ok i' /\
    mi_keys i' = mi_keys i /\
    if b then
      exists l1 k l2, drop (Z.to_nat (mi_current i)) (mi_keys i) = l1 ++ k :: l2 /\
        Forall (fun k => String.prefix (string_of_bytes key) k = false) l1 /\
        String.prefix (string_of_bytes key) k = true /\ memiter_Key i' = Ret (Some k)
    else
      Forall (fun k => String.prefix (string_of_bytes key) k = false)
             (drop (Z.to_nat (mi_current i)) (mi_keys i)).
Proof.
  intros Hok Hc. unfold memiter_Seek. destruct (memiter_exhausted i) eqn:He.
  { exists false, i. split_and!; [done|done|done|]. unfold memiter_exhausted in He. simp_bool.
    rewrite drop_ge by lia. constructor. }
  rewrite (proj2 (Z.ltb_ge _ _)) by done. simpl.
  destruct (seek_loop_spec (string_of_bytes key) (drop (Z.to_nat (mi_current i)) (mi_keys i))
              (mi_current i)) as (l1 & l2 & Hd & Hs & Hl1 & Hl2).
  rewrite Hs. eexists _, _. split; [done|]. split_and!; [by apply memiter_ok_set; [|lia]|done|].
  pose proof (f_equal length Hd) as Hlen. rewrite length_drop, length_app in Hlen.
  unfold memiter_exhausted in *. simpl in *. simp_bool. destruct l2 as [|k l2]; simpl in Hlen.
  - rewrite (proj2 (Z.leb_le _ _)) by lia. simpl. rewrite Hd, app_nil_r. done.
  - rewrite (proj2 (Z.leb_gt _ _)) by lia. simpl. exists l1, k, l2. split_and!; try done.
    apply memiter_Key_at; [lia|].
    replace (Z.to_nat (mi_current i + Z.of_nat (length l1)))
      with (Z.to_nat (mi_current i) + length l1)%nat by lia.
    rewrite <- lookup_drop, Hd. by apply list_lookup_middle.
Qed.

Definition seek_demo : memiter :=
  mkMemiter 0 ["a"; "c"]%string {[ "a" := "1"; "c" := "3" ]}%string.

Lemma seek_demo_ok : memiter_ok seek_demo.
Proof.
  constructor; simpl; [lia| |].
  - repeat constructor; set_solver.
  - intros k Hk. apply elem_of_cons in Hk as [->|Hk]; [by eexists; vm_compute|].
    apply list_elem_of_singleton in Hk as ->. by eexists; vm_compute.
Qed.

Lemma memiter_Seek_prefix_witness :
  exists b i', memiter_Seek (Some "c"%string) seek_demo = Ret (b, i') /\ memiter_ok i' /\
    mi_keys i' = mi_keys seek_demo /\ b = true.
Proof.
  destruct (memiter_Seek_prefix (Some "c"%string) seek_demo seek_demo_ok) as (b & i' & Hs & Hok & Hk & _);
    [simpl; lia|].
  exists b, i'. split_and!; [exact Hs|exact Hok|exact Hk|].
  vm_compute in Hs. congruence.
Defined.

(** [Seek] does not find the first key that is greater or equal: over the keys a and c, seeking
    b reports that no such pair exists although c is greater than b. *)
Theorem memiter_Seek_misses :
  (exists i', memiter_Seek (Some "b"%string) seek_demo = Ret (false, i')) /\
  "c"%string ∈ mi_keys seek_demo /\ String.le "b" "c".
Proof. split_and!; [by eexists; vm_compute|set_solver|done]. Qed.
