(* ===== verification/Heap.v ===== *)
(** * Binary heaps

    [container/heap] of the Go standard library as [storage/merge_iterator.go] uses it: [Push] and
    [Pop] over a slice with the sift-up and sift-down loops of the library. *)
From Stdlib Require Import ZArith Lia Arith.
From stdpp Require Import base list sorting.
From S2P Require Import Prelude.
Open Scope nat_scope.

Section heap.
Context {A : Type} (less : A -> A -> bool).

(** ** Operations *)

(** [h.Swap(i, j)] and [h.Less(i, j)]; the loops below only use indices of the slice. *)
Definition swap (i j : nat) (h : list A) : list A :=
  match h !! i, h !! j with
  | Some a, Some b => <[i := b]> (<[j := a]> h)
  | _, _ => h
  end.

Definition less_at (i j : nat) (h : list A) : bool :=
  match h !! i, h !! j with Some a, Some b => less a b | _, _ => false end.

Definition parent (j : nat) : nat := (j - 1) / 2.

(** [up]: at most [j] iterations. *)
Fixpoint up (fuel j : nat) (h : list A) : list A :=
  match fuel with
  | O => h
  | S fuel =>
      let i := parent j in
      if (i =? j) || negb (less_at j i h) then h else up fuel i (swap i j h)
  end.

(** [down]: the index at least doubles with every iteration. *)
Fixpoint down (fuel i n : nat) (h : list A) : list A :=
  match fuel with
  | O => h
  | S fuel =>
      let j1 := 2 * i + 1 in
      if n <=? j1 then h
      else
        let j := if (j1 + 1 <? n) && less_at (j1 + 1) j1 h then j1 + 1 else j1 in
        if negb (less_at j i h) then h else down fuel j n (swap i j h)
  end.

Definition heap_Push (x : A) (h : list A) : list A :=
  up (S (length h)) (length h) (h ++ [x]).

(** [Pop] of an empty heap indexes out of range: [None]. *)
Definition heap_Pop (h : list A) : option (A * list A) :=
  match h with
  | [] => None
  | _ =>
      let n := length h - 1 in
      let h := down (length h) 0 n (swap 0 n h) in
      x ← h !! n; Some (x, take n h)
  end.

(** ** The heap property *)

(** [leo] compares two slots, absent slots being unconstrained. *)
Definition leo (x y : option A) : Prop :=
  match x, y with Some a, Some b => less b a = false | _, _ => True end.

Definition is_heap_upto (n : nat) (h : list A) : Prop :=
  forall k, 0 < k < n -> leo (h !! parent k) (h !! k).

Definition is_heap (h : list A) : Prop := is_heap_upto (length h) h.

(** ** Lemmas *)

Hypothesis le_trans : forall a b c, less b a = false -> less c b = false -> less c a = false.
Hypothesis less_asym : forall a b, less a b = true -> less b a = false.

Lemma leo_trans x y z : is_Some y -> leo x y -> leo y z -> leo x z.
Proof. intros [b ->]. destruct x, z; simpl; eauto. Qed.

Lemma less_at_leo i j h : less_at i j h = false -> leo (h !! j) (h !! i).
Proof. unfold less_at, leo. by destruct (h !! i), (h !! j). Qed.

Lemma less_at_true i j h : less_at i j h = true -> leo (h !! i) (h !! j) /\ i < length h /\ j < length h.
Proof.
  unfold less_at, leo. destruct (h !! i) eqn:Ei, (h !! j) eqn:Ej; try done. intros H.
  split; [by apply less_asym|]. eauto using lookup_lt_Some.
Qed.

Lemma parent_lt k : 0 < k -> parent k < k.
Proof. unfold parent. intros. pose proof (Nat.Div0.div_le_upper_bound (k - 1) 2 (k - 1)). lia. Qed.

Lemma length_swap i j h : length (swap i j h) = length h.
Proof. unfold swap. destruct (h !! i), (h !! j); by rewrite ?length_insert. Qed.

Lemma lookup_swap i j h k :
  i < length h -> j < length h ->
  swap i j h !! k = if decide (k = i) then h !! j else if decide (k = j) then h !! i else h !! k.
Proof.
  intros [a Ha]%lookup_lt_is_Some_2 [b Hb]%lookup_lt_is_Some_2. unfold swap. rewrite Ha, Hb.
  pose proof (lookup_lt_Some _ _ _ Ha). pose proof (lookup_lt_Some _ _ _ Hb).
  repeat case_decide; subst.
  - by rewrite list_lookup_insert_eq by (rewrite length_insert; lia).
  - by rewrite list_lookup_insert_ne, list_lookup_insert_eq by lia.
  - by rewrite !list_lookup_insert_ne by lia.
Qed.

Lemma swap_perm i j h : swap i j h ≡ₚ h.
Proof.
  unfold swap. destruct (h !! i) as [a|] eqn:Ha; [|done]. destruct (h !! j) as [b|] eqn:Hb; [|done].
  by apply Permutation_insert_swap.
Qed.

Lemma up_spec fuel j h :
  j < length h -> j < fuel ->
  (forall k, 0 < k < length h -> k <> j -> leo (h !! parent k) (h !! k)) ->
  (forall k, 0 < k < length h -> parent k = j -> 0 < j -> leo (h !! parent j) (h !! k)) ->
  is_heap (up fuel j h) /\ up fuel j h ≡ₚ h.
Proof.
  revert j h. induction fuel as [|fuel IH]; intros j h Hj Hf H1 H2; [lia|]. cbn [up].
  destruct ((parent j =? j) || negb (less_at j (parent j) h)) eqn:E.
  - split; [|done]. intros k Hk. destruct (decide (k = j)) as [->|]; [|by apply H1].
    apply orb_true_iff in E as [E|E]; simp_bool; [pose proof (parent_lt j); lia|].
    by apply less_at_leo.
  - apply orb_false_iff in E as [Hpne Hless]. apply Nat.eqb_neq in Hpne. apply negb_false_iff in Hless.
    destruct (less_at_true _ _ _ Hless) as (Hle & _ & Hp).
    assert (0 < j) as Hj0 by (destruct j; [done|lia]).
    pose proof (parent_lt j Hj0) as Hpj.
    assert (forall k, swap (parent j) j h !! k =
      if decide (k = parent j) then h !! j else if decide (k = j) then h !! parent j else h !! k) as Hsw
      by (intros; by apply lookup_swap).
    assert (is_Some (h !! parent j)) as Hsome by (apply lookup_lt_is_Some_2; lia).
    set (h' := swap (parent j) j h) in *.
    enough (is_heap (up fuel (parent j) h') /\ up fuel (parent j) h' ≡ₚ h') as [Hh' Hp']
      by (split; [done|rewrite Hp'; apply swap_perm]).
    subst h'. apply IH; rewrite ?length_swap; [lia|lia| |].
    + intros k Hk Hki. rewrite !Hsw. rewrite (decide_False (P := k = parent j)) by done.
      destruct (decide (k = j)) as [->|Hkj]; [by rewrite decide_True|].
      destruct (decide (parent k = parent j)) as [Hp'|Hp'].
      * apply (leo_trans _ (h !! parent j)); [done|done|]. rewrite <- Hp'. by apply H1.
      * destruct (decide (parent k = j)) as [Hp''|]; [by apply H2|by apply H1].
    + intros k Hk Hpk Hpj0. pose proof (parent_lt (parent j) Hpj0).
      assert (leo (h !! parent (parent j)) (h !! parent j)) as Hgp by (apply H1; lia).
      rewrite !Hsw. rewrite (decide_False (P := parent (parent j) = parent j)) by lia.
      rewrite (decide_False (P := parent (parent j) = j)) by lia.
      pose proof (parent_lt k ltac:(lia)).
      rewrite (decide_False (P := k = parent j)) by lia.
      destruct (decide (k = j)) as [->|Hkj]; [done|].
      eapply leo_trans; [exact Hsome|done|]. rewrite <- Hpk. apply H1; lia.
Qed.

Lemma parent_child k i : 0 < k -> parent k = i -> k = 2 * i + 1 \/ k = 2 * i + 2.
Proof.
  unfold parent. intros Hk <-.
  pose proof (Nat.div_mod_eq (k - 1) 2). pose proof (Nat.mod_upper_bound (k - 1) 2). lia.
Qed.

Lemma parent_of_child i : parent (2 * i + 1) = i /\ parent (2 * i + 2) = i.
Proof.
  unfold parent. split.
  - replace (2 * i + 1 - 1) with (i * 2) by lia. by rewrite Nat.div_mul.
  - replace (2 * i + 2 - 1) with (1 + i * 2) by lia. by rewrite Nat.div_add.
Qed.

Lemma down_spec fuel i n h :
  n <= length h -> n - i < fuel ->
  (forall k, 0 < k < n -> parent k <> i -> leo (h !! parent k) (h !! k)) ->
  (forall k, 0 < k < n -> parent k = i -> 0 < i -> leo (h !! parent i) (h !! k)) ->
  is_heap_upto n (down fuel i n h) /\ down fuel i n h ≡ₚ h /\
  (forall k, n <= k -> down fuel i n h !! k = h !! k).
Proof.
  revert i h. induction fuel as [|fuel IH]; intros i h Hn Hf H1 H2; [lia|].
  cbn [down]. pose proof (parent_of_child i) as [Hc1 Hc2].
  destruct (n <=? 2 * i + 1) eqn:En.
  { apply Nat.leb_le in En. split_and!; [|done|done]. intros k Hk. apply H1; [done|].
    intros Hp. destruct (parent_child k i); lia. }
  apply Nat.leb_gt in En.
  set (j := if _ && _ then _ else _).
  assert ((j = 2 * i + 1 \/ j = 2 * i + 2) /\ j < n /\
    forall k, 0 < k < n -> parent k = i -> leo (h !! j) (h !! k)) as (Hj & Hjn & Hmin).
  { unfold j. destruct ((2 * i + 1 + 1 <? n) && less_at (2 * i + 1 + 1) (2 * i + 1) h) eqn:E.
    - simp_bool. apply Nat.ltb_lt in H. split_and!; [lia|lia|]. intros k Hk Hp.
      replace (2 * i + 1 + 1) with (2 * i + 2) in * by lia.
      destruct (parent_child k i) as [->| ->]; [lia|done|by apply less_at_true|].
      destruct (h !! (2 * i + 2)) as [a|] eqn:E2; [|done]. simpl.
      destruct (less a a) eqn:Ea; [|done]. by rewrite (less_asym _ _ Ea) in Ea.
    - split_and!; [lia|lia|]. intros k Hk Hp.
      destruct (parent_child k i) as [->| ->]; [lia|done| |].
      + destruct (h !! (2 * i + 1)) as [a|] eqn:E2; [|done]. simpl.
        destruct (less a a) eqn:Ea; [|done]. by rewrite (less_asym _ _ Ea) in Ea.
      + rewrite (proj2 (Nat.ltb_lt (2 * i + 1 + 1) n)) in E by lia. simpl in E.
        replace (2 * i + 2) with (2 * i + 1 + 1) by lia. by apply less_at_leo. }
  assert (parent j = i) as Hpj by (destruct Hj as [->| ->]; done).
  clearbody j. destruct (less_at j i h) eqn:El; simpl.
  2:{ split_and!; [|done|done]. apply less_at_leo in El. intros k Hk.
      destruct (decide (parent k = i)) as [Hp|Hp]; [|by apply H1].
      rewrite Hp. eapply leo_trans; [|exact El|by apply Hmin].
      apply lookup_lt_is_Some_2. lia. }
  destruct (less_at_true _ _ _ El) as (Hle & Hjl & Hil).
  assert (forall k, swap i j h !! k =
    if decide (k = i) then h !! j else if decide (k = j) then h !! i else h !! k) as Hsw
    by (intros; by apply lookup_swap).
  assert (i < j) as Hij by lia.
  destruct (IH j (swap i j h)) as (Hh & Hp & Hk).
  - rewrite length_swap. lia.
  - lia.
  - intros k Hk Hpk. pose proof (parent_lt k ltac:(lia)).
    rewrite !Hsw. rewrite (decide_False (P := parent k = j)) by done.
    destruct (decide (parent k = i)) as [Hki|Hki].
    + rewrite (decide_False (P := k = i)) by lia.
      destruct (decide (k = j)); [done|]. by apply Hmin.
    + destruct (decide (k = i)) as [->|Hki'].
      * by apply H2; try lia.
      * rewrite (decide_False (P := k = j)) by congruence. by apply H1.
  - intros k Hk Hpk Hj0. pose proof (parent_lt k ltac:(lia)).
    rewrite !Hsw, Hpj. rewrite (decide_True (P := i = i)) by done.
    rewrite (decide_False (P := k = i)), (decide_False (P := k = j)) by lia.
    rewrite <- Hpk. apply H1; lia.
  - split_and!; [done|by rewrite Hp, swap_perm|].
    intros k Hkn. rewrite Hk, Hsw by done. rewrite !decide_False by lia. done.
Qed.

(** The root of a heap is a minimum. *)
Lemma heap_root_min h a : is_heap h -> h !! 0 = Some a -> forall k b, h !! k = Some b -> less b a = false.
Proof.
  intros Hh Ha k. induction k as [k IH] using lt_wf_ind. intros b Hb.
  destruct (decide (k = 0)) as [->|Hk].
  { simplify_eq. destruct (less _ _) eqn:E; [|done]. by rewrite (less_asym _ _ E) in E. }
  pose proof (lookup_lt_Some _ _ _ Hb). pose proof (parent_lt k ltac:(lia)).
  destruct (lookup_lt_is_Some_2 h (parent k)) as [c Hc]; [lia|].
  specialize (Hh k ltac:(lia)). rewrite Hc, Hb in Hh. simpl in Hh.
  eapply le_trans; [|exact Hh]. eapply IH; [|exact Hc]. lia.
Qed.

(** [Push] keeps the heap property and adds the element. *)
Lemma heap_Push_spec x h : is_heap h -> is_heap (heap_Push x h) /\ heap_Push x h ≡ₚ x :: h.
Proof.
  intros Hh. unfold heap_Push.
  destruct (up_spec (S (length h)) (length h) (h ++ [x])) as [H1 H2].
  - rewrite length_app. simpl. lia.
  - lia.
  - rewrite length_app. simpl. intros k Hk Hne. pose proof (parent_lt k ltac:(lia)).
    rewrite !lookup_app_l by lia. apply Hh. lia.
  - rewrite length_app. simpl. intros k Hk Hp _. pose proof (parent_lt k ltac:(lia)). lia.
  - split; [done|]. rewrite H2. by rewrite Permutation_app_comm.
Qed.

(** [Pop] on a non-empty heap returns a minimum and leaves a heap of the other elements. *)
Lemma heap_Pop_spec h :
  is_heap h -> h <> [] ->
  exists x h', heap_Pop h = Some (x, h') /\ is_heap h' /\ h ≡ₚ x :: h' /\
    forall y, y ∈ h' -> less y x = false.
Proof.
  intros Hh Hne. destruct (lookup_lt_is_Some_2 h 0) as [a Ha]; [destruct h; simpl; [done|lia]|].
  set (n := length h - 1). assert (length h = S n) as Hlen by (destruct h; simpl in *; [done|lia]).
  assert (forall k, swap 0 n h !! k =
    if decide (k = 0) then h !! n else if decide (k = n) then h !! 0 else h !! k) as Hsw
    by (intros; apply lookup_swap; lia).
  destruct (down_spec (length h) 0 n (swap 0 n h)) as (Hd & Hp & Hk).
  - rewrite length_swap. lia.
  - lia.
  - intros k Hk Hpk. pose proof (parent_lt k ltac:(lia)).
    rewrite !Hsw. rewrite (decide_False (P := k = 0)), (decide_False (P := k = n)) by lia.
    rewrite (decide_False (P := parent k = 0)), (decide_False (P := parent k = n)) by lia.
    apply Hh. lia.
  - lia.
  - set (h2 := down _ _ _ _) in *.
    assert (h2 !! n = Some a) as Hn.
    { rewrite Hk, Hsw by lia. repeat case_decide; subst; congruence || done. }
    assert (length h2 = S n) as Hl2 by (rewrite Hp, length_swap; lia).
    assert (h2 = take n h2 ++ [a]) as Hsplit.
    { rewrite <- (take_drop n h2) at 1. f_equal. rewrite (drop_S _ a) by done.
      rewrite drop_ge by lia. done. }
    assert (h ≡ₚ a :: take n h2) as Hperm.
    { transitivity h2; [by rewrite Hp, swap_perm|]. rewrite Hsplit at 1. by rewrite Permutation_app_comm. }
    exists a, (take n h2). split_and!; [| |done|].
    + assert (heap_Pop h = (x ← h2 !! n; Some (x, take n h2))) as -> by (by destruct h).
      by rewrite Hn.
    + unfold is_heap. rewrite length_take, Hl2. intros k Hk'. pose proof (parent_lt k ltac:(lia)).
      rewrite !lookup_take_lt by lia. apply Hd. lia.
    + intros y Hy. assert (y ∈ h) as Hyh by (rewrite Hperm; by right).
      apply list_elem_of_lookup in Hyh as [k Hy']. by eapply heap_root_min.
Qed.
End heap.
