(* ===== verification/MergeIterator.v ===== *)
(** * The merge iterator

    [storage/merge_iterator.go]: several sorted iterators are merged through a binary heap of
    iterators ordered by their current key.  The sub-iterators are shared between the slice [iters]
    and the heap, so the heap holds positions of [iters]. *)
From Stdlib Require Import ZArith Lia.
From stdpp Require Import base gmap strings list sorting.
From S2P Require Import Prelude Storage Heap Memory.
Open Scope Z_scope.

Section merge.
Context {I : Type} `{Iterator I}.

(** ** Data *)

(** [type mergeIterator struct]. *)
Record mergeIterator : Type := mkMerge {
  mg_key : bytes;
  mg_value : bytes;
  mg_err : option error;
  mg_heap : list nat;
  mg_iters : list I
}.

(** [bytes.Compare(h[i].Key(), h[j].Key()) == -1]; the positions in the heap are positions of
    [iters]. *)
Definition cur_key (iters : list I) (i : nat) : string :=
  match iters !! i with Some it => string_of_bytes (it_Key it) | None => EmptyString end.

Definition iterHeap_Less (iters : list I) (i j : nat) : bool :=
  match String.compare (cur_key iters i) (cur_key iters j) with Lt => true | _ => false end.

(** ** Operations *)

(** The loop of [buildHeap] over the positions [todo]. *)
Fixpoint build_loop (hasValue : I -> bool * I) (todo : list nat) (m : mergeIterator) : mergeIterator :=
  match todo with
  | [] => m
  | i :: todo =>
      match mg_iters m !! i with
      | None => m
      | Some it =>
          let '(b, it') := hasValue it in
          let iters := <[i := it']> (mg_iters m) in
          if b then
            build_loop hasValue todo
              (mkMerge (mg_key m) (mg_value m) (mg_err m)
                       (heap_Push (iterHeap_Less iters) i (mg_heap m)) iters)
          else
            let m := mkMerge (mg_key m) (mg_value m) (it_Err it') (mg_heap m) iters in
            match mg_err m with
            | Some _ => m
            | None => build_loop hasValue todo m
            end
      end
  end.

Definition buildHeap (hasValue : I -> bool * I) (m : mergeIterator) : mergeIterator :=
  build_loop hasValue (seq 0 (length (mg_iters m)))
    (mkMerge (mg_key m) (mg_value m) (mg_err m) [] (mg_iters m)).

Definition NewMultiIterator (iters : list I) : mergeIterator :=
  buildHeap it_Next (mkMerge None None None [] iters).

Definition merge_Key (m : mergeIterator) : bytes := mg_key m.
Definition merge_Value (m : mergeIterator) : res bytes := Ok (mg_value m).

Definition merge_Seek (key : bytes) (m : mergeIterator) : bool * mergeIterator :=
  match mg_err m with
  | Some _ => (false, m)
  | None =>
      let m := buildHeap (it_Seek key) m in
      (match mg_err m with None => Nat.ltb 0 (length (mg_heap m)) | Some _ => false end, m)
  end.

(** [append(old[:0], new...)]: appending nothing to a nil slice leaves it nil. *)
Definition append0 (old new : bytes) : bytes :=
  if String.eqb (string_of_bytes new) EmptyString
  then match old with None => None | Some _ => Some EmptyString end
  else Some (string_of_bytes new).

Definition merge_Next (m : mergeIterator) : bool * mergeIterator :=
  if match mg_err m with Some _ => true | None => Nat.eqb (length (mg_heap m)) 0 end then (false, m)
  else
  match heap_Pop (iterHeap_Less (mg_iters m)) (mg_heap m) with
  | None => (false, m)
  | Some (i, heap) =>
      match mg_iters m !! i with
      | None => (false, m)
      | Some it =>
          let key := append0 (mg_key m) (it_Key it) in
          match it_Value it with
          | Err e => (false, mkMerge key (mg_value m) (Some e) heap (mg_iters m))
          | Ok val =>
              let value := append0 (mg_value m) val in
              let '(b, it') := it_Next it in
              let iters := <[i := it']> (mg_iters m) in
              if b then
                (true, mkMerge key value None (heap_Push (iterHeap_Less iters) i heap) iters)
              else
                match it_Err it' with
                | Some e => (false, mkMerge key value (Some e) heap iters)
                | None => (true, mkMerge key value None heap iters)
                end
          end
      end
  end.

Definition merge_Err (m : mergeIterator) : option error := mg_err m.

Definition merge_Release (m : mergeIterator) : mergeIterator :=
  mkMerge None None None [] [].

#[export] Instance merge_Iterator : Iterator mergeIterator := {
  it_Next := merge_Next;
  it_Err := merge_Err;
  it_Key := merge_Key;
  it_Value := merge_Value;
  it_Release := merge_Release;
  it_Seek := merge_Seek
}.

(** ** The invariant *)

Context `{!IteratorLaws I}.

(** [pending it p]: the sub-iterator still has the pairs [p] to contribute, the first of which is
    its current pair. *)
Definition pending (it : I) (p : list (string * string)) : Prop :=
  match p with
  | [] => True
  | (k, v) :: l =>
      it_ok it /\ it_Key it = Some k /\ it_Value it = Ok (Some v) /\ it_rest it = l
  end.

Record merge_inv (m : mergeIterator) (P : list (list (string * string))) : Prop := {
  mi_err : mg_err m = None;
  mi_pending : Forall2 pending (mg_iters m) P;
  mi_heap_nodup : NoDup (mg_heap m);
  mi_heap_elem : forall i, i ∈ mg_heap m <-> exists x l, P !! i = Some (x :: l);
  mi_is_heap : is_heap (iterHeap_Less (mg_iters m)) (mg_heap m)
}.

Definition key_le (a b : string * string) : Prop := String.le a.1 b.1.

(** ** Lemmas *)

Lemma Less_spec iters i j :
  iterHeap_Less iters i j = false <-> String.le (cur_key iters j) (cur_key iters i).
Proof.
  unfold iterHeap_Less, String.le, String.leb.
  rewrite (String.compare_antisym (cur_key iters j)).
  destruct (String.compare (cur_key iters i) _); simpl; unfold Is_true; intuition discriminate.
Qed.

Lemma Less_trans iters a b c :
  iterHeap_Less iters b a = false -> iterHeap_Less iters c b = false -> iterHeap_Less iters c a = false.
Proof. rewrite !Less_spec. intros. by transitivity (cur_key iters b). Qed.

Lemma Less_asym iters a b : iterHeap_Less iters a b = true -> iterHeap_Less iters b a = false.
Proof.
  intros Hl. apply Less_spec. destruct (total String.le (cur_key iters a) (cur_key iters b)) as [?|Hle]; [done|].
  apply Less_spec in Hle. congruence.
Qed.

(** The heap property only depends on the keys of the iterators in the heap. *)
Lemma is_heap_insert iters i it' h :
  i ∉ h -> is_heap (iterHeap_Less iters) h -> is_heap (iterHeap_Less (<[i := it']> iters)) h.
Proof.
  intros Hi Hh k Hk. specialize (Hh k Hk). unfold leo in *.
  destruct (h !! parent k) as [a|] eqn:Ha, (h !! k) as [b|] eqn:Hb; try done.
  assert (a <> i /\ b <> i) as [? ?].
  { split; intros ->; apply Hi; apply list_elem_of_lookup; eauto. }
  unfold iterHeap_Less, cur_key in *. by rewrite !list_lookup_insert_ne.
Qed.

Lemma Push_spec iters i h :
  is_heap (iterHeap_Less iters) h ->
  is_heap (iterHeap_Less iters) (heap_Push (iterHeap_Less iters) i h) /\
  heap_Push (iterHeap_Less iters) i h ≡ₚ i :: h.
Proof. apply heap_Push_spec; eauto using Less_trans, Less_asym. Qed.

Lemma Pop_spec iters h :
  is_heap (iterHeap_Less iters) h -> h <> [] ->
  exists i h', heap_Pop (iterHeap_Less iters) h = Some (i, h') /\ is_heap (iterHeap_Less iters) h' /\
    h ≡ₚ i :: h' /\ forall j, j ∈ h' -> String.le (cur_key iters i) (cur_key iters j).
Proof.
  intros Hh Hne. destruct (heap_Pop_spec (iterHeap_Less iters)
    (Less_trans iters) (Less_asym iters) h Hh Hne) as (i & h' & ? & ? & ? & Hmin).
  exists i, h'. split_and!; try done. intros j Hj. by apply Less_spec, Hmin.
Qed.

(** Advancing one sub-iterator with [Next]. *)
Lemma pending_Next it p :
  it_ok it -> it_rest it = p ->
  match p with
  | [] => (it_Next it).1 = false /\ it_Err (it_Next it).2 = None
  | _ => (it_Next it).1 = true /\ pending (it_Next it).2 p
  end.
Proof.
  intros Hok Hr. destruct p as [|[k v] l]; [by apply law_Next_nil|].
  destruct (law_Next_cons it k v l Hok Hr) as (? & ? & ? & ? & ?). done.
Qed.

(** The state of [buildHeap] when the positions below [t] have been visited. *)
Record build_inv (t : nat) (m : mergeIterator) (P : list (list (string * string))) : Prop := {
  bi_err : mg_err m = None;
  bi_len : length (mg_iters m) = length P;
  bi_done : forall i it p, (i < t)%nat -> mg_iters m !! i = Some it -> P !! i = Some p -> pending it p;
  bi_todo : forall i it p, (t <= i)%nat -> mg_iters m !! i = Some it -> P !! i = Some p ->
    it_ok it /\ it_rest it = p;
  bi_nodup : NoDup (mg_heap m);
  bi_elem : forall i, i ∈ mg_heap m <-> (i < t)%nat /\ exists x l, P !! i = Some (x :: l);
  bi_heap : is_heap (iterHeap_Less (mg_iters m)) (mg_heap m)
}.

Lemma build_step t m P it p :
  build_inv t m P -> mg_iters m !! t = Some it -> P !! t = Some p ->
  let it' := (it_Next it).2 in
  let iters := <[t := it']> (mg_iters m) in
  let h := match p with [] => mg_heap m | _ => heap_Push (iterHeap_Less iters) t (mg_heap m) end in
  build_inv (S t) (mkMerge (mg_key m) (mg_value m) None h iters) P.
Proof.
  intros B Hit Hp it' iters h. destruct B.
  destruct (bi_todo0 t it p ltac:(lia) Hit Hp) as [Hok Hrest].
  assert (t ∉ mg_heap m) as Ht by (rewrite bi_elem0; lia).
  pose proof (is_heap_insert (mg_iters m) t it' _ Ht bi_heap0) as Hh. fold iters in Hh.
  pose proof (pending_Next it p Hok Hrest) as Hn.
  assert (forall i it0 p0, (i < S t)%nat -> iters !! i = Some it0 -> P !! i = Some p0 -> pending it0 p0) as Hdone.
  { intros i it0 p0 Hi. unfold iters. destruct (decide (i = t)) as [->|].
    - rewrite list_lookup_insert_eq by (by eapply lookup_lt_Some). intros [= <-] Hp0.
      assert (p0 = p) as -> by congruence. destruct p; [done|by apply Hn].
    - rewrite list_lookup_insert_ne by done. apply bi_done0. lia. }
  assert (forall i it0 p0, (S t <= i)%nat -> iters !! i = Some it0 -> P !! i = Some p0 ->
     it_ok it0 /\ it_rest it0 = p0) as Htodo.
  { intros i it0 p0 Hi. unfold iters. rewrite list_lookup_insert_ne by lia. apply bi_todo0. lia. }
  assert (length iters = length P) as Hlen by (unfold iters; by rewrite length_insert).
  destruct p as [|x l].
  - constructor; simpl; try done. intros i. unfold h. rewrite bi_elem0.
    split; [naive_solver lia|]. intros (Hi & y & l' & Hy). split; [|eauto].
    destruct (decide (i = t)) as [->|]; [congruence|lia].
  - destruct (Push_spec iters t (mg_heap m) Hh) as [Hh' Hperm]. fold h in Hh', Hperm.
    constructor; simpl; try done.
    + rewrite Hperm. by constructor.
    + intros i. rewrite Hperm, elem_of_cons, bi_elem0. split; [naive_solver lia|].
      intros (Hi & Hy). destruct (decide (i = t)); [by left|right; split; [lia|done]].
Qed.

Lemma build_loop_inv n t m P :
  build_inv t m P -> (t + n = length P)%nat -> build_inv (t + n) (build_loop it_Next (seq t n) m) P.
Proof.
  revert t m. induction n as [|n IH]; intros t m B Hl; [by rewrite Nat.add_0_r|]. simpl.
  destruct (lookup_lt_is_Some_2 P t) as [p Hp]; [lia|].
  destruct (lookup_lt_is_Some_2 (mg_iters m) t) as [it Hit]; [rewrite (bi_len _ _ _ B); lia|].
  pose proof (build_step t m P it p B Hit Hp) as Bs. simpl in Bs. rewrite Hit.
  destruct (bi_todo _ _ _ B t it p ltac:(lia) Hit Hp) as [Hok Hrest].
  pose proof (pending_Next it p Hok Hrest) as Hn.
  replace (t + S n)%nat with (S t + n)%nat by lia.
  destruct (it_Next it) as [b it']. simpl in *. destruct p as [|x l].
  - destruct Hn as [-> ->]. apply (IH (S t)); [done|lia].
  - destruct Hn as [-> _]. rewrite (bi_err _ _ _ B). apply (IH (S t)); [done|lia].
Qed.

(** [NewMultiIterator] establishes the invariant. *)
Lemma NewMultiIterator_inv iters :
  Forall it_ok iters -> merge_inv (NewMultiIterator iters) (it_rest <$> iters).
Proof.
  intros Hok. unfold NewMultiIterator, buildHeap. simpl.
  set (P := it_rest <$> iters).
  assert (length P = length iters) as Hl by apply length_fmap.
  assert (build_inv 0 (mkMerge None None None [] iters) P) as B.
  { constructor; simpl.
    - done.
    - done.
    - intros; lia.
    - intros i it p _ Hi Hp. unfold P in Hp. rewrite list_lookup_fmap, Hi in Hp. simplify_eq/=.
      by eapply Forall_lookup_1 in Hok.
    - constructor.
    - intros i. split; [by intros ?%not_elem_of_nil|lia].
    - intros k. simpl. lia. }
  rewrite <- Hl. destruct (build_loop_inv (length P) 0 _ P B eq_refl). simpl in *.
  constructor; [done| |done| |done].
  - apply Forall2_same_length_lookup_2; [done|]. intros i it p Hi Hp.
    eapply bi_done0; [|done|done]. by eapply lookup_lt_Some.
  - intros i. rewrite bi_elem0. split; [naive_solver|]. intros (x & l & Hx).
    split; [by eapply lookup_lt_Some|eauto].
Qed.

Lemma append0_string old new : string_of_bytes (append0 old new) = string_of_bytes new.
Proof.
  unfold append0. destruct (String.eqb (string_of_bytes new) "") eqn:E; [|done].
  simp_bool. rewrite E. by destruct old.
Qed.

(** One call of [Next]: the end when nothing is pending, otherwise a pending pair with a smallest
    key, which is then no longer pending. *)
Lemma merge_Next_spec m P :
  merge_inv m P ->
  (concat P = [] /\ merge_Next m = (false, m)) \/
  (exists i k v l m', P !! i = Some ((k, v) :: l) /\ merge_Next m = (true, m') /\
     string_of_bytes (merge_Key m') = k /\
     (exists vb, merge_Value m' = Ok vb /\ string_of_bytes vb = v) /\
     merge_inv m' (<[i := l]> P) /\
     forall j k' v' l', P !! j = Some ((k', v') :: l') -> String.le k k').
Proof.
  intros [Herr Hpend Hnd Helem Hh]. unfold merge_Next. rewrite Herr.
  destruct (decide (mg_heap m = [])) as [Eh|Hne].
  { rewrite Eh in *. left. split; [|done]. apply concat_nil_Forall, Forall_lookup. intros i p Hp.
    destruct p as [|x l]; [done|]. exfalso. eapply not_elem_of_nil, (Helem i). eauto. }
  right. assert (Nat.eqb (length (mg_heap m)) 0 = false) as -> by (by destruct (mg_heap m)).
  destruct (Pop_spec (mg_iters m) (mg_heap m) Hh Hne) as (i & h' & -> & Hh' & Hperm & Hmin).
  assert (i ∈ mg_heap m) as Hi by (rewrite Hperm; left).
  apply Helem in Hi as ([k v] & l & HP).
  destruct (Forall2_lookup_r _ _ _ _ _ Hpend HP) as (it & Hit & Hok & Hkey & Hval & Hrest).
  rewrite Hit, Hval. pose proof (pending_Next it l Hok Hrest) as Hn.
  rewrite Hperm in Hnd. apply NoDup_cons in Hnd as [Hih Hnd].
  assert (forall j, j ∈ h' <-> j <> i /\ exists x l0, P !! j = Some (x :: l0)) as Helem'.
  { intros j. rewrite <- Helem, Hperm, elem_of_cons. naive_solver. }
  pose proof (lookup_lt_Some _ _ _ HP) as HiP.
  destruct (it_Next it) as [b it']. simpl in Hn.
  pose proof (is_heap_insert (mg_iters m) i it' h' Hih Hh') as Hh''.
  assert (pending it' l) as Hpl by (destruct l; [done|by destruct Hn]).
  assert (Forall2 pending (<[i:=it']> (mg_iters m)) (<[i:=l]> P)) as Hpend' by (by apply Forall2_insert).
  assert (exists m', (if b then (true, mkMerge (append0 (mg_key m) (it_Key it))
            (append0 (mg_value m) (Some v)) None
            (heap_Push (iterHeap_Less (<[i:=it']> (mg_iters m))) i h') (<[i:=it']> (mg_iters m)))
          else match it_Err it' with
               | Some e => (false, mkMerge (append0 (mg_key m) (it_Key it))
                    (append0 (mg_value m) (Some v)) (Some e) h' (<[i:=it']> (mg_iters m)))
               | None => (true, mkMerge (append0 (mg_key m) (it_Key it))
                    (append0 (mg_value m) (Some v)) None h' (<[i:=it']> (mg_iters m))) end)
       = (true, m') /\ mg_key m' = append0 (mg_key m) (Some k) /\
         mg_value m' = append0 (mg_value m) (Some v) /\ merge_inv m' (<[i:=l]> P))
    as (m' & Hm' & Hk' & Hv' & Hinv').
  { rewrite Hkey. destruct l as [|x l]; destruct Hn as [-> Hn]; [rewrite Hn|]; eexists;
      (split; [done|]); simpl; split_and!; try done; constructor; simpl; try done.
    - intros j. rewrite Helem'. destruct (decide (j = i)) as [->|].
      + rewrite list_lookup_insert_eq by done. naive_solver.
      + rewrite list_lookup_insert_ne by done. naive_solver.
    - rewrite (proj2 (Push_spec _ _ _ Hh'')). by constructor.
    - intros j. rewrite (proj2 (Push_spec _ _ _ Hh'')), elem_of_cons, Helem'.
      destruct (decide (j = i)) as [->|].
      + rewrite list_lookup_insert_eq by done. naive_solver.
      + rewrite list_lookup_insert_ne by done. naive_solver.
    - by apply Push_spec. }
  exists i, k, v, l, m'. split_and!; [done|exact Hm'| | |done|].
  - unfold merge_Key. by rewrite Hk', append0_string.
  - exists (mg_value m'). split; [done|]. by rewrite Hv', append0_string.
  - intros j k' v' l' Hj.
    assert (forall j k' v' l', P !! j = Some ((k', v') :: l') -> cur_key (mg_iters m) j = k') as Hcur.
    { intros j0 k0 v0 l0 Hj0.
      destruct (Forall2_lookup_r _ _ _ _ _ Hpend Hj0) as (it0 & Hit0 & _ & Hk0 & _).
      unfold cur_key. by rewrite Hit0, Hk0. }
    destruct (decide (j = i)) as [->|]; [by simplify_eq|].
    rewrite <- (Hcur i k v l HP), <- (Hcur j k' v' l' Hj). apply Hmin, Helem'. eauto.
Qed.

Lemma concat_insert_perm {A} (P : list (list A)) i x l :
  P !! i = Some (x :: l) -> concat P ≡ₚ x :: concat (<[i := l]> P).
Proof.
  revert i. induction P as [|p P IH]; intros [|i] Hi; simplify_eq/=; [done|].
  rewrite (IH i Hi). by rewrite Permutation_middle.
Qed.

(** What a client reads from [Key] and [Value] for one pair. *)
Definition reads (r : bytes * res bytes) (kv : string * string) : Prop :=
  string_of_bytes r.1 = kv.1 /\ exists vb, r.2 = Ok vb /\ string_of_bytes vb = kv.2.

Lemma merge_collect fuel m P :
  merge_inv m P -> Forall (StronglySorted key_le) P -> (length (concat P) < fuel)%nat ->
  exists raw out, collect_all fuel m = (raw, Some None) /\ Forall2 reads raw out /\
    out ≡ₚ concat P /\ StronglySorted key_le out.
Proof.
  revert m P. induction fuel as [|fuel IH]; intros m P Hinv Hs Hf; [lia|]. simpl.
  destruct (merge_Next_spec m P Hinv)
    as [[Hc ->]|(i & k & v & l & m' & HP & -> & Hk & (vb & Hvb & Hv) & Hinv' & Hmin)].
  { exists [], []. rewrite Hc. split_and!; [|constructor|done|constructor].
    cbn [it_Err merge_Iterator]. unfold merge_Err. by rewrite (mi_err _ _ Hinv). }
  pose proof (concat_insert_perm P i (k, v) l HP) as Hperm.
  assert (Forall (StronglySorted key_le) (<[i:=l]> P)) as Hs'.
  { apply Forall_insert; [done|]. eapply Forall_lookup_1 in HP; [|exact Hs]. by inversion HP. }
  destruct (IH m' (<[i:=l]> P) Hinv' Hs') as (raw & out & -> & Hr & Hp & Hso).
  { rewrite Hperm in Hf. simpl in Hf. lia. }
  exists ((merge_Key m', merge_Value m') :: raw), ((k, v) :: out). split_and!.
  - done.
  - constructor; [|done]. split; [done|]. eauto.
  - by rewrite Hp, Hperm.
  - constructor; [done|]. apply Forall_forall. intros [k' v'] Hin. unfold key_le. simpl.
    assert ((k', v') ∈ concat P) as HinP by (rewrite Hperm; right; by rewrite <- Hp).
    apply list_elem_of_In, in_concat in HinP as (p & HinP' & Hp').
    apply list_elem_of_In in Hp'. apply list_elem_of_In, list_elem_of_lookup in HinP' as [j Hj].
    destruct p as [|[k0 v0] l0]; [by apply not_elem_of_nil in Hp'|].
    transitivity k0; [by eapply Hmin|].
    apply elem_of_cons in Hp' as [[= -> ->]|Hin']; [done|].
    eapply Forall_lookup_1 in Hj; [|exact Hs]. apply StronglySorted_cons in Hj as [Hall _].
    rewrite Forall_forall in Hall. by apply (Hall _ Hin').
Qed.
End merge.

(** ** Properties *)

(** C31. The merge iterator over sorted sub-iterators delivers, in ascending key order, exactly the
    pairs of the sub-iterators (equal keys of different sub-iterators are all delivered), and then
    reports the end without error. *)
Theorem merge_iteration {I} `{IteratorLaws I} (iters : list I) :
  Forall it_ok iters ->
  Forall (fun it => StronglySorted key_le (it_rest it)) iters ->
  let pairs := concat (it_rest <$> iters) in
  exists raw out, collect_all (S (length pairs)) (NewMultiIterator iters) = (raw, Some None) /\
    Forall2 reads raw out /\ out ≡ₚ pairs /\ StronglySorted key_le out.
Proof.
  intros Hok Hs pairs. eapply merge_collect; [by apply NewMultiIterator_inv| |unfold pairs; lia].
  by apply Forall_fmap.
Qed.

(** The snapshot iterators of two partitions with the keys b, d and a, c. *)
Definition merge_demo : list memiter :=
  [mkMemiter (-1) ["b"; "d"]%string {[ "b" := "2"; "d" := "4" ]}%string;
   mkMemiter (-1) ["a"; "c"]%string {[ "a" := "1"; "c" := "3" ]}%string].

Lemma merge_demo_ok : Forall it_ok merge_demo.
Proof.
  repeat constructor; simpl; try lia; try set_solver;
    intros k Hk; repeat (apply elem_of_cons in Hk as [->|Hk]; [by eexists; vm_compute|]);
    by apply not_elem_of_nil in Hk.
Qed.

Lemma merge_demo_rest :
  it_rest <$> merge_demo = [[("b", "2"); ("d", "4")]; [("a", "1"); ("c", "3")]]%string.
Proof. vm_compute. done. Qed.

Lemma merge_demo_sorted : Forall (fun it => StronglySorted key_le (it_rest it)) merge_demo.
Proof. apply (Forall_fmap _ _ merge_demo). rewrite merge_demo_rest. repeat constructor. Qed.

Lemma merge_iteration_witness :
  exists raw out,
    collect_all (S (length (concat (it_rest <$> merge_demo)))) (NewMultiIterator merge_demo) = (raw, Some None) /\
    Forall2 reads raw out /\ out ≡ₚ concat (it_rest <$> merge_demo) /\ StronglySorted key_le out.
Proof.
  exact (merge_iteration merge_demo merge_demo_ok merge_demo_sorted).
Defined.

(** [Seek] on a merge iterator leaves [Key] and [Value] at the last pair that [Next] delivered;
    on a fresh iterator over the key a, a successful [Seek] of a leaves [Key] nil.  (The interface
    of view iterators documents that Key and Value give the found pair after [Seek].) *)
Theorem merge_Seek_keeps_key :
  (forall {I} `{Iterator I} key (m : mergeIterator),
     merge_Key (merge_Seek key m).2 = merge_Key m /\ merge_Value (merge_Seek key m).2 = merge_Value m) /\
  (exists m', merge_Seek (Some "a"%string) (NewMultiIterator merge_demo) = (true, m') /\
     merge_Key m' = None).
Proof.
  split.
  - intros I H key m. unfold merge_Seek. destruct (mg_err m); [done|]. simpl.
    assert (forall hv todo m, mg_key (build_loop hv todo m) = mg_key m /\
              mg_value (build_loop hv todo m) = mg_value m) as Hb.
    { intros hv todo. induction todo as [|i todo IH]; intros m0; simpl; [done|].
      destruct (mg_iters m0 !! i); [|done]. destruct (hv i0) as [[] it']; [by rewrite !(proj1 (IH _)), !(proj2 (IH _))|].
      simpl. destruct (it_Err it'); [done|]. by rewrite !(proj1 (IH _)), !(proj2 (IH _)). }
    unfold merge_Key, merge_Value, buildHeap. by rewrite (proj1 (Hb _ _ _)), (proj2 (Hb _ _ _)).
  - eexists. vm_compute. done.
Qed.
