(* ===== verification/LevelDB.v ===== *)
(** * The LevelDB storage

    [storage/storage.go] and [storage/iterator.go].  The database itself is goleveldb, which is not
    part of the repository: it is the class [LevelDB] with its documented behaviour as
    [LevelDBLaws].  The local copy of the offset, the recovered and close channels and the
    goroutine that [Open] starts are modelled step by step. *)
From Stdlib Require Import ZArith Lia Ascii.
From stdpp Require Import base gmap strings list sorting.
From S2P Require Import Prelude Codec Storage.
Open Scope Z_scope.

(** ** The database *)

(** [util.Range]; a [nil] limit is unbounded. *)
Definition ldb_range : Type := bytes * bytes.

Class LevelDB (DB LI SN : Type) : Type := {
  db_Has : string -> DB -> res bool;
  db_Get : string -> DB -> res bytes;
  db_Put : string -> bytes -> DB -> option error * DB;
  db_Delete : string -> DB -> option error * DB;
  db_GetSnapshot : DB -> res SN;
  db_NewIterator : option ldb_range -> DB -> LI;
  db_Close : DB -> option error * DB;
  BytesPrefix : bytes -> ldb_range;
  li_Next : LI -> bool * LI;
  li_Key : LI -> bytes;
  li_Value : LI -> bytes;
  li_Error : LI -> option error;
  li_Seek : bytes -> LI -> bool * LI;
  li_Release : LI -> LI;
  snap_Release : SN -> SN
}.

(** The keys of a range: from the start on and, with a limit, strictly below it. *)
Definition range_mem (r : option ldb_range) (k : string) : Prop :=
  match r with
  | None => True
  | Some (start, limit) =>
      String.le (string_of_bytes start) k /\
      match limit with None => True | Some l => string_lt k l end
  end.

(** The documented behaviour of goleveldb that the code relies on: an open database is a finite
    map ([nil] is stored as the empty value, [ErrNotFound] is returned for a missing key); an
    iterator delivers the pairs of its range in key order; its [Key] is [nil] once it is
    exhausted. *)
Class LevelDBLaws (DB LI SN : Type) `{LevelDB DB LI SN} : Type := {
  db_ok : DB -> Prop;
  db_map : DB -> gmap string string;
  li_rest : LI -> list (string * string);
  ldb_Has d k : db_ok d -> db_Has k d = Ok (bool_decide (is_Some (db_map d !! k)));
  ldb_Get d k : db_ok d ->
    db_Get k d = match db_map d !! k with Some v => Ok (Some v) | None => Err ErrLevelDBNotFound end;
  ldb_Put d k v : db_ok d -> exists d', db_Put k v d = (None, d') /\ db_ok d' /\
    db_map d' = <[k := string_of_bytes v]> (db_map d);
  ldb_Delete d k : db_ok d -> exists d', db_Delete k d = (None, d') /\ db_ok d' /\
    db_map d' = delete k (db_map d);
  ldb_Snapshot d : db_ok d -> exists sn, db_GetSnapshot d = Ok sn;
  ldb_Close d : db_ok d -> (db_Close d).1 = None /\ db_map (db_Close d).2 = db_map d;
  ldb_NewIterator_sorted d r : db_ok d -> StronglySorted string_lt (li_rest (db_NewIterator r d)).*1;
  ldb_NewIterator d r k v : db_ok d ->
    (k, v) ∈ li_rest (db_NewIterator r d) <-> db_map d !! k = Some v /\ range_mem r k;
  ldb_Next_nil i : li_rest i = [] ->
    (li_Next i).1 = false /\ li_Key (li_Next i).2 = None /\ li_rest (li_Next i).2 = [] /\
    li_Error (li_Next i).2 = None;
  ldb_Next_cons i k v l : li_rest i = (k, v) :: l ->
    (li_Next i).1 = true /\ li_Key (li_Next i).2 = Some k /\ li_Value (li_Next i).2 = Some v /\
    li_rest (li_Next i).2 = l
}.

Section leveldb.
Context {DB LI SN : Type} {LDB : LevelDB DB LI SN}.

(** ** The iterator *)

(** [type iterator struct]. *)
Record iterator : Type := mkIterator { ld_iter : LI; ld_snap : SN }.

Definition iterator_Next (i : iterator) : bool * iterator :=
  let '(next, it) := li_Next (ld_iter i) in
  let '(next, it) := if String.eqb (string_of_bytes (li_Key it)) offsetKey then li_Next it
                     else (next, it) in
  (next, mkIterator it (ld_snap i)).

Definition iterator_Err (i : iterator) : option error := li_Error (ld_iter i).
Definition iterator_Key (i : iterator) : bytes := li_Key (ld_iter i).

Definition iterator_Value (i : iterator) : res bytes :=
  let data := li_Value (ld_iter i) in
  match data with None => Ok None | Some _ => Ok data end.

Definition iterator_Release (i : iterator) : iterator :=
  mkIterator (li_Release (ld_iter i)) (snap_Release (ld_snap i)).

Definition iterator_Seek (key : bytes) (i : iterator) : bool * iterator :=
  let '(b, it) := li_Seek key (ld_iter i) in (b, mkIterator it (ld_snap i)).

(** ** The storage *)

(** [type storage struct]; a channel is represented by whether it is closed.  The wait group
    [closeWg] is never incremented. *)
Record storage : Type := mkStorage {
  s_offset : Z;
  s_recovered : bool;
  s_close : bool;
  s_closed : bool;
  s_db : DB
}.

Definition set_db (d : DB) (s : storage) : storage :=
  mkStorage (s_offset s) (s_recovered s) (s_close s) (s_closed s) d.

(** [New]. *)
Definition storage_New (db : DB) : storage := mkStorage 0 false false false db.

Definition storage_Iterator (s : storage) : res iterator :=
  snap ← db_GetSnapshot (s_db s);
  Ok (mkIterator (db_NewIterator None (s_db s)) snap).

Definition storage_IteratorWithRange (start limit : bytes) (s : storage) : res iterator :=
  snap ← db_GetSnapshot (s_db s);
  if match limit with None => false | Some _ => 0 <? bytes_len limit end
  then Ok (mkIterator (db_NewIterator (Some (start, limit)) (s_db s)) snap)
  else Ok (mkIterator (db_NewIterator (Some (BytesPrefix start)) (s_db s)) snap).

Definition storage_Has (key : string) (s : storage) : res bool := db_Has key (s_db s).

Definition storage_Get (key : string) (s : storage) : res bytes :=
  match db_Get key (s_db s) with
  | Err ErrLevelDBNotFound => Ok None
  | Err e => Err (ErrWrap ("error getting from leveldb (key " ++ key ++ ")") e)
  | Ok value => Ok value
  end.

Definition storage_GetOffset (defValue : Z) (s : storage) : res Z :=
  if negb (s_recovered s) && negb (s_offset s =? 0) then Ok (s_offset s)
  else
    data ← storage_Get offsetKey s;
    match data with
    | None => Ok defValue
    | Some _ =>
        match ParseInt (string_of_bytes data) with
        | Ok value => Ok value
        | Err e => Err (ErrWrap "error decoding offset" e)
        end
    end.

Definition storage_Set (key : string) (value : bytes) (s : storage) : option error * storage :=
  match db_Put key value (s_db s) with
  | (Some e, d) => (Some (ErrWrap ("error setting to leveldb (key " ++ key ++ ")") e), set_db d s)
  | (None, d) => (None, set_db d s)
  end.

Definition putOffset (offset : Z) (s : storage) : option error * storage :=
  storage_Set offsetKey (Some (FormatInt offset)) s.

Definition storage_SetOffset (offset : Z) (s : storage) : option error * storage :=
  let s := mkStorage offset (s_recovered s) (s_close s) (s_closed s) (s_db s) in
  if s_recovered s then putOffset offset s else (None, s).

Definition storage_Delete (key : string) (s : storage) : option error * storage :=
  match db_Delete key (s_db s) with
  | (Some e, d) => (Some (ErrWrap ("error deleting from leveldb (key " ++ key ++ ")") e), set_db d s)
  | (None, d) => (None, set_db d s)
  end.

(** [close(ch)] of a closed channel panics. *)
Definition close_of_closed_channel : error := ErrNew "close of closed channel".

Definition storage_MarkRecovered (s : storage) : outcome (option error * storage) :=
  let curOffset := s_offset s in
  let '(err, s) := if curOffset =? 0 then (None, s) else putOffset curOffset s in
  match err with
  | Some e => Ret (Some e, s)
  | None =>
      if s_recovered s then Panic close_of_closed_channel
      else Ret (None, mkStorage (s_offset s) true (s_close s) (s_closed s) (s_db s))
  end.

(** [Open] starts the goroutine of [sync_step] and returns. *)
Definition storage_Open (s : storage) : option error := None.

(** [Close] in the steps between which the goroutine of [Open] can run: it is told to return, but not
    waited for, since nothing is ever added to [closeWg]. *)
Definition close_begin (s : storage) : outcome storage :=
  if s_close s then Panic close_of_closed_channel
  else Ret (mkStorage (s_offset s) (s_recovered s) true (s_closed s) (s_db s)).

Definition close_put (s : storage) : storage :=
  let curOffset := s_offset s in
  if curOffset =? 0 then s else (putOffset curOffset s).2.

Definition close_db (s : storage) : outcome (option error * storage) :=
  let '(err, d) := db_Close (s_db s) in
  if s_closed s then Panic close_of_closed_channel
  else Ret (err, mkStorage (s_offset s) (s_recovered s) (s_close s) true d).

Definition storage_Close (s : storage) : outcome (option error * storage) :=
  s ← close_begin s; close_db (close_put s).

(** *** The goroutine of [Open] *)

(** It waits in the [select], has read the offset and is about to store it, or has returned. *)
Inductive sync_state : Type := SyncSelect | SyncLoaded (curOffset : Z) | SyncReturned.

Inductive sync_case : Type := CaseClose | CaseRecovered | CaseTick | CasePut.

(** One step of the goroutine; [None] if the chosen case is not ready.  Reading the offset and
    storing it are two steps, because the writer runs concurrently. *)
Definition sync_step (c : sync_case) (g : sync_state) (s : storage) : option (sync_state * storage) :=
  match g, c with
  | SyncSelect, CaseClose => if s_close s then Some (SyncReturned, s) else None
  | SyncSelect, CaseRecovered => if s_recovered s then Some (SyncReturned, s) else None
  | SyncSelect, CaseTick =>
      Some (if s_offset s =? 0 then SyncSelect else SyncLoaded (s_offset s), s)
  | SyncLoaded curOffset, CasePut => Some (SyncSelect, (putOffset curOffset s).2)
  | _, _ => None
  end.

(** ** The instances *)

#[export] Instance iterator_Iterator : Iterator iterator := {
  it_Next := iterator_Next;
  it_Err := iterator_Err;
  it_Key := iterator_Key;
  it_Value := iterator_Value;
  it_Release := iterator_Release;
  it_Seek := iterator_Seek
}.

#[export] Instance leveldb_Storage : Storage storage iterator := {
  st_Open s := (storage_Open s, s);
  st_Close := storage_Close;
  st_Has := storage_Has;
  st_Get := storage_Get;
  st_Set := storage_Set;
  st_Delete := storage_Delete;
  st_GetOffset := storage_GetOffset;
  st_SetOffset := storage_SetOffset;
  st_MarkRecovered := storage_MarkRecovered;
  st_Iterator := storage_Iterator;
  st_IteratorWithRange := storage_IteratorWithRange
}.
End leveldb.
Arguments iterator : clear implicits.
Arguments storage : clear implicits.

(** ** Lemmas *)

Section laws.
Context {DB LI SN : Type} `{LDBL : LevelDBLaws DB LI SN}.

(** The offset stored in the database. *)
Definition persisted (d : DB) : option Z :=
  t ← db_map d !! offsetKey;
  match ParseInt t with Ok z => Some z | Err _ => None end.

(** The invariant: the database is open and its offset entry, if any, was written by the code. *)
Record storage_ok (s : storage DB) : Prop := {
  so_db : db_ok (s_db s);
  so_offset : in_int64 (s_offset s);
  so_entry : forall t, db_map (s_db s) !! offsetKey = Some t ->
    exists o, in_int64 o /\ t = FormatInt o
}.

(** The offset [GetOffset] reports. *)
Definition visible_offset (s : storage DB) : option Z :=
  if negb (s_recovered s) && negb (s_offset s =? 0) then Some (s_offset s) else persisted (s_db s).

Lemma persisted_insert d d' o :
  in_int64 o -> db_map d' = <[offsetKey := FormatInt o]> (db_map d) -> persisted d' = Some o.
Proof.
  intros Ho E. unfold persisted. rewrite E, lookup_insert_eq. simpl. by rewrite ParseInt_FormatInt.
Qed.

Lemma persisted_proper d d' :
  db_map d' !! offsetKey = db_map d !! offsetKey -> persisted d' = persisted d.
Proof. unfold persisted. by intros ->. Qed.

Lemma storage_Set_spec k v s :
  storage_ok s -> k <> offsetKey ->
  exists d, storage_Set k v s = (None, set_db d s) /\ storage_ok (set_db d s) /\
    db_map d = <[k := string_of_bytes v]> (db_map (s_db s)).
Proof.
  intros [Hd Ho He] Hk. destruct (ldb_Put (s_db s) k v Hd) as (d & HP & Hd' & Hm).
  exists d. unfold storage_Set. rewrite HP. split_and!; [done| |done]. constructor; simpl; [done|done|].
  intros t. rewrite Hm, lookup_insert_ne by done. apply He.
Qed.

Lemma storage_Delete_spec k s :
  storage_ok s -> k <> offsetKey ->
  exists d, storage_Delete k s = (None, set_db d s) /\ storage_ok (set_db d s) /\
    db_map d = delete k (db_map (s_db s)).
Proof.
  intros [Hd Ho He] Hk. destruct (ldb_Delete (s_db s) k Hd) as (d & HP & Hd' & Hm).
  exists d. unfold storage_Delete. rewrite HP. split_and!; [done| |done].
  constructor; simpl; [done|done|]. intros t. rewrite Hm, lookup_delete_ne by done. apply He.
Qed.

Lemma putOffset_spec o s :
  storage_ok s -> in_int64 o ->
  exists d, putOffset o s = (None, set_db d s) /\ storage_ok (set_db d s) /\
    db_map d = <[offsetKey := FormatInt o]> (db_map (s_db s)).
Proof.
  intros [Hd Hso He] Ho.
  destruct (ldb_Put (s_db s) offsetKey (Some (FormatInt o)) Hd) as (d & HP & Hd' & Hm).
  exists d. unfold putOffset, storage_Set. rewrite HP. split_and!; [done| |done].
  constructor; simpl; [done|done|]. intros t. rewrite Hm. simpl. rewrite lookup_insert_eq.
  intros [= <-]. eauto.
Qed.

Lemma storage_Get_spec k s : storage_ok s -> storage_Get k s = Ok (db_map (s_db s) !! k).
Proof.
  intros W. unfold storage_Get. rewrite ldb_Get by apply W. by destruct (db_map _ !! k).
Qed.

Lemma storage_GetOffset_spec d s :
  storage_ok s -> storage_GetOffset d s = Ok (default d (visible_offset s)).
Proof.
  intros W. unfold storage_GetOffset, visible_offset. case_match; [done|].
  rewrite storage_Get_spec by done. unfold persisted. simpl.
  destruct (db_map (s_db s) !! offsetKey) as [t|] eqn:E; simpl; [|done].
  destruct (so_entry _ W _ E) as (o & Ho & ->). by rewrite ParseInt_FormatInt.
Qed.

Lemma storage_SetOffset_spec o s :
  storage_ok s -> in_int64 o ->
  exists s', storage_SetOffset o s = (None, s') /\ storage_ok s' /\
    (s_recovered s = true \/ o <> 0 -> visible_offset s' = Some o) /\
    delete offsetKey (db_map (s_db s')) = delete offsetKey (db_map (s_db s)) /\
    s_recovered s' = s_recovered s.
Proof.
  intros W Ho. set (s1 := mkStorage o (s_recovered s) (s_close s) (s_closed s) (s_db s)).
  assert (storage_ok s1) as W1 by (destruct W; by constructor).
  unfold storage_SetOffset. fold s1. destruct (s_recovered s1) eqn:Er.
  - destruct (putOffset_spec o s1 W1 Ho) as (d & -> & W' & Hm). eexists. split_and!; [done|done| | |].
    + intros _. unfold visible_offset. simpl in *. rewrite Er. simpl. by eapply persisted_insert.
    + simpl in *. rewrite Hm. by rewrite delete_insert_eq.
    + done.
  - exists s1. split_and!; [done|done| |done|done]. intros Hor. unfold visible_offset. rewrite Er. simpl.
    simpl in Er. destruct Hor as [?|Hne]; [congruence|]. by rewrite (proj2 (Z.eqb_neq _ _)).
Qed.

Lemma storage_MarkRecovered_spec s :
  storage_ok s -> s_recovered s = false ->
  exists s', storage_MarkRecovered s = Ret (None, s') /\ storage_ok s' /\ s_recovered s' = true /\
    delete offsetKey (db_map (s_db s')) = delete offsetKey (db_map (s_db s)) /\
    visible_offset s' = visible_offset s.
Proof.
  intros W Er. unfold storage_MarkRecovered, visible_offset. rewrite Er. simpl.
  destruct (s_offset s =? 0) eqn:E0; simp_bool.
  - rewrite Er. eexists. split_and!; [done|destruct W; by constructor|done|done|done].
  - destruct (putOffset_spec (s_offset s) s W (so_offset _ W)) as (d & -> & W' & Hm). simpl.
    rewrite Er. eexists. split_and!; [done|destruct W'; by constructor|done| |]; simpl.
    + rewrite Hm. by rewrite delete_insert_eq.
    + eapply persisted_insert; [apply W|done].
Qed.

(** The LevelDB storage meets the laws of the interface; it keeps the offset key for itself and,
    before the recovery is over, an offset of 0 is not recorded. *)
#[export, refine] Instance leveldb_Laws : StorageLaws (storage DB) (iterator LI SN) := {|
  st_ok := storage_ok;
  st_reserved k := k = offsetKey;
  st_contents s := delete offsetKey (db_map (s_db s));
  st_offset := visible_offset;
  st_unrecovered s := s_recovered s = false;
  st_offset_ok s o := s_recovered s = true \/ o <> 0
|}.
Proof.
  - intros s k W Hk. simpl. by rewrite storage_Get_spec, lookup_delete_ne.
  - intros s k W Hk. simpl. unfold storage_Has. rewrite ldb_Has by apply W. by rewrite lookup_delete_ne.
  - intros s k v W Hk. simpl. destruct (storage_Set_spec k (Some v) s W Hk) as (d & -> & W' & Hm).
    eexists. split_and!; [done|done| | |done].
    + simpl. by rewrite Hm, delete_insert_ne.
    + unfold visible_offset. simpl. case_match; [done|]. apply persisted_proper.
      by rewrite Hm, lookup_insert_ne.
  - intros s k W Hk. simpl. destruct (storage_Delete_spec k s W Hk) as (d & -> & W' & Hm).
    eexists. split_and!; [done|done| | |done].
    + simpl. by rewrite Hm, delete_delete.
    + unfold visible_offset. simpl. case_match; [done|]. apply persisted_proper.
      by rewrite Hm, lookup_delete_ne.
  - intros s d W. by apply storage_GetOffset_spec.
  - intros s o W Ho. destruct (storage_SetOffset_spec o s W Ho) as (s' & ? & ? & ? & ? & Hr).
    exists s'. rewrite Hr. done.
  - intros s o Ho. right. lia.
  - intros s W Hu. destruct (storage_MarkRecovered_spec s W Hu) as (s' & ? & ? & ? & ? & ?).
    exists s'. done.
Defined.

(** *** Iteration *)

Lemma iterator_Next_skip i k v l :
  li_rest (ld_iter i) = (k, v) :: l -> k <> offsetKey ->
  (iterator_Next i).1 = true /\ li_rest (ld_iter (iterator_Next i).2) = l /\
  iterator_Key (iterator_Next i).2 = Some k /\ iterator_Value (iterator_Next i).2 = Ok (Some v).
Proof.
  intros E Hk. destruct (ldb_Next_cons _ _ _ _ E) as (Hn & HK & HV & HL).
  unfold iterator_Next, iterator_Key, iterator_Value. destruct (li_Next (ld_iter i)) as [b it].
  simpl in *. rewrite HK. simpl. rewrite (proj2 (String.eqb_neq _ _) Hk). simpl.
  by rewrite HK, HV.
Qed.

Lemma iterator_Next_offset i v l :
  li_rest (ld_iter i) = (offsetKey, v) :: l ->
  exists it, ld_iter (iterator_Next i).2 = (li_Next it).2 /\
    (iterator_Next i).1 = (li_Next it).1 /\ li_rest it = l.
Proof.
  intros E. destruct (ldb_Next_cons _ _ _ _ E) as (Hn & HK & HV & HL).
  exists (li_Next (ld_iter i)).2. unfold iterator_Next. destruct (li_Next (ld_iter i)) as [b it].
  simpl in *. rewrite HK. simpl. destruct (li_Next it). done.
Qed.

(** The wrapped iterator delivers the pairs of the database iterator without the offset. *)
#[export, refine] Instance iterator_Laws : IteratorLaws (iterator LI SN) := {|
  it_ok i := NoDup (li_rest (ld_iter i)).*1;
  it_rest i := filter (fun kv => kv.1 <> offsetKey) (li_rest (ld_iter i))
|}.
Proof.
  - intros i Hnd E. simpl. destruct (li_rest (ld_iter i)) as [|[k v] l] eqn:El.
    { destruct (ldb_Next_nil _ El) as (Hn & HK & HL & HE). unfold iterator_Next, iterator_Err.
      destruct (li_Next (ld_iter i)) as [b it]. simpl in *. by rewrite HK. }
    rewrite filter_cons in E. case_decide as Hk; [done|]. simpl in Hk. subst k.
    destruct (iterator_Next_offset _ _ _ El) as (it & Hit & -> & HL).
    unfold iterator_Err. rewrite Hit. apply NoDup_cons in Hnd as [Hnin _].
    destruct l as [|[k' v'] l]; [by apply ldb_Next_nil in HL as (? & ? & ? & ?)|].
    rewrite filter_cons_True in E; [done|]. simpl. intros ->. apply Hnin. simpl. set_solver.
  - intros i k v l Hnd E. simpl. destruct (li_rest (ld_iter i)) as [|[k0 v0] l0] eqn:El; [done|].
    apply NoDup_cons in Hnd as [Hnin Hnd]. rewrite filter_cons in E. case_decide as Hk; simpl in Hk.
    + injection E as -> -> <-. destruct (iterator_Next_skip _ _ _ _ El Hk) as (-> & HL & -> & ->).
      by rewrite HL.
    + subst k0. destruct (iterator_Next_offset _ _ _ El) as (it & Hit & Hb & HL).
      unfold iterator_Key, iterator_Value. rewrite Hit, Hb. destruct l0 as [|[k' v'] l0]; [done|].
      assert (k' <> offsetKey) as Hk'. { intros ->. apply Hnin. simpl. set_solver. }
      rewrite filter_cons_True in E by done. injection E as -> -> <-.
      destruct (ldb_Next_cons _ _ _ _ HL) as (-> & -> & -> & ->).
      by apply NoDup_cons in Hnd as [_ ?].
Defined.
End laws.

(** ** The writer and the goroutine together *)

(** One step of the system: a call of the single writer or a step of the goroutine of [Open]. *)
Inductive ldb_action : Type :=
| ASet (k : string) (v : bytes)
| ADelete (k : string)
| ASetOffset (o : Z)
| AMarkRecovered
| ASync (c : sync_case).

Section system.
Context {DB LI SN : Type} {LDB : LevelDB DB LI SN}.

Definition ldb_step (a : ldb_action) (gs : sync_state * storage DB) : option (sync_state * storage DB) :=
  let '(g, s) := gs in
  match a with
  | ASet k v => Some (g, (storage_Set k v s).2)
  | ADelete k => Some (g, (storage_Delete k s).2)
  | ASetOffset o => Some (g, (storage_SetOffset o s).2)
  | AMarkRecovered =>
      match storage_MarkRecovered s with Ret (_, s) => Some (g, s) | _ => None end
  | ASync c => sync_step c g s
  end.

Fixpoint ldb_run (l : list ldb_action) (gs : sync_state * storage DB) : option (sync_state * storage DB) :=
  match l with
  | [] => Some gs
  | a :: l => gs ← ldb_step a gs; ldb_run l gs
  end.

(** The offset an action sets. *)
Definition set_offsets (a : ldb_action) : list Z := match a with ASetOffset o => [o] | _ => [] end.

(** The key an action writes. *)
Definition action_ok (a : ldb_action) : Prop :=
  match a with
  | ASet k _ | ADelete k => k <> offsetKey
  | ASetOffset o => in_int64 o
  | _ => True
  end.

(** The effect of an action on the contents. *)
Definition apply_action (a : ldb_action) (m : gmap string string) : gmap string string :=
  match a with
  | ASet k v => <[k := string_of_bytes v]> m
  | ADelete k => delete k m
  | _ => m
  end.
End system.

Section system_laws.
Context {DB LI SN : Type} `{LDBL : LevelDBLaws DB LI SN}.

(** Every offset the system holds (local, loaded by the goroutine, stored in the database) is one
    of [known]. *)
Record offsets_known (known : list Z) (gs : sync_state * storage DB) : Prop := {
  ok_storage : storage_ok gs.2;
  ok_local : s_offset gs.2 = 0 \/ s_offset gs.2 ∈ known;
  ok_loaded : forall o, gs.1 = SyncLoaded o -> o ∈ known /\ in_int64 o;
  ok_stored : forall o, persisted (s_db gs.2) = Some o -> o ∈ known
}.

Lemma offsets_known_put known g g' o s :
  offsets_known known (g, s) -> o ∈ known -> in_int64 o ->
  (forall o', g' = SyncLoaded o' -> g = SyncLoaded o') ->
  offsets_known known (g', (putOffset o s).2) /\
  delete offsetKey (db_map (s_db (putOffset o s).2)) = delete offsetKey (db_map (s_db s)) /\
  exists d, putOffset o s = (None, set_db d s).
Proof.
  intros [W Hl Hg Hs] Ho Hi Hgg. simpl in *.
  destruct (putOffset_spec o s W Hi) as (d & -> & W' & Hm). simpl. split_and!.
  - constructor; simpl; [done|done|by intros o' ?; apply Hg, Hgg|].
    intros o'. rewrite (persisted_insert _ _ _ Hi Hm). by intros [= <-].
  - by rewrite Hm, delete_insert_eq.
  - eauto.
Qed.

Lemma offsets_known_weaken known known' gs :
  known ⊆ known' -> offsets_known known gs -> offsets_known known' gs.
Proof.
  intros Hsub [W Hl Hg Hs]. constructor; [done| | |].
  - destruct Hl; auto.
  - intros o E. destruct (Hg o E). auto.
  - auto.
Qed.

Lemma ldb_step_known a known gs gs' :
  offsets_known known gs -> action_ok a -> ldb_step a gs = Some gs' ->
  offsets_known (set_offsets a ++ known) gs' /\
  delete offsetKey (db_map (s_db gs'.2)) = apply_action a (delete offsetKey (db_map (s_db gs.2))).
Proof.
  intros K Ha Hstep. destruct gs as [g s]. pose proof K as [W Hl Hg Hs]. simpl in *.
  destruct a as [k v|k|o| |c]; simpl in *.
  - injection Hstep as <-. destruct (storage_Set_spec k v s W Ha) as (d & -> & W' & Hm). simpl.
    rewrite Hm, delete_insert_ne by done. split; [|done]. constructor; simpl; try done.
    intros o. rewrite (persisted_proper (s_db s)) by (by rewrite Hm, lookup_insert_ne). apply Hs.
  - injection Hstep as <-. destruct (storage_Delete_spec k s W Ha) as (d & -> & W' & Hm). simpl.
    rewrite Hm, delete_delete. split; [|done]. constructor; simpl; try done.
    intros o. rewrite (persisted_proper (s_db s)) by (by rewrite Hm, lookup_delete_ne). apply Hs.
  - injection Hstep as <-. set (s1 := mkStorage o (s_recovered s) (s_close s) (s_closed s) (s_db s)).
    assert (offsets_known (o :: known) (g, s1)) as K1.
    { constructor; simpl; [destruct W; by constructor|right; left| |].
      - intros o' E. destruct (Hg o' E). split; [by right|done].
      - intros o' E. right. auto. }
    unfold storage_SetOffset. fold s1. destruct (s_recovered s1); [|done].
    destruct (offsets_known_put _ g g o s1 K1) as (? & ? & _); [left|done|auto|done].
  - unfold storage_MarkRecovered in Hstep. destruct (s_offset s =? 0) eqn:E0; simp_bool.
    + destruct (s_recovered s); [done|]. injection Hstep as <-. split; [|done].
      constructor; simpl; try done. destruct W; by constructor.
    + destruct Hl as [?|Hl]; [done|].
      destruct (offsets_known_put _ g g (s_offset s) s K Hl (so_offset _ W)) as (K' & Hd & d & E); [auto|].
      rewrite E in *. simpl in *. destruct (s_recovered s); [done|]. injection Hstep as <-.
      split; [|done]. destruct K' as [W' ? ? ?]. constructor; simpl in *; try done.
      destruct W'; by constructor.
  - destruct g as [|o|]; destruct c; simpl in Hstep; try done.
    + destruct (s_close s); [|done]. injection Hstep as <-. split; [|done]. by constructor.
    + destruct (s_recovered s); [|done]. injection Hstep as <-. split; [|done]. by constructor.
    + injection Hstep as <-. split; [|done]. constructor; simpl; try done.
      intros o. destruct (s_offset s =? 0) eqn:E0; simp_bool; [done|]. intros [= <-].
      destruct Hl; [done|]. split; [done|apply W].
    + injection Hstep as <-. destruct (Hg o eq_refl) as [Hin Hi].
      destruct (offsets_known_put _ _ SyncSelect o s K Hin Hi) as (? & ? & _); done.
Qed.

Lemma ldb_run_known l known gs gs' :
  offsets_known known gs -> Forall action_ok l -> ldb_run l gs = Some gs' ->
  offsets_known ((l ≫= set_offsets) ++ known) gs' /\
  delete offsetKey (db_map (s_db gs'.2)) =
    fold_left (flip apply_action) l (delete offsetKey (db_map (s_db gs.2))).
Proof.
  revert known gs. induction l as [|a l IH]; intros known gs K HF Hrun; simpl in *.
  { by injection Hrun as <-. }
  apply Forall_cons in HF as [Ha HF]. destruct (ldb_step a gs) as [gs1|] eqn:E; [|done]. simpl in Hrun.
  destruct (ldb_step_known a known gs gs1 K Ha E) as [K1 Hm].
  destruct (IH _ _ K1 HF Hrun) as [K' Hm']. rewrite Hm', Hm. split; [|done].
  eapply offsets_known_weaken; [|exact K']. set_solver.
Qed.
End system_laws.

(** ** Closing while the goroutine runs *)

(** Where [Close] is. *)
Inductive close_state : Type := CloseBegin | ClosePut | CloseDB | CloseDone (err : option error).

Section closing.
Context {DB LI SN : Type} {LDB : LevelDB DB LI SN}.

(** A step of [Close] ([None]), or of the goroutine.  The run ends when [Close] returns: the database is
    closed then. *)
Definition closing_step (who : option sync_case) (x : close_state * sync_state * storage DB)
  : outcome (close_state * sync_state * storage DB) :=
  let '(pc, g, s) := x in
  match pc, who with
  | CloseDone _, _ => Blocked
  | _, Some c => match sync_step c g s with Some (g, s) => Ret (pc, g, s) | None => Blocked end
  | CloseBegin, None => s ← close_begin s; Ret (ClosePut, g, s)
  | ClosePut, None => Ret (CloseDB, g, close_put s)
  | CloseDB, None => '(err, s) ← close_db s; Ret (CloseDone err, g, s)
  end.

Fixpoint closing_run (l : list (option sync_case)) (x : close_state * sync_state * storage DB)
  : outcome (close_state * sync_state * storage DB) :=
  match l with
  | [] => Ret x
  | who :: l => x ← closing_step who x; closing_run l x
  end.

(** Without the goroutine the steps are [Close]. *)
Lemma closing_alone g (s s' : storage DB) err :
  storage_Close s = Ret (err, s') <-> closing_run [None; None; None] (CloseBegin, g, s) = Ret (CloseDone err, g, s').
Proof.
  unfold storage_Close. simpl. destruct (close_begin s) as [s1| |]; simpl; [|done|done].
  destruct (close_db (close_put s1)) as [[e s2]| |]; simpl; [|done|done]. split; by intros [= -> ->].
Qed.
End closing.

Section closing_laws.
Context {DB LI SN : Type} `{LDBL : LevelDBLaws DB LI SN}.

(** The offset that a storage leaves in its database when it is closed; 0 stands for none. *)
Definition left_offset (s : storage DB) : option Z := if s_offset s =? 0 then persisted (s_db s) else Some (s_offset s).

(** The goroutine is not about to store an offset that is not the current one. *)
Definition sync_current (g : sync_state) (s : storage DB) : Prop :=
  forall o, g = SyncLoaded o -> o = s_offset s /\ o <> 0.

(** Closing the storage [s0]. *)
Record closing_inv (s0 : storage DB) (x : close_state * sync_state * storage DB) : Prop := {
  cl_ok : match x.1.1 with CloseDone _ => True | _ => storage_ok x.2 end;
  cl_offset : s_offset x.2 = s_offset s0;
  cl_sync : sync_current x.1.2 x.2;
  cl_contents : delete offsetKey (db_map (s_db x.2)) = delete offsetKey (db_map (s_db s0));
  cl_entry : forall t, db_map (s_db x.2) !! offsetKey = Some t -> exists o, in_int64 o /\ t = FormatInt o;
  cl_close : x.1.1 = CloseBegin -> s_close x.2 = false;
  cl_closed : match x.1.1 with CloseDone err => err = None | _ => s_closed x.2 = false end;
  cl_persisted : match x.1.1 with
                 | CloseBegin | ClosePut => persisted (s_db x.2) = persisted (s_db s0) \/ persisted (s_db x.2) = left_offset s0
                 | _ => persisted (s_db x.2) = left_offset s0
                 end
}.

(** Storing the current offset while closing. *)
Lemma closing_put s0 pc pc' g g' s :
  closing_inv s0 (pc, g, s) -> s_offset s <> 0 -> (forall err, pc <> CloseDone err) -> (forall err, pc' <> CloseDone err) ->
  (pc' = CloseBegin -> pc = CloseBegin) -> sync_current g' s -> closing_inv s0 (pc', g', (putOffset (s_offset s) s).2).
Proof.
  intros [W Ho Hg Hc He Hcl Hcd Hp] Hne Hpc Hpc' Hb Hg'. simpl in *.
  assert (storage_ok s) as W1 by (by destruct pc; [..|by edestruct Hpc]).
  destruct (putOffset_spec (s_offset s) s W1 (so_offset _ W1)) as (d & -> & W2 & Hm).
  assert (persisted d = left_offset s0) as Hleft.
  { unfold left_offset. rewrite <- Ho, (proj2 (Z.eqb_neq _ _) Hne). eapply persisted_insert; [apply W1|exact Hm]. }
  constructor; simpl.
  - by destruct pc'.
  - done.
  - exact Hg'.
  - by rewrite Hm, delete_insert_eq.
  - apply W2.
  - intros E. by apply Hcl, Hb.
  - destruct pc'; [..|by edestruct Hpc']; by destruct pc; [..|by edestruct Hpc].
  - destruct pc'; auto.
Qed.

Lemma closing_step_inv s0 who x x' : closing_inv s0 x -> closing_step who x = Ret x' -> closing_inv s0 x'.
Proof.
  intros K Hst. destruct x as [[pc g] s]. pose proof K as [W Ho Hg Hc He Hcl Hcd Hp]. simpl in *.
  destruct who as [c|].
  - assert (forall err, pc <> CloseDone err) as Hpc by (intros err ->; done).
    assert (exists g1 s1, sync_step c g s = Some (g1, s1) /\ x' = (pc, g1, s1)) as (g1 & s1 & E & ->).
    { destruct pc; (destruct (sync_step c g s) as [[g1 s1]|]; [|done]); try done; injection Hst as <-; eauto. }
    clear Hst. destruct g as [|o|]; destruct c; simpl in E; try done.
    + assert (g1 = SyncReturned /\ s1 = s) as [-> ->] by (by destruct (s_close s); simplify_eq). by constructor.
    + assert (g1 = SyncReturned /\ s1 = s) as [-> ->] by (by destruct (s_recovered s); simplify_eq). by constructor.
    + injection E as <- <-. constructor; try done. intros o. simpl.
      destruct (Z.eqb_spec (s_offset s) 0); [done|]. by intros [= <-].
    + injection E as <- <-. destruct (Hg o eq_refl) as [-> Hne]. by eapply closing_put.
  - destruct pc as [| | |]; [| | |done].
    + unfold close_begin in Hst. rewrite Hcl in Hst by done. injection Hst as <-. constructor; simpl; try done.
      destruct W; by constructor.
    + injection Hst as <-. unfold close_put. destruct (Z.eqb_spec (s_offset s) 0) as [E|E].
      * constructor; simpl; try done. destruct Hp as [->| ->]; [|done]. unfold left_offset. by rewrite <- Ho, E.
      * by eapply closing_put.
    + unfold close_db in Hst. destruct (ldb_Close (s_db s) (so_db _ W)) as [Herr Hdm].
      destruct (db_Close (s_db s)) as [err d]. simpl in *. rewrite Hcd in Hst. injection Hst as <-.
      constructor; simpl; try done; rewrite ?Hdm; try done. rewrite <- Hp. apply persisted_proper. by rewrite Hdm.
Qed.

Lemma closing_run_inv s0 l x x' : closing_inv s0 x -> closing_run l x = Ret x' -> closing_inv s0 x'.
Proof.
  revert x. induction l as [|who l IH]; intros x K Hst; simpl in Hst; [by injection Hst as <-|].
  destruct (closing_step who x) as [x1| |] eqn:E; [|done|done]. eapply IH; [|exact Hst]. by eapply closing_step_inv.
Qed.
End closing_laws.

(** ** A reference database

    A finite map with sorted snapshots: it shows that the laws can be met and serves the concrete
    instances of the properties. *)

Definition range_memb (r : option ldb_range) (k : string) : bool :=
  match r with
  | None => true
  | Some (start, limit) =>
      bool_decide (String.le (string_of_bytes start) k) &&
      match limit with
      | None => true
      | Some l => bool_decide (String.le k l) && negb (String.eqb k l)
      end
  end.

Definition mapdb_pairs (r : option ldb_range) (m : gmap string string) : list (string * string) :=
  omap (fun k => if range_memb r k then (fun v => (k, v)) <$> m !! k else None)
       (sort_Strings (map_to_list m).*1).

(** [util.BytesPrefix]: the limit increments the last byte below 255. *)
Fixpoint prefix_limit (s : string) : bytes :=
  match s with
  | EmptyString => None
  | String c s =>
      match prefix_limit s with
      | Some l => Some (String c l)
      | None =>
          if (nat_of_ascii c <? 255)%nat then Some (String (ascii_of_nat (S (nat_of_ascii c))) "")
          else None
      end
  end.

#[export] Instance mapdb : LevelDB (gmap string string) (bytes * bytes * list (string * string)) unit := {
  db_Has k d := Ok (bool_decide (is_Some (d !! k)));
  db_Get k d := match d !! k with Some v => Ok (Some v) | None => Err ErrLevelDBNotFound end;
  db_Put k v d := (None, <[k := string_of_bytes v]> d);
  db_Delete k d := (None, delete k d);
  db_GetSnapshot _ := Ok tt;
  db_NewIterator r d := (None, None, mapdb_pairs r d);
  db_Close d := (None, d);
  BytesPrefix p := (p, prefix_limit (string_of_bytes p));
  li_Next i := match i.2 with
               | [] => (false, (None, None, []))
               | (k, v) :: l => (true, (Some k, Some v, l))
               end;
  li_Key i := i.1.1;
  li_Value i := i.1.2;
  li_Error _ := None;
  li_Seek key i :=
    match filter (fun kv => String.le (string_of_bytes key) kv.1) i.2 with
    | [] => (false, (None, None, []))
    | (k, v) :: l => (true, (Some k, Some v, l))
    end;
  li_Release i := i;
  snap_Release s := s
}.

Lemma range_memb_spec r k : range_memb r k = true <-> range_mem r k.
Proof.
  destruct r as [[start limit]|]; simpl; [|done].
  rewrite andb_true_iff, bool_decide_eq_true. destruct limit as [l|]; [|tauto].
  rewrite andb_true_iff, bool_decide_eq_true, negb_true_iff, String.eqb_neq. done.
Qed.

Lemma mapdb_pairs_spec r (m : gmap string string) k v :
  (k, v) ∈ mapdb_pairs r m <-> m !! k = Some v /\ range_mem r k.
Proof.
  unfold mapdb_pairs. rewrite list_elem_of_omap, <- range_memb_spec. split.
  - intros (k' & _ & E). destruct (range_memb r k') eqn:Er; [|done].
    apply fmap_Some in E as (v' & Hv & [= -> ->]). done.
  - intros [Hv Hr]. exists k. rewrite Hr, Hv. split; [|done].
    rewrite sort_Strings_perm. apply list_elem_of_fmap. exists (k, v). split; [done|].
    by apply elem_of_map_to_list.
Qed.

Lemma mapdb_pairs_keys r (m : gmap string string) :
  (mapdb_pairs r m).*1 `sublist_of` sort_Strings (map_to_list m).*1.
Proof.
  unfold mapdb_pairs. induction (sort_Strings _) as [|k l IH]; csimpl; [done|].
  destruct (range_memb r k); [|by constructor]. destruct (m !! k); simpl; by constructor.
Qed.

Lemma sublist_fmap {A B} (f : A -> B) l k : l `sublist_of` k -> f <$> l `sublist_of` f <$> k.
Proof. induction 1; csimpl; by constructor. Qed.

#[export, refine] Instance mapdb_Laws :
  LevelDBLaws (gmap string string) (bytes * bytes * list (string * string)) unit := {|
  db_ok _ := True;
  db_map d := d;
  li_rest i := i.2
|}.
Proof.
  - done.
  - done.
  - intros d k v _. eexists. done.
  - intros d k _. eexists. done.
  - intros d _. by exists tt.
  - done.
  - intros d r _. simpl. eapply StronglySorted_sublist; [apply mapdb_pairs_keys|].
    apply Sorted_le_lt; [apply sort_Strings_sorted|]. rewrite sort_Strings_perm.
    apply NoDup_fst_map_to_list.
  - intros d r k v _. apply mapdb_pairs_spec.
  - intros [[? ?] l]. simpl. by intros ->.
  - intros [[? ?] l0] k v l. simpl. by intros ->.
Defined.

(** The iterator over a range of the database. *)
Lemma range_iterator {DB LI SN} `{LevelDBLaws DB LI SN} (s : storage DB) r sn :
  storage_ok s ->
  let it := mkIterator (db_NewIterator r (s_db s)) sn in
  it_ok it /\ StronglySorted string_lt (it_rest it).*1 /\
  forall k v, (k, v) ∈ it_rest it <-> st_contents s !! k = Some v /\ range_mem r k.
Proof.
  intros W it. pose proof (ldb_NewIterator_sorted (s_db s) r (so_db _ W)) as Hs. simpl.
  split_and!; [by apply StronglySorted_lt_NoDup| |].
  - eapply StronglySorted_sublist; [|exact Hs]. apply sublist_fmap, sublist_filter.
  - intros k v. rewrite list_elem_of_filter, ldb_NewIterator by apply W. simpl.
    rewrite lookup_delete_Some. naive_solver.
Qed.

#[export] Instance leveldb_Snapshot {DB LI SN} `{LevelDBLaws DB LI SN} :
  SnapshotLaws (storage DB) (iterator LI SN).
Proof.
  constructor.
  intros s W. destruct (ldb_Snapshot (s_db s) (so_db _ W)) as [sn Hsn].
  exists (mkIterator (db_NewIterator None (s_db s)) sn). simpl. unfold storage_Iterator. rewrite Hsn.
  destruct (range_iterator s None sn W) as (H1 & H2 & H3). split_and!; [done|done|done|].
  intros k v. rewrite (H3 k v). simpl. rewrite lookup_delete_Some. naive_solver.
Defined.

(** ** Properties *)

(** C23. The iterators of the LevelDB storage deliver in ascending key order exactly the stored pairs
    without the offset entry, each once, and end without error: all of them for [Iterator], those of
    the half-open range [start, limit) for [IteratorWithRange] with a non-empty limit, and those of the
    prefix range of [start] without one (where the interface documents a range without an upper bound,
    see [leveldb_nil_limit]). *)
Theorem leveldb_iteration {DB LI SN} `{LevelDBLaws DB LI SN} (s : storage DB) (start limit : bytes) :
  storage_ok s ->
  let r := if 0 <? bytes_len limit then (start, limit) else BytesPrefix start in
  exists it itr, storage_Iterator s = Ok it /\ storage_IteratorWithRange start limit s = Ok itr /\
    it_ok it /\ it_ok itr /\
    StronglySorted string_lt (it_rest it).*1 /\ StronglySorted string_lt (it_rest itr).*1 /\
    (forall k v, (k, v) ∈ it_rest it <-> st_contents s !! k = Some v) /\
    (forall k v, (k, v) ∈ it_rest itr <-> st_contents s !! k = Some v /\ range_mem (Some r) k) /\
    (forall i, i = it \/ i = itr ->
       collect_all (S (length (it_rest i))) i = ((fun kv => (Some kv.1, Ok (Some kv.2))) <$> it_rest i, Some None)).
Proof.
  intros W r. destruct (ldb_Snapshot (s_db s) (so_db _ W)) as [sn Hsn].
  unfold storage_Iterator, storage_IteratorWithRange. rewrite Hsn.
  exists (mkIterator (db_NewIterator None (s_db s)) sn),
    (mkIterator (db_NewIterator (Some r) (s_db s)) sn).
  destruct (range_iterator s None sn W) as (H1 & H2 & H3), (range_iterator s (Some r) sn W) as (H4 & H5 & H6).
  split_and!; try done.
  - unfold r. destruct limit as [l|]; [|done]. by destruct (0 <? bytes_len (Some l)).
  - intros k v. rewrite H3. simpl. tauto.
  - intros i [->| ->]; (eapply collect_rest; [done|lia]).
Qed.

Definition demo_storage : storage (gmap string string) :=
  storage_New {[ "a" := "1"; "b" := "2"; offsetKey := "7" ]}%string.

Lemma demo_storage_ok : storage_ok demo_storage.
Proof.
  constructor; simpl; [done|unfold in_int64; lia|]. intros t Ht. exists 7.
  split; [unfold in_int64; lia|]. vm_compute in Ht. by simplify_eq.
Qed.

Lemma leveldb_iteration_witness :
  exists it, storage_Iterator demo_storage = Ok it /\ it_ok it /\
    (forall k v, (k, v) ∈ it_rest it <-> st_contents demo_storage !! k = Some v).
Proof.
  destruct (leveldb_iteration demo_storage None None demo_storage_ok)
    as (it & _ & Hit & _ & Hok & _ & _ & _ & Hrest & _ & _).
  exists it. split_and!; [exact Hit|exact Hok|exact Hrest].
Defined.

(** Without a limit the range is that of the prefix: the key b is not delivered from a on. *)
Theorem leveldb_nil_limit :
  exists it, storage_IteratorWithRange (Some "a"%string) None demo_storage = Ok it /\
    collect_all 3 it = ([(Some "a"%string, Ok (Some "1"%string))], Some None).
Proof. eexists. split; vm_compute; reflexivity. Qed.

(** C22. Closing the storage stores the local offset: [Close] returns without error, and however its steps
    interleave with those of the synchronisation goroutine, a storage opened later on the same database
    has the same contents and reports the last offset that was set, or the one that was stored before
    if that is 0, which stands for none.  This holds if the goroutine is not just about to store an
    older offset when [Close] is called; [leveldb_close_race] is a run in which it is. *)
Theorem leveldb_close_reopen {DB LI SN} `{LevelDBLaws DB LI SN} (s : storage DB) (g : sync_state) (def : Z) :
  storage_ok s -> s_close s = false -> s_closed s = false -> sync_current g s ->
  (exists s', storage_Close s = Ret (None, s')) /\
  forall l err g' s' d, closing_run l (CloseBegin, g, s) = Ret (CloseDone err, g', s') ->
    db_ok d -> db_map d = db_map (s_db s') ->
    err = None /\ st_contents (storage_New d) = st_contents s /\
    storage_GetOffset def (storage_New d) = Ok (default def (if s_offset s =? 0 then persisted (s_db s) else Some (s_offset s))).
Proof.
  intros W Hc Hcd Hg. assert (closing_inv s (CloseBegin, g, s)) as K by (constructor; simpl; auto; apply W). split.
  - unfold storage_Close, close_begin. rewrite Hc. cbn [mbind outcome_bind].
    set (s1 := mkStorage (s_offset s) (s_recovered s) true (s_closed s) (s_db s)).
    assert (storage_ok s1) as W1 by (destruct W; by constructor).
    assert (storage_ok (close_put s1) /\ s_closed (close_put s1) = false) as [W2 Hcd2].
    { unfold close_put. destruct (_ =? 0); [done|]. by destruct (putOffset_spec (s_offset s1) s1 W1 (so_offset _ W1)) as (d & -> & ? & _). }
    unfold close_db. destruct (ldb_Close _ (so_db _ W2)) as [He _]. destruct (db_Close _) as [err d]. simpl in He. subst err.
    rewrite Hcd2. by eexists.
  - intros l err g' s' d Hrun Hok Hd. destruct (closing_run_inv s l _ _ K Hrun) as [_ _ _ Hm Hent _ Herr Hp]. simpl in *.
    split; [done|]. split; [by rewrite Hd|]. rewrite storage_GetOffset_spec.
    + unfold visible_offset. simpl. rewrite (persisted_proper (s_db s')) by (by rewrite Hd). by rewrite Hp.
    + constructor; simpl; [done|unfold in_int64; lia|]. by rewrite Hd.
Qed.

(** Closing with the offset 9 while the goroutine ticks. *)
Definition closing_demo : list (option sync_case) := [None; Some CaseTick; None; Some CasePut; None].

Definition demo_closed : close_state * sync_state * storage (gmap string string) :=
  ret_or (CloseBegin, SyncSelect, demo_storage)
    (closing_run closing_demo (CloseBegin, SyncSelect, (storage_SetOffset 9 demo_storage).2)).

Lemma leveldb_close_reopen_witness :
  closing_run closing_demo (CloseBegin, SyncSelect, (storage_SetOffset 9 demo_storage).2) =
    Ret (CloseDone None, demo_closed.1.2, demo_closed.2) /\
  storage_GetOffset (-2) (storage_New (s_db demo_closed.2)) = Ok 9.
Proof.
  assert (closing_run closing_demo (CloseBegin, SyncSelect, (storage_SetOffset 9 demo_storage).2) =
    Ret (CloseDone None, demo_closed.1.2, demo_closed.2)) as E by (vm_compute; reflexivity).
  split; [exact E|].
  destruct (leveldb_close_reopen (storage_SetOffset 9 demo_storage).2 SyncSelect (-2)) as [_ Hre].
  - constructor; simpl; [done|unfold in_int64; lia|apply demo_storage_ok].
  - done.
  - done.
  - intros o [=].
  - destruct (Hre _ _ _ _ (s_db demo_closed.2) E) as (_ & _ & Ho); [exact I|reflexivity|].
    refine (eq_trans Ho _). vm_cast_no_check (eq_refl (A := res Z) (Ok 9)).
Defined.

(** The goroutine has read the offset 5 when the writer sets 10 and closes the storage. *)
Definition late_sync : sync_state * storage (gmap string string) :=
  default (SyncReturned, demo_storage) (ldb_run [ASetOffset 5; ASync CaseTick; ASetOffset 10] (SyncSelect, demo_storage)).

Definition late_closed : close_state * sync_state * storage (gmap string string) :=
  ret_or (CloseBegin, SyncSelect, demo_storage)
    (closing_run [None; None; Some CasePut; None] (CloseBegin, late_sync.1, late_sync.2)).

(** It stores 5 after [Close] has stored 10, and the storage that is opened next reports 5. *)
Theorem leveldb_close_race :
  ldb_run [ASetOffset 5; ASync CaseTick; ASetOffset 10] (SyncSelect, demo_storage) = Some late_sync /\
  closing_run [None; None; Some CasePut; None] (CloseBegin, late_sync.1, late_sync.2) = Ret late_closed /\
  late_closed.1.1 = CloseDone None /\
  storage_GetOffset (-2) (storage_New (s_db late_closed.2)) = Ok 5.
Proof. split_and!; vm_compute; reflexivity. Qed.

(** An offset of 0 stands for none: if it is set before the recovery is over, it is not stored when the
    storage is closed, and the next one does not know it. *)
Theorem leveldb_offset_zero_lost :
  exists s', storage_Close (storage_SetOffset 0 (storage_New (∅ : gmap string string))).2 = Ret (None, s') /\
    storage_GetOffset (-3) (storage_New (s_db s')) = Ok (-3).
Proof. eexists. split; [vm_compute; reflexivity|]. vm_compute. reflexivity. Qed.

(** C21. However the writer's calls and the steps of the periodic synchronisation goroutine
    interleave, the offset stored in the database is one that was stored before or that the writer
    set, so that a storage reopened after a crash never reports an offset from the future; and the
    contents are exactly those the writer's calls produce. *)
Theorem leveldb_offset_was_set {DB LI SN} `{LevelDBLaws DB LI SN} (d : DB) (l : list ldb_action)
    (g : sync_state) (s : storage DB) (o : Z) :
  storage_ok (storage_New d) -> Forall action_ok l ->
  ldb_run l (SyncSelect, storage_New d) = Some (g, s) ->
  (persisted (s_db s) = Some o -> persisted d = Some o \/ ASetOffset o ∈ l) /\
  st_contents s = fold_left (flip apply_action) l (st_contents (storage_New d)).
Proof.
  intros W HF Hrun.
  destruct (ldb_run_known l (match persisted d with Some o => [o] | None => [] end)
    (SyncSelect, storage_New d) (g, s)) as [K Hm]; [|exact HF|exact Hrun|].
  { constructor; simpl; [done|by left|done|]. intros o' ->. set_solver. }
  split; [|exact Hm]. intros Ho. apply K in Ho. apply elem_of_app in Ho as [Ho|Ho].
  - right. apply list_elem_of_bind in Ho as (a & Ho & Ha). destruct a; simpl in Ho; try by apply not_elem_of_nil in Ho.
    by apply list_elem_of_singleton in Ho as ->.
  - left. destruct (persisted d); [|by apply not_elem_of_nil in Ho].
    by apply list_elem_of_singleton in Ho as ->.
Qed.

(** A run in which the goroutine has read the offset 5 when the writer ends the recovery at 10. *)
Definition race_demo : list ldb_action :=
  [ASetOffset 5; ASync CaseTick; ASetOffset 10; AMarkRecovered; ASync CasePut].

Definition race_final : sync_state * storage (gmap string string) :=
  default (SyncReturned, demo_storage) (ldb_run race_demo (SyncSelect, demo_storage)).

Lemma leveldb_offset_was_set_witness :
  persisted (s_db demo_storage) = Some 5 \/ ASetOffset 5 ∈ race_demo.
Proof.
  refine (proj1 (leveldb_offset_was_set (s_db demo_storage) race_demo race_final.1 race_final.2 5 _ _ _) _).
  - apply demo_storage_ok.
  - repeat constructor; simpl; unfold in_int64; lia.
  - vm_cast_no_check (eq_refl (Some race_final)).
  - vm_cast_no_check (eq_refl (Some 5)).
Defined.

(** The synchronisation goroutine reads the local offset and stores it in two steps.  If the
    recovery ends in between, the older offset overwrites the final one: the writer set 10 last, and
    afterwards [GetOffset] reports 5. *)
Theorem leveldb_sync_race :
  exists g s, ldb_run race_demo (SyncSelect, demo_storage) = Some (g, s) /\
    s_recovered s = true /\ s_offset s = 10 /\ storage_GetOffset (-2) s = Ok 5.
Proof.
  exists race_final.1, race_final.2. split_and!.
  - vm_cast_no_check (eq_refl (Some race_final)).
  - vm_cast_no_check (eq_refl true).
  - vm_cast_no_check (eq_refl 10).
  - vm_cast_no_check (eq_refl (A := res Z) (Ok 5)).
Qed.
