(* ===== verification/OtherStorages.v ===== *)
(** * The null, file and Redis storages

    [storage/null.go], [storage/append.go] and [storage/redis/redis.go].  The null storage keeps
    nothing, the file storage only appends; neither can be read.  The Redis storage keeps its
    contents and the offset in a hash of a Redis server, which is given by the class [Redis]; it
    discharges the laws of the storage interface. *)
From Stdlib Require Import ZArith Lia.
From stdpp Require Import base gmap strings list.
From S2P Require Import Prelude Codec Storage.
Open Scope Z_scope.

(** ** The null storage *)

(** [type NullIter struct]: an iterator without elements. *)
Inductive NullIter : Type := mkNullIter.

Definition NullIter_Next (ni : NullIter) : bool * NullIter := (false, ni).
Definition NullIter_Err (ni : NullIter) : option error := None.
Definition NullIter_Key (ni : NullIter) : bytes := None.
Definition NullIter_Value (ni : NullIter) : res bytes := Ok None.
Definition NullIter_Release (ni : NullIter) : NullIter := ni.
Definition NullIter_Seek (key : bytes) (ni : NullIter) : bool * NullIter := (false, ni).

#[export] Instance NullIter_Iterator : Iterator NullIter := {
  it_Next := NullIter_Next;
  it_Err := NullIter_Err;
  it_Key := NullIter_Key;
  it_Value := NullIter_Value;
  it_Release := NullIter_Release;
  it_Seek := NullIter_Seek
}.

Record Null : Type := mkNull { null_recovered : bool }.

Definition NewNull : Null := mkNull false.
Definition Null_MarkRecovered (n : Null) : outcome (option error * Null) := Ret (None, n).
Definition Null_Recovered (n : Null) : bool := null_recovered n.
Definition Null_Has (key : string) (n : Null) : res bool := Ok false.
Definition Null_Get (key : string) (n : Null) : res bytes := Ok None.
Definition Null_Set (key : string) (val : bytes) (n : Null) : option error * Null := (None, n).
Definition Null_Delete (key : string) (n : Null) : option error * Null := (None, n).
Definition Null_GetOffset (def : Z) (n : Null) : res Z := Ok def.
Definition Null_SetOffset (val : Z) (n : Null) : option error * Null := (None, n).
Definition Null_Iterator (n : Null) : res NullIter := Ok mkNullIter.
Definition Null_IteratorWithRange (start limit : bytes) (n : Null) : res NullIter := Ok mkNullIter.
Definition Null_Open (n : Null) : option error * Null := (None, n).
Definition Null_Close (n : Null) : outcome (option error * Null) := Ret (None, n).

#[export] Instance Null_Storage : Storage Null NullIter := {
  st_Open := Null_Open;
  st_Close := Null_Close;
  st_Has := Null_Has;
  st_Get := Null_Get;
  st_Set := Null_Set;
  st_Delete := Null_Delete;
  st_GetOffset := Null_GetOffset;
  st_SetOffset := Null_SetOffset;
  st_MarkRecovered := Null_MarkRecovered;
  st_Iterator := Null_Iterator;
  st_IteratorWithRange := Null_IteratorWithRange
}.

(** ** The file storage *)

Section file.
(** The file: [Write] gives the number of bytes written and the error, [Close] the error. *)
Context {W : Type}.
Variable Write : string -> W -> Z * option error * W.
Variable CloseFile : W -> option error * W.

Record file : Type := mkFile { f_file : W; f_recovered : bool; f_bytesWritten : Z }.

(** [NewFile], given the results of creating the directory and opening the file. *)
Definition NewFile (mkdir : option error) (opened : res W) : res file :=
  match mkdir with
  | Some e => Err (ErrWrap "error creating storage directory" e)
  | None => match opened with Err e => Err e | Ok f => Ok (mkFile f false 0) end
  end.

Definition file_Recovered (f : file) : bool := f_recovered f.
Definition file_MarkRecovered (f : file) : outcome (option error * file) :=
  Ret (None, mkFile (f_file f) true (f_bytesWritten f)).
Definition file_Has (key : string) (f : file) : res bool := Ok false.
Definition file_Get (key : string) (f : file) : res bytes := Ok None.

Definition newline : string := String (Ascii.ascii_of_nat 10) "".

Definition file_Set (key : string) (val : bytes) (f : file) : option error * file :=
  let '(num, err, w) := Write (string_of_bytes val) (f_file f) in
  match err with
  | Some e => (Some e, mkFile w (f_recovered f) (f_bytesWritten f))
  | None =>
      let written := int64 (f_bytesWritten f + num) in
      let '(_, err, w) := Write newline w in
      (err, mkFile w (f_recovered f) written)
  end.

Definition file_Delete (key : string) (f : file) : option error * file := (None, f).
Definition file_GetOffset (def : Z) (f : file) : res Z := Ok def.
Definition file_SetOffset (val : Z) (f : file) : option error * file := (None, f).
Definition file_Iterator (f : file) : res NullIter := Ok mkNullIter.
Definition file_IteratorWithRange (start limit : bytes) (f : file) : res NullIter := Ok mkNullIter.
Definition file_Open (f : file) : option error * file := (None, f).
Definition file_Close (f : file) : outcome (option error * file) :=
  let '(err, w) := CloseFile (f_file f) in Ret (err, mkFile w (f_recovered f) (f_bytesWritten f)).
End file.
Arguments file : clear implicits.

(** ** The Redis storage *)

(** The commands of the Redis client that are used. [HScan hash cursor match count] gives a page of
    elements and the next cursor. *)
Class Redis (R : Type) : Type := {
  rd_Ping : R -> option error;
  rd_HExists : string -> string -> R -> res bool;
  rd_HGet : string -> string -> R -> res bytes;
  rd_HSet : string -> string -> bytes -> R -> option error * R;
  rd_HDel : string -> string -> R -> option error * R;
  rd_HScan : string -> Z -> string -> Z -> R -> res (list string * Z)
}.

Section redis.
Context {R : Type} {RD : Redis R}.

Record redisStorage : Type := mkRedisStorage { rs_client : R; rs_hash : string }.

Definition redis_New (client : option R) (hash : string) : res redisStorage :=
  match client with
  | None => Err (ErrNew "invalid redis client")
  | Some client => match rd_Ping client with Some e => Err e | None => Ok (mkRedisStorage client hash) end
  end.

Definition redis_Has (key : string) (s : redisStorage) : res bool := rd_HExists (rs_hash s) key (rs_client s).

Definition redis_Get (key : string) (s : redisStorage) : res bytes :=
  match rd_HExists (rs_hash s) key (rs_client s) with
  | Err e => Err (ErrWrap "error checking for existence in redis" e)
  | Ok false => Ok None
  | Ok true =>
      match rd_HGet (rs_hash s) key (rs_client s) with
      | Err e => Err (ErrWrap "error getting from redis" e)
      | Ok value => Ok value
      end
  end.

Definition redis_GetOffset (defValue : Z) (s : redisStorage) : res Z :=
  match redis_Get offsetKey s with
  | Err e => Err e
  | Ok None => Ok defValue
  | Ok (Some data) =>
      match ParseInt data with
      | Err e => Err (ErrWrap "error decoding redis offset" e)
      | Ok value => Ok value
      end
  end.

Definition redis_Set (key : string) (value : bytes) (s : redisStorage) : option error * redisStorage :=
  let '(err, r) := rd_HSet (rs_hash s) key value (rs_client s) in
  (match err with Some e => Some (ErrWrap "error setting to redis" e) | None => None end, mkRedisStorage r (rs_hash s)).

Definition redis_SetOffset (offset : Z) (s : redisStorage) : option error * redisStorage :=
  redis_Set offsetKey (Some (FormatInt offset)) s.

Definition redis_Delete (key : string) (s : redisStorage) : option error * redisStorage :=
  let '(err, r) := rd_HDel (rs_hash s) key (rs_client s) in (err, mkRedisStorage r (rs_hash s)).

(** [type redisIterator struct]; [current] is a [uint64]. *)
Record redisIterator : Type := mkRedisIterator {
  ri_current : Z; ri_keys : list string; ri_client : R; ri_hash : string
}.

(** One page is fetched; its cursor becomes the position. *)
Definition redis_scan (pattern : string) (s : redisStorage) : res redisIterator :=
  match rd_HScan (rs_hash s) 0 pattern 0 (rs_client s) with
  | Err e => Err e
  | Ok (keys, current) => Ok (mkRedisIterator current keys (rs_client s) (rs_hash s))
  end.

Definition redis_Iterator (s : redisStorage) : res redisIterator := redis_scan "" s.
Definition redis_IteratorWithRange (start limit : bytes) (s : redisStorage) : res redisIterator :=
  redis_scan (string_of_bytes start) s.

Definition redis_Recovered (s : redisStorage) : bool := false.
Definition redis_MarkRecovered (s : redisStorage) : outcome (option error * redisStorage) := Ret (None, s).
Definition redis_Open (s : redisStorage) : option error * redisStorage := (None, s).
Definition redis_Close (s : redisStorage) : outcome (option error * redisStorage) := Ret (None, s).

Definition ri_set_current (n : Z) (i : redisIterator) : redisIterator :=
  mkRedisIterator n (ri_keys i) (ri_client i) (ri_hash i).

Definition ri_exhausted (i : redisIterator) : bool := Z.of_nat (length (ri_keys i)) <=? ri_current i.

Definition ri_Key (i : redisIterator) : bytes :=
  if ri_exhausted i then None else ri_keys i !! Z.to_nat (ri_current i).

Definition ri_Next (i : redisIterator) : bool * redisIterator :=
  let i := ri_set_current ((ri_current i + 1) mod 2 ^ 64) i in
  let i := if String.eqb (string_of_bytes (ri_Key i)) offsetKey then ri_set_current ((ri_current i + 1) mod 2 ^ 64) i else i in
  (negb (ri_exhausted i), i).

Definition ri_Err (i : redisIterator) : option error := None.

Definition ri_Value (i : redisIterator) : res bytes :=
  match ri_Key i with
  | None => Ok None
  | Some key => rd_HGet (ri_hash i) key (ri_client i)
  end.

Definition ri_Release (i : redisIterator) : redisIterator := ri_set_current (Z.of_nat (length (ri_keys i))) i.
Definition ri_Seek (key : bytes) (i : redisIterator) : bool * redisIterator := (negb (ri_exhausted i), i).

#[export] Instance redisIterator_Iterator : Iterator redisIterator := {
  it_Next := ri_Next;
  it_Err := ri_Err;
  it_Key := ri_Key;
  it_Value := ri_Value;
  it_Release := ri_Release;
  it_Seek := ri_Seek
}.

#[export] Instance redis_Storage : Storage redisStorage redisIterator := {
  st_Open := redis_Open;
  st_Close := redis_Close;
  st_Has := redis_Has;
  st_Get := redis_Get;
  st_Set := redis_Set;
  st_Delete := redis_Delete;
  st_GetOffset := redis_GetOffset;
  st_SetOffset := redis_SetOffset;
  st_MarkRecovered := redis_MarkRecovered;
  st_Iterator := redis_Iterator;
  st_IteratorWithRange := redis_IteratorWithRange
}.
End redis.
Arguments redisStorage : clear implicits.
Arguments redisIterator : clear implicits.

(** ** The laws of the Redis storage *)

(** What is relied on of a Redis server that is up: the commands on a hash read and write a map. *)
Class RedisLaws (R : Type) `{RD : Redis R} : Type := {
  rd_up : R -> Prop;
  rd_hash : R -> string -> gmap string string;
  law_HExists r h k : rd_up r -> rd_HExists h k r = Ok (bool_decide (is_Some (rd_hash r h !! k)));
  law_HGet r h k v : rd_up r -> rd_hash r h !! k = Some v -> rd_HGet h k r = Ok (Some v);
  law_HSet r h k v : rd_up r ->
    exists r', rd_HSet h k (Some v) r = (None, r') /\ rd_up r' /\ rd_hash r' h = <[k := v]> (rd_hash r h);
  law_HDel r h k : rd_up r ->
    exists r', rd_HDel h k r = (None, r') /\ rd_up r' /\ rd_hash r' h = delete k (rd_hash r h)
}.

Section redis_laws.
Context {R : Type} {RD : Redis R} {RL : RedisLaws R}.
Implicit Types s : redisStorage R.

Definition rs_map s : gmap string string := rd_hash (rs_client s) (rs_hash s).

(** The server is up and the offset, if there is one, is a number. *)
Definition redis_ok s : Prop :=
  rd_up (rs_client s) /\ forall data, rs_map s !! offsetKey = Some data -> exists o, ParseInt data = Ok o.

Definition redis_offset s : option Z :=
  data ← rs_map s !! offsetKey; match ParseInt data with Ok o => Some o | Err _ => None end.

Lemma redis_Get_spec s k : redis_ok s -> redis_Get k s = Ok (rs_map s !! k).
Proof.
  intros [Hup _]. unfold redis_Get. rewrite law_HExists by done. fold (rs_map s).
  destruct (rs_map s !! k) as [v|] eqn:E; simpl; [|done]. by rewrite (law_HGet _ _ k v).
Qed.

Lemma redis_Set_spec s k v :
  redis_ok s -> (k = offsetKey -> exists o, ParseInt v = Ok o) ->
  exists s', redis_Set k (Some v) s = (None, s') /\ redis_ok s' /\ rs_map s' = <[k := v]> (rs_map s).
Proof.
  intros [Hup Hoff] Hk. unfold redis_Set. destruct (law_HSet (rs_client s) (rs_hash s) k v Hup) as (r' & -> & Hup' & Hr).
  eexists. split; [done|]. unfold redis_ok, rs_map. simpl. rewrite Hr. split; [|done]. split; [done|].
  intros data. rewrite lookup_insert. case_decide; [intros [= <-]; by apply Hk|apply Hoff].
Qed.

#[export, refine] Instance redis_Laws : StorageLaws (redisStorage R) (redisIterator R) := {|
  st_ok := redis_ok;
  st_reserved k := k = offsetKey;
  st_contents s := delete offsetKey (rs_map s);
  st_offset := redis_offset;
  st_unrecovered _ := True;
  st_offset_ok _ _ := True
|}.
Proof.
  - intros s k W Hk. simpl. by rewrite redis_Get_spec, lookup_delete_ne.
  - intros s k W Hk. simpl. unfold redis_Has. rewrite law_HExists by apply W. by rewrite lookup_delete_ne.
  - intros s k v W Hk. simpl. destruct (redis_Set_spec s k v W) as (s' & -> & W' & Hm); [done|].
    exists s'. unfold redis_offset. rewrite Hm, delete_insert_ne, lookup_insert_ne by done. done.
  - intros s k [Hup Hoff] Hk. simpl. unfold redis_Delete.
    destruct (law_HDel (rs_client s) (rs_hash s) k Hup) as (r' & -> & Hup' & Hr). eexists. split; [done|].
    unfold redis_ok, redis_offset, rs_map. simpl. rewrite Hr, lookup_delete_ne by done.
    split_and!; [done|done|by rewrite delete_delete|done|done].
  - intros s d W. simpl. unfold redis_GetOffset, redis_offset. rewrite redis_Get_spec by done.
    destruct (rs_map s !! offsetKey) as [data|] eqn:E; simpl; [|done].
    destruct W as [_ Hoff]. destruct (Hoff data E) as [o ->]. done.
  - intros s o W Ho. simpl. unfold redis_SetOffset.
    destruct (redis_Set_spec s offsetKey (FormatInt o) W) as (s' & -> & W' & Hm).
    { intros _. exists o. by apply ParseInt_FormatInt. }
    exists s'. unfold redis_offset. rewrite Hm. split_and!; [done|done|by rewrite delete_insert_eq| |done].
    intros _. rewrite lookup_insert_eq. simpl. by rewrite ParseInt_FormatInt.
  - done.
  - intros s W _. by exists s.
Defined.
End redis_laws.

(** ** A reference server *)

(** A server held in a map; a scan returns all fields and values of a hash in one page. *)
Abbreviation mapredis := (gmap string (gmap string string)).

Definition mr_hash (r : mapredis) (h : string) : gmap string string := default ∅ (r !! h).

Lemma mr_hash_insert (r : mapredis) h m : mr_hash (<[h := m]> r) h = m.
Proof. unfold mr_hash. by rewrite lookup_insert_eq. Qed.

#[export] Instance mapredis_Redis : Redis mapredis := {
  rd_Ping _ := None;
  rd_HExists h k r := Ok (bool_decide (is_Some (mr_hash r h !! k)));
  rd_HGet h k r := match mr_hash r h !! k with Some v => Ok (Some v) | None => Err (ErrNew "redis: nil") end;
  rd_HSet h k v r := (None, <[h := <[k := string_of_bytes v]> (mr_hash r h)]> r);
  rd_HDel h k r := (None, <[h := delete k (mr_hash r h)]> r);
  rd_HScan h _ _ _ r := Ok (concat ((fun kv => [kv.1; kv.2]) <$> map_to_list (mr_hash r h)), 0)
}.

#[export, refine] Instance mapredis_Laws : RedisLaws mapredis := {| rd_up _ := True; rd_hash := mr_hash |}.
Proof.
  - done.
  - intros r h k v _ E. simpl. by rewrite E.
  - intros r h k v _. eexists. split; [done|]. split; [done|]. apply mr_hash_insert.
  - intros r h k _. eexists. split; [done|]. split; [done|]. apply mr_hash_insert.
Defined.

(** ** Properties *)

(** C26. The Redis storage refines a map with an offset: whatever sequence of [Set], [Delete] and
    [SetOffset] a client performs on keys other than the reserved one, no call fails while the server
    is up, and afterwards [Get], [Has] and [GetOffset] read what the same sequence leaves in a map and
    an offset variable, although the offset shares the hash with the contents. *)
Theorem redis_refines_map {R} `{RL : RedisLaws R} (l : list st_write) (s : redisStorage R) :
  redis_ok s -> Forall (write_ok (SL := redis_Laws)) l ->
  exists s', st_execs l s = (None, s') /\
    let a := fold_left abs_write l (mkAbs (delete offsetKey (rs_map s)) (redis_offset s)) in
    (forall k, k <> offsetKey -> redis_Get k s' = Ok (abs_map a !! k)) /\
    (forall k, k <> offsetKey -> redis_Has k s' = Ok (bool_decide (is_Some (abs_map a !! k)))) /\
    (forall d, redis_GetOffset d s' = Ok (default d (abs_offset a))).
Proof.
  intros W HF. destruct (st_execs_refine (SL := redis_Laws) l s W HF) as (s' & E & W' & Ha). exists s'. split; [done|].
  change (mkAbs (delete offsetKey (rs_map s)) (redis_offset s)) with (abs_of (SL := redis_Laws) s). rewrite <- Ha.
  split_and!; intros x; [intros Hx; exact (law_Get (StorageLaws := redis_Laws) s' x W' Hx)
    |intros Hx; exact (law_Has (StorageLaws := redis_Laws) s' x W' Hx)|exact (law_GetOffset (StorageLaws := redis_Laws) s' x W')].
Qed.

Definition redis_demo : redisStorage mapredis := mkRedisStorage ∅ "table".

Lemma redis_refines_map_witness :
  exists s', st_execs [WSet "k" "1"; WSetOffset 7; WSet "l" "2"; WDelete "k"]%string redis_demo = (None, s') /\
    redis_Get "k" s' = Ok None /\ redis_GetOffset 0 s' = Ok 7.
Proof.
  destruct (redis_refines_map [WSet "k" "1"; WSetOffset 7; WSet "l" "2"; WDelete "k"]%string redis_demo) as (s' & E & Hg & _ & Ho).
  - split; [exact I|]. by intros data.
  - repeat constructor; simpl; unfold in_int64; lia || done.
  - exists s'. split; [exact E|]. split; [rewrite Hg by done; reflexivity|rewrite Ho; reflexivity].
Defined.

(** Iterating over a Redis storage: the scan alternates fields and values, the position starts at the
    cursor 0, and [Next] moves on before the first element is read.  Of a table with the single pair
    (a, 1) the iterator delivers the key 1, whose value cannot be read, and never the key a. *)
Theorem redis_iteration_broken :
  let s := (redis_Set "a" (Some "1"%string) redis_demo).2 in
  exists it, redis_Iterator s = Ok it /\
    collect_all 3 it = ([(Some "1"%string, Err (ErrNew "redis: nil"))], Some None).
Proof. eexists. split; reflexivity. Qed.
