(* ===== verification/Headers.v ===== *)
(** * Message headers

    [headers/headers.go].  [Headers] is a Go map from strings to byte slices that may be [nil]; the
    iteration order of a Go map is not specified, so a function that ranges over one is given the
    order as an argument and its properties hold for every order. *)
From Stdlib Require Import ZArith Lia.
From stdpp Require Import base gmap strings list.
From S2P Require Import Prelude.
Open Scope Z_scope.

(** [type Headers map[string][]byte]; [None] is the nil map. *)
Definition Headers : Type := option (gmap string bytes).

(** [sarama.RecordHeader]. *)
Record RecordHeader : Type := mkRecordHeader { rh_Key : bytes; rh_Value : bytes }.

(** The entries a [range] over the map visits. *)
Definition entries (h : Headers) : gmap string bytes := default ∅ h.

(** [order] is one of the orders in which a [range] over [h] may visit the entries. *)
Definition range_order (h : Headers) (order : list (string * bytes)) : Prop :=
  order ≡ₚ map_to_list (entries h).

(** The loop [for k, v := range hs { merged[k] = v }]. *)
Definition put_all (order : list (string * bytes)) (merged : gmap string bytes) : gmap string bytes :=
  fold_left (fun m kv => <[kv.1 := kv.2]> m) order merged.

(** [h.Merged(headers...)]: [order] visits [h], [orders] the further maps. *)
Definition Merged (order : list (string * bytes)) (orders : list (list (string * bytes))) : Headers :=
  let merged := fold_left (fun m o => put_all o m) (order :: orders) ∅ in
  if decide (merged = ∅) then None else Some merged.

Definition ToSarama (order : list (string * bytes)) : list RecordHeader :=
  (fun kv => mkRecordHeader (Some kv.1) kv.2) <$> order.

Definition FromSarama (hs : list RecordHeader) : Headers :=
  Some (fold_left (fun m h => <[string_of_bytes (rh_Key h) := rh_Value h]> m) hs ∅).

(** ** Lemmas *)

Lemma put_all_lookup order m k :
  NoDup order.*1 ->
  put_all order m !! k =
    match (list_to_map order : gmap string bytes) !! k with Some v => Some v | None => m !! k end.
Proof.
  revert m. induction order as [|[k' v'] order IH]; intros m Hnd; csimpl in *; [done|].
  apply NoDup_cons in Hnd as [Hk Hnd]. unfold put_all in *. simpl. rewrite IH by done.
  rewrite lookup_insert. destruct (decide (k' = k)) as [->|Hne]; [|by rewrite lookup_insert_ne].
  rewrite not_elem_of_list_to_map_1 by done. by rewrite lookup_insert_eq.
Qed.

Lemma range_order_map h order : range_order h order ->
  NoDup order.*1 /\ (list_to_map order : gmap string bytes) = entries h.
Proof.
  intros Ho. assert (NoDup order.*1) as Hnd.
  { unfold range_order in Ho. rewrite Ho. apply NoDup_fst_map_to_list. }
  split; [done|]. rewrite (list_to_map_proper order (map_to_list (entries h))) by done.
  apply list_to_map_to_list.
Qed.

Lemma put_all_order h order m k :
  range_order h order ->
  put_all order m !! k = match entries h !! k with Some v => Some v | None => m !! k end.
Proof. intros [Hnd Hm]%range_order_map. by rewrite put_all_lookup, Hm. Qed.

(** A key has a value after merging exactly if it had one before or one of the maps has it. *)
Lemma last_value_dom k (l : list Headers) (acc : option bytes) :
  is_Some (foldl (fun acc h => match entries h !! k with Some v => Some v | None => acc end) acc l) <->
  is_Some acc \/ exists h', h' ∈ l /\ is_Some (entries h' !! k).
Proof.
  revert acc. induction l as [|h' l IH]; intros acc; simpl.
  { split; [by left|]. intros [?|(? & []%not_elem_of_nil & _)]; done. }
  rewrite IH. split.
  - intros [Ha|(h0 & Hin & Hs)]; [|right; exists h0; split; [by right|done]].
    destruct (entries h' !! k) eqn:E; [|by left]. right. exists h'. split; [left|by rewrite E].
  - intros [Ha|(h0 & [->|Hin]%elem_of_cons & Hs)].
    + left. by destruct (entries h' !! k).
    + left. by destruct Hs as [v ->].
    + right. by exists h0.
Qed.

(** ** Properties *)

(** Converting headers to sarama's list, in whatever order the map is visited, and back gives
    the same headers (an empty map for the nil map). *)
Theorem headers_roundtrip (h : Headers) (order : list (string * bytes)) :
  range_order h order -> FromSarama (ToSarama order) = Some (entries h).
Proof.
  intros Ho. unfold FromSarama, ToSarama. f_equal. apply map_eq. intros k.
  assert (forall m, fold_left (fun m h => <[string_of_bytes (rh_Key h) := rh_Value h]> m)
    ((fun kv : string * bytes => mkRecordHeader (Some kv.1) kv.2) <$> order) m = put_all order m) as ->.
  { unfold put_all. clear Ho. induction order as [|kv order IH]; intros m; csimpl; [done|]. by rewrite IH. }
  rewrite (put_all_order h) by done. rewrite lookup_empty. by destruct (entries h !! k).
Qed.

Definition headers_demo : Headers := Some {[ "trace" := Some "1"; "flag" := None ]}%string.

Lemma headers_demo_order :
  range_order headers_demo [("trace", Some "1"); ("flag", None)]%string.
Proof. vm_compute. by constructor || reflexivity || apply Permutation_swap. Qed.

Lemma headers_roundtrip_witness :
  FromSarama (ToSarama [("trace", Some "1"); ("flag", None)]%string) = headers_demo.
Proof. exact (headers_roundtrip headers_demo _ headers_demo_order). Defined.

(** [Merged] holds for every key the value of the last of the merged maps that has it, and is
    nil exactly when all of them are empty. *)
Theorem Merged_last_wins (h : Headers) (hs : list Headers) order orders :
  range_order h order -> Forall2 range_order hs orders ->
  let merged := Merged order orders in
  (forall k, entries merged !! k =
     foldl (fun acc h => match entries h !! k with Some v => Some v | None => acc end) None (h :: hs)) /\
  (merged = None <-> Forall (fun h => entries h = ∅) (h :: hs)).
Proof.
  intros Ho Hos merged.
  set (m := fold_left (fun m o => put_all o m) (order :: orders) ∅).
  assert (forall k, m !! k =
    foldl (fun acc h => match entries h !! k with Some v => Some v | None => acc end) None (h :: hs)) as Hm.
  { intros k. unfold m. assert (Forall2 range_order (h :: hs) (order :: orders)) as HF by (by constructor).
    clear merged m Ho Hos. rewrite <- (lookup_empty (M := gmap string) k).
    generalize (∅ : gmap string bytes) as m0.
    induction HF as [|h' o' l1 l2 Ho HF IH]; intros m0; simpl; [done|].
    rewrite IH. by rewrite (put_all_order h'). }
  assert (forall k, is_Some (m !! k) <-> exists h', h' ∈ h :: hs /\ is_Some (entries h' !! k)) as Hdom.
  { intros k. rewrite Hm, last_value_dom. split; [by intros [[]|?]|by right]. }
  split.
  - intros k. rewrite <- Hm. unfold merged, Merged. fold m. case_decide as E; simpl; [|done].
    by rewrite E.
  - unfold merged, Merged. fold m. case_decide as E.
    + split; [intros _|done]. apply Forall_forall. intros h' Hh'. apply map_empty. intros k.
      destruct (entries h' !! k) eqn:E'; [|done]. exfalso.
      destruct (proj2 (Hdom k)) as [v Hv]; [by exists h'; rewrite E'|]. by rewrite E, lookup_empty in Hv.
    + split; [done|]. intros HF. destruct E. apply map_empty. intros k.
      destruct (m !! k) eqn:E'; [|done]. exfalso. destruct (proj1 (Hdom k)) as (h' & Hh' & Hs); [by rewrite E'|].
      rewrite Forall_forall in HF. rewrite (HF h' Hh'), lookup_empty in Hs. by destruct Hs.
Qed.

Lemma Merged_last_wins_witness :
  entries (Merged [("trace", Some "1"); ("flag", None)]%string
                  [[("trace", Some "1"); ("flag", None)]]%string) !! "trace"%string = Some (Some "1"%string).
Proof.
  destruct (Merged_last_wins headers_demo [headers_demo]
    [("trace", Some "1"); ("flag", None)]%string [[("trace", Some "1"); ("flag", None)]]%string) as [H _].
  - apply headers_demo_order.
  - constructor; [apply headers_demo_order|constructor].
  - rewrite H. by vm_compute.
Defined.
