(* ===== verification/Stats.v ===== *)
(** * Statistics

    [stats.go].  The counters are reached through pointers that the clones share with their
    originals, so they live in a store and the records hold locations. *)
From Stdlib Require Import ZArith Lia.
From stdpp Require Import base gmap strings list.
From S2P Require Import Prelude.
Open Scope Z_scope.

(** ** Data *)

(** [type PartitionStatus int]. *)
Definition PartitionStopped : Z := 0.
Definition PartitionInitializing : Z := 1.
Definition PartitionConnecting : Z := 2.
Definition PartitionRecovering : Z := 3.
Definition PartitionPreparing : Z := 4.
Definition PartitionRunning : Z := 5.

(** [time.Time]: [None] is the zero time, otherwise nanoseconds. *)
Abbreviation time := (option Z).

(** Location of a struct in the store. *)
Abbreviation loc := nat.

(** [type InputStats struct]; [Count] is a [uint], [Bytes] an [int]. *)
Record InputStats : Type := mkInputStats {
  is_Count : Z; is_Bytes : Z; is_OffsetLag : Z; is_LastOffset : Z; is_Delay : Z
}.

(** [type OutputStats struct]. *)
Record OutputStats : Type := mkOutputStats { os_Count : Z; os_Bytes : Z }.

(** [type RecoveryStats struct]. *)
Record RecoveryStats : Type := mkRecoveryStats {
  rs_StartTime : time; rs_RecoveryTime : time; rs_Offset : Z; rs_Hwm : Z
}.

(** [type TableStats struct]. *)
Record TableStats : Type := mkTableStats {
  ts_Stalled : bool; ts_Status : Z; ts_RunMode : Z;
  ts_Recovery : loc; ts_Input : loc; ts_Writes : loc
}.

(** [type PartitionProcStats struct]. *)
Record PartitionProcStats : Type := mkPPStats {
  pps_Now : time;
  pps_TableStats : option TableStats;
  pps_Joined : gmap string (option TableStats);
  pps_Input : gmap string loc;
  pps_Output : gmap string loc
}.

(** The store of the structs that are shared through pointers. *)
Record stats_heap : Type := mkHeap {
  h_in : gmap loc InputStats; h_out : gmap loc OutputStats; h_rec : gmap loc RecoveryStats;
  h_next : loc
}.

Definition empty_heap : stats_heap := mkHeap ∅ ∅ ∅ 0.

(** [uint] wraps at 64 bits. *)
Definition uint64 (z : Z) : Z := z mod 2 ^ 64.

(** ** Operations *)

Definition newInputStats (h : stats_heap) : loc * stats_heap :=
  (h_next h, mkHeap (<[h_next h := mkInputStats 0 0 0 0 0]> (h_in h)) (h_out h) (h_rec h) (S (h_next h))).

Definition newOutputStats (h : stats_heap) : loc * stats_heap :=
  (h_next h, mkHeap (h_in h) (<[h_next h := mkOutputStats 0 0]> (h_out h)) (h_rec h) (S (h_next h))).

Definition newRecoveryStats (h : stats_heap) : loc * stats_heap :=
  (h_next h, mkHeap (h_in h) (h_out h) (<[h_next h := mkRecoveryStats None None 0 0]> (h_rec h)) (S (h_next h))).

(** [return &( *is )] is the pointer itself. *)
Definition InputStats_clone (p : loc) : loc := p.
Definition OutputStats_clone (p : loc) : loc := p.

Definition inputStatsMap_clone (isp : gmap string loc) : gmap string loc := InputStats_clone <$> isp.
Definition outputStatsMap_clone (osp : gmap string loc) : gmap string loc := OutputStats_clone <$> osp.

(** [var rsCopy = *rs; return &rsCopy]; [None] is the nil dereference. *)
Definition RecoveryStats_clone (rs : loc) (h : stats_heap) : option (loc * stats_heap) :=
  r ← h_rec h !! rs;
  Some (h_next h, mkHeap (h_in h) (h_out h) (<[h_next h := r]> (h_rec h)) (S (h_next h))).

Fixpoint new_inputs (inputs : list string) (m : gmap string loc) (h : stats_heap) : gmap string loc * stats_heap :=
  match inputs with
  | [] => (m, h)
  | input :: inputs => let '(l, h) := newInputStats h in new_inputs inputs (<[input := l]> m) h
  end.

Fixpoint new_outputs (outputs : list string) (m : gmap string loc) (h : stats_heap) : gmap string loc * stats_heap :=
  match outputs with
  | [] => (m, h)
  | output :: outputs => let '(l, h) := newOutputStats h in new_outputs outputs (<[output := l]> m) h
  end.

Definition newPartitionProcStats (now : Z) (inputs outputs : list string) (h : stats_heap)
  : PartitionProcStats * stats_heap :=
  let '(ins, h) := new_inputs inputs ∅ h in
  let '(outs, h) := new_outputs outputs ∅ h in
  (mkPPStats (Some now) None ∅ ins outs, h).

Definition newTableStats (h : stats_heap) : TableStats * stats_heap :=
  let '(i, h) := newInputStats h in
  let '(w, h) := newOutputStats h in
  let '(r, h) := newRecoveryStats h in
  (mkTableStats false PartitionStopped 0 r i w, h).

Definition TableStats_reset (ts : TableStats) (h : stats_heap) : TableStats * stats_heap :=
  let '(i, h) := newInputStats h in
  let '(w, h) := newOutputStats h in
  (mkTableStats (ts_Stalled ts) (ts_Status ts) (ts_RunMode ts) (ts_Recovery ts) i w, h).

(** [Status] and [RunMode] of the clone are zero. *)
Definition TableStats_clone (ts : TableStats) (h : stats_heap) : option (TableStats * stats_heap) :=
  '(r, h) ← RecoveryStats_clone (ts_Recovery ts) h;
  Some (mkTableStats (ts_Stalled ts) PartitionStopped 0 r
          (InputStats_clone (ts_Input ts)) (OutputStats_clone (ts_Writes ts)), h).

Definition PartitionProcStats_clone (now : Z) (s : PartitionProcStats) : PartitionProcStats :=
  mkPPStats (Some now) None ∅ (inputStatsMap_clone (pps_Input s)) (outputStatsMap_clone (pps_Output s)).

(** [outStats.Count++; outStats.Bytes += valueLen] *)
Definition track_write (os : OutputStats) (len : Z) : OutputStats :=
  mkOutputStats (uint64 (os_Count os + 1)) (int64 (os_Bytes os + len)).

Definition set_out (l : loc) (v : OutputStats) (h : stats_heap) : stats_heap :=
  mkHeap (h_in h) (<[l := v]> (h_out h)) (h_rec h) (h_next h).
Definition set_in (l : loc) (v : InputStats) (h : stats_heap) : stats_heap :=
  mkHeap (<[l := v]> (h_in h)) (h_out h) (h_rec h) (h_next h).
Definition set_rec (l : loc) (v : RecoveryStats) (h : stats_heap) : stats_heap :=
  mkHeap (h_in h) (h_out h) (<[l := v]> (h_rec h)) (h_next h).

(** A topic without output stats is only logged. *)
Definition trackOutput (topic : string) (valueLen : Z) (s : PartitionProcStats) (h : stats_heap) : stats_heap :=
  match pps_Output s !! topic with
  | None => h
  | Some l => match h_out h !! l with
              | None => h
              | Some os => set_out l (track_write os valueLen) h
              end
  end.

(** ** The invariant *)

(** The locations of a table's stats are allocated. *)
Record tstats_ok (ts : TableStats) (h : stats_heap) : Prop := {
  tso_in : is_Some (h_in h !! ts_Input ts);
  tso_out : is_Some (h_out h !! ts_Writes ts);
  tso_rec : is_Some (h_rec h !! ts_Recovery ts);
  tso_lt : (ts_Recovery ts < h_next h)%nat
}.

Lemma newTableStats_ok h ts h' : newTableStats h = (ts, h') -> tstats_ok ts h'.
Proof.
  intros [= <- <-]. constructor; simpl; try (rewrite lookup_insert_eq; by eexists). lia.
Qed.
