(* ===== verification/Proxy.v ===== *)
(** * Storage proxy and update callbacks

    [once.go], [proxy.go] and the update callback of [options.go]; the message type of the Kafka
    client. *)
From Stdlib Require Import ZArith Lia.
From stdpp Require Import base gmap strings list.
From S2P Require Import Prelude Storage Headers Stats.
Open Scope Z_scope.

(** ** Data *)

(** The fields of [sarama.ConsumerMessage] that the code uses. *)
Record ConsumerMessage : Type := mkMsg {
  cm_Topic : string; cm_Partition : Z; cm_Key : bytes; cm_Value : bytes; cm_Offset : Z;
  cm_Headers : list RecordHeader; cm_Timestamp : time
}.

(** [type DefaultUpdateContext struct], without the storage, which is passed along. *)
Record DefaultUpdateContext : Type := mkUpdateContext {
  uc_topic : string; uc_key : string; uc_partition : Z; uc_offset : Z; uc_value : bytes;
  uc_headers : Headers; uc_saramaHeaders : list RecordHeader
}.

(** [type once struct]: [None] until the function has run, then its error. *)
Definition once : Type := option (option error).

(** [o.Do(f)], with [f] acting on a state. *)
Definition once_Do {S} (f : S -> outcome (option error * S)) (o : once) (s : S)
  : outcome (option error * once * S) :=
  match o with
  | Some err => Ret (err, o, s)
  | None => '(err, s) ← f s; Ret (err, Some err, s)
  end.

(** [(ctx DefaultUpdateContext) Headers()]. *)
Definition UpdateContext_Headers (ctx : DefaultUpdateContext) : Headers :=
  match uc_headers ctx, uc_saramaHeaders ctx with
  | None, _ :: _ => FromSarama (uc_saramaHeaders ctx)
  | h, _ => h
  end.

Section proxy.
Context {S I : Type} {ST : Storage S I}.

(** [type UpdateCallback func(ctx UpdateContext) error] acting on the storage of the context. *)
Definition UpdateCallback : Type := DefaultUpdateContext -> S -> option error * S.

Definition DefaultUpdate : UpdateCallback := fun ctx s =>
  match uc_value ctx with
  | None => st_Delete (uc_key ctx) s
  | Some _ => st_Set (uc_key ctx) (uc_value ctx) s
  end.

(** [type storageProxy struct]. *)
Record storageProxy : Type := mkProxy {
  sp_Storage : S;
  sp_topic : string;
  sp_partition : Z;
  sp_stateless : bool;
  sp_update : UpdateCallback;
  sp_openedOnce : once;
  sp_closedOnce : once
}.

Definition sp_set (s : S) (p : storageProxy) : storageProxy :=
  mkProxy s (sp_topic p) (sp_partition p) (sp_stateless p) (sp_update p)
          (sp_openedOnce p) (sp_closedOnce p).

(** The nil proxy opens and closes without effect. *)
Definition proxy_Open (p : option storageProxy) : outcome (option error * option storageProxy) :=
  match p with
  | None => Ret (None, None)
  | Some p =>
      '(err, o, s) ← once_Do (fun s => Ret (st_Open s)) (sp_openedOnce p) (sp_Storage p);
      Ret (err, Some (mkProxy s (sp_topic p) (sp_partition p) (sp_stateless p) (sp_update p)
                              o (sp_closedOnce p)))
  end.

Definition proxy_Close (p : option storageProxy) : outcome (option error * option storageProxy) :=
  match p with
  | None => Ret (None, None)
  | Some p =>
      '(err, o, s) ← once_Do st_Close (sp_closedOnce p) (sp_Storage p);
      Ret (err, Some (mkProxy s (sp_topic p) (sp_partition p) (sp_stateless p) (sp_update p)
                              (sp_openedOnce p) o))
  end.

Definition proxy_Update (k : string) (v : bytes) (offset : Z) (headers : Headers) (p : storageProxy)
  : option error * storageProxy :=
  let '(err, s) := sp_update p
    (mkUpdateContext (sp_topic p) k (sp_partition p) offset v headers []) (sp_Storage p) in
  (err, sp_set s p).

Definition proxy_Stateless (p : storageProxy) : bool := sp_stateless p.

Definition proxy_MarkRecovered (p : storageProxy) : outcome (option error * storageProxy) :=
  '(err, s) ← st_MarkRecovered (sp_Storage p); Ret (err, sp_set s p).
End proxy.
Arguments UpdateCallback : clear implicits.
Arguments storageProxy : clear implicits.

(** ** Lemmas *)

(** The effect a table message has on the contents. *)
Definition apply_kv (k : string) (v : bytes) (m : gmap string string) : gmap string string :=
  match v with None => delete k m | Some v => <[k := v]> m end.

Lemma DefaultUpdate_spec {S I} `{StorageLaws S I} ctx (s : S) :
  st_ok s -> ~ st_reserved (uc_key ctx) ->
  exists s', DefaultUpdate ctx s = (None, s') /\ st_ok s' /\
    st_contents s' = apply_kv (uc_key ctx) (uc_value ctx) (st_contents s) /\
    st_offset s' = st_offset s /\ (st_unrecovered s -> st_unrecovered s').
Proof.
  intros Hok Hk. unfold DefaultUpdate, apply_kv. destruct (uc_value ctx) as [v|].
  - by apply law_Set.
  - by apply law_Delete.
Qed.

(** However often a proxy is closed, the storage is closed once and the same error is reported. *)
Lemma proxy_Close_again {S I} `{Storage S I} (p q : option (storageProxy S)) err :
  proxy_Close p = Ret (err, q) -> proxy_Close q = Ret (err, q).
Proof.
  destruct p as [p|]; simpl; [|by intros [= <- <-]].
  unfold once_Do. destruct (sp_closedOnce p) as [e|] eqn:E.
  - simpl. intros [= <- <-]. simpl. done.
  - destruct (st_Close (sp_Storage p)) as [[e s]| |]; simpl; [|done|done].
    intros [= <- <-]. done.
Qed.
