(* ===== verification/PartitionTable.v ===== *)
(** * Partition tables

    [partition_table.go]: the local copy of one partition of a table topic, recovered from Kafka
    and kept up to date.  What the environment decides (the answers of the topic manager, the
    messages and errors of the partition consumer, the cases a [select] takes, the clock) are
    arguments; the storage is any implementation of the interface. *)
From Stdlib Require Import ZArith Lia.
From stdpp Require Import base gmap strings list sorting.
From S2P Require Import Prelude Multierr Signal Storage Headers Stats Proxy.
Open Scope Z_scope.

(** ** Data *)

(** [offsetNotStored] *)
Definition offsetNotStored : Z := -3.

(** [sarama.OffsetNewest] and [sarama.OffsetOldest]. *)
Definition OffsetNewest : Z := -1.
Definition OffsetOldest : Z := -2.

(** The updates sent over the channel [updateStats]. *)
Inductive stats_update : Type :=
| USetRecovery (start : Z) (hwm offset : Z)
| URecoveryTime (now : Z)
| URecoveryOffset (offset : Z)
| UTrackIncoming (msg : ConsumerMessage)
| UStalled
| UTrackWrite (length : Z).

(** The capacity of [updateStats]. *)
Definition updateStats_cap : nat := 10.

(** What the [select] of [loadMessages] receives.  [EvMsg m now skip1 skip2]: a message ([None] is
    a nil message) at time [now]; [skip1] and [skip2] tell whether the two stats updates took the
    [ctx.Done] case. *)
Inductive load_event : Type :=
| EvMsg (m : option ConsumerMessage) (now : Z) (skip1 skip2 : bool)
| EvClosed
| EvTick (now : Z) (skip : bool)
| EvCtxDone.

(** What the [select] of [markRecovered] receives. *)
Inductive mark_event : Type := MTick | MCtxDone | MDone.

(** What [handleConsumerErrors] receives. *)
Inductive cons_event : Type := CErr (e : error) | CClosed | CCtxDone.

(** The environment of one run of [load].  [le_GetOffset] is the topic manager's [GetOffset] of a topic,
    a partition and a time; [le_consume] is [ConsumePartition] of a topic, a partition and an offset:
    what the [select] of [loadMessages] receives with the consumer it returns. *)
Record load_env : Type := mkLoadEnv {
  le_GetOffset : string -> Z -> Z -> res Z;
  le_consume : string -> Z -> Z -> res (list load_event);
  le_cons : list cons_event;
  le_drain : list error;
  le_mark : list mark_event;
  le_now : Z;
  le_skip : bool;
  le_pick : nat -> bool
}.

(** [t.Sub(u)] saturates at the bounds of [time.Duration]. *)
Definition time_Sub (t u : Z) : Z := Z.max (- 2 ^ 63) (Z.min (2 ^ 63 - 1) (t - u)).

Section table.
Context {S I : Type} {ST : Storage S I}.

(** [type PartitionTable struct].  [offset] and [hwm] are never used. *)
Record PartitionTable : Type := mkPT {
  pt_topic : string;
  pt_partition : Z;
  pt_state : Signal;
  pt_st : option (storageProxy S);
  pt_updateCallback : UpdateCallback S;
  pt_stats : TableStats;
  pt_heap : stats_heap;
  pt_updateStats : list stats_update;
  pt_stalledTimeout : Z
}.

Definition pt_set_state (x : Signal) (p : PartitionTable) : PartitionTable :=
  mkPT (pt_topic p) (pt_partition p) x (pt_st p) (pt_updateCallback p) (pt_stats p) (pt_heap p)
       (pt_updateStats p) (pt_stalledTimeout p).
Definition pt_set_st (x : option (storageProxy S)) (p : PartitionTable) : PartitionTable :=
  mkPT (pt_topic p) (pt_partition p) (pt_state p) x (pt_updateCallback p) (pt_stats p) (pt_heap p)
       (pt_updateStats p) (pt_stalledTimeout p).
Definition pt_set_stats (x : TableStats) (h : stats_heap) (p : PartitionTable) : PartitionTable :=
  mkPT (pt_topic p) (pt_partition p) (pt_state p) (pt_st p) (pt_updateCallback p) x h
       (pt_updateStats p) (pt_stalledTimeout p).
Definition pt_set_updates (x : list stats_update) (p : PartitionTable) : PartitionTable :=
  mkPT (pt_topic p) (pt_partition p) (pt_state p) (pt_st p) (pt_updateCallback p) (pt_stats p)
       (pt_heap p) x (pt_stalledTimeout p).

(** ** Construction *)

Definition newPartitionTableState : outcome Signal :=
  Signal_SetState (fun _ => false) PartitionStopped
    (NewSignal [PartitionStopped; PartitionInitializing; PartitionConnecting; PartitionRecovering;
                PartitionPreparing; PartitionRunning]).

(** [defaultStalledTimeout] is two minutes. *)
Definition defaultStalledTimeout : Z := 120000000000.

Definition newPartitionTable (topic : string) (partition : Z) (updateCallback : UpdateCallback S)
    (h : stats_heap) : outcome PartitionTable :=
  state ← newPartitionTableState;
  let '(stats, h) := newTableStats h in
  Ret (mkPT topic partition state None updateCallback stats h [] defaultStalledTimeout).

Definition pt_SetState (pick : nat -> bool) (st : Z) (p : PartitionTable) : outcome PartitionTable :=
  s ← Signal_SetState pick st (pt_state p); Ret (pt_set_state s p).

(** [p.st] of a nil proxy is a nil dereference. *)
Definition with_st {A} (f : storageProxy S -> outcome A) (p : PartitionTable) : outcome A :=
  match pt_st p with
  | None => Panic (ErrNew "nil pointer dereference")
  | Some st => f st
  end.

(** ** Statistics *)

(** [enqueueStatsUpdate]: never blocks; the update is dropped when the channel is full or when the
    [select] takes the cancelled context ([skip]). *)
Definition enqueueStatsUpdate (skip : bool) (u : stats_update) (p : PartitionTable) : PartitionTable :=
  if skip then p
  else if (length (pt_updateStats p) <? updateStats_cap)%nat
  then pt_set_updates (pt_updateStats p ++ [u]) p
  else p.

(** [trackIncomingMessageStats] at time [now]. *)
Definition trackIncomingMessageStats (now : Z) (msg : ConsumerMessage) (p : PartitionTable) : PartitionTable :=
  let ts := pt_stats p in
  match h_in (pt_heap p) !! ts_Input ts with
  | None => p
  | Some ip =>
      let delay := match cm_Timestamp msg with None => is_Delay ip | Some t => time_Sub now t end in
      let ip := mkInputStats (uint64 (is_Count ip + 1)) (int64 (is_Bytes ip + bytes_len (cm_Value msg)))
                  (is_OffsetLag ip) (cm_Offset msg) delay in
      pt_set_stats (mkTableStats false (ts_Status ts) (ts_RunMode ts) (ts_Recovery ts) (ts_Input ts) (ts_Writes ts))
        (set_in (ts_Input ts) ip (pt_heap p)) p
  end.

(** Running a queued update. *)
Definition run_update (now : Z) (u : stats_update) (p : PartitionTable) : PartitionTable :=
  let ts := pt_stats p in
  let on_rec f := match h_rec (pt_heap p) !! ts_Recovery ts with
                  | None => p
                  | Some r => pt_set_stats ts (set_rec (ts_Recovery ts) (f r) (pt_heap p)) p
                  end in
  match u with
  | USetRecovery start hwm offset =>
      on_rec (fun r => mkRecoveryStats (Some start) (rs_RecoveryTime r) offset hwm)
  | URecoveryTime t => on_rec (fun r => mkRecoveryStats (rs_StartTime r) (Some t) (rs_Offset r) (rs_Hwm r))
  | URecoveryOffset o => on_rec (fun r => mkRecoveryStats (rs_StartTime r) (rs_RecoveryTime r) o (rs_Hwm r))
  | UTrackIncoming msg => trackIncomingMessageStats now msg p
  | UStalled =>
      pt_set_stats (mkTableStats true (ts_Status ts) (ts_RunMode ts) (ts_Recovery ts) (ts_Input ts) (ts_Writes ts))
        (pt_heap p) p
  | UTrackWrite len =>
      match h_out (pt_heap p) !! ts_Writes ts with
      | None => p
      | Some os => pt_set_stats ts (set_out (ts_Writes ts) (track_write os len) (pt_heap p)) p
      end
  end.

Definition TrackMessageWrite (skip : bool) (length : Z) (p : PartitionTable) : PartitionTable :=
  enqueueStatsUpdate skip (UTrackWrite length) p.

(** [updateHwmStats], given the high watermark the consumer reports (0 if it has none). *)
Definition updateHwmStats (hwm : Z) (p : PartitionTable) : PartitionTable :=
  if hwm =? 0 then p
  else match h_in (pt_heap p) !! ts_Input (pt_stats p) with
       | None => p
       | Some ip =>
           pt_set_stats (pt_stats p)
             (set_in (ts_Input (pt_stats p))
                (mkInputStats (is_Count ip) (is_Bytes ip) (int64 (hwm - is_LastOffset ip)) (is_LastOffset ip)
                   (is_Delay ip)) (pt_heap p)) p
       end.

(** [handleStatsRequest]: the response is a clone with the current status. *)
Definition handleStatsRequest (p : PartitionTable) : option (TableStats * PartitionTable) :=
  '(ts, h) ← TableStats_clone (pt_stats p) (pt_heap p);
  let ts := mkTableStats (ts_Stalled ts) (Signal_State (pt_state p)) (ts_RunMode ts) (ts_Recovery ts)
              (ts_Input ts) (ts_Writes ts) in
  Some (ts, pt_set_stats (pt_stats p) h p).

(** What the [select] of [RunStatsLoop] receives. *)
Inductive stats_event : Type :=
| SRequest
| SUpdate (now : Z)
| SHwm (hwm : Z)
| SCtxDone.

(** [RunStatsLoop] for a sequence of cases: the responses it sent; receiving an update from an
    empty channel is not possible, so the loop waits ([None]). *)
Fixpoint RunStatsLoop (evs : list stats_event) (p : PartitionTable) : option (list TableStats * PartitionTable) :=
  match evs with
  | [] => Some ([], p)
  | SRequest :: evs =>
      '(ts, p) ← handleStatsRequest p;
      '(resp, p) ← RunStatsLoop evs p; Some (ts :: resp, p)
  | SUpdate now :: evs =>
      match pt_updateStats p with
      | [] => None
      | u :: us => RunStatsLoop evs (run_update now u (pt_set_updates us p))
      end
  | SHwm hwm :: evs => RunStatsLoop evs (updateHwmStats hwm p)
  | SCtxDone :: _ => Some ([], p)
  end.

(** ** Creation of the storage *)

(** [createStorage]: [builder] builds the storage; [cancelled] tells whether the context is done
    once the storage is open, in which case the storage is closed again and the result is nil. *)
Definition createStorage (builder : string -> Z -> res S) (cancelled : bool) (p : PartitionTable)
  : outcome (res (option (storageProxy S))) :=
  match builder (pt_topic p) (pt_partition p) with
  | Err e => Ret (Err (ErrWrap "error building storage" e))
  | Ok st =>
      let '(err, st) := st_Open st in
      match err with
      | Some e =>
          '(cerr, _) ← st_Close st;
          let errs := Errors_Collect new_Errors cerr in
          let errs := Errors_Collect errs (Some (ErrWrap "error opening storage" e)) in
          Ret (match Errors_NilOrError errs with Some e => Err e | None => Ok None end)
      | None =>
          if cancelled then
            '(cerr, _) ← st_Close st;
            let errs := match cerr with
                        | None => new_Errors
                        | Some _ => Errors_Collect (Errors_Collect new_Errors cerr) (Some ErrContextCanceled)
                        end in
            Ret (match Errors_NilOrError errs with Some e => Err e | None => Ok None end)
          else
            Ret (Ok (Some (mkProxy st (pt_topic p) (pt_partition p) false (pt_updateCallback p) None None)))
      end
  end.

Definition setup (builder : string -> Z -> res S) (cancelled : bool) (pick : nat -> bool) (p : PartitionTable)
  : outcome (option error * PartitionTable) :=
  p ← pt_SetState pick PartitionInitializing p;
  r ← createStorage builder cancelled p;
  match r with
  | Err e =>
      p ← pt_SetState pick PartitionStopped p;
      Ret (Some (ErrWrap "error setting up partition table" e), p)
  | Ok st => Ret (None, pt_set_st st p)
  end.

Definition table_Close (p : PartitionTable) : outcome (option error * PartitionTable) :=
  match pt_st p with
  | None => Ret (None, p)
  | Some _ => '(err, st) ← proxy_Close (pt_st p); Ret (err, pt_set_st st p)
  end.

(** ** Recovery *)

Definition findOffsetToLoad (env : load_env) (storedOffset : Z) (p : PartitionTable) : res (Z * Z) :=
  match le_GetOffset env (pt_topic p) (pt_partition p) OffsetOldest with
  | Err e => Err (ErrWrap "Error getting oldest offset for topic/partition" e)
  | Ok oldest =>
      match le_GetOffset env (pt_topic p) (pt_partition p) OffsetNewest with
      | Err e => Err (ErrWrap "Error getting newest offset for topic/partition" e)
      | Ok hwm =>
          let start := if storedOffset =? offsetNotStored then oldest else int64 (storedOffset + 1) in
          let start := if start <? oldest then oldest else start in
          Ok (start, hwm)
      end
  end.

Definition storeEvent (key : string) (value : bytes) (offset : Z) (headers : Headers) (st : storageProxy S)
  : option error * storageProxy S :=
  let '(err, st) := proxy_Update key value offset headers st in
  match err with
  | Some e => (Some (ErrWrap "Error from the update callback while recovering from the log" e), st)
  | None =>
      let '(err, s) := st_SetOffset offset (sp_Storage st) in
      (match err with
       | Some e => Some (ErrWrap "Error updating offset in local storage while recovering from the log" e)
       | None => None
       end, sp_set s st)
  end.

(** The loop of [loadMessages]; it waits for ever when the environment sends nothing more. *)
Fixpoint loadMessages (evs : list load_event) (partitionHwm : Z) (stopAfterCatchup : bool)
    (lastMessage : Z) (p : PartitionTable) : outcome (option error * PartitionTable) :=
  match evs with
  | [] => Blocked
  | EvClosed :: _ => Ret (collect_return new_Errors None, p)
  | EvCtxDone :: _ => Ret (collect_return new_Errors None, p)
  | EvTick now skip :: evs =>
      let p := if pt_stalledTimeout p <? time_Sub now lastMessage
               then enqueueStatsUpdate skip UStalled p else p in
      loadMessages evs partitionHwm stopAfterCatchup lastMessage p
  | EvMsg None _ _ _ :: evs => loadMessages evs partitionHwm stopAfterCatchup lastMessage p
  | EvMsg (Some msg) now skip1 skip2 :: evs =>
      if Signal_IsState PartitionRunning (pt_state p) && stopAfterCatchup
      then loadMessages evs partitionHwm stopAfterCatchup lastMessage p
      else
        with_st (fun st =>
          let '(err, st) := storeEvent (string_of_bytes (cm_Key msg)) (cm_Value msg) (cm_Offset msg)
                              (FromSarama (cm_Headers msg)) st in
          let p := pt_set_st (Some st) p in
          match err with
          | Some e =>
              let errs := Errors_Collect new_Errors (Some (ErrWrap "load: error updating storage" e)) in
              Ret (collect_return errs None, p)
          | None =>
              let p := if stopAfterCatchup
                       then enqueueStatsUpdate skip1 (URecoveryOffset (cm_Offset msg)) p else p in
              let p := enqueueStatsUpdate skip2 (UTrackIncoming msg) p in
              if stopAfterCatchup && (int64 (partitionHwm - 1) <=? cm_Offset msg)
              then Ret (collect_return new_Errors None, p)
              else loadMessages evs partitionHwm stopAfterCatchup now p
          end) p
  end.

(** The loop of [markRecovered], given what [MarkRecovered] of the storage returned. *)
Fixpoint mark_loop (pick : nat -> bool) (evs : list mark_event) (err : option error) (p : PartitionTable)
  : outcome (option error * PartitionTable) :=
  match evs with
  | [] => Blocked
  | MTick :: evs => mark_loop pick evs err p
  | MCtxDone :: _ => Ret (None, p)
  | MDone :: _ =>
      match err with
      | Some e => Ret (Some e, p)
      | None => p ← pt_SetState pick PartitionRunning p; Ret (None, p)
      end
  end.

(** [markRecovered].  The goroutine that calls [MarkRecovered] of the storage runs to its end also
    if the loop leaves early because the context is done. *)
Definition markRecovered (env : load_env) (p : PartitionTable) : outcome (option error * PartitionTable) :=
  p ← pt_SetState (le_pick env) PartitionPreparing p;
  let p := enqueueStatsUpdate (le_skip env) (URecoveryTime (le_now env)) p in
  with_st (fun st =>
    '(err, st) ← proxy_MarkRecovered st;
    mark_loop (le_pick env) (le_mark env) err (pt_set_st (Some st) p)) p.

(** [handleConsumerErrors]: the errors it collects until the channel or the context closes; each
    also closes the consumer. *)
Fixpoint handleConsumerErrors (evs : list cons_event) (errs : Errors) : Errors :=
  match evs with
  | CErr e :: evs => handleConsumerErrors evs (Errors_Collect errs (Some (ErrWrap "Consumer error" e)))
  | _ => errs
  end.

(** [drainConsumer]: the errors still in the channel are collected, the messages dropped. *)
Definition drainConsumer (drained : list error) (errs : Errors) : Errors :=
  fold_left (fun errs e => Errors_Collect errs (Some e)) drained errs.

(** [load].  The errors of the concurrent [handleConsumerErrors] are collected first. *)
Definition load (env : load_env) (stopAfterCatchup : bool) (p : PartitionTable)
  : outcome (option error * PartitionTable) :=
  let errs := new_Errors in
  p ← pt_SetState (le_pick env) PartitionConnecting p;
  with_st (fun st =>
    match st_GetOffset offsetNotStored (sp_Storage st) with
    | Err e => Ret (collect_return (Errors_Collect errs (Some (ErrWrap "error reading local offset" e))) None, p)
    | Ok storedOffset =>
    match findOffsetToLoad env storedOffset p with
    | Err e => Ret (collect_return (Errors_Collect errs (Some e)) None, p)
    | Ok (loadOffset, hwm) =>
        if (0 <? storedOffset) && (hwm =? 0)
        then Ret (collect_return (Errors_Collect errs (Some
               (ErrNew "kafka tells us there's no message in the topic, but our cache has one"))) None, p)
        else
          let loadOffset := if hwm <=? storedOffset then hwm else loadOffset in
          let p := if stopAfterCatchup
                   then enqueueStatsUpdate (le_skip env) (USetRecovery (le_now env) hwm loadOffset) p
                   else p in
          if stopAfterCatchup && (hwm <=? loadOffset) then
            '(err, p) ← markRecovered env p;
            Ret (collect_return (Errors_Collect errs err) None, p)
          else
            match le_consume env (pt_topic p) (pt_partition p) loadOffset with
            | Err e => Ret (collect_return (Errors_Collect errs
                               (Some (ErrWrap "Error creating partition consumer" e))) None, p)
            | Ok evs =>
                p ← pt_SetState (le_pick env)
                      (if stopAfterCatchup then PartitionRecovering else PartitionRunning) p;
                '(loadErr, p) ← loadMessages evs hwm stopAfterCatchup (le_now env) p;
                let errs := handleConsumerErrors (le_cons env) errs in
                match loadErr with
                | Some _ =>
                    Ret (collect_return (drainConsumer (le_drain env) (Errors_Collect errs loadErr)) None, p)
                | None =>
                    if stopAfterCatchup then
                      '(err, p) ← markRecovered env p;
                      let p := enqueueStatsUpdate (le_skip env) (URecoveryTime (le_now env)) p in
                      Ret (collect_return (drainConsumer (le_drain env) (Errors_Collect errs err)) None, p)
                    else Ret (collect_return (drainConsumer (le_drain env) errs) None, p)
                end
            end
    end
    end) p.

(** One round of [loadRestarting]: the environment of the load and, if it failed, whether the
    backoff was reset before the wait and whether the context was done during the wait. *)
Record attempt : Type := mkAttempt { at_env : load_env; at_reset : bool; at_done : bool }.

(** [loadRestarting]; [backoff] yields the time to wait and can be reset. *)
Fixpoint loadRestarting {B} (Duration : B -> Z * B) (Reset : B -> B) (atts : list attempt)
    (stopAfterCatchup : bool) (backoff : B) (p : PartitionTable)
  : outcome (option error * B * PartitionTable) :=
  match atts with
  | [] => Blocked
  | a :: atts =>
      '(err, p) ← load (at_env a) stopAfterCatchup p;
      match err with
      | None => Ret (None, backoff, p)
      | Some _ =>
          let backoff := if at_reset a then Reset backoff else backoff in
          let '(_, backoff) := Duration backoff in
          if at_done a then Ret (None, backoff, p)
          else loadRestarting Duration Reset atts stopAfterCatchup backoff p
      end
  end.

(** [SetupAndRecover] and [CatchupForever]; [cancelled] and [cancelled'] tell whether the context is
    done when the storage has been opened and when [setup] has returned. *)
Definition SetupAndRecover {B} (Duration : B -> Z * B) (Reset : B -> B) (builder : string -> Z -> res S)
    (cancelled cancelled' : bool) (atts : list attempt) (restartOnError : bool) (backoff : B) (p : PartitionTable)
  : outcome (option error * B * PartitionTable) :=
  '(err, p) ← setup builder cancelled (match atts with a :: _ => le_pick (at_env a) | [] => fun _ => false end) p;
  match err with
  | Some e => Ret (Some e, backoff, p)
  | None =>
      if cancelled' then Ret (None, backoff, p)
      else if restartOnError then loadRestarting Duration Reset atts true backoff p
      else match atts with
           | [] => Blocked
           | a :: _ => '(err, p) ← load (at_env a) true p; Ret (err, backoff, p)
           end
  end.

Definition CatchupForever {B} (Duration : B -> Z * B) (Reset : B -> B) (atts : list attempt)
    (restartOnError : bool) (backoff : B) (p : PartitionTable) : outcome (option error * B * PartitionTable) :=
  if restartOnError then loadRestarting Duration Reset atts false backoff p
  else match atts with
       | [] => Blocked
       | a :: _ => '(err, p) ← load (at_env a) false p; Ret (err, backoff, p)
       end.

(** ** Access *)

Definition IsRecovered (p : PartitionTable) : bool := Signal_IsState PartitionRunning (pt_state p).
Definition CurrentState (p : PartitionTable) : Z := Signal_State (pt_state p).
Definition WaitRecovered (p : PartitionTable) : outcome (nat * PartitionTable) :=
  '(c, s) ← WaitForState PartitionRunning (pt_state p); Ret (c, pt_set_state s p).
Definition observeStateChanges (p : PartitionTable) : outcome (nat * PartitionTable) :=
  '(i, s) ← ObserveStateChange (pt_state p); Ret (i, pt_set_state s p).

Definition readyToRead (p : PartitionTable) : option error :=
  if CurrentState p =? PartitionRunning then None
  else Some (ErrNew "Partition is not running so it's not safe to read values").

Definition guarded {A} (f : S -> res A) (p : PartitionTable) : outcome (res A) :=
  match readyToRead p with
  | Some e => Ret (Err e)
  | None => with_st (fun st => Ret (f (sp_Storage st))) p
  end.

Definition table_Get (key : string) (p : PartitionTable) : outcome (res bytes) := guarded (st_Get key) p.
Definition table_Has (key : string) (p : PartitionTable) : outcome (res bool) := guarded (st_Has key) p.
Definition table_Iterator (p : PartitionTable) : outcome (res I) := guarded st_Iterator p.
Definition table_IteratorWithRange (start limit : bytes) (p : PartitionTable) : outcome (res I) :=
  guarded (st_IteratorWithRange start limit) p.

(** A write of the storage behind the proxy. *)
Definition on_storage (f : S -> option error * S) (p : PartitionTable) : outcome (option error * PartitionTable) :=
  with_st (fun st => let '(err, s) := f (sp_Storage st) in Ret (err, pt_set_st (Some (sp_set s st)) p)) p.

Definition table_Set (key : string) (value : bytes) (p : PartitionTable) : outcome (option error * PartitionTable) :=
  on_storage (st_Set key value) p.
Definition table_Delete (key : string) (p : PartitionTable) : outcome (option error * PartitionTable) :=
  on_storage (st_Delete key) p.
Definition table_SetOffset (value : Z) (p : PartitionTable) : outcome (option error * PartitionTable) :=
  on_storage (st_SetOffset value) p.
Definition table_GetOffset (defValue : Z) (p : PartitionTable) : outcome (res Z) :=
  with_st (fun st => Ret (st_GetOffset defValue (sp_Storage st))) p.

Definition storeNewestOffset (newOffset : Z) (p : PartitionTable) : outcome (option error * PartitionTable) :=
  r ← table_GetOffset offsetNotStored p;
  match r with
  | Err e => Ret (Some e, p)
  | Ok oldOffset =>
      if negb (offsetNotStored =? oldOffset) && (oldOffset <=? newOffset)
      then table_SetOffset newOffset p
      else Ret (None, p)
  end.
End table.
Arguments PartitionTable : clear implicits.

(** ** Backoff

    [simple_backoff.go]. *)

Record simpleBackoff : Type := mkBackoff { bo_current : Z; bo_step : Z }.

Definition second : Z := 1000000000.

(** The argument is not used. *)
Definition NewSimpleBackoff (step : Z) : simpleBackoff := mkBackoff 0 second.
Definition Backoff_Reset (b : simpleBackoff) : simpleBackoff := mkBackoff 0 (bo_step b).
Definition Backoff_Duration (b : simpleBackoff) : Z * simpleBackoff :=
  let c := int64 (bo_current b + bo_step b) in (c, mkBackoff c (bo_step b)).

(** ** Specification *)

(** What a table topic means: the records applied in order, a nil value deletes the key. *)
Definition replay (l : list ConsumerMessage) (m : gmap string string) : gmap string string :=
  fold_left (fun m r => apply_kv (string_of_bytes (cm_Key r)) (cm_Value r) m) l m.

(** The messages among the events. *)
Definition ev_msgs (evs : list load_event) : list ConsumerMessage :=
  omap (fun e => match e with EvMsg m _ _ _ => m | _ => None end) evs.

(** Neither the channel nor the context closes. *)
Definition ev_quiet (e : load_event) : bool :=
  match e with EvClosed | EvCtxDone => false | _ => true end.

(** The log is in offset order. *)
Definition log_sorted (l : list ConsumerMessage) : Prop :=
  StronglySorted (fun a b => cm_Offset a < cm_Offset b) l.

(** [l] is a compaction of the log [full]: records may be missing, but not the last one of a key. *)
Record compaction (full l : list ConsumerMessage) : Prop := {
  cp_sub : l `sublist_of` full;
  cp_last : forall l1 r l2, full = l1 ++ r :: l2 ->
    Forall (fun r' => string_of_bytes (cm_Key r') <> string_of_bytes (cm_Key r)) l2 -> r ∈ l
}.

(** ** Lemmas on logs *)

Lemma replay_app l1 l2 m : replay (l1 ++ l2) m = replay l2 (replay l1 m).
Proof. unfold replay. by rewrite fold_left_app. Qed.

Lemma apply_kv_lookup_ne k k' v m : k <> k' -> apply_kv k v m !! k' = m !! k'.
Proof. intros. unfold apply_kv. destruct v; by simplify_map_eq. Qed.

Lemma apply_kv_lookup k v m : apply_kv k v m !! k = v.
Proof. unfold apply_kv. destruct v; by simplify_map_eq. Qed.

Lemma replay_other l m k :
  Forall (fun r => string_of_bytes (cm_Key r) <> k) l -> replay l m !! k = m !! k.
Proof.
  revert m. induction l as [|r l IH]; intros m; [done|]. intros [Hr Hl]%Forall_cons. simpl.
  unfold replay in *. simpl. rewrite IH by done. by apply apply_kv_lookup_ne.
Qed.

(** The last record of a key decides its value. *)
Lemma replay_last l1 r l2 m :
  Forall (fun r' => string_of_bytes (cm_Key r') <> string_of_bytes (cm_Key r)) l2 ->
  replay (l1 ++ r :: l2) m !! string_of_bytes (cm_Key r) = cm_Value r.
Proof.
  intros Hl2. rewrite replay_app. change (r :: l2) with ([r] ++ l2). rewrite replay_app.
  rewrite replay_other by done. apply apply_kv_lookup.
Qed.

(** Either no record has the key or there is a last one that has it. *)
Lemma last_of_key k l :
  Forall (fun r => string_of_bytes (cm_Key r) <> k) l \/
  exists l1 r l2, l = l1 ++ r :: l2 /\ string_of_bytes (cm_Key r) = k /\
    Forall (fun r' => string_of_bytes (cm_Key r') <> string_of_bytes (cm_Key r)) l2.
Proof.
  induction l as [|r l IH]; [left; constructor|].
  destruct IH as [Hl|(l1 & r' & l2 & -> & Hk & Hl2)].
  - destruct (decide (string_of_bytes (cm_Key r) = k)) as [Hk|Hk].
    + right. exists [], r, l. split_and!; [done|done|by rewrite Hk].
    + left. by constructor.
  - right. by exists (r :: l1), r', l2.
Qed.

Lemma log_sorted_app l1 r l2 :
  log_sorted (l1 ++ r :: l2) ->
  Forall (fun r' => cm_Offset r' < cm_Offset r) l1 /\ Forall (fun r' => cm_Offset r < cm_Offset r') l2.
Proof.
  intros Hs. induction l1 as [|x l1 IH]; simpl in Hs; apply StronglySorted_cons in Hs as [Hall Hs].
  - by split.
  - destruct (IH Hs) as [H1 H2]. split; [|done]. constructor; [|done].
    rewrite Forall_forall in Hall. apply Hall. apply elem_of_app. right. left.
Qed.

(** Read from a compacted log, the records in a range of offsets give the value of a key whose last
    record is in that range, and do not touch a key that has no record there. *)
Lemma replay_compacted full l m k (P : Z -> Prop) `{forall o, Decision (P o)} :
  log_sorted full -> compaction full l ->
  (forall l1 r l2, full = l1 ++ r :: l2 -> string_of_bytes (cm_Key r) = k ->
     Forall (fun r' => string_of_bytes (cm_Key r') <> string_of_bytes (cm_Key r)) l2 ->
     P (cm_Offset r) -> replay (filter (fun r => P (cm_Offset r)) l) m !! k = cm_Value r) /\
  ((forall r, r ∈ full -> string_of_bytes (cm_Key r) = k -> ~ P (cm_Offset r)) ->
   replay (filter (fun r => P (cm_Offset r)) l) m !! k = m !! k).
Proof.
  intros Hs [Hsub Hlast]. split.
  - intros l1 r l2 Hfull Hk Hl2 HP. destruct (list_elem_of_split l r) as (a & b & Hl); [by eapply Hlast|].
    rewrite Hl, filter_app, filter_cons_True by done. rewrite <- Hk. apply replay_last.
    rewrite Forall_forall in *. intros r' [_ Hr']%list_elem_of_filter. apply Hl2.
    pose proof (StronglySorted_sublist _ _ _ Hsub Hs) as Hsl. rewrite Hl in Hsl.
    apply log_sorted_app in Hsl as [_ Hb]. rewrite Forall_forall in Hb. specialize (Hb r' Hr').
    assert (r' ∈ full) as Hin by (eapply elem_of_sublist; [|exact Hsub]; rewrite Hl; apply elem_of_app; right; by right).
    rewrite Hfull in Hs. destruct (log_sorted_app _ _ _ Hs) as [Hlt _]. rewrite Forall_forall in Hlt.
    rewrite Hfull in Hin. apply elem_of_app in Hin as [Hin|[->|Hin]%elem_of_cons]; [|simpl in Hb; lia|done].
    specialize (Hlt r' Hin). simpl in *. lia.
  - intros Hno. apply replay_other. rewrite Forall_forall. intros r [HP Hr]%list_elem_of_filter Hk.
    apply (Hno r); [by eapply elem_of_sublist|done|done].
Qed.

(** Local contents reflect the log up to the offset [stored]: they are right for every key that has no
    record after it.  (The other keys get their values from the records that are still to be read.) *)
Definition reflects (full : list ConsumerMessage) (stored : Z) (c : gmap string string) : Prop :=
  forall k, (exists r, r ∈ full /\ string_of_bytes (cm_Key r) = k /\ stored < cm_Offset r) \/ c !! k = replay full ∅ !! k.

(** A key without a last record after [o], or with one. *)
Lemma key_cases full o k :
  log_sorted full ->
  (forall r, r ∈ full -> string_of_bytes (cm_Key r) = k -> ~ o < cm_Offset r) \/
  exists l1 r l2, full = l1 ++ r :: l2 /\ string_of_bytes (cm_Key r) = k /\
    Forall (fun r' => string_of_bytes (cm_Key r') <> string_of_bytes (cm_Key r)) l2 /\ o < cm_Offset r.
Proof.
  intros Hs. destruct (last_of_key k full) as [Hk|(l1 & r & l2 & Hfull & Hk & Hl2)].
  { left. rewrite Forall_forall in Hk. intros r Hr Hkr. by destruct (Hk r Hr). }
  destruct (decide (o < cm_Offset r)) as [Ho|Ho]; [right; by exists l1, r, l2|]. left.
  intros r' Hr' Hk' Ho'. rewrite Hfull in Hr', Hs. destruct (log_sorted_app _ _ _ Hs) as [Hlt _].
  rewrite Forall_forall in Hlt, Hl2. apply elem_of_app in Hr' as [Hin|[->|Hin]%elem_of_cons]; [|lia|].
  - specialize (Hlt r' Hin). simpl in Hlt. lia.
  - destruct (Hl2 r' Hin). congruence.
Qed.

(** Reading on from there gives the contents of the whole log. *)
Lemma replay_resume full l stored c :
  log_sorted full -> compaction full l -> reflects full stored c ->
  replay (filter (fun r => stored < cm_Offset r) l) c = replay full ∅.
Proof.
  intros Hs Hcomp Hc. apply map_eq. intros k.
  destruct (replay_compacted full l c k (fun o => stored < o) Hs Hcomp) as [Hnew Hold].
  destruct (key_cases full stored k Hs) as [Hno|(l1 & r & l2 & Hfull & Hk & Hl2 & Ho)].
  - rewrite (Hold Hno). destruct (Hc k) as [(r & Hr & Hk & Ho)|E]; [by destruct (Hno r Hr Hk)|done].
  - rewrite (Hnew _ _ _ Hfull Hk Hl2 Ho), Hfull, <- Hk. symmetry. by apply replay_last.
Qed.

(** A table that has stored nothing reflects every log. *)
Lemma reflects_empty full stored : (forall r, r ∈ full -> stored < cm_Offset r) -> reflects full stored ∅.
Proof.
  intros Hst k. destruct (last_of_key k full) as [Hk|(l1 & r & l2 & Hfull & Hk & _)].
  - right. by rewrite replay_other.
  - left. exists r. assert (r ∈ full) as Hr by (rewrite Hfull; set_solver). auto.
Qed.

(** A recovery that was interrupted after any record of any compaction of the log leaves contents that
    reflect the log up to that record, and so do the contents of a crash before its offset was stored. *)
Lemma reflects_load full l stored o o' c :
  log_sorted full -> compaction full l -> reflects full stored c -> stored <= o' <= o ->
  reflects full o' (replay (filter (fun r => stored < cm_Offset r /\ cm_Offset r <= o) l) c).
Proof.
  intros Hs Hcomp Hc Ho k. destruct (replay_compacted full l c k (fun x => stored < x /\ x <= o) Hs Hcomp) as [Hnew Hold].
  destruct (key_cases full o' k Hs) as [Hno|(l1 & r & l2 & Hfull & Hk & _ & Hr)].
  2: { left. exists r. split_and!; [rewrite Hfull; set_solver|done|done]. }
  right. destruct (key_cases full stored k Hs) as [Hno'|(l1 & r & l2 & Hfull & Hk & Hl2 & Hr)].
  - rewrite Hold by (intros r Hr Hk [? _]; by destruct (Hno' r Hr Hk)).
    destruct (Hc k) as [(r & Hr & Hk & Hlt)|E]; [by destruct (Hno' r Hr Hk)|done].
  - assert (r ∈ full) as Hin by (rewrite Hfull; set_solver). pose proof (Hno r Hin Hk).
    rewrite (Hnew _ _ _ Hfull Hk Hl2), Hfull, <- Hk by lia. symmetry. by apply replay_last.
Qed.

(** Contents of a processor's own writes may be ahead of the offset, whose acknowledgement comes later. *)
Lemma reflects_ahead full stored n : log_sorted full -> stored <= n -> reflects full stored (replay (filter (fun r => cm_Offset r <= n) full) ∅).
Proof.
  intros Hs Hn k. destruct (last_of_key k full) as [Hk|(l1 & r & l2 & Hfull & Hk & Hl2)].
  { right. rewrite !replay_other; [done|done|]. rewrite Forall_forall in *. intros r [_ Hr]%list_elem_of_filter. auto. }
  assert (compaction full full) as Hcomp by (split; [done|]; intros ? ? ? -> _; set_solver).
  destruct (decide (stored < cm_Offset r)) as [Ho|Ho].
  { left. exists r. split_and!; [rewrite Hfull; set_solver|done|done]. }
  right. destruct (replay_compacted full full ∅ k (fun o => o <= n) Hs Hcomp) as [Hnew _].
  rewrite (Hnew _ _ _ Hfull Hk Hl2), Hfull, <- Hk by lia. symmetry. by apply replay_last.
Qed.

(** ** Lemmas on tables *)

(** The signal of a table without observers, as [newPartitionTable] creates it. *)
Record table_signal (s : Signal) : Prop := {
  tsg_wf : signal_wf s;
  tsg_obs : sig_observers s = [];
  tsg_allowed : forall st, 0 <= st <= 5 -> is_allowed s st = true
}.

Lemma SetState_ok pick st s :
  table_signal s -> 0 <= st <= 5 ->
  exists s', Signal_SetState pick st s = Ret s' /\ table_signal s' /\ sig_state s' = st.
Proof.
  intros [W Hobs Hall] Hst.
  destruct (SetState_quiet pick st s W Hobs (Hall st Hst)) as (s' & Hs' & W' & Ho' & Ha' & Hst').
  exists s'. split_and!; [done| |done]. constructor; [done|done|].
  unfold is_allowed. rewrite Ha'. apply Hall.
Qed.

Section facts.
Context {S I : Type} `{SL : StorageLaws S I}.

Lemma enqueue_shape skip u (p : PartitionTable S) :
  exists us, enqueueStatsUpdate skip u p = pt_set_updates us p.
Proof.
  unfold enqueueStatsUpdate. destruct skip; [|destruct (_ <? _)%nat]; eauto;
    exists (pt_updateStats p); by destruct p.
Qed.

(** Storing a record updates the contents and then the offset. *)
Lemma storeEvent_ok k v o h (st : storageProxy S) :
  sp_update st = DefaultUpdate -> st_ok (sp_Storage st) -> ~ st_reserved k -> in_int64 o ->
  exists s', storeEvent k v o h st = (None, sp_set s' st) /\ st_ok s' /\
    st_contents s' = apply_kv k v (st_contents (sp_Storage st)) /\
    (0 < o -> st_offset s' = Some o) /\
    (st_unrecovered (sp_Storage st) -> st_unrecovered s').
Proof.
  intros Hup Hok Hk Ho. unfold storeEvent, proxy_Update. rewrite Hup.
  destruct (DefaultUpdate_spec
    (mkUpdateContext (sp_topic st) k (sp_partition st) o v h []) (sp_Storage st) Hok Hk)
    as (s1 & -> & Hok1 & Hc1 & _ & Hu1). simpl.
  destruct (law_SetOffset s1 o Hok1 Ho) as (s2 & -> & Hok2 & Hc2 & Ho2 & Hu2).
  exists s2. split_and!; [done|done|by rewrite Hc2| |auto].
  intros Hpos. by apply Ho2, law_offset_pos.
Qed.

(** The hypotheses under which a record can be stored. *)
Definition storable (r : ConsumerMessage) : Prop :=
  ~ st_reserved (string_of_bytes (cm_Key r)) /\ in_int64 (cm_Offset r).

(** [loadMessages] consumes every event that does not end it, storing the messages in order. *)
Lemma loadMessages_run evs1 evs2 hwm stop now (p : PartitionTable S) st :
  pt_st p = Some st -> sp_update st = DefaultUpdate -> st_ok (sp_Storage st) ->
  sig_state (pt_state p) <> PartitionRunning \/ stop = false ->
  Forall (fun e => ev_quiet e = true) evs1 -> Forall storable (ev_msgs evs1) ->
  Forall (fun r => stop = false \/ cm_Offset r < int64 (hwm - 1)) (ev_msgs evs1) ->
  exists s' now' us,
    loadMessages (evs1 ++ evs2) hwm stop now p =
      loadMessages evs2 hwm stop now' (pt_set_updates us (pt_set_st (Some (sp_set s' st)) p)) /\
    st_ok s' /\ st_contents s' = replay (ev_msgs evs1) (st_contents (sp_Storage st)) /\
    (forall m, last (ev_msgs evs1) = Some m -> 0 < cm_Offset m -> st_offset s' = Some (cm_Offset m)) /\
    (ev_msgs evs1 = [] -> st_offset s' = st_offset (sp_Storage st)) /\
    (st_unrecovered (sp_Storage st) -> st_unrecovered s').
Proof.
  revert now p st. induction evs1 as [|e evs1 IH]; intros now p st Hst Hup Hok Hrun Hq Hsto Hlt.
  { exists (sp_Storage st), now, (pt_updateStats p). split_and!; try done. simpl. f_equal.
    destruct p; simpl in *. subst. by destruct st. }
  apply Forall_cons in Hq as [He Hq]. destruct e as [[r|] t k1 k2| |t k|]; simpl in He; try done.
  - csimpl in *. apply Forall_cons in Hsto as [[Hkey Hi] Hsto]. apply Forall_cons in Hlt as [Hr Hlt].
    assert (Signal_IsState PartitionRunning (pt_state p) && stop = false) as ->.
    { destruct Hrun as [Hrun| ->]; [|apply andb_false_r].
      unfold Signal_IsState. by rewrite (proj2 (Z.eqb_neq _ _) Hrun). }
    unfold with_st. rewrite Hst.
    destruct (storeEvent_ok (string_of_bytes (cm_Key r)) (cm_Value r) (cm_Offset r) (FromSarama (cm_Headers r)) st
      Hup Hok Hkey Hi) as (s1 & -> & Hok1 & Hc1 & Ho1 & Hu1).
    assert (stop && (int64 (hwm - 1) <=? cm_Offset r) = false) as ->.
    { destruct Hr as [->|Hr]; [done|]. rewrite (proj2 (Z.leb_gt _ _) Hr). apply andb_false_r. }
    set (p1 := pt_set_st (Some (sp_set s1 st)) p).
    assert (exists us, enqueueStatsUpdate k2 (UTrackIncoming r)
      (if stop then enqueueStatsUpdate k1 (URecoveryOffset (cm_Offset r)) p1 else p1) = pt_set_updates us p1)
      as [us ->].
    { destruct (enqueue_shape k1 (URecoveryOffset (cm_Offset r)) p1) as [us1 E1].
      destruct stop; [rewrite E1; destruct (enqueue_shape k2 (UTrackIncoming r) (pt_set_updates us1 p1)) as [us2 ->]|
        destruct (enqueue_shape k2 (UTrackIncoming r) p1) as [us2 ->]]; by exists us2. }
    destruct (IH t (pt_set_updates us p1) (sp_set s1 st)) as (s' & now' & us' & -> & Hok' & Hc' & Ho' & Hn' & Hu');
      try done.
    exists s', now', us'. split_and!; [done|done|by rewrite Hc', <- Hc1| |done|auto].
    intros m Hm Hpos. rewrite last_cons in Hm. destruct (last (ev_msgs evs1)) as [m'|] eqn:El.
    + simplify_eq. by apply Ho'.
    + simplify_eq. apply last_None in El. rewrite Hn' by done. by apply Ho1.
  - csimpl in *. by apply IH.
  - csimpl in *. simpl.
    assert (exists us, (if pt_stalledTimeout p <? time_Sub t now then enqueueStatsUpdate k UStalled p else p)
      = pt_set_updates us p) as [us ->].
    { destruct (_ <? _); [apply enqueue_shape|]. exists (pt_updateStats p). by destruct p. }
    destruct (IH now (pt_set_updates us p) st) as (s' & now' & us' & -> & H'); try done. by exists s', now', us'.
Qed.

(** Ending the recovery of a table with a storage that has not been marked yet. *)
Lemma markRecovered_ok env (p : PartitionTable S) st :
  pt_st p = Some st -> table_signal (pt_state p) -> st_ok (sp_Storage st) -> st_unrecovered (sp_Storage st) ->
  (exists n rest, le_mark env = replicate n MTick ++ MDone :: rest) ->
  exists p' s', markRecovered env p = Ret (None, p') /\ table_signal (pt_state p') /\
    sig_state (pt_state p') = PartitionRunning /\ pt_st p' = Some (sp_set s' st) /\ st_ok s' /\
    st_contents s' = st_contents (sp_Storage st) /\ st_offset s' = st_offset (sp_Storage st).
Proof.
  intros Hst Hsig Hok Hun (n & rest & Hmark). unfold markRecovered, pt_SetState.
  destruct (SetState_ok (le_pick env) PartitionPreparing _ Hsig) as (s1 & -> & Hs1 & _);
    [unfold PartitionPreparing; lia|]. simpl.
  destruct (enqueue_shape (le_skip env) (URecoveryTime (le_now env)) (pt_set_state s1 p)) as [us ->].
  unfold with_st. simpl. rewrite Hst. unfold proxy_MarkRecovered.
  destruct (law_MarkRecovered _ Hok Hun) as (s2 & -> & Hok2 & Hc2 & Ho2). simpl. rewrite Hmark. clear Hmark.
  induction n as [|n IH]; [|done]. simpl.
  destruct (SetState_ok (le_pick env) PartitionRunning s1 Hs1) as (s3 & E3 & Hs3 & Hst3);
    [unfold PartitionRunning; lia|]. unfold pt_SetState. simpl. rewrite E3. simpl.
  eexists _, s2. split_and!; [done|done|done|done|done|done|done].
Qed.
End facts.

(** The events up to a message and those after it. *)
Lemma ev_msgs_snoc evs l r :
  ev_msgs evs = l ++ [r] ->
  exists e1 t k1 k2 e2, evs = e1 ++ EvMsg (Some r) t k1 k2 :: e2 /\ ev_msgs e1 = l.
Proof.
  revert l. induction evs as [|e evs IH]; intros l H; csimpl in H; [by destruct l|].
  destruct e as [[m|] t k1 k2| |t k|].
  2-5: (destruct (IH l H) as (e1 & t' & k1' & k2' & e2 & -> & <-);
        (exists (EvMsg None t k1 k2 :: e1), t', k1', k2', e2; done) ||
        (exists (EvClosed :: e1), t', k1', k2', e2; done) ||
        (exists (EvTick t k :: e1), t', k1', k2', e2; done) ||
        (exists (EvCtxDone :: e1), t', k1', k2', e2; done)).
  destruct l as [|m' l]; simpl in H; injection H as -> H.
  - by exists [], t, k1, k2, evs.
  - destruct (IH l H) as (e1 & t' & k1' & k2' & e2 & -> & <-).
    by exists (EvMsg (Some m') t k1 k2 :: e1), t', k1', k2', e2.
Qed.

(** ** The setting of a recovery *)

Section recovery.
Context {S I : Type} `{SL : StorageLaws S I}.

(** Table [p] with the open storage of [st], which was never marked recovered, before [load]. *)
Record table_ready (p : PartitionTable S) (st : storageProxy S) : Prop := {
  tr_st : pt_st p = Some st;
  tr_update : sp_update st = DefaultUpdate;
  tr_ok : st_ok (sp_Storage st);
  tr_unrecovered : st_unrecovered (sp_Storage st);
  tr_signal : table_signal (pt_state p)
}.

(** The stored offset of a table. *)
Definition stored_offset (st : storageProxy S) : Z := default offsetNotStored (st_offset (sp_Storage st)).

(** Kafka's view of the partition: the log [full] in offset order up to [hwm], of which [l] is
    left from [oldest] on after compaction. *)
Record kafka_log (full l : list ConsumerMessage) (oldest hwm : Z) : Prop := {
  kl_sorted : log_sorted full;
  kl_compaction : compaction full l;
  kl_range : forall r, r ∈ full -> 0 <= cm_Offset r < hwm;
  kl_oldest : 0 <= oldest /\ forall r, r ∈ l -> oldest <= cm_Offset r;
  kl_hwm : 0 <= hwm < 2 ^ 63;
  kl_last : oldest < hwm -> exists r, r ∈ l /\ cm_Offset r = hwm - 1;
  kl_keys : forall r, r ∈ l -> ~ st_reserved (string_of_bytes (cm_Key r))
}.

(** Kafka and the consumer serve the partition of [p] without errors: the topic manager knows the oldest
    offset and the high watermark, a consumer opened at an offset in between receives the records of the
    partition from that offset on (and nil messages and ticks), and marking the storage as recovered
    ends. *)
Record undisturbed (env : load_env) (p : PartitionTable S) (l : list ConsumerMessage) (oldest hwm : Z) : Prop := {
  ud_oldest : le_GetOffset env (pt_topic p) (pt_partition p) OffsetOldest = Ok oldest;
  ud_hwm : le_GetOffset env (pt_topic p) (pt_partition p) OffsetNewest = Ok hwm;
  ud_consume : forall o, oldest <= o <= hwm -> exists evs rest,
    le_consume env (pt_topic p) (pt_partition p) o = Ok (evs ++ rest) /\
    Forall (fun e => ev_quiet e = true) evs /\ ev_msgs evs = filter (fun r => o <= cm_Offset r) l;
  ud_cons : le_cons env = [];
  ud_drain : le_drain env = [];
  ud_mark : exists n rest, le_mark env = replicate n MTick ++ MDone :: rest
}.

Lemma log_start env p full l oldest hwm stored :
  kafka_log full l oldest hwm -> offsetNotStored <= stored < 2 ^ 63 - 1 ->
  le_GetOffset env (pt_topic p) (pt_partition p) OffsetOldest = Ok oldest ->
  le_GetOffset env (pt_topic p) (pt_partition p) OffsetNewest = Ok hwm ->
  let start := if stored =? offsetNotStored then oldest else int64 (stored + 1) in
  let start := if start <? oldest then oldest else start in
  findOffsetToLoad (S := S) env stored p = Ok (start, hwm) /\
  stored < start /\ oldest <= start /\ (start <= stored + 1 \/ start = oldest).
Proof.
  intros [_ _ _ [Ho _] _ _ _] Hst HO HH start start'. unfold findOffsetToLoad. rewrite HO, HH. split; [done|].
  unfold start', start, offsetNotStored in *. rewrite int64_id by (unfold in_int64; lia).
  clear start start'.
  destruct (stored =? -3) eqn:E; simp_bool; destruct (_ <? _) eqn:E2; simp_bool; lia.
Qed.

(** What is read from the start offset on are the records after the stored offset. *)
Lemma filter_start full l oldest hwm stored start :
  kafka_log full l oldest hwm -> stored < start -> start <= stored + 1 \/ start = oldest ->
  filter (fun r => start <= cm_Offset r) l = filter (fun r => stored < cm_Offset r) l.
Proof.
  intros Hlog Hlt Hcase. pose proof (kl_oldest _ _ _ _ Hlog) as [_ Hold]. apply filter_ext_in.
  intros r Hr. specialize (Hold r Hr). lia.
Qed.

(** The last record that is still to be loaded ends the recovery. *)
Lemma log_tail full l oldest hwm stored :
  kafka_log full l oldest hwm -> stored < hwm - 1 -> oldest < hwm ->
  exists l1 r, filter (fun r => stored < cm_Offset r) l = l1 ++ [r] /\ cm_Offset r = hwm - 1 /\
    Forall (fun r => cm_Offset r < hwm - 1) l1.
Proof.
  intros [Hs [Hsub _] Hrange _ _ Hlast _] Hst Hold. destruct (Hlast Hold) as (r & Hr & Hoff).
  pose proof (StronglySorted_sublist _ _ _ Hsub Hs) as Hsl.
  destruct (list_elem_of_split l r Hr) as (a & b & Hl). subst l.
  destruct (log_sorted_app _ _ _ Hsl) as [Ha Hb].
  assert (b = []) as ->.
  { destruct b as [|x b]; [done|]. apply Forall_cons in Hb as [Hx _].
    assert (cm_Offset x < hwm); [|lia]. apply Hrange. eapply elem_of_sublist; [|exact Hsub].
    apply elem_of_app. right. right. left. }
  rewrite filter_app, filter_cons_True by lia. eexists _, r. split_and!; [done|done|].
  rewrite Forall_forall in *. intros x [_ Hx]%list_elem_of_filter. rewrite <- Hoff. by apply Ha.
Qed.

(** A running table reads its storage. *)
Lemma running_Get (p : PartitionTable S) st k :
  sig_state (pt_state p) = PartitionRunning -> pt_st p = Some st -> st_ok (sp_Storage st) -> ~ st_reserved k ->
  table_Get k p = Ret (Ok (st_contents (sp_Storage st) !! k)).
Proof.
  intros Hrun Hst Hok Hk. unfold table_Get, guarded, readyToRead, CurrentState, Signal_State, with_st.
  rewrite Hrun, Hst. simpl. by rewrite law_Get.
Qed.

(** The consuming part of a recovery that is not disturbed. *)
Lemma loadMessages_recovers full l oldest hwm stored now evs rest (p : PartitionTable S) st :
  pt_st p = Some st -> sp_update st = DefaultUpdate -> st_ok (sp_Storage st) ->
  sig_state (pt_state p) = PartitionRecovering -> kafka_log full l oldest hwm ->
  stored < hwm - 1 -> oldest < hwm ->
  Forall (fun e => ev_quiet e = true) evs -> ev_msgs evs = filter (fun r => stored < cm_Offset r) l ->
  exists s' us, loadMessages (evs ++ rest) hwm true now p =
      Ret (None, pt_set_updates us (pt_set_st (Some (sp_set s' st)) p)) /\
    st_ok s' /\ st_contents s' = replay (ev_msgs evs) (st_contents (sp_Storage st)) /\
    (st_unrecovered (sp_Storage st) -> st_unrecovered s').
Proof.
  intros Hst Hup Hok Hrec Hlog Hs Ho Hq Hm.
  destruct (log_tail full l oldest hwm stored Hlog Hs Ho) as (l1 & r & Hl & Hoff & Hl1).
  destruct (ev_msgs_snoc evs l1 r) as (e1 & t & k1 & k2 & e2 & -> & He1); [congruence|].
  assert (Forall storable (ev_msgs (e1 ++ EvMsg (Some r) t k1 k2 :: e2))) as Hsto.
  { rewrite Hm, Forall_forall. intros x [_ Hx]%list_elem_of_filter. split; [by apply Hlog|].
    destruct Hlog as [_ [Hsub _] Hr _ Hh _ _]. specialize (Hr x (elem_of_sublist _ _ _ Hx Hsub)).
    unfold in_int64. lia. }
  assert (ev_msgs (e1 ++ EvMsg (Some r) t k1 k2 :: e2) = l1 ++ [r]) as Hm' by congruence.
  rewrite Hm' in Hsto. apply Forall_app in Hsto as [Hsto1 Hsto2].
  apply Forall_cons in Hsto2 as [[Hkey Hi] _]. apply Forall_app in Hq as [Hq1 _].
  rewrite <- app_assoc. simpl. pose proof (kl_hwm _ _ _ _ Hlog) as Hh.
  assert (int64 (hwm - 1) = hwm - 1) as Hi64 by (apply int64_id; unfold in_int64; lia).
  destruct (loadMessages_run e1 (EvMsg (Some r) t k1 k2 :: e2 ++ rest) hwm true now p st)
    as (s1 & now' & us & -> & Hok1 & Hc1 & _ & _ & Hu1); try done.
  { left. rewrite Hrec. done. }
  { by rewrite He1. }
  { rewrite He1, Forall_forall in *. intros x Hx. right. rewrite Hi64. by apply Hl1. }
  simpl. unfold Signal_IsState, with_st. simpl. rewrite Hrec. simpl.
  destruct (storeEvent_ok (string_of_bytes (cm_Key r)) (cm_Value r) (cm_Offset r) (FromSarama (cm_Headers r))
    (sp_set s1 st) Hup Hok1 Hkey Hi) as (s2 & -> & Hok2 & Hc2 & _ & Hu2).
  rewrite Hi64, Hoff, (proj2 (Z.leb_le _ _)) by lia. simpl.
  set (p1 := pt_set_st _ _).
  destruct (enqueue_shape k1 (URecoveryOffset (hwm - 1)) p1) as [us1 ->].
  destruct (enqueue_shape k2 (UTrackIncoming r) (pt_set_updates us1 p1)) as [us2 ->].
  exists s2, us2. split_and!; [done|done| |auto].
  rewrite Hc2, Hm', replay_app. simpl in *. by rewrite Hc1, He1.
Qed.
End recovery.
