(* ===== verification/Recovery.v ===== *)
(** * Recovery of partition tables

    The properties of [partition_table.go], proved for every storage that meets the laws of the
    interface, with instances over the in-memory storage and LevelDB. *)
From Stdlib Require Import ZArith Lia.
From stdpp Require Import base gmap strings list sorting.
From S2P Require Import Prelude Multierr Signal Storage Memory LevelDB Headers Stats Proxy PartitionTable.
Open Scope Z_scope.

(** ** Recovery *)

(** Undisturbed recovery, for every storage. *)
Lemma load_undisturbed {S I} `{StorageLaws S I} (env : load_env) (p : PartitionTable S) (st : storageProxy S)
    (full l : list ConsumerMessage) (oldest hwm : Z) :
  table_ready p st -> kafka_log full l oldest hwm -> undisturbed env p l oldest hwm ->
  offsetNotStored <= stored_offset st < 2 ^ 63 - 1 -> ~ (0 < stored_offset st /\ hwm = 0) ->
  reflects full (stored_offset st) (st_contents (sp_Storage st)) ->
  exists p' s', load env true p = Ret (None, p') /\ CurrentState p' = PartitionRunning /\
    pt_st p' = Some (sp_set s' st) /\ st_ok s' /\ st_contents s' = replay full ∅ /\
    forall k, ~ st_reserved k -> table_Get k p' = Ret (Ok (replay full ∅ !! k)).
Proof.
  intros [Hst Hup Hok Hun Hsig] Hlog [HO HH HC HCE HD HM] Hrng Hgone Hcont.
  assert (replay (filter (fun r => stored_offset st < cm_Offset r) l) (st_contents (sp_Storage st)) = replay full ∅)
    as Hfin by (apply replay_resume; [apply Hlog|apply Hlog|done]).
  unfold load, pt_SetState.
  destruct (SetState_ok (le_pick env) PartitionConnecting _ Hsig) as (s1 & -> & Hs1 & _);
    [unfold PartitionConnecting; lia|].
  simpl. unfold with_st. simpl. rewrite Hst, law_GetOffset by done. fold (stored_offset st).
  destruct (log_start env (pt_set_state s1 p) full l oldest hwm _ Hlog Hrng HO HH) as (-> & Hlt & Hge & Hcase).
  set (start := if _ <? _ then _ else _) in *.
  assert ((0 <? stored_offset st) && (hwm =? 0) = false) as -> by (apply andb_false_iff;
    destruct (Z.ltb_spec 0 (stored_offset st)); [right; apply Z.eqb_neq; lia|by left]).
  destruct (enqueue_shape (le_skip env)
    (USetRecovery (le_now env) hwm (if hwm <=? stored_offset st then hwm else start)) (pt_set_state s1 p)) as [us ->].
  destruct (hwm <=? (if hwm <=? stored_offset st then hwm else start)) eqn:Edone; simpl.
  - destruct (markRecovered_ok env (pt_set_updates us (pt_set_state s1 p)) st Hst Hs1 Hok Hun HM)
      as (p' & s' & -> & Hsg' & Hrun & Hst' & Hok' & Hc' & _). simpl.
    assert (st_contents s' = replay full ∅) as Hc.
    { rewrite Hc', <- Hfin. replace (filter _ l) with (@nil ConsumerMessage); [done|]. symmetry.
      apply filter_none. intros r Hr.
      pose proof (kl_oldest _ _ _ _ Hlog) as [_ Hold]. specialize (Hold r Hr).
      pose proof (kl_range _ _ _ _ Hlog r (elem_of_sublist _ _ _ Hr (cp_sub _ _ (kl_compaction _ _ _ _ Hlog)))).
      destruct (hwm <=? stored_offset st) eqn:E; simp_bool; lia. }
    exists p', s'. split_and!; try done. intros k Hk. rewrite (running_Get _ (sp_set s' st)) by done.
    simpl. by rewrite Hc.
  - destruct (hwm <=? stored_offset st) eqn:E; simp_bool; [lia|].
    destruct (HC start) as (evs & rest & -> & Hq & Hmsgs); [lia|].
    rewrite (filter_start full l oldest hwm (stored_offset st)) in Hmsgs by done.
    destruct (SetState_ok (le_pick env) PartitionRecovering s1 Hs1) as (s2 & -> & Hs2 & Hst2);
      [unfold PartitionRecovering; lia|]. simpl.
    destruct (loadMessages_recovers full l oldest hwm (stored_offset st) (le_now env) evs rest
      (pt_set_state s2 (pt_set_updates us (pt_set_state s1 p))) st)
      as (s3 & us3 & -> & Hok3 & Hc3 & Hu3); [done|done|done|done|done|lia|lia|done|done|].
    simpl. set (p3 := pt_set_updates us3 _).
    destruct (markRecovered_ok env p3 (sp_set s3 st) eq_refl Hs2 Hok3 (Hu3 Hun) HM)
      as (p' & s' & -> & Hsg' & Hrun & Hst' & Hok' & Hc' & _). simpl.
    destruct (enqueue_shape (le_skip env) (URecoveryTime (le_now env)) p') as [us4 ->].
    rewrite HCE, HD. simpl.
    assert (st_contents s' = replay full ∅) as Hc by (rewrite Hc'; simpl; by rewrite Hc3, Hmsgs).
    eexists _, s'. split_and!; try done. intros k Hk. rewrite (running_Get _ (sp_set s' st)) by done.
    simpl. by rewrite Hc.
Qed.

(** ** Properties *)

(** C1. Recovery is correct: given the log of a table partition, of which Kafka's compaction may have
    removed any record but the last one of a key, and local contents that are right for every key
    without a record after the stored offset (which is what interrupted recoveries and crashes leave,
    see [reflects_load] and [reflects_ahead]), [load] with [stopAfterCatchup] returns without error, the
    table is running, and its contents are those of the whole log, which is what [Get] then reads.  The
    consumer delivers from the offset that [load] asks for, and Kafka and the consumer report no
    errors; the topic must not be empty if an offset above 0 is stored. *)
Theorem load_recovers {S I} `{StorageLaws S I} (env : load_env) (p : PartitionTable S) (st : storageProxy S)
    (full l : list ConsumerMessage) (oldest hwm : Z) :
  table_ready p st -> kafka_log full l oldest hwm -> undisturbed env p l oldest hwm ->
  offsetNotStored <= stored_offset st < 2 ^ 63 - 1 -> ~ (0 < stored_offset st /\ hwm = 0) ->
  reflects full (stored_offset st) (st_contents (sp_Storage st)) ->
  exists p' s', load env true p = Ret (None, p') /\ CurrentState p' = PartitionRunning /\
    pt_st p' = Some (sp_set s' st) /\ st_ok s' /\ st_contents s' = replay full ∅ /\
    forall k, ~ st_reserved k -> table_Get k p' = Ret (Ok (replay full ∅ !! k)).
Proof. apply load_undisturbed. Qed.

(** A table as [newPartitionTable] creates it, with an open storage. *)
Definition table_signal0 : Signal := NewSignal [0; 1; 2; 3; 4; 5].

Definition demo_table {S} (u : UpdateCallback S) (s : S) : PartitionTable S :=
  let '(ts, h) := newTableStats empty_heap in
  mkPT "table" 0 table_signal0 (Some (mkProxy s "table" 0 false u None None)) u ts h [] defaultStalledTimeout.

Lemma table_signal0_ok : table_signal table_signal0.
Proof.
  constructor; [apply NewSignal_wf|done|]. intros st Hst.
  assert (st = 0 \/ st = 1 \/ st = 2 \/ st = 3 \/ st = 4 \/ st = 5) as Hc by lia.
  repeat destruct Hc as [->|Hc]; try done. by subst.
Qed.

(** A new table starts with that signal, stopped and without a storage. *)
Lemma newPartitionTable_ok {S} topic partition (u : UpdateCallback S) h :
  exists p, newPartitionTable topic partition u h = Ret p /\ table_signal (pt_state p) /\
    CurrentState p = PartitionStopped /\ pt_st p = None.
Proof.
  unfold newPartitionTable. change newPartitionTableState with (Ret table_signal0). simpl.
  eexists. split_and!; [done|apply table_signal0_ok|done|done].
Qed.

(** The log a=1, b=2, a=3, delete b, of which the last two records are left. *)
Definition rec_msg (k : string) (v : bytes) (o : Z) : ConsumerMessage := mkMsg "table" 0 (Some k) v o [] None.
Definition demo_full : list ConsumerMessage :=
  [rec_msg "a" (Some "1"%string) 0; rec_msg "b" (Some "2"%string) 1;
   rec_msg "a" (Some "3"%string) 2; rec_msg "b" None 3].
Definition demo_log : list ConsumerMessage := [rec_msg "a" (Some "3"%string) 2; rec_msg "b" None 3].

(** A broker that has the records [l] of one partition, from the offset [oldest] up to [hwm]. *)
Definition kafka_offsets (topic : string) (partition oldest hwm : Z) (t : string) (pt time : Z) : res Z :=
  if String.eqb t topic && (pt =? partition) then
    if time =? OffsetOldest then Ok oldest
    else if time =? OffsetNewest then Ok hwm
    else Err (ErrNew "kafka server: The requested offset is outside the range of offsets")
  else Err (ErrNew "kafka server: Request was for a topic or partition that does not exist on this broker").

Definition kafka_consume (topic : string) (partition : Z) (l : list ConsumerMessage) (oldest hwm : Z) (t : string) (pt o : Z)
  : res (list load_event) :=
  if String.eqb t topic && (pt =? partition) then
    if (oldest <=? o) && (o <=? hwm)
    then Ok ((fun r => EvMsg (Some r) 0 false false) <$> filter (fun r => o <= cm_Offset r) l)
    else Err (ErrNew "kafka server: The requested offset is outside the range of offsets")
  else Err (ErrNew "kafka server: Request was for a topic or partition that does not exist on this broker").

Definition kafka_env (topic : string) (partition : Z) (l : list ConsumerMessage) (oldest hwm : Z) : load_env :=
  mkLoadEnv (kafka_offsets topic partition oldest hwm) (kafka_consume topic partition l oldest hwm)
    [] [] [MDone] 0 false (fun _ => false).

Lemma kafka_env_undisturbed {S} (p : PartitionTable S) l oldest hwm :
  undisturbed (kafka_env (pt_topic p) (pt_partition p) l oldest hwm) p l oldest hwm.
Proof.
  constructor; simpl; unfold kafka_offsets, kafka_consume; rewrite ?String.eqb_refl, ?Z.eqb_refl; try done; [|by exists 0%nat, []].
  intros o Ho. rewrite !(proj2 (Z.leb_le _ _)) by lia. simpl. eexists _, []. split_and!; [by rewrite app_nil_r| |].
  - by apply Forall_fmap, Forall_forall.
  - induction (filter _ l) as [|r rs IH]; [done|]. unfold ev_msgs in *. csimpl. by rewrite IH.
Qed.

(** The consumer of the partition receives the given events. *)
Definition demo_env (evs : list load_event) (cons : list cons_event) : load_env :=
  mkLoadEnv (kafka_offsets "table" 0 2 4) (fun _ _ _ => Ok evs) cons [] [MDone] 0 false (fun _ => false).

Lemma demo_compaction : compaction demo_full demo_log.
Proof.
  split; [by repeat constructor|]. intros l1 r l2 E HF.
  unfold demo_full, demo_log in *.
  destruct l1 as [|? [|? [|? [|? [|? ?]]]]]; simplify_eq/=; try set_solver;
    rewrite !Forall_cons in HF; naive_solver.
Qed.

Lemma demo_kafka_log BPL :
  kafka_log (H := _) (SL := memory_Laws BPL) demo_full demo_log 2 4.
Proof.
  constructor.
  - unfold log_sorted, demo_full. repeat (constructor; simpl); lia.
  - apply demo_compaction.
  - intros r Hr. repeat (apply elem_of_cons in Hr as [->|Hr]; [simpl; lia|]). by apply not_elem_of_nil in Hr.
  - split; [lia|]. intros r Hr. repeat (apply elem_of_cons in Hr as [->|Hr]; [simpl; lia|]). by apply not_elem_of_nil in Hr.
  - lia.
  - intros _. exists (rec_msg "b" None 3). split; [set_solver|done].
  - intros r _ [].
Qed.

(** The contents at offset 1. *)
Definition demo_memory : memory := mkMemory ["a"; "b"]%string {["a" := "1"; "b" := "2"]}%string (Some 1) false.

Lemma demo_memory_wf : memory_wf demo_memory.
Proof.
  constructor.
  - apply Sorted_le_lt; [repeat constructor|repeat constructor; set_solver].
  - intros k. unfold demo_memory. cbn [mem_keys mem_storage]. destruct (decide (k = "a"%string)) as [->|Ha]; [|destruct (decide (k = "b"%string)) as [->|Hb]].
    + split; [by eexists; vm_compute|set_solver].
    + split; [by eexists; vm_compute|set_solver].
    + rewrite lookup_insert_ne, lookup_singleton_ne by done. split; [set_solver|by intros []].
Qed.

Lemma demo_reflects : reflects demo_full 1 (mem_storage demo_memory).
Proof.
  assert (mem_storage demo_memory = replay (filter (fun r => cm_Offset r <= 1) demo_full) ∅) as -> by (by vm_compute).
  apply reflects_ahead; [|lia]. unfold log_sorted, demo_full. repeat (constructor; simpl); lia.
Qed.

Lemma demo_table_ready BPL :
  table_ready (SL := memory_Laws BPL) (demo_table (@DefaultUpdate _ _ (memory_Storage BPL)) demo_memory)
    (mkProxy demo_memory "table" 0 false (@DefaultUpdate _ _ (memory_Storage BPL)) None None).
Proof. constructor; [done|done|apply demo_memory_wf|done|apply table_signal0_ok]. Qed.

Lemma load_recovers_witness :
  let BPL := fun b : bytes => b in
  let u := @DefaultUpdate _ _ (memory_Storage BPL) in
  exists p' : PartitionTable memory,
    load (ST := memory_Storage BPL)
      (kafka_env "table" 0 demo_log 2 4) true (demo_table u demo_memory)
      = Ret (None, p') /\ CurrentState p' = PartitionRunning /\
    table_Get (ST := memory_Storage BPL) "b" p' = Ret (Ok None).
Proof.
  intros BPL u.
  destruct (load_recovers (H0 := memory_Laws BPL)
    (kafka_env "table" 0 demo_log 2 4) (demo_table u demo_memory)
    (mkProxy demo_memory "table" 0 false u None None) demo_full demo_log 2 4)
    as (p' & s' & Hl & Hr & _ & _ & _ & Hg).
  - apply demo_table_ready.
  - apply demo_kafka_log.
  - apply (kafka_env_undisturbed (demo_table u demo_memory)).
  - split; [by vm_compute|by vm_compute].
  - vm_compute. by intros [_ ?].
  - exact demo_reflects.
  - exists p'. split_and!; [exact Hl|exact Hr|]. rewrite Hg by (by intros []). by vm_compute.
Defined.

(** If the message channel of the consumer closes during the recovery, before the high watermark
    is reached, [load] nevertheless marks the table as recovered: its state is running although it
    holds only the records received so far.  The errors of the consumer, if any, are returned. *)
Theorem load_closed_early_marks_recovered {S I} `{StorageLaws S I} (env : load_env) (p : PartitionTable S)
    (st : storageProxy S) (oldest hwm : Z) (evs rest : list load_event) :
  table_ready p st -> le_GetOffset env (pt_topic p) (pt_partition p) OffsetOldest = Ok oldest ->
  le_GetOffset env (pt_topic p) (pt_partition p) OffsetNewest = Ok hwm ->
  0 <= oldest < hwm -> hwm < 2 ^ 63 -> offsetNotStored <= stored_offset st < hwm - 1 ->
  (forall o, le_consume env (pt_topic p) (pt_partition p) o = Ok (evs ++ EvClosed :: rest)) -> Forall (fun e => ev_quiet e = true) evs ->
  Forall storable (ev_msgs evs) -> Forall (fun r => cm_Offset r < hwm - 1) (ev_msgs evs) ->
  (exists n rest, le_mark env = replicate n MTick ++ MDone :: rest) ->
  exists p' s', load env true p =
      Ret (Errors_NilOrError (drainConsumer (le_drain env) (handleConsumerErrors (le_cons env) new_Errors)), p') /\
    CurrentState p' = PartitionRunning /\ pt_st p' = Some (sp_set s' st) /\
    st_contents s' = replay (ev_msgs evs) (st_contents (sp_Storage st)).
Proof.
  intros [Hst Hup Hok Hun Hsig] HO HH Hold Hh Hs HC Hq Hsto Hlt HM.
  unfold load, pt_SetState.
  destruct (SetState_ok (le_pick env) PartitionConnecting _ Hsig) as (s1 & -> & Hs1 & _);
    [unfold PartitionConnecting; lia|].
  simpl. unfold with_st. simpl. rewrite Hst, law_GetOffset by done. fold (stored_offset st).
  unfold findOffsetToLoad. simpl. rewrite HO, HH. set (start := if _ <? oldest then _ else _).
  assert (start < hwm) as Hstart.
  { unfold start. rewrite int64_id by (unfold in_int64, offsetNotStored in *; lia).
    clear start. destruct (_ =? _); destruct (_ <? _); lia. }
  rewrite (proj2 (Z.eqb_neq hwm 0)), andb_false_r by lia.
  destruct (enqueue_shape (le_skip env)
    (USetRecovery (le_now env) hwm (if hwm <=? stored_offset st then hwm else start)) (pt_set_state s1 p)) as [us ->].
  rewrite (proj2 (Z.leb_gt hwm (stored_offset st))), (proj2 (Z.leb_gt hwm start)) by lia. simpl. rewrite HC.
  destruct (SetState_ok (le_pick env) PartitionRecovering s1 Hs1) as (s2 & -> & Hs2 & Hst2);
    [unfold PartitionRecovering; lia|]. simpl.
  destruct (loadMessages_run evs (EvClosed :: rest) hwm true (le_now env)
    (pt_set_state s2 (pt_set_updates us (pt_set_state s1 p))) st)
    as (s3 & now' & us3 & -> & Hok3 & Hc3 & _ & _ & Hu3); try done.
  { left. simpl. by rewrite Hst2. }
  { rewrite int64_id by (unfold in_int64; lia). eapply Forall_impl; [exact Hlt|]. by right. }
  simpl. set (p3 := pt_set_updates us3 _).
  destruct (markRecovered_ok env p3 (sp_set s3 st) eq_refl Hs2 Hok3 (Hu3 Hun) HM)
    as (p' & s' & -> & Hsg' & Hrun & Hst' & Hok' & Hc' & _). simpl.
  destruct (enqueue_shape (le_skip env) (URecoveryTime (le_now env)) p') as [us4 ->].
  eexists _, s'. split_and!; [done|done|done|by rewrite Hc'].
Qed.

Definition early_env : load_env :=
  demo_env [EvMsg (Some (rec_msg "a" (Some "3"%string) 2)) 0 false false; EvClosed] [CErr (ErrNew "broker gone"); CClosed].

Lemma load_closed_early_marks_recovered_witness :
  let BPL := fun b : bytes => b in
  let u := @DefaultUpdate _ _ (memory_Storage BPL) in
  exists p' : PartitionTable memory,
    load (ST := memory_Storage BPL) early_env true (demo_table u demo_memory) =
      Ret (Some (ErrMulti [ErrWrap "Consumer error" (ErrNew "broker gone")]), p') /\
    CurrentState p' = PartitionRunning.
Proof.
  intros BPL u.
  destruct (load_closed_early_marks_recovered (H0 := memory_Laws BPL) early_env (demo_table u demo_memory)
    (mkProxy demo_memory "table" 0 false u None None) 2 4
    [EvMsg (Some (rec_msg "a" (Some "3"%string) 2)) 0 false false] []) as (p' & s' & Hl & Hr & _).
  - apply demo_table_ready.
  - done.
  - done.
  - lia.
  - lia.
  - split; [by vm_compute|by vm_compute].
  - done.
  - by repeat constructor.
  - constructor; [|constructor]. split; [intros []|unfold in_int64; simpl; lia].
  - constructor; [simpl; lia|constructor].
  - by exists 0%nat, [].
  - exists p'. split; [exact Hl|exact Hr].
Defined.

(** With a LevelDB storage this ends in a crash: the recovery is retried after the consumer
    error, reaches the high watermark and marks the storage as recovered a second time, which closes
    a closed channel. *)
Theorem restart_after_consumer_error_panics :
  loadRestarting Backoff_Duration Backoff_Reset
    [mkAttempt early_env false false;
     mkAttempt (demo_env [EvMsg (Some (rec_msg "b" None 3)) 0 false false] []) false false]
    true (NewSimpleBackoff second) (demo_table DefaultUpdate (storage_New (DB := gmap string string) ∅))
  = Panic close_of_closed_channel.
Proof. vm_cast_no_check (eq_refl (Panic (A := option error * simpleBackoff * PartitionTable (storage (gmap string string))) close_of_closed_channel)). Qed.

(** If Kafka reports an empty partition although the table has a stored offset above 0, [load]
    returns an error and neither the storage nor the recovered state is touched. *)
Theorem load_detects_lost_topic {S I} `{StorageLaws S I} (env : load_env) (stop : bool) (p : PartitionTable S)
    (st : storageProxy S) (oldest : Z) :
  table_ready p st -> le_GetOffset env (pt_topic p) (pt_partition p) OffsetOldest = Ok oldest ->
  le_GetOffset env (pt_topic p) (pt_partition p) OffsetNewest = Ok 0 -> 0 < stored_offset st ->
  exists p' e, load env stop p = Ret (Some e, p') /\ pt_st p' = pt_st p /\ CurrentState p' = PartitionConnecting.
Proof.
  intros [Hst Hup Hok Hun Hsig] HO HH Hpos. unfold load, pt_SetState.
  destruct (SetState_ok (le_pick env) PartitionConnecting _ Hsig) as (s1 & -> & Hs1 & Hst1);
    [unfold PartitionConnecting; lia|].
  simpl. unfold with_st. simpl. rewrite Hst, law_GetOffset by done. fold (stored_offset st).
  unfold findOffsetToLoad. simpl. rewrite HO, HH. simpl. rewrite (proj2 (Z.ltb_lt _ _) Hpos). simpl. eexists _, _. done.
Qed.

Lemma load_detects_lost_topic_witness :
  let BPL := fun b : bytes => b in
  let u := @DefaultUpdate _ _ (memory_Storage BPL) in
  exists (p' : PartitionTable memory) e,
    load (ST := memory_Storage BPL) (kafka_env "table" 0 [] 0 0)
      true (demo_table u demo_memory) = Ret (Some e, p') /\ CurrentState p' = PartitionConnecting.
Proof.
  intros BPL u.
  destruct (load_detects_lost_topic (H0 := memory_Laws BPL)
    (kafka_env "table" 0 [] 0 0) true (demo_table u demo_memory)
    (mkProxy demo_memory "table" 0 false u None None) 0) as (p' & e & Hl & _ & Hr).
  - apply demo_table_ready.
  - done.
  - done.
  - by vm_compute.
  - exists p', e. split; [exact Hl|exact Hr].
Defined.

(** [storeNewestOffset] never moves the stored offset backwards, and stores nothing in a table
    that has no offset yet. *)
Theorem storeNewestOffset_monotone {S I} `{StorageLaws S I} (o : Z) (p : PartitionTable S) (st : storageProxy S) :
  pt_st p = Some st -> st_ok (sp_Storage st) -> in_int64 o -> 0 < o ->
  exists p' s', storeNewestOffset o p = Ret (None, p') /\ pt_st p' = Some (sp_set s' st) /\
    st_contents s' = st_contents (sp_Storage st) /\
    st_offset s' = (if decide (stored_offset st <> offsetNotStored /\ stored_offset st <= o)
                    then Some o else st_offset (sp_Storage st)).
Proof.
  intros Hst Hok Ho Hpos. unfold storeNewestOffset, table_GetOffset, table_SetOffset, on_storage, with_st.
  rewrite Hst. cbn [mbind outcome_bind]. rewrite law_GetOffset by done. fold (stored_offset st).
  destruct (decide _) as [[Hne Hle]|Hno].
  - rewrite (proj2 (Z.eqb_neq _ _)), (proj2 (Z.leb_le _ _)) by done. simpl.
    destruct (law_SetOffset (sp_Storage st) o Hok Ho) as (s' & -> & _ & Hc & Hoff & _).
    eexists _, s'. split_and!; [done|done|done|]. by apply Hoff, law_offset_pos.
  - assert (negb (offsetNotStored =? stored_offset st) && (stored_offset st <=? o) = false) as ->.
    { destruct (offsetNotStored =? stored_offset st) eqn:E; [done|]. simp_bool. simpl. apply Z.leb_gt.
      destruct (Z_le_gt_dec (stored_offset st) o); [|lia]. exfalso. apply Hno. auto. }
    exists p, (sp_Storage st). split_and!; try done. rewrite Hst. by destruct st.
Qed.

Lemma storeNewestOffset_monotone_witness :
  let BPL := fun b : bytes => b in
  let u := @DefaultUpdate _ _ (memory_Storage BPL) in
  exists (p' : PartitionTable memory) s', storeNewestOffset (ST := memory_Storage BPL) 7 (demo_table u demo_memory)
    = Ret (None, p') /\ pt_st p' = Some s' /\ mem_offset (sp_Storage s') = Some 7.
Proof.
  intros BPL u.
  destruct (storeNewestOffset_monotone (H0 := memory_Laws BPL) 7 (demo_table u demo_memory)
    (mkProxy demo_memory "table" 0 false u None None)) as (p' & s' & Hl & Hst & _ & Hoff).
  - done.
  - apply demo_memory_wf.
  - unfold in_int64. lia.
  - lia.
  - eexists p', _. split_and!; [exact Hl|exact Hst|exact Hoff].
Defined.

(** A stats snapshot shares its input and write counters with the running table: the clones of
    [InputStats] and [OutputStats] return the pointer they are given, so a message tracked after the
    snapshot was taken changes the snapshot's count, while the recovery stats are a true copy. *)
Theorem stats_snapshot_aliases {S} (p : PartitionTable S) (now : Z) (msg : ConsumerMessage) (ip : InputStats) :
  tstats_ok (pt_stats p) (pt_heap p) -> h_in (pt_heap p) !! ts_Input (pt_stats p) = Some ip ->
  exists ts p1, handleStatsRequest p = Some (ts, p1) /\ ts_Status ts = CurrentState p /\
    let p2 := trackIncomingMessageStats now msg (run_update now (URecoveryOffset (cm_Offset msg)) p1) in
    (exists ip2, h_in (pt_heap p2) !! ts_Input ts = Some ip2 /\ is_Count ip2 = uint64 (is_Count ip + 1) /\
       is_LastOffset ip2 = cm_Offset msg) /\
    h_rec (pt_heap p2) !! ts_Recovery ts = h_rec (pt_heap p) !! ts_Recovery (pt_stats p).
Proof.
  intros [_ _ [r Hr] Hlt] Hip. unfold handleStatsRequest, TableStats_clone, RecoveryStats_clone. rewrite Hr. simpl.
  eexists _, _. split; [done|]. split; [done|]. simpl.
  rewrite lookup_insert_ne, Hr by lia. simpl. unfold trackIncomingMessageStats. simpl. rewrite Hip. simpl.
  split.
  - rewrite lookup_insert_eq. eexists. split; [done|]. done.
  - rewrite lookup_insert_ne by lia. by rewrite lookup_insert_eq.
Qed.

Lemma stats_snapshot_aliases_witness :
  let p := demo_table (S := unit) (fun _ s => (None, s)) tt in
  exists ts p1, handleStatsRequest p = Some (ts, p1) /\
    exists ip2, h_in (pt_heap (trackIncomingMessageStats 0 (rec_msg "a" None 5)
      (run_update 0 (URecoveryOffset 5) p1))) !! ts_Input ts = Some ip2 /\ is_Count ip2 = 1.
Proof.
  intros p. destruct (stats_snapshot_aliases p 0 (rec_msg "a" None 5) (mkInputStats 0 0 0 0 0))
    as (ts & p1 & Hreq & _ & (ip2 & Hin & Hc & _) & _).
  - eapply newTableStats_ok. done.
  - done.
  - exists ts, p1. split; [exact Hreq|]. exists ip2. split; [exact Hin|exact Hc].
Defined.
