(* ===== verification/Promise.v ===== *)
(** * Promises

    [promise.go].  Callbacks are identified by names; a run of the callbacks is the list of the
    calls that were made, in order. *)
From Stdlib Require Import ZArith Lia.
From stdpp Require Import base gmap strings list.
From S2P Require Import Prelude.
Open Scope Z_scope.

(** The fields of [sarama.ProducerMessage] that the code uses. *)
Record ProducerMessage : Type := mkPMsg { pm_Partition : Z; pm_Offset : Z }.

Section promise.
Context {CB : Type}.

(** A call [callback(msg, err)]. *)
Definition call : Type := CB * option ProducerMessage * option error.

(** [type Promise struct]. *)
Record Promise : Type := mkPromise {
  pr_err : option error;
  pr_msg : option ProducerMessage;
  pr_finished : bool;
  pr_callbacks : list CB
}.

Definition NewPromise : Promise := mkPromise None None false [].

Definition executeCallbacks (p : Promise) : list call * Promise :=
  if pr_finished p then ([], p)
  else ((fun s => (s, pr_msg p, pr_err p)) <$> pr_callbacks p,
        mkPromise (pr_err p) (pr_msg p) true (pr_callbacks p)).

(** [Then] wraps its callback and is the same operation. *)
Definition ThenWithMessage (callback : CB) (p : Promise) : list call * Promise :=
  if pr_finished p then ([(callback, pr_msg p, pr_err p)], p)
  else ([], mkPromise (pr_err p) (pr_msg p) (pr_finished p) (pr_callbacks p ++ [callback])).

Definition Promise_finish (msg : option ProducerMessage) (err : option error) (p : Promise)
  : list call * Promise :=
  executeCallbacks (mkPromise err msg (pr_finished p) (pr_callbacks p)).

(** ** Runs *)

Inductive promise_op : Type :=
| PThen (callback : CB)
| PFinish (msg : option ProducerMessage) (err : option error).

Definition promise_exec (op : promise_op) (p : Promise) : list call * Promise :=
  match op with
  | PThen cb => ThenWithMessage cb p
  | PFinish msg err => Promise_finish msg err p
  end.

Fixpoint promise_run (ops : list promise_op) (p : Promise) : list call * Promise :=
  match ops with
  | [] => ([], p)
  | op :: ops =>
      let '(c1, p) := promise_exec op p in
      let '(c2, p) := promise_run ops p in (c1 ++ c2, p)
  end.

(** The callbacks chained by a sequence of operations. *)
Definition chained (ops : list promise_op) : list CB :=
  omap (fun op => match op with PThen cb => Some cb | _ => None end) ops.

Definition is_finish (op : promise_op) : bool := match op with PFinish _ _ => true | _ => false end.

(** ** Lemmas *)

(** Before the promise is finished callbacks are only recorded. *)
Lemma promise_run_pending ops p :
  pr_finished p = false -> Forall (fun op => is_finish op = false) ops ->
  promise_run ops p = ([], mkPromise (pr_err p) (pr_msg p) false (pr_callbacks p ++ chained ops)).
Proof.
  revert p. induction ops as [|op ops IH]; intros p Hf HF.
  { simpl. rewrite app_nil_r. destruct p. simpl in *. by subst. }
  apply Forall_cons in HF as [Hop HF]. destruct op as [cb|]; [|done]. simpl.
  unfold ThenWithMessage. rewrite Hf. rewrite IH by done. simpl. by rewrite <- app_assoc.
Qed.

(** Afterwards a chained callback is called at once. *)
Lemma promise_run_finished ops p :
  pr_finished p = true -> Forall (fun op => is_finish op = false) ops ->
  promise_run ops p = ((fun cb => (cb, pr_msg p, pr_err p)) <$> chained ops, p).
Proof.
  intros Hf HF. induction ops as [|op ops IH]; [done|].
  apply Forall_cons in HF as [Hop HF]. destruct op as [cb|]; [|done]. simpl.
  unfold ThenWithMessage. rewrite Hf, IH by done. done.
Qed.
End promise.
Arguments Promise : clear implicits.
Arguments promise_op : clear implicits.

(** ** Properties *)

(** A promise that is finished once calls every chained callback exactly once, in the order in
    which they were chained, with the message and error it was finished with, whether the callback
    was chained before or after the promise was finished. *)
Theorem promise_calls_each_once {CB} (before after : list (promise_op CB)) msg err :
  Forall (fun op => is_finish op = false) before -> Forall (fun op => is_finish op = false) after ->
  (promise_run (before ++ PFinish msg err :: after) NewPromise).1 =
    (fun cb => (cb, msg, err)) <$> chained (before ++ after).
Proof.
  intros Hb Ha.
  assert (forall ops1 ops2 (p : Promise CB), promise_run (ops1 ++ ops2) p =
    let '(c1, p) := promise_run ops1 p in let '(c2, p) := promise_run ops2 p in (c1 ++ c2, p)) as Happ.
  { induction ops1 as [|op ops1 IH]; intros ops2 p; simpl; [by destruct (promise_run ops2 p)|].
    destruct (promise_exec op p) as [c0 p0]. rewrite IH. destruct (promise_run ops1 p0) as [c1 p1].
    destruct (promise_run ops2 p1) as [c2 p2]. by rewrite app_assoc. }
  rewrite Happ, promise_run_pending by done. simpl.
  rewrite promise_run_finished by done. simpl. unfold chained. by rewrite omap_app, fmap_app.
Qed.

Lemma promise_calls_each_once_witness :
  (promise_run [PThen 1%nat; PFinish None None; PThen 2%nat] NewPromise).1 =
    [(1%nat, None, None); (2%nat, None, None)].
Proof.
  apply (promise_calls_each_once [PThen 1%nat] [PThen 2%nat] None None); by repeat constructor.
Defined.
