(* ===== verification/Emitter.v ===== *)
(** * Emitters and producers

    [emitter.go] and [producer.go].  The asynchronous producer of the Kafka client is the set of
    messages in flight; it reports each of them once, as a success or an error.  Emitting consists of
    the steps between which other goroutines can run: the check that the emitter is open, handing
    the message to the producer, and chaining the emitter's callback to the promise.  The system is a
    step relation, with its invariants by induction on the steps. *)
From Stdlib Require Import ZArith Lia.
From stdpp Require Import base gmap strings list relations.
From S2P Require Import Prelude Codec Headers Promise.
Open Scope Z_scope.

(** ** The producer *)

(** A message handed to the Kafka client; [om_Headers] is [None] for [Emit]. *)
Record out_msg : Type := mkOut {
  om_Topic : string; om_Key : string; om_Value : bytes; om_Headers : option (list RecordHeader)
}.

Section producer.
Context {CB : Type}.

(** [type producer struct]: the promises created so far, those of the messages in flight (which the
    client has as metadata), the messages handed to the client, and whether it is closing. *)
Record producer : Type := mkProducer {
  pd_promises : gmap nat (Promise CB);
  pd_inflight : gset nat;
  pd_sent : list out_msg;
  pd_next : nat;
  pd_closing : bool
}.

Definition NewProducer (aprod : option error) : res producer :=
  match aprod with
  | Some e => Err (ErrWrap "Failed to start Sarama producer" e)
  | None => Ok (mkProducer ∅ ∅ [] 0 false)
  end.

(** A send on the input channel, which closing the producer closes. *)
Definition producer_send (m : out_msg) (p : producer) : outcome (nat * producer) :=
  if pd_closing p then Panic (ErrNew "send on closed channel")
  else Ret (pd_next p, mkProducer (<[pd_next p := NewPromise]> (pd_promises p)) ({[pd_next p]} ∪ pd_inflight p)
                         (pd_sent p ++ [m]) (S (pd_next p)) (pd_closing p)).

Definition producer_Emit (topic key : string) (value : bytes) (p : producer) : outcome (nat * producer) :=
  producer_send (mkOut topic key value None) p.

(** [order] is the order in which the headers are visited. *)
Definition producer_EmitWithHeaders (topic key : string) (value : bytes) (order : list (string * bytes)) (p : producer)
  : outcome (nat * producer) :=
  producer_send (mkOut topic key value (Some (ToSarama order))) p.

(** [run]: the client reports message [i], and its promise is finished: with the message, or with the
    error. *)
Definition producer_run (i : nat) (r : ProducerMessage + error) (p : producer) : outcome (list (@call CB) * producer) :=
  if decide (i ∈ pd_inflight p) then
    match pd_promises p !! i with
    | None => Blocked
    | Some pr =>
        let '(calls, pr) := match r with
                            | inl msg => Promise_finish (Some msg) None pr
                            | inr err => Promise_finish None (Some err) pr
                            end in
        Ret (calls, mkProducer (<[i := pr]> (pd_promises p)) (pd_inflight p ∖ {[i]}) (pd_sent p) (pd_next p) (pd_closing p))
    end
  else Blocked.

(** [Then] on the promise [i]. *)
Definition producer_Then (i : nat) (cb : CB) (p : producer) : outcome (list (@call CB) * producer) :=
  match pd_promises p !! i with
  | None => Blocked
  | Some pr =>
      let '(calls, pr) := ThenWithMessage cb pr in
      Ret (calls, mkProducer (<[i := pr]> (pd_promises p)) (pd_inflight p) (pd_sent p) (pd_next p) (pd_closing p))
  end.

(** [AsyncClose]. *)
Definition producer_AsyncClose (p : producer) : producer :=
  mkProducer (pd_promises p) (pd_inflight p) (pd_sent p) (pd_next p) true.

(** The rest of [Close]: it returns when the channels have drained or the timer has fired. *)
Definition producer_drained (timer : bool) (p : producer) : outcome (option error) :=
  if timer || bool_decide (pd_inflight p = ∅) then Ret None else Blocked.
End producer.
Arguments producer : clear implicits.

(** ** The emitter *)

(** The callbacks chained to a promise: the emitter's [emitDone] and those of users. *)
Inductive emitter_cb : Type := EmitDone | UserCallback (n : nat).

#[export] Instance emitter_cb_eq : EqDecision emitter_cb.
Proof. solve_decision. Defined.

(** An emit that has passed the check: key, data and headers. *)
Abbreviation accepted_emit := (string * bytes * Headers)%type.

(** [type Emitter struct].  [e_accepted] are the emits between the check and the send,
    [e_unchained] the promises between the send and [Then], [e_finish] how far [Finish] is. *)
Inductive finish_state : Type := NotFinishing | Waiting | Closing | Finished.

#[export] Instance finish_state_eq : EqDecision finish_state.
Proof. solve_decision. Defined.

Record Emitter : Type := mkEmitter {
  e_codec : Codec;
  e_topic : string;
  e_defaultHeaders : Headers;
  e_producer : producer emitter_cb;
  e_wg : Z;
  e_done : bool;
  e_accepted : list accepted_emit;
  e_unchained : list nat;
  e_finish : finish_state;
  e_calls : list (@call emitter_cb)
}.

Definition e_set (p : producer emitter_cb) (wg : Z) (accepted : list accepted_emit) (unchained : list nat)
    (calls : list (@call emitter_cb)) (e : Emitter) : Emitter :=
  mkEmitter (e_codec e) (e_topic e) (e_defaultHeaders e) p wg (e_done e) accepted unchained (e_finish e) calls.
Definition e_set_finish (done : bool) (p : producer emitter_cb) (f : finish_state) (e : Emitter) : Emitter :=
  mkEmitter (e_codec e) (e_topic e) (e_defaultHeaders e) p (e_wg e) done (e_accepted e) (e_unchained e) f (e_calls e).

(** [NewEmitter], given the result of the producer builder. *)
Definition NewEmitter (topic : string) (codec : Codec) (defaultHeaders : Headers) (prod : res (producer emitter_cb)) : res Emitter :=
  match prod with
  | Err e => Err (ErrWrap "error creating Kafka producer" e)
  | Ok p => Ok (mkEmitter codec topic defaultHeaders p 0 false [] [] NotFinishing [])
  end.

(** What the callbacks do: [emitDone] is [wg.Done], which panics below zero. *)
Definition done_calls (calls : list (@call emitter_cb)) : Z :=
  Z.of_nat (length (filter (fun c => c.1.1 = EmitDone) calls)).

Definition run_calls (calls : list (@call emitter_cb)) (e : Emitter) : outcome Emitter :=
  if e_wg e - done_calls calls <? 0 then Panic (ErrNew "sync: negative WaitGroup counter")
  else Ret (e_set (e_producer e) (e_wg e - done_calls calls) (e_accepted e) (e_unchained e) (e_calls e ++ calls) e).

(** The first part of [EmitWithHeaders]: encoding, and the check together with [wg.Add].  The result
    is an error, a promise that is finished with an error, or that the emit goes on. *)
Inductive emit_result : Type := EmitErr (err : error) | EmitRejected (p : Promise emitter_cb) | EmitAccepted.

Definition emit_check (key : string) (msg : value) (hdr : Headers) (e : Emitter) : emit_result * Emitter :=
  match (match msg with VNil => Ok None | _ => Encode (e_codec e) msg end) with
  | Err err => (EmitErr (ErrWrap "Error encoding value" err), e)
  | Ok data =>
      if e_done e then (EmitRejected (Promise_finish None (Some ErrEmitterAlreadyClosed) NewPromise).2, e)
      else (EmitAccepted, e_set (e_producer e) (e_wg e + 1) (e_accepted e ++ [(key, data, hdr)]) (e_unchained e) (e_calls e) e)
  end.

(** The second part: handing the message to the producer; the headers are visited in the order of [map_to_list]. *)
Definition emit_send (key : string) (data : bytes) (hdr : Headers) (e : Emitter) : outcome (nat * Emitter) :=
  '(i, p) ← match hdr, e_defaultHeaders e with
            | None, None => producer_Emit (e_topic e) key data (e_producer e)
            | _, _ =>
                producer_EmitWithHeaders (e_topic e) key data
                  (map_to_list (entries (Merged (map_to_list (entries (e_defaultHeaders e))) [map_to_list (entries hdr)])))
                  (e_producer e)
            end;
  Ret (i, e_set p (e_wg e) (e_accepted e) (e_unchained e) (e_calls e) e).

(** The third part: [Then(e.emitDone)]. *)
Definition emit_then (i : nat) (e : Emitter) : outcome Emitter :=
  '(calls, p) ← producer_Then i EmitDone (e_producer e);
  run_calls calls (e_set p (e_wg e) (e_accepted e) (e_unchained e) (e_calls e) e).

(** [EmitWithHeaders] without interruption: the promise is returned by its number. *)
Definition EmitWithHeaders (key : string) (msg : value) (hdr : Headers) (e : Emitter)
  : outcome (res (Promise emitter_cb + nat) * Emitter) :=
  match emit_check key msg hdr e with
  | (EmitErr err, e) => Ret (Err err, e)
  | (EmitRejected p, e) => Ret (Ok (inl p), e)
  | (EmitAccepted, e) =>
      '(i, e) ← emit_send key (match msg with VNil => None | _ => match Encode (e_codec e) msg with Ok d => d | Err _ => None end end)
                  hdr (e_set (e_producer e) (e_wg e) (removelast (e_accepted e)) (e_unchained e) (e_calls e) e);
      e ← emit_then i e;
      Ret (Ok (inr i), e)
  end.

Definition emitter_Emit (key : string) (msg : value) (e : Emitter) : outcome (res (Promise emitter_cb + nat) * Emitter) :=
  EmitWithHeaders key msg None e.

(** [EmitSyncWithHeaders]: the emit followed by the report of the client for its message. *)
Definition EmitSyncWithHeaders (key : string) (msg : value) (hdr : Headers) (r : ProducerMessage + error) (e : Emitter)
  : outcome (option error * Emitter) :=
  '(res, e) ← EmitWithHeaders key msg hdr e;
  match res with
  | Err err => Ret (Some err, e)
  | Ok (inl p) => Ret (pr_err p, e)
  | Ok (inr i) =>
      '(calls, p) ← producer_run i r (e_producer e);
      e ← run_calls calls (e_set p (e_wg e) (e_accepted e) (e_unchained e) (e_calls e) e);
      match pd_promises (e_producer e) !! i with
      | Some pr => Ret (pr_err pr, e)
      | None => Blocked
      end
  end.

Definition EmitSync (key : string) (msg : value) (r : ProducerMessage + error) (e : Emitter) : outcome (option error * Emitter) :=
  EmitSyncWithHeaders key msg None r e.

(** [Finish] in steps: closing [done], which panics the second time; waiting; closing the producer. *)
Definition finish_close (e : Emitter) : outcome Emitter :=
  if e_done e then Panic (ErrNew "close of closed channel")
  else Ret (e_set_finish true (e_producer e) Waiting e).

Definition finish_wait (e : Emitter) : outcome Emitter :=
  if e_wg e =? 0 then Ret (e_set_finish (e_done e) (producer_AsyncClose (e_producer e)) Closing e) else Blocked.

Definition finish_return (timer : bool) (e : Emitter) : outcome (option error * Emitter) :=
  err ← producer_drained timer (e_producer e);
  Ret (err, e_set_finish (e_done e) (e_producer e) Finished e).

(** ** The system *)

(** What can happen: a goroutine checks, sends or chains; a user chains a callback; the client reports
    a message; [Finish] proceeds. *)
Inductive em_action : Type :=
| ACheck (key : string) (msg : value) (hdr : Headers)
| ASend (n : nat)
| AThen (n : nat)
| AUser (i n : nat)
| AReport (i : nat) (r : ProducerMessage + error)
| AFinishClose
| AFinishWait
| AFinishReturn (timer : bool).

Definition em_exec (a : em_action) (e : Emitter) : outcome Emitter :=
  match a with
  | ACheck key msg hdr => Ret (emit_check key msg hdr e).2
  | ASend n =>
      match e_accepted e !! n with
      | None => Blocked
      | Some (key, data, hdr) =>
          '(i, e) ← emit_send key data hdr e;
          Ret (e_set (e_producer e) (e_wg e) (delete n (e_accepted e)) (e_unchained e ++ [i]) (e_calls e) e)
      end
  | AThen n =>
      match e_unchained e !! n with
      | None => Blocked
      | Some i => emit_then i (e_set (e_producer e) (e_wg e) (e_accepted e) (delete n (e_unchained e)) (e_calls e) e)
      end
  | AUser i n =>
      '(calls, p) ← producer_Then i (UserCallback n) (e_producer e);
      run_calls calls (e_set p (e_wg e) (e_accepted e) (e_unchained e) (e_calls e) e)
  | AReport i r =>
      '(calls, p) ← producer_run i r (e_producer e);
      run_calls calls (e_set p (e_wg e) (e_accepted e) (e_unchained e) (e_calls e) e)
  | AFinishClose => finish_close e
  | AFinishWait => match e_finish e with Waiting => finish_wait e | _ => Blocked end
  | AFinishReturn timer =>
      match e_finish e with Closing => '(_, e) ← finish_return timer e; Ret e | _ => Blocked end
  end.

Inductive em_step (e e' : Emitter) : Prop :=
| EmStep (a : em_action) : em_exec a e = Ret e' -> em_step e e'.

(** An emitter as [NewEmitter] creates it over a new producer. *)
Definition em_initial (e : Emitter) : Prop :=
  exists topic codec hdr, NewEmitter topic codec hdr (NewProducer None) = Ok e.

Definition em_reachable (e : Emitter) : Prop := exists e0, em_initial e0 /\ rtc em_step e0 e.

(** ** The invariant *)

(** The promise still has to call [emitDone]. *)
Definition awaits_done (pr : Promise emitter_cb) : bool :=
  negb (pr_finished pr) && bool_decide (EmitDone ∈ pr_callbacks pr).

Definition awaiting (p : producer emitter_cb) : nat := count_map awaits_done (pd_promises p).

Lemma awaiting_insert i pr (p : producer emitter_cb) inflight sent next closing :
  (awaiting (mkProducer (<[i := pr]> (pd_promises p)) inflight sent next closing) +
   match pd_promises p !! i with Some old => b2n (awaits_done old) | None => 0 end =
   awaiting p + b2n (awaits_done pr))%nat.
Proof. apply count_map_insert. Qed.

Record em_inv (e : Emitter) : Prop := {
  ei_wg : e_wg e = Z.of_nat (length (e_accepted e) + length (e_unchained e) + awaiting (e_producer e));
  ei_inflight : forall i, i ∈ pd_inflight (e_producer e) <->
    exists pr, pd_promises (e_producer e) !! i = Some pr /\ pr_finished pr = false;
  ei_nodup : NoDup (e_unchained e);
  ei_unchained : forall i, i ∈ e_unchained e ->
    exists pr, pd_promises (e_producer e) !! i = Some pr /\ EmitDone ∉ pr_callbacks pr;
  ei_chained : forall i pr, pd_promises (e_producer e) !! i = Some pr -> pr_finished pr = false ->
    i ∈ e_unchained e \/ EmitDone ∈ pr_callbacks pr;
  ei_once : forall i pr, pd_promises (e_producer e) !! i = Some pr ->
    (length (filter (fun c => c = EmitDone) (pr_callbacks pr)) <= 1)%nat;
  ei_fresh : forall i, is_Some (pd_promises (e_producer e) !! i) -> (i < pd_next (e_producer e))%nat;
  ei_done : e_done e = true <-> e_finish e <> NotFinishing;
  ei_closing : pd_closing (e_producer e) = true <-> e_finish e = Closing \/ e_finish e = Finished;
  ei_closed : pd_closing (e_producer e) = true -> e_wg e = 0
}.

Definition done_count (cbs : list emitter_cb) : nat := length (filter (fun c => c = EmitDone) cbs).

Lemma done_calls_fmap msg err cbs :
  done_calls ((fun s => (s, msg, err)) <$> cbs) = Z.of_nat (done_count cbs).
Proof.
  unfold done_calls, done_count. f_equal. induction cbs as [|c cbs IH]; [done|]. rewrite fmap_cons, !filter_cons. simpl.
  destruct (decide (c = EmitDone)); simpl; [f_equal|]; exact IH.
Qed.

Lemma done_count_b2n cbs : (done_count cbs <= 1)%nat -> done_count cbs = b2n (bool_decide (EmitDone ∈ cbs)).
Proof.
  unfold done_count. intros Hle. case_bool_decide as Hin; simpl.
  - assert (EmitDone ∈ filter (fun c => c = EmitDone) cbs) as Hf by (by apply list_elem_of_filter).
    destruct (filter _ cbs) as [|c l]; [by apply not_elem_of_nil in Hf|]. simpl in *. lia.
  - rewrite filter_none; [done|]. intros c Hc ->. done.
Qed.

Lemma done_count_app l c : done_count (l ++ [c]) = (done_count l + b2n (bool_decide (c = EmitDone)))%nat.
Proof. unfold done_count. rewrite filter_app, length_app, filter_cons. simpl. case_bool_decide; [by rewrite decide_True|by rewrite decide_False]. Qed.

Lemma run_calls_ok calls e :
  0 <= e_wg e - done_calls calls ->
  run_calls calls e = Ret (e_set (e_producer e) (e_wg e - done_calls calls) (e_accepted e) (e_unchained e) (e_calls e ++ calls) e).
Proof. intros H. unfold run_calls. by rewrite (proj2 (Z.ltb_ge _ _) H). Qed.

(** A promise is replaced, with calls to the callbacks: what it takes to keep the invariant. *)
Lemma update_inv e i pr pr' calls inflight unchained :
  em_inv e -> pd_promises (e_producer e) !! i = Some pr ->
  let p := e_producer e in
  let p' := mkProducer (<[i := pr']> (pd_promises p)) inflight (pd_sent p) (pd_next p) (pd_closing p) in
  (forall j, j ∈ inflight <-> if decide (j = i) then pr_finished pr' = false else j ∈ pd_inflight p) ->
  NoDup unchained -> (forall j, j <> i -> j ∈ unchained <-> j ∈ e_unchained e) ->
  (i ∈ unchained -> EmitDone ∉ pr_callbacks pr') ->
  (pr_finished pr' = false -> i ∈ unchained \/ EmitDone ∈ pr_callbacks pr') ->
  (done_count (pr_callbacks pr') <= 1)%nat ->
  done_calls calls = Z.of_nat (length (e_unchained e) + b2n (awaits_done pr)) - Z.of_nat (length unchained + b2n (awaits_done pr')) ->
  exists e', run_calls calls (e_set p' (e_wg e) (e_accepted e) unchained (e_calls e) e) = Ret e' /\ em_inv e' /\
    e_accepted e' = e_accepted e /\ e_unchained e' = unchained /\ e_producer e' = p' /\ e_finish e' = e_finish e.
Proof.
  intros [W1 W2 W3 W4 W5 W6 W7 W8 W9 W10] Hi p p' Hin Hnd Hun H4 H5 H6 Hcalls.
  pose proof (awaiting_insert i pr' p inflight (pd_sent p) (pd_next p) (pd_closing p)) as Hsz. fold p' in Hsz.
  change (pd_promises p) with (pd_promises (e_producer e)) in Hsz. rewrite Hi in Hsz.
  change (awaiting p) with (awaiting (e_producer e)) in Hsz.
  assert (e_wg e - done_calls calls = Z.of_nat (length (e_accepted e) + length unchained + awaiting p')) as Ewg by lia.
  rewrite run_calls_ok by (simpl; lia). eexists. split; [done|]. split; [|done]. constructor; simpl; try done.
  - intros j. rewrite Hin. destruct (decide (j = i)) as [->|Hne].
    + rewrite lookup_insert_eq. naive_solver.
    + rewrite lookup_insert_ne by done. apply W2.
  - intros j Hj. destruct (decide (j = i)) as [->|Hne].
    + exists pr'. rewrite lookup_insert_eq. split; [done|]. by apply H4.
    + rewrite lookup_insert_ne by done. apply W4. by apply Hun.
  - intros j prj. rewrite lookup_insert. case_decide as E; [subst j; intros [= <-]; apply H5|].
    intros Hj Hf. destruct (W5 j prj Hj Hf) as [?|?]; [left; by apply Hun|by right].
  - intros j prj. rewrite lookup_insert. case_decide; [intros [= <-]; exact H6|apply W6].
  - intros j. rewrite lookup_insert_is_Some. intros [<-|[_ Hj]]; apply W7; [by rewrite Hi|done].
  - intros Hc. specialize (W10 Hc). assert (0 <= done_calls calls) by (unfold done_calls; lia). lia.
Qed.

Lemma emit_check_inv key msg hdr e : em_inv e -> em_inv (emit_check key msg hdr e).2.
Proof.
  intros W. unfold emit_check. destruct (match msg with VNil => _ | _ => _ end); [|done].
  destruct (e_done e) eqn:Ed; [done|]. destruct W as [W1 W2 W3 W4 W5 W6 W7 W8 W9 W10]. simpl. constructor; simpl; try done.
  - rewrite length_app. simpl. lia.
  - intros Hc. apply W9 in Hc. assert (e_finish e <> NotFinishing) as Hf by (by destruct Hc as [-> | ->]).
    apply W8 in Hf. congruence.
Qed.

(** The two ways to send do the same for the protocol. *)
Lemma emit_send_ok key data hdr e :
  pd_closing (e_producer e) = false ->
  exists m, emit_send key data hdr e =
    Ret (pd_next (e_producer e),
         e_set (mkProducer (<[pd_next (e_producer e) := NewPromise]> (pd_promises (e_producer e)))
                  ({[pd_next (e_producer e)]} ∪ pd_inflight (e_producer e)) (pd_sent (e_producer e) ++ [m])
                  (S (pd_next (e_producer e))) false)
           (e_wg e) (e_accepted e) (e_unchained e) (e_calls e) e).
Proof.
  intros Hc. unfold emit_send, producer_Emit, producer_EmitWithHeaders, producer_send.
  rewrite Hc. destruct hdr, (e_defaultHeaders e); simpl; eauto.
Qed.

Lemma accepted_not_closing e n x : em_inv e -> e_accepted e !! n = Some x -> pd_closing (e_producer e) = false.
Proof.
  intros W Hn. destruct (pd_closing (e_producer e)) eqn:E; [|done]. pose proof (ei_closed e W E) as Hz.
  pose proof (ei_wg e W) as Hwg. apply lookup_lt_Some in Hn. lia.
Qed.

Lemma em_send_inv e n key data hdr :
  em_inv e -> e_accepted e !! n = Some (key, data, hdr) ->
  exists e', em_exec (ASend n) e = Ret e' /\ em_inv e' /\
    length (e_accepted e) = S (length (e_accepted e')) /\ length (e_unchained e') = S (length (e_unchained e)) /\
    size (pd_inflight (e_producer e')) = S (size (pd_inflight (e_producer e))) /\ e_finish e' = e_finish e.
Proof.
  intros W Hn. pose proof (accepted_not_closing e n _ W Hn) as Hc.
  simpl. rewrite Hn. destruct (emit_send_ok key data hdr e Hc) as [m ->]. simpl.
  set (i := pd_next (e_producer e)) in *. destruct W as [W1 W2 W3 W4 W5 W6 W7 W8 W9 W10].
  assert (pd_promises (e_producer e) !! i = None) as Hi.
  { destruct (pd_promises (e_producer e) !! i) eqn:E; [|done]. specialize (W7 i ltac:(by rewrite E)). unfold i in W7. lia. }
  assert (i ∉ e_unchained e) as Hiu by (intros (pr & Hpr & _)%W4; congruence).
  assert (length (e_accepted e) = S (length (delete n (e_accepted e)))) as Hl.
  { rewrite (length_delete (e_accepted e) n) by (by rewrite Hn). apply lookup_lt_Some in Hn. lia. }
  eexists. split; [done|]. cbn [e_set e_accepted e_unchained e_producer e_finish pd_inflight].
  split.
  2:{ split; [done|]. split; [rewrite length_app; simpl; lia|]. split; [|done].
      rewrite size_union, size_singleton; [lia|]. apply disjoint_singleton_l. intros (pr & Hpr & _)%W2. congruence. }
  constructor; simpl.
  - pose proof (awaiting_insert i NewPromise (e_producer e) ({[i]} ∪ pd_inflight (e_producer e)) (pd_sent (e_producer e) ++ [m]) (S i) false) as Hsz.
    rewrite Hi in Hsz. simpl in Hsz. rewrite length_app. simpl. lia.
  - intros j. rewrite elem_of_union, elem_of_singleton, W2. destruct (decide (j = i)) as [->|Hne].
    + rewrite lookup_insert_eq. naive_solver.
    + rewrite lookup_insert_ne by done. naive_solver.
  - apply NoDup_app. split_and!; [done| |apply NoDup_singleton]. intros j Hj ->%list_elem_of_singleton. done.
  - intros j [Hj|Hj]%elem_of_app.
    + rewrite lookup_insert_ne by (by intros <-). by apply W4.
    + apply list_elem_of_singleton in Hj as ->. exists NewPromise. rewrite lookup_insert_eq. split; [done|]. apply not_elem_of_nil.
  - intros j pr. rewrite elem_of_app, list_elem_of_singleton, lookup_insert. case_decide as E; [by left; right|].
    intros Hj Hf. destruct (W5 j pr Hj Hf); auto.
  - intros j pr. rewrite lookup_insert. case_decide; [intros [= <-]; simpl; lia|apply W6].
  - intros j. rewrite lookup_insert_is_Some. intros [<-|[_ Hj]]; [lia|]. specialize (W7 j Hj). fold i in W7. lia.
  - done.
  - rewrite <- W9. by rewrite Hc.
  - done.
Qed.

(** Chaining [emitDone] to a promise that may have been finished already. *)
Lemma then_inv e i n :
  em_inv e -> e_unchained e !! n = Some i ->
  exists e', em_exec (AThen n) e = Ret e' /\ em_inv e' /\
    e_accepted e' = e_accepted e /\ length (e_unchained e) = S (length (e_unchained e')) /\
    pd_inflight (e_producer e') = pd_inflight (e_producer e) /\ e_finish e' = e_finish e.
Proof.
  intros W Hn. pose proof W as [_ W2 W3 W4 _ W6 _ _ _ _].
  destruct (W4 i ltac:(by eapply list_elem_of_lookup_2)) as (pr & Hpr & Hnot). simpl. rewrite Hn.
  unfold emit_then, producer_Then. cbn [e_producer e_set]. rewrite Hpr.
  assert (e_unchained e ≡ₚ i :: delete n (e_unchained e)) as Hperm by (by apply delete_Permutation).
  assert (NoDup (i :: delete n (e_unchained e))) as [Hid Hnd]%NoDup_cons by (by rewrite <- Hperm).
  assert (length (e_unchained e) = S (length (delete n (e_unchained e)))) as Hl by (by rewrite (Permutation_length Hperm)).
  assert (done_count (pr_callbacks pr) = 0)%nat as Hz.
  { rewrite done_count_b2n by (apply (W6 i pr Hpr)). by rewrite bool_decide_eq_false_2. }
  assert (forall j, j <> i -> j ∈ delete n (e_unchained e) <-> j ∈ e_unchained e) as Hun.
  { intros j Hj. transitivity (j ∈ i :: delete n (e_unchained e)); [rewrite elem_of_cons; naive_solver|by rewrite Hperm at 2]. }
  assert (awaits_done pr = false) as Hnaw.
  { unfold awaits_done. rewrite (bool_decide_eq_false_2 _ Hnot). apply andb_false_r. }
  assert (forall j, j ∈ pd_inflight (e_producer e) <->
    if decide (j = i) then pr_finished pr = false else j ∈ pd_inflight (e_producer e)) as Hin.
  { intros j. case_decide; [subst j|done]. rewrite W2. naive_solver. }
  unfold ThenWithMessage. destruct (pr_finished pr) eqn:Ef; cbn [mbind outcome_bind].
  - destruct (update_inv e i pr pr [(EmitDone, pr_msg pr, pr_err pr)] (pd_inflight (e_producer e)) (delete n (e_unchained e)))
      as (e' & E & W' & Ea & Eu & Ep & Ei); try done.
    + by rewrite Ef.
    + congruence.
    + lia.
    + rewrite Hnaw. unfold done_calls. rewrite filter_cons. simpl. lia.
    + exists e'. split; [exact E|]. rewrite Ea, Eu, Ep, Ei. split_and!; done.
  - destruct (update_inv e i pr (mkPromise (pr_err pr) (pr_msg pr) false (pr_callbacks pr ++ [EmitDone])) []
                (pd_inflight (e_producer e)) (delete n (e_unchained e)))
      as (e' & E & W' & Ea & Eu & Ep & Ei); try done.
    + intros _. right. simpl. apply elem_of_app. right. by apply list_elem_of_singleton.
    + simpl. rewrite done_count_app, Hz. simpl. lia.
    + rewrite Hnaw. unfold done_calls, awaits_done. simpl. rewrite bool_decide_eq_true_2; [simpl; lia|].
      apply elem_of_app. right. by apply list_elem_of_singleton.
    + exists e'. split; [exact E|]. rewrite Ea, Eu, Ep, Ei. split_and!; done.
Qed.

Lemma user_inv e i k e' :
  em_inv e -> em_exec (AUser i k) e = e' -> match e' with Ret e' => em_inv e' | Panic _ => False | Blocked => True end.
Proof.
  intros W <-. pose proof W as [_ W2 W3 W4 W5 W6 _ _ _ _]. simpl. unfold producer_Then.
  destruct (pd_promises (e_producer e) !! i) as [pr|] eqn:Hpr; [|done].
  assert (forall j, j ∈ pd_inflight (e_producer e) <->
    if decide (j = i) then pr_finished pr = false else j ∈ pd_inflight (e_producer e)) as Hin.
  { intros j. case_decide; [subst j|done]. rewrite W2. naive_solver. }
  unfold ThenWithMessage. destruct (pr_finished pr) eqn:Ef; cbn [mbind outcome_bind].
  - destruct (update_inv e i pr pr [(UserCallback k, pr_msg pr, pr_err pr)] (pd_inflight (e_producer e)) (e_unchained e))
      as (e' & E & W' & _); try done.
    + by rewrite Ef.
    + intros Hi. destruct (W4 i Hi) as (? & ? & ?). by simplify_eq.
    + congruence.
    + by apply (W6 i).
    + unfold done_calls. rewrite filter_cons. simpl. lia.
    + by rewrite E.
  - destruct (update_inv e i pr (mkPromise (pr_err pr) (pr_msg pr) false (pr_callbacks pr ++ [UserCallback k])) []
                (pd_inflight (e_producer e)) (e_unchained e)) as (e' & E & W' & _); try done.
    + simpl. intros Hi. destruct (W4 i Hi) as (? & ? & ?). simplify_eq. set_solver.
    + simpl. intros _. destruct (W5 i pr Hpr Ef); set_solver.
    + simpl. rewrite done_count_app. simpl. pose proof (W6 i pr Hpr) as H6. unfold done_count. lia.
    + unfold done_calls, awaits_done. rewrite Ef. simpl.
      assert (bool_decide (EmitDone ∈ pr_callbacks pr ++ [UserCallback k]) = bool_decide (EmitDone ∈ pr_callbacks pr)) as ->; [|lia].
      apply bool_decide_ext. set_solver.
    + by rewrite E.
Qed.

(** The client reports a message in flight. *)
Lemma report_inv e i r :
  em_inv e -> i ∈ pd_inflight (e_producer e) ->
  exists e', em_exec (AReport i r) e = Ret e' /\ em_inv e' /\
    e_accepted e' = e_accepted e /\ e_unchained e' = e_unchained e /\
    size (pd_inflight (e_producer e)) = S (size (pd_inflight (e_producer e'))) /\ e_finish e' = e_finish e.
Proof.
  intros W Hin. pose proof W as [_ W2 W3 W4 W5 W6 _ _ _ _]. destruct (proj1 (W2 i) Hin) as (pr & Hpr & Hf).
  simpl. unfold producer_run. rewrite decide_True by done. rewrite Hpr.
  set (pr' := mkPromise (match r with inl _ => None | inr e => Some e end) (match r with inl m => Some m | inr _ => None end)
                true (pr_callbacks pr)).
  set (calls := (fun s => (s, pr_msg pr', pr_err pr')) <$> pr_callbacks pr).
  assert (match r with inl msg => Promise_finish (Some msg) None pr | inr err => Promise_finish None (Some err) pr end = (calls, pr')) as ->.
  { unfold Promise_finish, executeCallbacks. destruct r; simpl; by rewrite Hf. }
  cbn [mbind outcome_bind].
  destruct (update_inv e i pr pr' calls (pd_inflight (e_producer e) ∖ {[i]}) (e_unchained e)) as (e' & E & W' & Ea & Eu & Ep & Ei); try done.
  - intros j. rewrite elem_of_difference, elem_of_singleton. case_decide; simpl; naive_solver.
  - intros Hi. destruct (W4 i Hi) as (? & ? & ?). by simplify_eq.
  - exact (W6 i pr Hpr).
  - unfold calls. rewrite done_calls_fmap, done_count_b2n by exact (W6 i pr Hpr). unfold awaits_done. rewrite Hf. simpl. lia.
  - exists e'. split; [exact E|]. rewrite Ea, Eu, Ep, Ei. split_and!; try done. simpl.
    rewrite size_difference, size_singleton by set_solver.
    assert (size (pd_inflight (e_producer e)) <> 0)%nat; [|lia]. intros Hz%size_empty_inv. set_solver.
Qed.

(** Every action preserves the invariant, and none panics but a second [Finish]. *)
Lemma em_exec_inv a e :
  em_inv e ->
  match em_exec a e with
  | Ret e' => em_inv e'
  | Panic _ => a = AFinishClose /\ e_done e = true
  | Blocked => True
  end.
Proof.
  intros W. destruct a as [key msg hdr|n|n|i n|i r| | |timer].
  - by apply emit_check_inv.
  - destruct (e_accepted e !! n) as [[[key data] hdr]|] eqn:Hn; [|simpl; by rewrite Hn].
    destruct (em_send_inv e n key data hdr W Hn) as (e' & -> & ? & _). done.
  - destruct (e_unchained e !! n) as [i|] eqn:Hn; [|simpl; by rewrite Hn].
    destruct (then_inv e i n W Hn) as (e' & -> & ? & _). done.
  - pose proof (user_inv e i n _ W eq_refl) as Hu. by destruct (em_exec (AUser i n) e).
  - destruct (decide (i ∈ pd_inflight (e_producer e))) as [Hin|Hin].
    + destruct (report_inv e i r W Hin) as (e' & -> & ? & _). done.
    + simpl. unfold producer_run. by rewrite decide_False.
  - simpl. unfold finish_close. destruct (e_done e) eqn:Ed; [done|].
    assert (e_finish e = NotFinishing) as Ef.
    { destruct (decide (e_finish e = NotFinishing)) as [?|Hne]; [done|]. apply (ei_done e W) in Hne. congruence. }
    destruct W as [W1 W2 W3 W4 W5 W6 W7 W8 W9 W10]. constructor; simpl; try done.
    rewrite W9, Ef. naive_solver.
  - simpl. destruct (e_finish e) eqn:Ef; try done. unfold finish_wait. destruct (e_wg e =? 0) eqn:Ewg; [|done]. simp_bool.
    destruct W as [W1 W2 W3 W4 W5 W6 W7 W8 W9 W10]. constructor; simpl; try done; [|naive_solver]. rewrite W8, Ef. done.
  - simpl. destruct (e_finish e) eqn:Ef; try done. unfold finish_return, producer_drained. destruct (_ || _); [|done]. simpl.
    destruct W as [W1 W2 W3 W4 W5 W6 W7 W8 W9 W10]. constructor; simpl; try done; [rewrite W8, Ef; done|rewrite W9, Ef; naive_solver].
Qed.

Lemma initial_inv e : em_initial e -> em_inv e.
Proof.
  intros (topic & codec & hdr & [= <-]). constructor; simpl; try done.
  - intros i. rewrite lookup_empty. set_solver.
  - apply NoDup_nil_2.
  - set_solver.
  - intros i. rewrite lookup_empty. by intros [].
  - naive_solver.
Qed.

Lemma em_reachable_inv e : em_reachable e -> em_inv e.
Proof.
  intros (e0 & H0 & Hr). apply initial_inv in H0. induction Hr as [|e1 e2 e3 [a Ha] _ IH]; [done|]. apply IH.
  pose proof (em_exec_inv a e1 H0) as Hi. by rewrite Ha in Hi.
Qed.

(** The producer is closed only when there is nothing left to do. *)
Lemma closed_settled e :
  em_inv e -> e_wg e = 0 ->
  e_accepted e = [] /\ e_unchained e = [] /\ pd_inflight (e_producer e) = ∅ /\
  forall i pr, pd_promises (e_producer e) !! i = Some pr -> pr_finished pr = true.
Proof.
  intros W Hz. pose proof (ei_wg e W) as Hwg. rewrite Hz in Hwg.
  assert (e_accepted e = []) as Ha by (apply length_zero_iff_nil; lia).
  assert (e_unchained e = []) as Hu by (apply length_zero_iff_nil; lia).
  assert (awaiting (e_producer e) = 0%nat) as Hw by lia. unfold awaiting in Hw. rewrite count_map_zero in Hw.
  assert (forall i pr, pd_promises (e_producer e) !! i = Some pr -> pr_finished pr = true) as Hall.
  { intros i pr Hi. destruct (pr_finished pr) eqn:Ef; [done|]. exfalso.
    destruct (ei_chained e W i pr Hi Ef) as [Hin|Hin]; [rewrite Hu in Hin; by apply not_elem_of_nil in Hin|].
    specialize (Hw i pr Hi). unfold awaits_done in Hw. rewrite Ef in Hw. by apply bool_decide_eq_false in Hw. }
  split_and!; [done|done| |done]. apply elem_of_equiv_empty_L. intros i (pr & Hi & Hf)%(ei_inflight e W).
  rewrite (Hall i pr Hi) in Hf. done.
Qed.

Definition em_measure (e : Emitter) : nat :=
  (4 * length (e_accepted e) + 2 * length (e_unchained e) + size (pd_inflight (e_producer e)))%nat.

Fixpoint em_execs (l : list em_action) (e : Emitter) : outcome Emitter :=
  match l with
  | [] => Ret e
  | a :: l => e ← em_exec a e; em_execs l e
  end.

(** The actions that need no new emit: [r] are the reports of the client. *)
Definition drains (r : nat -> ProducerMessage + error) (a : em_action) : Prop :=
  match a with
  | ASend _ | AThen _ | AFinishWait | AFinishReturn false => True
  | AReport i x => x = r i
  | _ => False
  end.

Lemma drain_progress r e :
  em_inv e -> e_wg e <> 0 ->
  exists a e', drains r a /\ em_exec a e = Ret e' /\ em_inv e' /\ e_finish e' = e_finish e /\ (em_measure e' < em_measure e)%nat.
Proof.
  intros W Hne. unfold em_measure. destruct (e_accepted e) as [|[[key data] hdr] acc] eqn:Ea.
  - destruct (e_unchained e) as [|i un] eqn:Eu.
    + assert (exists i, i ∈ pd_inflight (e_producer e)) as [i Hi].
      { pose proof (ei_wg e W) as Hwg. rewrite Ea, Eu in Hwg. simpl in Hwg.
        destruct (count_map_pos awaits_done (pd_promises (e_producer e))) as (i & pr & Hpr & Haw); [unfold awaiting in Hwg; lia|].
        exists i. apply (ei_inflight e W). exists pr. split; [done|]. unfold awaits_done in Haw. by destruct (pr_finished pr). }
      destruct (report_inv e i (r i) W Hi) as (e' & E & W' & Ea' & Eu' & Hs & Hf). exists (AReport i (r i)), e'.
      rewrite Ea', Eu', Ea, Eu. split_and!; try done. simpl. lia.
    + destruct (then_inv e i 0 W) as (e' & E & W' & Ea' & Eu' & Hs & Hf); [by rewrite Eu|]. exists (AThen 0), e'.
      rewrite Ea', Hs, Ea. rewrite Eu in Eu'. split_and!; try done. lia.
  - destruct (em_send_inv e 0 key data hdr W) as (e' & E & W' & Ea' & Eu' & Hs & Hf); [by rewrite Ea|]. exists (ASend 0), e'.
    rewrite Hs, Eu'. rewrite Ea in Ea'. split_and!; try done. lia.
Qed.

Lemma drain_all r e :
  em_inv e -> exists l e', Forall (drains r) l /\ em_execs l e = Ret e' /\ em_inv e' /\ e_finish e' = e_finish e /\ e_wg e' = 0.
Proof.
  remember (em_measure e) as n eqn:En. revert e En. induction n as [n IH] using lt_wf_ind. intros e -> W.
  destruct (decide (e_wg e = 0)) as [Hz|Hne]; [exists [], e; split_and!; [constructor|done..]|].
  destruct (drain_progress r e W Hne) as (a & e1 & Hd & E & W1 & Hf & Hm).
  destruct (IH _ Hm e1 eq_refl W1) as (l & e' & HF & E' & W' & Hf' & Hz). exists (a :: l), e'.
  split_and!; [by constructor|simpl; by rewrite E|done|congruence|done].
Qed.

Lemma em_execs_app l1 l2 e : em_execs (l1 ++ l2) e = (e ← em_execs l1 e; em_execs l2 e).
Proof. revert e. induction l1 as [|a l1 IH]; intros e; [done|]. simpl. destruct (em_exec a e); [apply IH|done|done]. Qed.

(** ** Properties *)

(** C24. An emitter is safe to finish while others emit: in every state that any interleaving of emits,
    callbacks, reports of the Kafka client and [Finish] can reach, no operation sends on the closed
    channel of the producer or makes the wait group negative (only calling [Finish] twice panics);
    the producer is closed only when every accepted message has been handed to it and its promise is
    finished; and once [Finish] has begun an emit is answered with a promise that failed with
    [ErrEmitterAlreadyClosed] and has no other effect. *)
Theorem emitter_safe e :
  em_reachable e ->
  (forall a err, em_exec a e = Panic err -> a = AFinishClose /\ e_done e = true) /\
  (pd_closing (e_producer e) = true ->
     e_accepted e = [] /\ e_unchained e = [] /\ pd_inflight (e_producer e) = ∅ /\
     forall i pr, pd_promises (e_producer e) !! i = Some pr -> pr_finished pr = true) /\
  (e_finish e <> NotFinishing -> forall key msg hdr data, Encode (e_codec e) msg = Ok data ->
     exists p, emit_check key msg hdr e = (EmitRejected p, e) /\ pr_finished p = true /\ pr_err p = Some ErrEmitterAlreadyClosed).
Proof.
  intros W%em_reachable_inv. split_and!.
  - intros a err E. pose proof (em_exec_inv a e W) as Hi. by rewrite E in Hi.
  - intros Hc. apply closed_settled; [done|]. by apply (ei_closed e W).
  - intros Hf key msg hdr data He. apply (ei_done e W) in Hf. unfold emit_check. rewrite He, Hf.
    eexists. split; [by destruct msg|]. done.
Qed.

(** C25. [Finish] returns: from every reachable state in which it waits, if the goroutines that have
    passed the check go on and the client reports the messages in flight, whatever the reports are,
    the wait group reaches zero, and [Finish] closes the producer and returns without needing the
    timeout. *)
Theorem emitter_Finish_returns r e :
  em_reachable e -> e_finish e = Waiting ->
  exists l e', Forall (drains r) l /\ em_execs l e = Ret e' /\ e_finish e' = Finished.
Proof.
  intros W%em_reachable_inv Hf. destruct (drain_all r e W) as (l & e1 & HF & E & W1 & Hf1 & Hz).
  destruct (closed_settled e1 W1 Hz) as (_ & _ & Hin & _).
  eexists (l ++ [AFinishWait; AFinishReturn false]), _. split; [|split].
  - apply Forall_app. split; [done|]. by repeat constructor.
  - rewrite em_execs_app, E. simpl. rewrite Hf1, Hf. unfold finish_wait. rewrite Hz. simpl.
    unfold finish_return, producer_drained. simpl. rewrite bool_decide_eq_true_2 by done. simpl. done.
  - done.
Qed.

Definition em_demo0 : Emitter := mkEmitter StringCodec "t" None (mkProducer ∅ ∅ [] 0 false) 0 false [] [] NotFinishing [].
(** Two emits, one of them not yet handed to the producer, when [Finish] begins. *)
Definition em_demo : Emitter :=
  ret_or em_demo0 (em_execs [ACheck "k" (VString "x") None; ACheck "l" VNil None; ASend 0; AFinishClose] em_demo0).

Lemma em_execs_rtc l e e' : em_execs l e = Ret e' -> rtc em_step e e'.
Proof.
  revert e. induction l as [|a l IH]; intros e H; simpl in H; [by injection H as ->|].
  destruct (em_exec a e) as [e1| |] eqn:E; [|done|done]. eapply rtc_l; [by econstructor|by apply IH].
Qed.

Lemma em_demo_reachable : em_reachable em_demo.
Proof.
  exists em_demo0. split; [by exists "t"%string, StringCodec, None|].
  apply (em_execs_rtc [ACheck "k" (VString "x") None; ACheck "l" VNil None; ASend 0; AFinishClose]).
  apply ret_or_ok. vm_compute. done.
Qed.

Lemma emitter_safe_witness : exists p, emit_check "m" (VString "y") None em_demo = (EmitRejected p, em_demo) /\ pr_finished p = true.
Proof.
  destruct (emitter_safe em_demo) as (_ & _ & Hr).
  - exact em_demo_reachable.
  - destruct (Hr ltac:(by vm_compute) "m"%string (VString "y") None (Some "y"%string) eq_refl) as (p & E & Hf & _).
    exists p. split; [exact E|exact Hf].
Defined.

Lemma emitter_Finish_returns_witness :
  exists l e', Forall (drains (fun _ => inr (ErrNew "no broker"))) l /\ em_execs l em_demo = Ret e' /\ e_finish e' = Finished.
Proof.
  apply (emitter_Finish_returns (fun _ => inr (ErrNew "no broker")) em_demo).
  - exact em_demo_reachable.
  - reflexivity.
Defined.
