(* ===== verification/Graph.v ===== *)
(** * Group graphs

    [graph.go]: the topics a processor group consumes, joins, looks up and writes, with their
    codecs and callbacks.  A callback is user code, represented by a value of the type [CB].  An
    edge is used in one graph, so that naming the loop and table topics after the group is a
    change of the edge alone. *)
From Stdlib Require Import ZArith Lia.
From stdpp Require Import base gmap strings list.
From S2P Require Import Prelude Codec.
Open Scope Z_scope.

(** ** Data *)

(** [type topicDef struct]; the codec may be nil. *)
Record topicDef : Type := mkTopicDef { td_name : string; td_codec : option Codec }.

Definition tableSuffix : string := "-table".
Definition loopSuffix : string := "-loop".
Definition tableName (group : string) : string := group +:+ tableSuffix.
Definition loopName (group : string) : string := group +:+ loopSuffix.
Definition GroupTableName (group : string) : string := tableName group.

Section graph.
Context {CB : Type}.

(** [type Edge interface] and its implementations; [NilEdge] is the nil interface that [Inputs]
    returns for an empty list. *)
Inductive Edge : Type :=
| inputStream (t : topicDef) (cb : option CB)
| inputStreams (l : list (topicDef * option CB))
| loopStream (t : topicDef) (cb : option CB)
| outputStream (t : topicDef)
| inputTable (t : topicDef)
| crossTable (t : topicDef)
| groupTable (t : topicDef)
| NilEdge.

(** [type GroupGraph struct]; the lists hold the topic definitions of their edges. *)
Record GroupGraph : Type := mkGraph {
  gg_group : string;
  gg_inputTables : list topicDef;
  gg_crossTables : list topicDef;
  gg_inputStreams : list topicDef;
  gg_outputStreams : list topicDef;
  gg_loopStream : list topicDef;
  gg_groupTable : list topicDef;
  gg_codecs : gmap string (option Codec);
  gg_callbacks : gmap string (option CB);
  gg_outputStreamTopics : gset string;
  gg_joinCheck : gset string
}.

(** ** Constructors of edges *)

Definition Input (topic : string) (c : option Codec) (cb : option CB) : Edge :=
  inputStream (mkTopicDef topic c) cb.

Definition Inputs (topics : list string) (c : option Codec) (cb : option CB) : Edge :=
  match topics with
  | [] => NilEdge
  | _ => inputStreams ((fun topic => (mkTopicDef topic c, cb)) <$> topics)
  end.

Definition Loop (c : option Codec) (cb : option CB) : Edge := loopStream (mkTopicDef "" c) cb.
Definition Join (topic : string) (c : option Codec) : Edge := inputTable (mkTopicDef topic c).
Definition Lookup (topic : string) (c : option Codec) : Edge := crossTable (mkTopicDef topic c).
Definition Persist (c : option Codec) : Edge := groupTable (mkTopicDef "" c).
Definition Output (topic : string) (c : option Codec) : Edge := outputStream (mkTopicDef topic c).

(** ** Accessors *)

Definition InputStreams (gg : GroupGraph) : list topicDef := gg_inputStreams gg.
Definition JointTables (gg : GroupGraph) : list topicDef := gg_inputTables gg.
Definition LookupTables (gg : GroupGraph) : list topicDef := gg_crossTables gg.
Definition OutputStreams (gg : GroupGraph) : list topicDef := gg_outputStreams gg.
Definition LoopStream (gg : GroupGraph) : option topicDef := head (gg_loopStream gg).
Definition GroupTable (gg : GroupGraph) : option topicDef := head (gg_groupTable gg).

Definition isOutputTopic (topic : string) (gg : GroupGraph) : bool :=
  bool_decide (topic ∈ gg_outputStreamTopics gg).

(** [chainEdges] *)
Definition chainEdges (edgeList : list (list topicDef)) : list topicDef :=
  fold_left (fun chained edges => chained ++ edges) edgeList [].

(** [(e Edges) Topics()] *)
Definition Topics (e : list topicDef) : list string := td_name <$> e.

Definition graph_inputs (gg : GroupGraph) : list topicDef :=
  chainEdges [gg_inputStreams gg; gg_inputTables gg; gg_crossTables gg].
Definition copartitioned (gg : GroupGraph) : list topicDef :=
  chainEdges [gg_inputStreams gg; gg_inputTables gg].

(** A missing entry of a Go map reads as nil. *)
Definition graph_codec (topic : string) (gg : GroupGraph) : option Codec := mjoin (gg_codecs gg !! topic).
Definition graph_callback (topic : string) (gg : GroupGraph) : option CB := mjoin (gg_callbacks gg !! topic).
Definition joint (topic : string) (gg : GroupGraph) : bool := bool_decide (topic ∈ gg_joinCheck gg).

(** ** Definition of a group *)

Definition validateInputTopic (topic : string) (gg : GroupGraph) : outcome unit :=
  if String.eqb topic "" then Panic (ErrNew "Input topic cannot be empty. This will not work.")
  else if bool_decide (is_Some (gg_callbacks gg !! topic))
  then Panic (ErrNew "It is illegal to consume a topic twice")
  else Ret tt.

Definition add_codec (t : topicDef) (gg : GroupGraph) : GroupGraph :=
  mkGraph (gg_group gg) (gg_inputTables gg) (gg_crossTables gg) (gg_inputStreams gg) (gg_outputStreams gg)
    (gg_loopStream gg) (gg_groupTable gg) (<[td_name t := td_codec t]> (gg_codecs gg)) (gg_callbacks gg)
    (gg_outputStreamTopics gg) (gg_joinCheck gg).
Definition add_callback (topic : string) (cb : option CB) (gg : GroupGraph) : GroupGraph :=
  mkGraph (gg_group gg) (gg_inputTables gg) (gg_crossTables gg) (gg_inputStreams gg) (gg_outputStreams gg)
    (gg_loopStream gg) (gg_groupTable gg) (gg_codecs gg) (<[topic := cb]> (gg_callbacks gg))
    (gg_outputStreamTopics gg) (gg_joinCheck gg).

(** The case of an input stream, also run for every element of [inputStreams]. *)
Definition add_input (t : topicDef) (cb : option CB) (gg : GroupGraph) : outcome GroupGraph :=
  _ ← validateInputTopic (td_name t) gg;
  let gg := add_callback (td_name t) cb (add_codec t gg) in
  Ret (mkGraph (gg_group gg) (gg_inputTables gg) (gg_crossTables gg) (gg_inputStreams gg ++ [t])
         (gg_outputStreams gg) (gg_loopStream gg) (gg_groupTable gg) (gg_codecs gg) (gg_callbacks gg)
         (gg_outputStreamTopics gg) (gg_joinCheck gg)).

Fixpoint add_inputs (l : list (topicDef * option CB)) (gg : GroupGraph) : outcome GroupGraph :=
  match l with
  | [] => Ret gg
  | (t, cb) :: l => gg ← add_input t cb gg; add_inputs l gg
  end.

(** [setGroup] of a loop stream and of a group table. *)
Definition loop_setGroup (group : string) (t : topicDef) : topicDef := mkTopicDef (loopName group) (td_codec t).
Definition table_setGroup (group : string) (t : topicDef) : topicDef := mkTopicDef (GroupTableName group) (td_codec t).

(** One iteration of the loop of [DefineGroup]. *)
Definition add_edge (e : Edge) (gg : GroupGraph) : outcome GroupGraph :=
  match e with
  | inputStreams l => add_inputs l gg
  | inputStream t cb => add_input t cb gg
  | loopStream t cb =>
      let t := loop_setGroup (gg_group gg) t in
      let gg := add_callback (td_name t) cb (add_codec t gg) in
      Ret (mkGraph (gg_group gg) (gg_inputTables gg) (gg_crossTables gg) (gg_inputStreams gg)
             (gg_outputStreams gg) (gg_loopStream gg ++ [t]) (gg_groupTable gg) (gg_codecs gg)
             (gg_callbacks gg) (gg_outputStreamTopics gg) (gg_joinCheck gg))
  | outputStream t =>
      let gg := add_codec t gg in
      Ret (mkGraph (gg_group gg) (gg_inputTables gg) (gg_crossTables gg) (gg_inputStreams gg)
             (gg_outputStreams gg ++ [t]) (gg_loopStream gg) (gg_groupTable gg) (gg_codecs gg)
             (gg_callbacks gg) ({[td_name t]} ∪ gg_outputStreamTopics gg) (gg_joinCheck gg))
  | inputTable t =>
      let gg := add_codec t gg in
      Ret (mkGraph (gg_group gg) (gg_inputTables gg ++ [t]) (gg_crossTables gg) (gg_inputStreams gg)
             (gg_outputStreams gg) (gg_loopStream gg) (gg_groupTable gg) (gg_codecs gg)
             (gg_callbacks gg) (gg_outputStreamTopics gg) ({[td_name t]} ∪ gg_joinCheck gg))
  | crossTable t =>
      let gg := add_codec t gg in
      Ret (mkGraph (gg_group gg) (gg_inputTables gg) (gg_crossTables gg ++ [t]) (gg_inputStreams gg)
             (gg_outputStreams gg) (gg_loopStream gg) (gg_groupTable gg) (gg_codecs gg)
             (gg_callbacks gg) (gg_outputStreamTopics gg) (gg_joinCheck gg))
  | groupTable t =>
      let t := table_setGroup (gg_group gg) t in
      let gg := add_codec t gg in
      Ret (mkGraph (gg_group gg) (gg_inputTables gg) (gg_crossTables gg) (gg_inputStreams gg)
             (gg_outputStreams gg) (gg_loopStream gg) (gg_groupTable gg ++ [t]) (gg_codecs gg)
             (gg_callbacks gg) (gg_outputStreamTopics gg) (gg_joinCheck gg))
  | NilEdge => Ret gg
  end.

Fixpoint add_edges (edges : list Edge) (gg : GroupGraph) : outcome GroupGraph :=
  match edges with
  | [] => Ret gg
  | e :: edges => gg ← add_edge e gg; add_edges edges gg
  end.

Definition empty_graph (group : string) : GroupGraph := mkGraph group [] [] [] [] [] [] ∅ ∅ ∅ ∅.

Definition DefineGroup (group : string) (edges : list Edge) : outcome GroupGraph :=
  add_edges edges (empty_graph group).

(** The loop of [Validate]. *)
Fixpoint validate_topics (group : string) (l : list topicDef) : option error :=
  match l with
  | [] => None
  | t :: l =>
      if String.eqb (td_name t) (loopName group) then Some (ErrNew "should not directly use loop stream")
      else if String.eqb (td_name t) (tableName group) then Some (ErrNew "should not directly use group table")
      else validate_topics group l
  end.

Definition Validate (gg : GroupGraph) : option error :=
  if (1 <? length (gg_loopStream gg))%nat then Some (ErrNew "more than one loop stream in group graph")
  else if (1 <? length (gg_groupTable gg))%nat then Some (ErrNew "more than one group table in group graph")
  else if (length (gg_inputStreams gg) =? 0)%nat then Some (ErrNew "no input stream in group graph")
  else validate_topics (gg_group gg)
         (chainEdges [gg_outputStreams gg; gg_inputStreams gg; gg_inputTables gg; gg_crossTables gg]).
End graph.
Arguments Edge : clear implicits.
Arguments GroupGraph : clear implicits.

(** ** Specification *)

Section spec.
Context {CB : Type}.
Implicit Types (gg : GroupGraph CB) (e : Edge CB) (edges : list (Edge CB)).

(** A list of inputs stands for its elements. *)
Definition flat e : list (Edge CB) :=
  match e with
  | inputStreams l => (fun tc => inputStream tc.1 tc.2) <$> l
  | NilEdge => []
  | _ => [e]
  end.

(** The topics an edge defines, under the group's name. *)
Definition edge_defs (group : string) e : list topicDef :=
  match e with
  | inputStream t _ | outputStream t | inputTable t | crossTable t => [t]
  | inputStreams l => l.*1
  | loopStream t _ => [loop_setGroup group t]
  | groupTable t => [table_setGroup group t]
  | NilEdge => []
  end.

(** The topics an edge registers a callback for, and whether the registration is checked. *)
Definition edge_regs (group : string) e : list (string * bool) :=
  match e with
  | inputStream t _ => [(td_name t, true)]
  | inputStreams l => (fun tc => (td_name tc.1, true)) <$> l
  | loopStream t _ => [(loopName group, false)]
  | _ => []
  end.

Definition input_defs e : list topicDef :=
  match e with inputStream t _ => [t] | inputStreams l => l.*1 | _ => [] end.
Definition output_defs e : list topicDef := match e with outputStream t => [t] | _ => [] end.
Definition join_defs e : list topicDef := match e with inputTable t => [t] | _ => [] end.
Definition lookup_defs e : list topicDef := match e with crossTable t => [t] | _ => [] end.
Definition loop_defs (group : string) e : list topicDef :=
  match e with loopStream t _ => [loop_setGroup group t] | _ => [] end.
Definition table_defs (group : string) e : list topicDef :=
  match e with groupTable t => [table_setGroup group t] | _ => [] end.

(** Every input is named and is not consumed already. *)
Fixpoint regs_ok (seen : gset string) (l : list (string * bool)) : Prop :=
  match l with
  | [] => True
  | (t, checked) :: l => (checked = true -> t <> ""%string /\ t ∉ seen) /\ regs_ok ({[t]} ∪ seen) l
  end.

(** The last definition of a topic decides its codec. *)
Definition last_codec (topic : string) (l : list topicDef) (c : option Codec) : option Codec :=
  fold_left (fun c t => if String.eqb (td_name t) topic then td_codec t else c) l c.

(** ** Lemmas *)

Lemma add_edges_app edges1 edges2 gg :
  add_edges (edges1 ++ edges2) gg = (gg ← add_edges edges1 gg; add_edges edges2 gg).
Proof.
  revert gg. induction edges1 as [|e edges1 IH]; intros gg; simpl; [done|].
  destruct (add_edge e gg); simpl; [apply IH|done|done].
Qed.

Lemma add_edges_flat edges gg : add_edges edges gg = add_edges (edges ≫= flat) gg.
Proof.
  revert gg. induction edges as [|e edges IH]; intros gg; [done|]. csimpl. rewrite add_edges_app.
  assert (add_edge e gg = add_edges (flat e) gg) as ->.
  { destruct e as [t cb|l|t cb|t|t|t|t|]; simpl; try done; [by destruct (add_input t cb gg)|].
    revert gg. induction l as [|[t cb] l IHl]; intros gg; csimpl; [done|].
    destruct (add_input t cb gg); simpl; [apply IHl|done|done]. }
  destruct (add_edges (flat e) gg); simpl; [apply IH|done|done].
Qed.

(** The list and set fields grow by what the edges define. *)
Definition graph_grows (group : string) edges gg gg' : Prop :=
  gg_group gg' = gg_group gg /\
  gg_inputStreams gg' = gg_inputStreams gg ++ (edges ≫= input_defs) /\
  gg_outputStreams gg' = gg_outputStreams gg ++ (edges ≫= output_defs) /\
  gg_inputTables gg' = gg_inputTables gg ++ (edges ≫= join_defs) /\
  gg_crossTables gg' = gg_crossTables gg ++ (edges ≫= lookup_defs) /\
  gg_loopStream gg' = gg_loopStream gg ++ (edges ≫= loop_defs group) /\
  gg_groupTable gg' = gg_groupTable gg ++ (edges ≫= table_defs group) /\
  gg_outputStreamTopics gg' = list_to_set (Topics (edges ≫= output_defs)) ∪ gg_outputStreamTopics gg /\
  gg_joinCheck gg' = list_to_set (Topics (edges ≫= join_defs)) ∪ gg_joinCheck gg /\
  (forall topic, graph_codec topic gg' = last_codec topic (edges ≫= edge_defs group) (graph_codec topic gg)) /\
  (forall topic, is_Some (gg_callbacks gg' !! topic) <->
     topic ∈ (edges ≫= edge_regs group).*1 \/ is_Some (gg_callbacks gg !! topic)).

Definition simple e : Prop := match e with inputStreams _ | NilEdge => False | _ => True end.

Lemma graph_codec_insert topic t gg :
  graph_codec topic (add_codec t gg) = if String.eqb (td_name t) topic then td_codec t else graph_codec topic gg.
Proof.
  unfold graph_codec. simpl. rewrite lookup_insert. destruct (String.eqb_spec (td_name t) topic); by case_decide.
Qed.

Lemma add_edge_grows e gg gg' :
  simple e -> add_edge e gg = Ret gg' -> graph_grows (gg_group gg) [e] gg gg'.
Proof.
  intros Hs Hadd. assert (forall t topic, graph_codec topic (add_codec t gg) =
    last_codec topic [t] (graph_codec topic gg)) as Hc by (intros; apply graph_codec_insert).
  unfold graph_grows, Topics.
  destruct e as [t cb|l|t cb|t|t|t|t|]; simpl in *; try done;
    [unfold add_input in Hadd; destruct (validateInputTopic _ _); simplify_eq/=|simplify_eq/=..];
    rewrite ?app_nil_r, ?union_empty_r_L, ?union_empty_l_L; split_and!; try done; try apply Hc;
    intros topic; csimpl; rewrite ?lookup_insert, ?list_elem_of_singleton; try case_decide;
    try naive_solver; try apply (Hc (loop_setGroup _ t)); try apply (Hc (table_setGroup _ t)); set_solver.
Qed.

Lemma add_edges_grows edges gg gg' :
  Forall simple edges -> add_edges edges gg = Ret gg' -> graph_grows (gg_group gg) edges gg gg'.
Proof.
  intros Hs. revert gg. induction Hs as [|e edges He Hs IH]; intros gg Hadd.
  { simpl in Hadd. simplify_eq. unfold graph_grows. csimpl. rewrite !app_nil_r, !union_empty_l_L.
    split_and!; try done. set_solver. }
  simpl in Hadd. destruct (add_edge e gg) as [gg1| |] eqn:E; [|done|done]. simpl in Hadd.
  destruct (add_edge_grows e gg gg1 He E) as (G & I1 & O1 & T1 & X1 & L1 & P1 & S1 & J1 & C1 & R1).
  destruct (IH gg1 Hadd) as (G' & I2 & O2 & T2 & X2 & L2 & P2 & S2 & J2 & C2 & R2).
  unfold graph_grows, Topics in *. csimpl in *. rewrite G in *. rewrite ?app_nil_r in *.
  split_and!; try congruence; try (by rewrite ?I2, ?I1, ?O2, ?O1, ?T2, ?T1, ?X2, ?X1, ?L2, ?L1, ?P2, ?P1, app_assoc).
  - rewrite S2, S1, fmap_app, list_to_set_app_L. clear. set_solver.
  - rewrite J2, J1, fmap_app, list_to_set_app_L. clear. set_solver.
  - intros topic. unfold last_codec in *. rewrite C2, C1, fold_left_app. done.
  - intros topic. rewrite R2, R1, fmap_app, elem_of_app. naive_solver.
Qed.
End spec.

(** The registrations decide whether the group can be defined. *)
Lemma add_edges_regs {CB} (edges : list (Edge CB)) gg :
  Forall simple edges ->
  (exists gg', add_edges edges gg = Ret gg') <->
  regs_ok (dom (gg_callbacks gg)) (edges ≫= edge_regs (gg_group gg)).
Proof.
  intros Hs. revert gg. induction Hs as [|e edges He Hs IH]; intros gg; simpl.
  { split; [done|by exists gg]. }
  assert (forall gg1, add_edge e gg = Ret gg1 -> gg_group gg1 = gg_group gg) as Hg
    by (intros gg1 E; by destruct (add_edge_grows e gg gg1 He E)).
  csimpl. destruct e as [t cb|l|t cb|t|t|t|t|]; simpl in *; try done;
    try (rewrite IH; simpl; done).
  - unfold add_input, validateInputTopic in *.
    destruct (String.eqb_spec (td_name t) "") as [E|E]; simpl.
    { split; [by intros []|]. intros [[? _] _]; done. }
    case_bool_decide as Hin; simpl.
    { split; [by intros []|]. intros [[_ Hn] _]; [done|]. destruct Hn. by apply elem_of_dom. }
    rewrite IH. simpl. rewrite dom_insert_L.
    split; [|by intros [_ ?]]. intros H. split; [|done]. intros _. split; [done|].
    apply not_elem_of_dom. by apply eq_None_not_Some.
  - rewrite IH. simpl. rewrite dom_insert_L. naive_solver.
Qed.

Lemma flat_simple {CB} (edges : list (Edge CB)) : Forall simple (edges ≫= flat).
Proof.
  apply Forall_forall. intros e (e0 & Hin & _)%list_elem_of_bind.
  destruct e0 as [t cb|l|t cb|t|t|t|t|]; simpl in Hin;
    try (apply list_elem_of_singleton in Hin as ->; done); [|by apply not_elem_of_nil in Hin].
  apply list_elem_of_fmap in Hin as (x & -> & _). done.
Qed.

(** Flattening keeps what the edges define. *)
Lemma flat_bind {CB A} (f : Edge CB -> list A) (edges : list (Edge CB)) :
  (forall e, flat e ≫= f = f e) -> (edges ≫= flat) ≫= f = edges ≫= f.
Proof. intros Hf. induction edges as [|e edges IH]; csimpl; [done|]. by rewrite bind_app, Hf, IH. Qed.

Ltac flat_case :=
  intros [t cb|l|t cb|t|t|t|t|]; csimpl; try done;
  induction l as [|[t cb] l IHl]; csimpl; [done|by rewrite IHl].

(** ** Properties *)

(** C36. [DefineGroup] succeeds exactly if every input topic has a name and is not consumed already
    (by an earlier input or by the loop stream); it panics otherwise. *)
Theorem DefineGroup_defined_iff {CB} (group : string) (edges : list (Edge CB)) :
  (exists gg, DefineGroup group edges = Ret gg) <-> regs_ok ∅ (edges ≫= edge_regs group).
Proof.
  unfold DefineGroup. rewrite add_edges_flat. rewrite (add_edges_regs _ _ (flat_simple edges)).
  rewrite flat_bind; [done|]. flat_case.
Qed.

(** What a defined group knows about a topic: its codec is that of the last edge that names the
    topic, whatever kind of edge that is (so an input and an output on the same topic share one
    codec); [Emit] accepts exactly the topics of the output edges; the inputs are those of the
    edges, in order. *)
Theorem DefineGroup_topics {CB} (group : string) (edges : list (Edge CB)) gg (topic : string) :
  DefineGroup group edges = Ret gg ->
  graph_codec topic gg = last_codec topic (edges ≫= edge_defs group) None /\
  isOutputTopic topic gg = bool_decide (topic ∈ Topics (edges ≫= output_defs)) /\
  InputStreams gg = edges ≫= input_defs /\
  copartitioned gg = (edges ≫= input_defs) ++ (edges ≫= join_defs).
Proof.
  unfold DefineGroup. rewrite add_edges_flat. intros Hd.
  destruct (add_edges_grows _ _ _ (flat_simple edges) Hd) as (G & I1 & O1 & T1 & X1 & L1 & P1 & S1 & J1 & C1 & R1).
  rewrite flat_bind in I1, O1, T1, S1 by flat_case. split_and!.
  - rewrite C1. simpl. rewrite flat_bind by flat_case. done.
  - unfold isOutputTopic. rewrite S1. simpl. apply bool_decide_ext. set_solver.
  - done.
  - unfold copartitioned, chainEdges. simpl. by rewrite I1, T1.
Qed.

Definition demo_edges : list (Edge nat) :=
  [Input "clicks" (Some Int64Codec) (Some 1%nat); Output "clicks" (Some StringCodec);
   Loop (Some StringCodec) (Some 2%nat); Persist (Some Int64Codec); Join "users-table" (Some BytesCodec)].

Definition demo_graph : GroupGraph nat :=
  ret_or (empty_graph "g") (DefineGroup "g" demo_edges).

Lemma demo_graph_defined : DefineGroup "g" demo_edges = Ret demo_graph.
Proof. apply ret_or_ok. vm_cast_no_check (eq_refl true). Qed.

(** The input topic clicks is decoded with the codec of the output edge. *)
Lemma DefineGroup_topics_witness :
  graph_codec "clicks" demo_graph = Some StringCodec /\
  InputStreams demo_graph = [mkTopicDef "clicks" (Some Int64Codec)].
Proof.
  destruct (DefineGroup_topics "g" demo_edges demo_graph "clicks" demo_graph_defined) as (Hc & _ & Hi & _).
  split; [exact Hc|exact Hi].
Defined.

Lemma validate_topics_None group l :
  validate_topics group l = None <->
  Forall (fun t => td_name t <> loopName group /\ td_name t <> tableName group) l.
Proof.
  induction l as [|t l IH]; simpl; [by split|]. rewrite Forall_cons, <- IH.
  destruct (String.eqb_spec (td_name t) (loopName group)), (String.eqb_spec (td_name t) (tableName group));
    naive_solver.
Qed.

(** The names of the loop stream and of the group table differ. *)
Lemma loopName_tableName group : loopName group <> tableName group.
Proof.
  unfold loopName, tableName. induction group as [|c group IH]; [done|]. simpl. by intros [= ?].
Qed.

Lemma last_codec_app topic l1 l2 c : last_codec topic (l1 ++ l2) c = last_codec topic l2 (last_codec topic l1 c).
Proof. unfold last_codec. apply fold_left_app. Qed.

Lemma last_codec_none topic l c : topic ∉ Topics l -> last_codec topic l c = c.
Proof.
  revert c. induction l as [|t l IH]; intros c Hn; [done|]. unfold Topics, last_codec in *. csimpl in *.
  apply not_elem_of_cons in Hn as [Ht Hn]. destruct (String.eqb_spec (td_name t) topic); [congruence|].
  by apply IH.
Qed.

(** If the edges that define a topic are exactly [l], and [l] has at most one element, its codec is the
    one of that element. *)
Lemma last_codec_unique topic (l d : list topicDef) :
  (forall t, t ∈ d -> td_name t = topic -> t ∈ l) -> (forall t, t ∈ l -> t ∈ d /\ td_name t = topic) ->
  (length l <= 1)%nat -> last_codec topic d None = mjoin (td_codec <$> head l).
Proof.
  intros Hd Hl Hlen. destruct l as [|t0 [|? ?]]; simpl in Hlen; [|clear Hlen|lia]; simpl.
  - apply last_codec_none. intros (t & -> & Ht)%list_elem_of_fmap. by apply (not_elem_of_nil t), Hd.
  - destruct (Hl t0 ltac:(left)) as [Hin Hn].
    destruct (list_elem_of_split d t0 Hin) as (d1 & d2 & ->).
    rewrite last_codec_app. unfold last_codec at 1. simpl. rewrite Hn, String.eqb_refl.
    fold (last_codec topic d2 (td_codec t0)).
    assert (Forall (fun t => td_name t = topic -> t = t0) d2) as HF.
    { apply Forall_forall. intros t Ht Heq. apply list_elem_of_singleton. apply Hd; [set_solver|done]. }
    clear -HF. induction d2 as [|t d2 IH]; [done|]. apply Forall_cons in HF as [Ht HF].
    unfold last_codec in *. simpl. destruct (String.eqb_spec (td_name t) topic) as [E|E]; [|by apply IH].
    rewrite (Ht E). by apply IH.
Qed.

Lemma Validate_None {CB} (gg : GroupGraph CB) :
  Validate gg = None <->
  (length (gg_loopStream gg) <= 1)%nat /\ (length (gg_groupTable gg) <= 1)%nat /\ gg_inputStreams gg <> [] /\
  Forall (fun t => td_name t <> loopName (gg_group gg) /\ td_name t <> tableName (gg_group gg))
    (gg_outputStreams gg ++ gg_inputStreams gg ++ gg_inputTables gg ++ gg_crossTables gg).
Proof.
  unfold Validate, chainEdges. simpl. rewrite <- !app_assoc.
  destruct (Nat.ltb_spec 1 (length (gg_loopStream gg))); [split; [done|lia]|].
  destruct (Nat.ltb_spec 1 (length (gg_groupTable gg))); [split; [done|lia]|].
  destruct (gg_inputStreams gg) as [|i il]; [naive_solver|]. cbn [length Nat.eqb].
  rewrite validate_topics_None. naive_solver.
Qed.

(** A definition with the name of the loop stream or the group table in a validated graph comes from
    a loop or persist edge. *)
Lemma edge_defs_kind {CB} group (edges : list (Edge CB)) t :
  t ∈ (edges ≫= edge_defs group) ->
  t ∈ (edges ≫= output_defs) ++ (edges ≫= input_defs) ++ (edges ≫= join_defs) ++ (edges ≫= lookup_defs) \/
  t ∈ (edges ≫= loop_defs group) /\ td_name t = loopName group \/
  t ∈ (edges ≫= table_defs group) /\ td_name t = tableName group.
Proof.
  intros (e & Ht & He)%list_elem_of_bind. rewrite !elem_of_app, !list_elem_of_bind.
  destruct e as [t' cb|l|t' cb|t'|t'|t'|t'|]; simpl in Ht;
    try apply list_elem_of_singleton in Ht as ->; try by apply not_elem_of_nil in Ht.
  - left. right. left. exists (inputStream t' cb). simpl. split; [left|done].
  - left. right. left. exists (inputStreams l). done.
  - right. left. split; [|done]. exists (loopStream t' cb). simpl. split; [left|done].
  - left. left. exists (outputStream t'). simpl. split; [left|done].
  - left. right. right. left. exists (inputTable t'). simpl. split; [left|done].
  - left. right. right. right. exists (crossTable t'). simpl. split; [left|done].
  - right. right. split; [|done]. exists (groupTable t'). simpl. split; [left|done].
Qed.

Lemma loop_defs_name {CB} group (edges : list (Edge CB)) t :
  t ∈ (edges ≫= loop_defs group) -> t ∈ (edges ≫= edge_defs group) /\ td_name t = loopName group.
Proof.
  intros (e & Ht & He)%list_elem_of_bind. rewrite list_elem_of_bind.
  destruct e as [t' cb|l|t' cb|t'|t'|t'|t'|]; simpl in Ht; try by apply not_elem_of_nil in Ht.
  apply list_elem_of_singleton in Ht as ->. split; [|done]. exists (loopStream t' cb). simpl. split; [left|done].
Qed.

Lemma table_defs_name {CB} group (edges : list (Edge CB)) t :
  t ∈ (edges ≫= table_defs group) -> t ∈ (edges ≫= edge_defs group) /\ td_name t = tableName group.
Proof.
  intros (e & Ht & He)%list_elem_of_bind. rewrite list_elem_of_bind.
  destruct e as [t' cb|l|t' cb|t'|t'|t'|t'|]; simpl in Ht; try by apply not_elem_of_nil in Ht.
  apply list_elem_of_singleton in Ht as ->. split; [|done]. exists (groupTable t'). simpl. split; [left|done].
Qed.

(** C37. In a validated graph the loop stream and the group table belong to the group alone: there is at
    most one of each, no input, output, join or lookup edge uses their topics, and the codecs used for
    them are those of the loop and persist edges. *)
Theorem Validate_protects_group_topics {CB} (group : string) (edges : list (Edge CB)) gg :
  DefineGroup group edges = Ret gg -> Validate gg = None ->
  (length (gg_loopStream gg) <= 1)%nat /\ (length (gg_groupTable gg) <= 1)%nat /\ InputStreams gg <> [] /\
  isOutputTopic (loopName group) gg = false /\ isOutputTopic (tableName group) gg = false /\
  loopName group ∉ Topics (graph_inputs gg) /\ tableName group ∉ Topics (graph_inputs gg) /\
  graph_codec (loopName group) gg = mjoin (td_codec <$> LoopStream gg) /\
  graph_codec (tableName group) gg = mjoin (td_codec <$> GroupTable gg).
Proof.
  intros Hd (Hl & Ht & Hi & HF)%Validate_None. revert Hd. unfold DefineGroup. rewrite add_edges_flat. intros Hd.
  destruct (add_edges_grows _ _ _ (flat_simple edges) Hd) as (G & I1 & O1 & T1 & X1 & L1 & P1 & S1 & J1 & C1 & R1).
  simpl in *. rewrite flat_bind in I1, O1, T1, X1, L1, P1, S1 by flat_case.
  rewrite G, O1, I1, T1, X1, Forall_forall in HF.
  split_and!; try done.
  - apply bool_decide_eq_false. rewrite S1, union_empty_r_L, elem_of_list_to_set.
    intros (t & E & Hin)%list_elem_of_fmap. destruct (HF t); [|congruence]. apply elem_of_app. by left.
  - apply bool_decide_eq_false. rewrite S1, union_empty_r_L, elem_of_list_to_set.
    intros (t & E & Hin)%list_elem_of_fmap. destruct (HF t); [|congruence]. apply elem_of_app. by left.
  - unfold graph_inputs, chainEdges. simpl. rewrite I1, T1, X1, <- app_assoc. intros (t & E & Hin)%list_elem_of_fmap.
    destruct (HF t); [|congruence]. apply elem_of_app. by right.
  - unfold graph_inputs, chainEdges. simpl. rewrite I1, T1, X1, <- app_assoc. intros (t & E & Hin)%list_elem_of_fmap.
    destruct (HF t); [|congruence]. apply elem_of_app. by right.
  - rewrite C1, flat_bind by flat_case. unfold LoopStream. rewrite L1 in *. apply last_codec_unique; [|apply loop_defs_name|done].
    intros t [Hin|[[Hin _]|[_ E]]]%edge_defs_kind Hn; [by destruct (HF t Hin)|done|].
    by destruct (loopName_tableName group); congruence.
  - rewrite C1, flat_bind by flat_case. unfold GroupTable. rewrite P1 in *. apply last_codec_unique; [|apply table_defs_name|done].
    intros t [Hin|[[_ E]|[Hin _]]]%edge_defs_kind Hn; [by destruct (HF t Hin)| |done].
    by destruct (loopName_tableName group); congruence.
Qed.

Lemma Validate_protects_group_topics_witness :
  graph_codec (loopName "g") demo_graph = Some StringCodec /\ isOutputTopic (tableName "g") demo_graph = false.
Proof.
  destruct (Validate_protects_group_topics "g" demo_edges demo_graph demo_graph_defined eq_refl)
    as (_ & _ & _ & _ & Ho & _ & _ & Hc & _).
  split; [exact Hc|exact Ho].
Defined.
