(* ===== verification/View.v ===== *)
(** * Views

    [view.go] and [iterator.go]: a read-only copy of all partitions of a table. *)
From Stdlib Require Import ZArith Lia Ascii.
From stdpp Require Import base gmap strings list sorting.
From S2P Require Import Prelude Multierr Signal Codec Storage Memory MergeIterator Headers Stats Proxy PartitionTable.
Open Scope Z_scope.

(** ** Data *)

(** [type ViewState int]. *)
Definition ViewStateIdle : Z := 0.
Definition ViewStateInitializing : Z := 1.
Definition ViewStateConnecting : Z := 2.
Definition ViewStateCatchUp : Z := 3.
Definition ViewStateRunning : Z := 4.

Definition newViewSignal : outcome Signal :=
  Signal_SetState (fun _ => false) ViewStateIdle
    (NewSignal [ViewStateIdle; ViewStateInitializing; ViewStateConnecting; ViewStateCatchUp; ViewStateRunning]).

(** ** The partition of a key *)

(** [fnv.New32a]: the hasher of [DefaultHasher]. *)
Definition fnv_prime : Z := 16777619.
Fixpoint fnv32a (s : string) (h : Z) : Z :=
  match s with
  | EmptyString => h
  | String c s => fnv32a s (uint32 (Z.lxor h (Z.of_nat (nat_of_ascii c)) * fnv_prime))
  end.
Definition DefaultHasher (key : string) : res Z := Ok (fnv32a key 2166136261).

(** [hash]: [hasher] gives the sum of the key as a [uint32], or the error of writing to it.  The
    negation of the smallest [int32] is itself. *)
Definition key_hash (hasher : string -> res Z) (n : Z) (key : string) : res Z :=
  match hasher key with
  | Err e => Err e
  | Ok sum =>
      let hash := int32 sum in
      let hash := if hash <? 0 then int32 (- hash) else hash in
      if n =? 0 then Err (ErrNew "no partitions found")
      else Ok (Z.rem hash (int32 n))
  end.

(** [partitions[h]] panics outside the bounds. *)
Definition at_index {A} (l : list A) (h : Z) : outcome A :=
  if h <? 0 then Panic (ErrNew "index out of range")
  else match l !! Z.to_nat h with
       | Some x => Ret x
       | None => Panic (ErrNew "index out of range")
       end.

Section view.
Context {S I : Type} {ST : Storage S I} {IT : Iterator I}.

(** [type View struct]; the hasher, the codec and the reconnect flag are its options. *)
Record View : Type := mkView {
  v_topic : string;
  v_hasher : string -> res Z;
  v_tableCodec : Codec;
  v_partitions : list (PartitionTable S);
  v_state : Signal
}.

Definition set_partitions (l : list (PartitionTable S)) (v : View) : View :=
  mkView (v_topic v) (v_hasher v) (v_tableCodec v) l (v_state v).

(** ** Creation *)

(** The check for gaps in the list of partitions. *)
Fixpoint gapless (i : Z) (partitions : list Z) : bool :=
  match partitions with
  | [] => true
  | p :: partitions => (i =? p) && gapless (i + 1) partitions
  end.

(** The second loop: [backoffs] are the results of the backoff builder. *)
Fixpoint create_tables (topic : string) (u : UpdateCallback S) (partitions : list Z) (backoffs : list (option error))
    (acc : list (PartitionTable S)) : outcome (option error * list (PartitionTable S)) :=
  match partitions, backoffs with
  | [], _ => Ret (None, acc)
  | p :: partitions, Some e :: _ => Ret (Some (ErrWrap "Error creating backoff" e), acc)
  | p :: partitions, _ =>
      t ← newPartitionTable topic p u empty_heap;
      create_tables topic u partitions (tail backoffs) (acc ++ [t])
  end.

(** [createPartitions], given the results of building the topic manager, of [tm.Partitions] and of
    [tm.Close]. *)
Definition createPartitions (u : UpdateCallback S) (topicmgr : option error) (parts : res (list Z))
    (closed : option error) (backoffs : list (option error)) (v : View) : outcome (option error * View) :=
  match topicmgr with
  | Some e => Ret (Some (ErrWrap "Error creating topic manager" e), v)
  | None =>
      '(rerr, v) ←
        match parts with
        | Err e => Ret (Some (ErrWrap "Error getting partitions for topic" e), v)
        | Ok partitions =>
            if negb (gapless 0 partitions)
            then Ret (Some (ErrNew "Partition numbers are not sequential for topic"), v)
            else
              '(err, l) ← create_tables (v_topic v) u partitions backoffs (v_partitions v);
              Ret (err, set_partitions l v)
        end;
      Ret (match closed, rerr with
           | Some e, None => Some (ErrWrap "Error closing topic manager" e)
           | _, _ => rerr
           end, v)
  end.

(** [NewView], given the results of applying the options, of building the consumer and the topic
    manager, and those of [createPartitions]. *)
Definition NewView (topic : string) (hasher : string -> res Z) (codec : Codec) (u : UpdateCallback S)
    (options consumer tmgr : option error) (topicmgr : option error) (parts : res (list Z)) (closed : option error)
    (backoffs : list (option error)) : outcome (res View) :=
  match options, consumer, tmgr with
  | Some e, _, _ => Ret (Err (ErrWrap "Error applying user-defined options" e))
  | None, Some e, _ => Ret (Err (ErrWrap "Error creating sarama consumer for brokers" e))
  | None, None, Some e => Ret (Err (ErrWrap "Error creating topic manager" e))
  | None, None, None =>
      state ← newViewSignal;
      '(err, v) ← createPartitions u topicmgr parts closed backoffs (mkView topic hasher codec [] state);
      Ret (match err with Some e => Err e | None => Ok v end)
  end.

(** ** State *)

(** The loop over the known states: the lowest one, -1 if there is none. *)
Definition lowestState (states : gmap nat Z) : Z :=
  map_fold (fun _ s low => if (low =? -1) || (s <? low) then s else low) (-1) states.

(** The translation of a partition state; -1 for an unknown one. *)
Definition view_state_of (s : Z) : Z :=
  if s =? PartitionStopped then ViewStateIdle
  else if s =? PartitionInitializing then ViewStateInitializing
  else if s =? PartitionConnecting then ViewStateConnecting
  else if s =? PartitionRecovering then ViewStateCatchUp
  else if s =? PartitionPreparing then ViewStateCatchUp
  else if s =? PartitionRunning then ViewStateRunning
  else -1.

(** [updateViewState(idx, state)] of [runStateMerger]. *)
Definition updateViewState (pick : nat -> bool) (idx : nat) (state : Z) (states : gmap nat Z) (sig : Signal)
  : outcome (gmap nat Z * Signal) :=
  let states := <[idx := state]> states in
  let newState := view_state_of (lowestState states) in
  if newState =? -1 then Ret (states, sig)
  else sig ← Signal_SetState pick newState sig; Ret (states, sig).

(** The reports the merger receives from the observers of the partitions, in some order. *)
Fixpoint runStateMerger (pick : nat -> bool) (reports : list (nat * Z)) (states : gmap nat Z) (sig : Signal)
  : outcome (gmap nat Z * Signal) :=
  match reports with
  | [] => Ret (states, sig)
  | (idx, state) :: reports =>
      '(states, sig) ← updateViewState pick idx state states sig;
      runStateMerger pick reports states sig
  end.

(** ** Access *)

Definition view_hash (key : string) (v : View) : res Z :=
  key_hash (v_hasher v) (Z.of_nat (length (v_partitions v))) key.

Definition view_find (key : string) (v : View) : outcome (res (PartitionTable S)) :=
  match view_hash key v with
  | Err e => Ret (Err e)
  | Ok h => p ← at_index (v_partitions v) h; Ret (Ok p)
  end.

Definition view_Get (key : string) (v : View) : outcome (res value) :=
  r ← view_find key v;
  match r with
  | Err e => Ret (Err e)
  | Ok partTable =>
      d ← table_Get key partTable;
      match d with
      | Err e => Ret (Err (ErrWrap "error getting value" e))
      | Ok None => Ret (Ok VNil)
      | Ok (Some data) =>
          Ret (match Decode (v_tableCodec v) (Some data) with
               | Err e => Err (ErrWrap "error decoding value" e)
               | Ok value => Ok value
               end)
      end
  end.

Definition view_Has (key : string) (v : View) : outcome (res bool) :=
  r ← view_find key v;
  match r with
  | Err e => Ret (Err e)
  | Ok partTable => table_Has key partTable
  end.

(** [type iterator struct] of the view. *)
Record view_iterator : Type := mkViewIterator { vi_iter : @mergeIterator I; vi_codec : Codec }.

(** The loop that opens an iterator per partition; after an error those already open are released
    and none is returned. *)
Fixpoint open_iters (opens : PartitionTable S -> outcome (res I)) (l : list (PartitionTable S)) (iters : list I)
  : outcome (res (list I)) :=
  match l with
  | [] => Ret (Ok iters)
  | p :: l =>
      r ← opens p;
      match r with
      | Err e => Ret (Err (ErrWrap "error opening partition iterator" e))
      | Ok iter => open_iters opens l (iters ++ [iter])
      end
  end.

Definition view_Iterator (v : View) : outcome (res view_iterator) :=
  r ← open_iters table_Iterator (v_partitions v) [];
  match r with
  | Err e => Ret (Err e)
  | Ok iters => Ret (Ok (mkViewIterator (NewMultiIterator iters) (v_tableCodec v)))
  end.

(** [[]byte(s)] of the empty string is an empty slice, not nil. *)
Definition view_IteratorWithRange (start limit : string) (v : View) : outcome (res view_iterator) :=
  r ← open_iters (table_IteratorWithRange (Some start) (Some limit)) (v_partitions v) [];
  match r with
  | Err e => Ret (Err e)
  | Ok iters => Ret (Ok (mkViewIterator (NewMultiIterator iters) (v_tableCodec v)))
  end.

Definition vi_Next (i : view_iterator) : bool * view_iterator :=
  let '(b, it) := merge_Next (vi_iter i) in (b, mkViewIterator it (vi_codec i)).
Definition vi_Key (i : view_iterator) : string := string_of_bytes (merge_Key (vi_iter i)).
Definition vi_Value (i : view_iterator) : res value :=
  data ← merge_Value (vi_iter i);
  match data with None => Ok VNil | Some _ => Decode (vi_codec i) data end.
Definition vi_Err (i : view_iterator) : option error := merge_Err (vi_iter i).
Definition vi_Release (i : view_iterator) : view_iterator :=
  mkViewIterator (merge_Release (vi_iter i)) (vi_codec i).
Definition vi_Seek (key : string) (i : view_iterator) : bool * view_iterator :=
  let '(b, it) := merge_Seek (Some key) (vi_iter i) in (b, mkViewIterator it (vi_codec i)).

(** [Evict] deletes from the partition table; the other partitions are unchanged. *)
Definition view_Evict (key : string) (v : View) : outcome (option error * View) :=
  match view_hash key v with
  | Err e => Ret (Some e, v)
  | Ok h =>
      p ← at_index (v_partitions v) h;
      '(err, p) ← table_Delete key p;
      Ret (err, set_partitions (<[Z.to_nat h := p]> (v_partitions v)) v)
  end.

Definition view_Recovered (v : View) : bool := forallb IsRecovered (v_partitions v).
Definition view_CurrentState (v : View) : Z := Signal_State (v_state v).

(** ** Run *)

Fixpoint close_tables (l : list (PartitionTable S)) : outcome (list (option error)) :=
  match l with
  | [] => Ret []
  | p :: l => '(err, _) ← table_Close p; errs ← close_tables l; Ret (err :: errs)
  end.

(** [close]: the view forgets its partitions. *)
Definition view_close (v : View) : outcome (option error * View) :=
  results ← close_tables (v_partitions v);
  Ret (Errors_NilOrError (ErrGroup_Wait NewErrGroup results).1, set_partitions [] v).

(** [Run], given what recovering and catching up the partitions returned and whether the context was
    done in between: the deferred closing and the final state. *)
Definition view_Run (pick : nat -> bool) (recovered : list (option error)) (ctxDone : bool)
    (caughtUp : list (option error)) (v : View) : outcome (option error * View) :=
  let rerr :=
    match Errors_NilOrError (ErrGroup_Wait NewErrGroup recovered).1 with
    | Some e => Some (ErrWrap "Error recovering partitions for view" e)
    | None =>
        if ctxDone then None
        else match Errors_NilOrError (ErrGroup_Wait NewErrGroup caughtUp).1 with
             | Some e => Some (ErrWrap "Error catching up partitions for view" e)
             | None => None
             end
    end in
  '(cerr, v) ← view_close v;
  let errs := Errors_Collect (Errors_Collect new_Errors rerr) cerr in
  sig ← Signal_SetState pick ViewStateIdle (v_state v);
  Ret (Errors_NilOrError errs, mkView (v_topic v) (v_hasher v) (v_tableCodec v) (v_partitions v) sig).
End view.
Arguments View : clear implicits.

(** ** Lemmas *)

(** The index is that of a partition, unless the sum is 2^31: then it is the negated remainder. *)
Lemma key_hash_range hasher n key sum :
  hasher key = Ok sum -> 0 <= sum < 2 ^ 32 -> 0 < n < 2 ^ 31 ->
  exists h, key_hash hasher n key = Ok h /\
    (sum = 2 ^ 31 -> h = - (2 ^ 31 mod n)) /\ (sum <> 2 ^ 31 -> 0 <= h < n).
Proof.
  intros Hh Hsum Hn. unfold key_hash. rewrite Hh, (proj2 (Z.eqb_neq n 0)) by lia.
  rewrite (int32_id n) by (unfold in_int32; lia). eexists. split; [done|].
  assert (int32 sum = if sum <? 2 ^ 31 then sum else sum - 2 ^ 32) as ->.
  { unfold int32, wrapS. change (32 - 1) with 31. destruct (Z.ltb_spec sum (2 ^ 31)).
    - rewrite Z.mod_small; lia.
    - replace (sum + 2 ^ 31) with ((sum - 2 ^ 31) + 1 * 2 ^ 32) by lia.
      rewrite Z.mod_add, Z.mod_small by lia. lia. }
  split.
  - intros ->. change (2 ^ 31 <? 2 ^ 31) with false. cbv iota. change (2 ^ 31 - 2 ^ 32 <? 0) with true. cbv iota.
    change (int32 (- (2 ^ 31 - 2 ^ 32))) with (- 2 ^ 31). rewrite Z.rem_opp_l' , Z.rem_mod_nonneg by lia. done.
  - intros Hne. assert (forall h, 0 <= h -> 0 <= Z.rem h n < n) as Hr.
    { intros h Hp. rewrite Z.rem_mod_nonneg by lia. apply Z.mod_pos_bound. lia. }
    destruct (Z.ltb_spec sum (2 ^ 31)).
    + rewrite (proj2 (Z.ltb_ge sum 0)) by lia. apply Hr. lia.
    + rewrite (proj2 (Z.ltb_lt (sum - 2 ^ 32) 0)) by lia.
      rewrite int32_id by (unfold in_int32; lia). apply Hr. lia.
Qed.

Lemma at_index_ok {A} (l : list A) h :
  0 <= h < Z.of_nat (length l) -> exists x, l !! Z.to_nat h = Some x /\ at_index l h = Ret x.
Proof.
  intros Hh. destruct (lookup_lt_is_Some_2 l (Z.to_nat h)) as [x Hx]; [lia|].
  exists x. split; [done|]. unfold at_index. rewrite (proj2 (Z.ltb_ge h 0)) by lia. by rewrite Hx.
Qed.

Lemma lowestState_spec states :
  (forall i s, states !! i = Some s -> 0 <= s) ->
  (states = ∅ /\ lowestState states = -1) \/
  ((exists i, states !! i = Some (lowestState states)) /\
   forall i s, states !! i = Some s -> lowestState states <= s).
Proof.
  unfold lowestState. apply (map_fold_weak_ind (fun low m =>
    (forall i s, m !! i = Some s -> 0 <= s) -> (m = ∅ /\ low = -1) \/
    ((exists i, m !! i = Some low) /\ forall i s, m !! i = Some s -> low <= s))).
  - by left.
  - intros i s m low Hi IH Hpos. right.
    destruct IH as [[-> ->]|[[j Hj] Hmin]].
    { intros j s' Hj. apply (Hpos j). rewrite lookup_insert_ne; [done|]. congruence. }
    + simpl. split; [exists i; by rewrite lookup_insert_eq|].
      intros j s' Hj. rewrite lookup_insert in Hj. case_decide; simplify_eq; lia.
    + assert (0 <= low) by (apply (Hpos j); rewrite lookup_insert_ne; [done|congruence]).
      rewrite (proj2 (Z.eqb_neq low (-1))) by lia. simpl. destruct (Z.ltb_spec s low) as [Hlt|Hge].
      * split; [exists i; by rewrite lookup_insert_eq|].
        intros k s' Hk. rewrite lookup_insert in Hk. case_decide; simplify_eq; [lia|].
        specialize (Hmin k s' Hk). lia.
      * split; [exists j; rewrite lookup_insert_ne; [done|congruence]|].
        intros k s' Hk. rewrite lookup_insert in Hk. case_decide; simplify_eq; [lia|]. by apply (Hmin k).
Qed.

Section facts.
Context {S I : Type} `{SN : SnapshotLaws S I}.

(** A partition that can be read. *)
Definition readable (p : PartitionTable S) (s : S) : Prop :=
  IsRecovered p = true /\ st_ok s /\ exists st, pt_st p = Some st /\ sp_Storage st = s.

(** An iterator over the snapshot of a storage. *)
Definition snapshot_of (s : S) (it : I) : Prop :=
  it_ok it /\ StronglySorted string_lt (it_rest it).*1 /\
  forall k v, (k, v) ∈ it_rest it <-> st_contents s !! k = Some v /\ k <> offsetKey.

Lemma open_iters_ok (l : list (PartitionTable S)) ss acc :
  Forall2 readable l ss ->
  exists its, open_iters table_Iterator l acc = Ret (Ok (acc ++ its)) /\ Forall2 snapshot_of ss its.
Proof.
  intros HF. revert acc. induction HF as [|p s l ss (Hrun & Hok & st & Hst & <-) HF IH]; intros acc; simpl.
  { exists []. rewrite app_nil_r. by split; [|constructor]. }
  assert (table_Iterator p = Ret (st_Iterator (sp_Storage st))) as ->.
  { unfold table_Iterator, guarded, readyToRead, CurrentState, Signal_State, with_st.
    unfold IsRecovered, Signal_IsState in Hrun. by rewrite Hrun, Hst. }
  simpl.
  destruct (law_Iterator _ Hok) as (it & -> & Hit & Hs & Hr). simpl.
  destruct (IH (acc ++ [it])) as (its & -> & Hits). exists (it :: its).
  rewrite <- app_assoc. split; [done|]. constructor; [|done]. done.
Qed.

Lemma sorted_keys_le (l : list (string * string)) : StronglySorted string_lt l.*1 -> StronglySorted key_le l.
Proof.
  induction l as [|[k v] l IH]; csimpl; intros Hs; [constructor|].
  apply StronglySorted_cons in Hs as [HF Hs]. constructor; [by apply IH|].
  rewrite Forall_forall in HF. apply Forall_forall. intros [k' v'] Hin. unfold key_le. simpl.
  destruct (HF k') as [Hle _]; [|done]. apply list_elem_of_fmap. by exists (k', v').
Qed.
End facts.

(** ** Properties *)


Definition demo_view (n : nat) : View memory :=
  mkView "table" DefaultHasher StringCodec
    ((fun i => mkPT "table" (Z.of_nat i) (NewSignal [0; 1; 2; 3; 4; 5]) None (fun _ s => (None, s))
                 (newTableStats empty_heap).1 (newTableStats empty_heap).2 [] 0) <$> seq 0 n)
    (NewSignal [0; 1; 2; 3; 4]).


(** With the default hasher there are such keys: looking up the key qqk42v in a view with three
    partitions panics, and so do [Get], [Has] and [Evict]. *)
Theorem view_Get_panics_default_hasher :
  let key := "qqk42v"%string in
  fnv32a key 2166136261 = 2 ^ 31 /\
  (exists e, view_Get (ST := memory_Storage id) key (demo_view 3) = Panic e) /\
  (exists e, view_Has (ST := memory_Storage id) key (demo_view 3) = Panic e) /\
  (exists e, view_Evict (ST := memory_Storage id) key (demo_view 3) = Panic e).
Proof. split_and!; [done|by eexists; vm_compute..]. Qed.

(** The client loop over a view iterator, as [collect_all] for storages. *)
Fixpoint vi_collect {I} `{Iterator I} (fuel : nat) (it : view_iterator (I := I)) : list (string * res value) * option (option error) :=
  match fuel with
  | O => ([], None)
  | Datatypes.S fuel =>
      match vi_Next it with
      | (false, it) => ([], Some (vi_Err it))
      | (true, it) => let '(l, fin) := vi_collect fuel it in ((vi_Key it, vi_Value it) :: l, fin)
      end
  end.

(** The value that is read for the stored data: decoded, but an empty value may be read as nil. *)
Definition reads_value (codec : Codec) (x : string) (r : res value) : Prop :=
  r = Decode codec (Some x) \/ x = ""%string /\ r = Ok VNil.

(** The loop sees what the merge iterator delivers, decoded. *)
Lemma vi_collect_merge {I} `{Iterator I} fuel (it : view_iterator (I := I)) raw fin out :
  collect_all fuel (vi_iter it) = (raw, fin) -> Forall2 reads raw out ->
  exists read, vi_collect fuel it = (read, fin) /\
    Forall2 (fun r kv => r.1 = kv.1 /\ reads_value (vi_codec it) kv.2 r.2) read out.
Proof.
  revert it raw out. induction fuel as [|fuel IH]; intros [m codec] raw out Hc Hr.
  { injection Hc as <- <-. inversion Hr. by exists []. }
  cbn [vi_collect collect_all it_Next merge_Iterator vi_iter vi_Next] in *. unfold vi_Next. cbn [vi_iter vi_codec].
  destruct (merge_Next m) as [[] m'].
  2: { injection Hc as <- <-. inversion Hr. by exists []. }
  destruct (collect_all fuel m') as [raw' fin'] eqn:E. injection Hc as <- <-.
  inversion Hr as [|? [k x] ? out' [Hk (vb & Hv & Hx)] Hr']; subst. simpl in *.
  destruct (IH (mkViewIterator m' codec) raw' out' E Hr') as (read & -> & HF). eexists. split; [done|].
  constructor; [|exact HF]. split; [done|]. unfold vi_Value, reads_value. simpl. injection Hv as ->.
  rewrite <- Hx. destruct vb as [d|]; [by left|by right].
Qed.

(** A snapshot of a storage has its pairs, each once. *)
Lemma snapshot_pairs {S I} `{StorageLaws S I} `{IteratorLaws I} s (it : I) :
  snapshot_of s it -> it_rest it ≡ₚ map_to_list (delete offsetKey (st_contents s)).
Proof.
  intros (_ & Hs & Hr). apply NoDup_Permutation.
  - apply (NoDup_fmap_1 fst). by apply StronglySorted_lt_NoDup.
  - apply NoDup_map_to_list.
  - intros [k x]. rewrite Hr, elem_of_map_to_list, lookup_delete_Some. naive_solver.
Qed.

(** C20. Iterating over a view whose partitions are all running, with [Next], [Key] and [Value] until
    [Next] is false, delivers in ascending key order every pair of every partition exactly once
    (without the reserved offset key), each value decoded with the codec of the view, and ends without
    error.  (An empty value may be read as nil, see [view_iterator_empty_value].) *)
Theorem view_iteration {S I} `{SnapshotLaws S I} (v : View S) (ss : list S) :
  Forall2 readable (v_partitions v) ss ->
  let pairs := concat ((fun s => map_to_list (delete offsetKey (st_contents s))) <$> ss) in
  exists it read out, view_Iterator v = Ret (Ok it) /\ vi_collect (Datatypes.S (length pairs)) it = (read, Some None) /\
    Forall2 (fun r kv => r.1 = kv.1 /\ reads_value (v_tableCodec v) kv.2 r.2) read out /\
    out ≡ₚ pairs /\ StronglySorted key_le out.
Proof.
  intros HF pairs. destruct (open_iters_ok (v_partitions v) ss [] HF) as (its & Ho & Hits).
  assert (concat (it_rest <$> its) ≡ₚ pairs) as Hpairs.
  { unfold pairs. clear -Hits. induction Hits as [|s it ss its Hit _ IH]; csimpl; [done|].
    by rewrite (snapshot_pairs s it Hit), IH. }
  assert (Forall it_ok its /\ Forall (fun it => StronglySorted key_le (it_rest it)) its) as [Hok Hs].
  { clear -Hits. induction Hits as [|s it ss its (Hi1 & Hi2 & _) _ [IH1 IH2]]; [by split|].
    split; constructor; try done. by apply sorted_keys_le. }
  destruct (merge_collect (Datatypes.S (length pairs)) (NewMultiIterator its) (it_rest <$> its))
    as (raw & out & Hc & Hr & Hp & Hso); [by apply NewMultiIterator_inv|by apply Forall_fmap|rewrite Hpairs; lia|].
  destruct (vi_collect_merge _ (mkViewIterator (NewMultiIterator its) (v_tableCodec v)) _ _ _ Hc Hr) as (read & Hv & Hread).
  exists (mkViewIterator (NewMultiIterator its) (v_tableCodec v)), read, out. unfold view_Iterator. rewrite Ho.
  split_and!; [done|done|done|by rewrite Hp|done].
Qed.

Definition running_table (s : memory) : PartitionTable memory :=
  mkPT "table" 0 (mkSignal PartitionRunning [] [] ∅ ∅ ∅ 0) (Some (mkProxy s "table" 0 false (fun _ s => (None, s)) None None))
    (fun _ s => (None, s)) (newTableStats empty_heap).1 (newTableStats empty_heap).2 [] 0.

Lemma view_iteration_witness :
  let m1 := mem_of [("b", "2")]%string in let m2 := mem_of [("a", "1")]%string in
  let v := mkView "table" DefaultHasher StringCodec [running_table m1; running_table m2] (NewSignal []) in
  exists it read out, view_Iterator (ST := memory_Storage id) v = Ret (Ok it) /\ vi_collect 3 it = (read, Some None) /\
    Forall2 (fun r kv => r.1 = kv.1 /\ reads_value StringCodec kv.2 r.2) read out /\ out ≡ₚ [("b", "2"); ("a", "1")]%string /\
    StronglySorted key_le out.
Proof.
  intros m1 m2 v.
  destruct (view_iteration (H0 := memory_Laws id) v [m1; m2]) as (it & read & out & H1 & H2 & H3 & H4 & H5).
  - constructor; [|constructor; [|constructor]]; (split_and!; [done|apply mem_of_wf|by eexists]).
  - exists it, read, out. split; [exact H1|]. split; [exact H2|]. split; [exact H3|]. split; [exact H4|exact H5].
Defined.

(** The buffer of a merge iterator is nil until a pair with a non-empty value was delivered: an empty
    value is read as nil before, and decoded afterwards.  ([Get] always decodes it.) *)
Theorem view_iterator_empty_value :
  let v m := mkView "table" DefaultHasher StringCodec [running_table m] (NewSignal []) in
  let read m := match view_Iterator (ST := memory_Storage id) (v m) with Ret (Ok it) => vi_collect 3 it | _ => ([], None) end in
  read (mem_of [("a", ""); ("b", "2")]%string) = ([("a"%string, Ok VNil); ("b"%string, Ok (VString "2"))], Some None) /\
  read (mem_of [("a", "1"); ("b", "")]%string) = ([("a"%string, Ok (VString "1")); ("b"%string, Ok (VString ""))], Some None).
Proof. split; vm_compute; reflexivity. Qed.

(** After a report of a partition the view is in the state that corresponds to the lowest state among
    the partitions that have reported so far. *)
Theorem updateViewState_lowest (pick : nat -> bool) (idx : nat) (state : Z) (states : gmap nat Z) (sig : Signal) :
  signal_wf sig -> sig_observers sig = [] -> (forall st, 0 <= st <= 4 -> is_allowed sig st = true) ->
  0 <= state <= 5 -> (forall i s, states !! i = Some s -> 0 <= s <= 5) ->
  exists sig' low, updateViewState pick idx state states sig = Ret (<[idx := state]> states, sig') /\
    (exists i, <[idx := state]> states !! i = Some low) /\
    (forall i s, <[idx := state]> states !! i = Some s -> low <= s) /\
    sig_state sig' = view_state_of low.
Proof.
  intros W Hobs Hall Hst Hstates. unfold updateViewState. set (m := <[idx := state]> states).
  assert (forall i s, m !! i = Some s -> 0 <= s <= 5) as Hm.
  { intros i s. unfold m. rewrite lookup_insert. case_decide; [by intros [= <-]|apply Hstates]. }
  destruct (lowestState_spec m) as [[He _]|[[i Hi] Hmin]].
  { intros i s Hi%Hm. lia. }
  { assert (m !! idx = Some state) as Hx by apply lookup_insert_eq. by rewrite He in Hx. }
  set (low := lowestState m) in *. specialize (Hm i low Hi).
  assert (0 <= view_state_of low <= 4) as Hv.
  { assert (low = 0 \/ low = 1 \/ low = 2 \/ low = 3 \/ low = 4 \/ low = 5) as Hc by lia.
    clearbody low. clear -Hc. by destruct Hc as [->|[->|[->|[->|[->| ->]]]]]. }
  rewrite (proj2 (Z.eqb_neq (view_state_of low) (-1))) by lia.
  assert (exists sig', Signal_SetState pick (view_state_of low) sig = Ret sig') as [sig' Hs'].
  { unfold Signal_SetState. rewrite Hall by done. simpl. destruct (_ =? _); [by eexists|].
    rewrite release_waiters_ok by (apply W || (intros; by apply (wf_open sig W))). simpl.
    rewrite Hobs. simpl. by eexists. }
  rewrite Hs'. simpl. destruct (SetState_wf _ _ _ _ W Hs') as (_ & Hst' & _).
  exists sig', low. split_and!; [done|by exists i|done|done].
Qed.

Lemma updateViewState_lowest_witness :
  exists sig' low, updateViewState (fun _ => false) 0 PartitionRunning {[1%nat := PartitionRecovering]}
      (NewSignal [0; 1; 2; 3; 4]) = Ret (<[0%nat := PartitionRunning]> {[1%nat := PartitionRecovering]}, sig') /\
    sig_state sig' = view_state_of low /\ low <= PartitionRecovering.
Proof.
  destruct (updateViewState_lowest (fun _ => false) 0 PartitionRunning {[1%nat := PartitionRecovering]}
    (NewSignal [0; 1; 2; 3; 4])) as (sig' & low & H1 & _ & H2 & H3).
  - apply NewSignal_wf.
  - done.
  - intros st Hst. assert (st = 0 \/ st = 1 \/ st = 2 \/ st = 3 \/ st = 4) as Hc by lia.
    by destruct Hc as [->|[->|[->|[->| ->]]]].
  - by vm_compute.
  - intros i s Hi. apply lookup_singleton_Some in Hi as [_ <-]. by vm_compute.
  - exists sig', low. split_and!; [exact H1|exact H3|]. apply (H2 1%nat). by vm_compute.
Defined.

(** The merger only knows the partitions that have reported: with two partitions, the report that the
    first one is running makes the view running before the initial state of the second one, which is
    stopped, has been received. *)
Theorem view_running_before_all_reported :
  exists states sig, runStateMerger (fun _ => false) [(0%nat, PartitionRunning)] ∅ (NewSignal [0; 1; 2; 3; 4])
      = Ret (states, sig) /\ sig_state sig = ViewStateRunning /\ states !! 1%nat = None /\
  exists states' sig', runStateMerger (fun _ => false) [(1%nat, PartitionStopped)] states sig = Ret (states', sig') /\
    sig_state sig' = ViewStateIdle.
Proof. eexists _, _. split_and!; [by vm_compute|by vm_compute|by vm_compute|]. eexists _, _. by vm_compute. Qed.

(** A view that has stopped reports itself as recovered: closing drops the partitions, and
    [Recovered] of no partitions is true, although every read fails then. *)
Theorem view_closed_is_recovered {S I} `{Storage S I} (v v' : View S) err key :
  view_close v = Ret (err, v') ->
  view_Recovered v' = true /\ exists r, view_Get key v' = Ret (Err r).
Proof.
  unfold view_close. destruct (close_tables (v_partitions v)); simpl; [|done|done].
  intros [= <- <-]. split; [done|]. unfold view_Get, view_find, view_hash, key_hash. simpl.
  destruct (v_hasher v key); by eexists.
Qed.

Lemma view_closed_is_recovered_witness :
  exists v', view_close (ST := memory_Storage id) (demo_view 2) = Ret (None, v') /\ view_Recovered v' = true.
Proof.
  eexists. split; [reflexivity|].
  exact (proj1 (view_closed_is_recovered (H := memory_Storage id) (demo_view 2) _ None "k" eq_refl)).
Defined.
