(* ===== verification/Context.v ===== *)
(** * The callback context

    [context.go]: what a callback can do with its message, and the protocol by which the message is
    committed once the callback has returned and everything it emitted is acknowledged. *)
From Stdlib Require Import ZArith Lia.
From stdpp Require Import base gmap strings list.
From S2P Require Import Prelude Multierr Signal Codec Storage Memory MergeIterator Headers Stats Proxy PartitionTable Promise Graph View.
Open Scope Z_scope.

(** ** Data *)

(** The callback chained to the promise of an emit: that of [emit], of [deleteKey] and of
    [setValueForKey]. *)
Inductive pending : Type := PEmit (topic : string) | PDelete | PStore.

(** How a promise is finished. *)
Definition resolution : Type := option ProducerMessage * option error.

(** What [ctx.emitter] was called with. *)
Record emission : Type := mkEmission { em_topic : string; em_key : string; em_value : bytes; em_headers : Headers }.

Section context.
Context {S I : Type} {ST : Storage S I} {IT : Iterator I} {CB : Type}.

(** [type cbContext struct].  The fields from [cx_promises] on record the effects on the
    environment: the promises and deferred commits not resolved yet, what was emitted and tracked,
    the calls of [commit] and [asyncFailer], the context's share of the wait group, and the error a
    [syncFailer] stored instead of panicking. *)
Record cbContext : Type := mkCtx {
  cx_graph : GroupGraph CB;
  cx_msg : ConsumerMessage;
  cx_emitterDefaultHeaders : Headers;
  cx_headers : Headers;
  cx_table : option (PartitionTable S);
  cx_pviews : option (gmap string (PartitionTable S));
  cx_views : option (gmap string (View S));
  cx_done : bool;
  cx_emits : Z;
  cx_dones : Z;
  cx_stores : Z;
  cx_errors : Errors;
  cx_promises : gmap nat pending;
  cx_deferred : gset nat;
  cx_next : nat;
  cx_sent : list emission;
  cx_tracked : list (string * Z);
  cx_commits : nat;
  cx_failures : list (option error);
  cx_wg : Z;
  cx_rerr : option error
}.

Definition cx_set_headers (h : Headers) (c : cbContext) : cbContext :=
  mkCtx (cx_graph c) (cx_msg c) (cx_emitterDefaultHeaders c) h (cx_table c) (cx_pviews c) (cx_views c)
    (cx_done c) (cx_emits c) (cx_dones c) (cx_stores c) (cx_errors c) (cx_promises c) (cx_deferred c) (cx_next c)
    (cx_sent c) (cx_tracked c) (cx_commits c) (cx_failures c) (cx_wg c) (cx_rerr c).
Definition cx_set_table (t : option (PartitionTable S)) (c : cbContext) : cbContext :=
  mkCtx (cx_graph c) (cx_msg c) (cx_emitterDefaultHeaders c) (cx_headers c) t (cx_pviews c) (cx_views c)
    (cx_done c) (cx_emits c) (cx_dones c) (cx_stores c) (cx_errors c) (cx_promises c) (cx_deferred c) (cx_next c)
    (cx_sent c) (cx_tracked c) (cx_commits c) (cx_failures c) (cx_wg c) (cx_rerr c).
(** The counters and the protocol state. *)
Definition cx_set_protocol (done : bool) (emits dones stores : Z) (errors : Errors) (commits : nat)
    (failures : list (option error)) (wg : Z) (c : cbContext) : cbContext :=
  mkCtx (cx_graph c) (cx_msg c) (cx_emitterDefaultHeaders c) (cx_headers c) (cx_table c) (cx_pviews c) (cx_views c)
    done emits dones stores errors (cx_promises c) (cx_deferred c) (cx_next c)
    (cx_sent c) (cx_tracked c) commits failures wg (cx_rerr c).
(** The environment's view of what is outstanding. *)
Definition cx_set_outstanding (promises : gmap nat pending) (deferred : gset nat) (next : nat) (sent : list emission)
    (tracked : list (string * Z)) (c : cbContext) : cbContext :=
  mkCtx (cx_graph c) (cx_msg c) (cx_emitterDefaultHeaders c) (cx_headers c) (cx_table c) (cx_pviews c) (cx_views c)
    (cx_done c) (cx_emits c) (cx_dones c) (cx_stores c) (cx_errors c) promises deferred next
    sent tracked (cx_commits c) (cx_failures c) (cx_wg c) (cx_rerr c).
Definition cx_set_rerr (e : option error) (c : cbContext) : cbContext :=
  mkCtx (cx_graph c) (cx_msg c) (cx_emitterDefaultHeaders c) (cx_headers c) (cx_table c) (cx_pviews c) (cx_views c)
    (cx_done c) (cx_emits c) (cx_dones c) (cx_stores c) (cx_errors c) (cx_promises c) (cx_deferred c) (cx_next c)
    (cx_sent c) (cx_tracked c) (cx_commits c) (cx_failures c) (cx_wg c) e.

(** ** The commit protocol *)

(** [wg.Add(delta)]: a negative counter panics. *)
Definition wg_add (delta : Z) (c : cbContext) : outcome cbContext :=
  let wg := cx_wg c + delta in
  if wg <? 0 then Panic (ErrNew "sync: negative WaitGroup counter")
  else Ret (cx_set_protocol (cx_done c) (cx_emits c) (cx_dones c) (cx_stores c) (cx_errors c) (cx_commits c)
              (cx_failures c) wg c).

Definition cx_start (c : cbContext) : outcome cbContext := wg_add 1 c.
Definition markDone (c : cbContext) : outcome cbContext := wg_add (-1) c.

Definition tryCommit (err : option error) (c : cbContext) : outcome cbContext :=
  let errors := Errors_Collect (cx_errors c) err in
  let c := cx_set_protocol (cx_done c) (cx_emits c) (cx_dones c) (cx_stores c) errors (cx_commits c)
             (cx_failures c) (cx_wg c) c in
  if negb (cx_done c) || (cx_dones c <? cx_emits c) then Ret c
  else
    let c := if Errors_HasErrors errors
             then cx_set_protocol (cx_done c) (cx_emits c) (cx_dones c) (cx_stores c) errors (cx_commits c)
                    (cx_failures c ++ [Errors_NilOrError errors]) (cx_wg c) c
             else cx_set_protocol (cx_done c) (cx_emits c) (cx_dones c) (cx_stores c) errors
                    (Datatypes.S (cx_commits c)) (cx_failures c) (cx_wg c) c in
    markDone c.

Definition emitDone (err : option error) (c : cbContext) : outcome cbContext :=
  tryCommit err (cx_set_protocol (cx_done c) (cx_emits c) (cx_dones c + 1) (cx_stores c) (cx_errors c) (cx_commits c)
                   (cx_failures c) (cx_wg c) c).

(** [finish(err)] after the callback has returned. *)
Definition cx_finish (err : option error) (c : cbContext) : outcome cbContext :=
  tryCommit err (cx_set_protocol true (cx_emits c) (cx_dones c) (cx_stores c) (cx_errors c) (cx_commits c)
                   (cx_failures c) (cx_wg c) c).

Definition count_emit (c : cbContext) : cbContext :=
  cx_set_protocol (cx_done c) (cx_emits c + 1) (cx_dones c) (cx_stores c) (cx_errors c) (cx_commits c)
    (cx_failures c) (cx_wg c) c.
Definition count_store (c : cbContext) : cbContext :=
  cx_set_protocol (cx_done c) (cx_emits c) (cx_dones c) (cx_stores c + 1) (cx_errors c) (cx_commits c)
    (cx_failures c) (cx_wg c) c.

(** [DeferCommit] returns a function, here its name. *)
Definition DeferCommit (c : cbContext) : nat * cbContext :=
  let c := count_emit c in
  (cx_next c, cx_set_outstanding (cx_promises c) ({[cx_next c]} ∪ cx_deferred c) (Datatypes.S (cx_next c))
                (cx_sent c) (cx_tracked c) c).

(** Calling that function: [once.Do] ignores every call but the first. *)
Definition call_deferred (i : nat) (err : option error) (c : cbContext) : outcome cbContext :=
  if decide (i ∈ cx_deferred c) then
    emitDone err (cx_set_outstanding (cx_promises c) (cx_deferred c ∖ {[i]}) (cx_next c) (cx_sent c) (cx_tracked c) c)
  else Ret c.

(** The callbacks chained to the promises. *)
Definition run_pending (k : pending) (r : resolution) (c : cbContext) : outcome cbContext :=
  let '(msg, err) := r in
  match k with
  | PEmit topic =>
      emitDone (match err with Some e => Some (ErrWrap ("error emitting to " +:+ topic) e) | None => None end) c
  | PDelete => emitDone err c
  | PStore =>
      match err, msg with
      | None, Some m =>
          match cx_table c with
          | None => Panic (ErrNew "nil pointer dereference")
          | Some t => '(err, t) ← storeNewestOffset (pm_Offset m) t; emitDone err (cx_set_table (Some t) c)
          end
      | _, _ => emitDone err c
      end
  end.

(** [ctx.emitter(topic, key, value, hdr).Then(...)].  If the promise is already finished when it is
    returned, with [r], the callback runs at once; otherwise the promise is pending. *)
Definition send (topic key : string) (value : bytes) (hdr : Headers) (k : pending) (r : option resolution)
    (c : cbContext) : outcome cbContext :=
  let sent := cx_sent c ++ [mkEmission topic key value hdr] in
  match r with
  | Some r => run_pending k r (cx_set_outstanding (cx_promises c) (cx_deferred c) (cx_next c) sent (cx_tracked c) c)
  | None => Ret (cx_set_outstanding (<[cx_next c := k]> (cx_promises c)) (cx_deferred c) (Datatypes.S (cx_next c))
                   sent (cx_tracked c) c)
  end.

(** The producer finishes a pending promise. *)
Definition resolve (i : nat) (r : resolution) (c : cbContext) : outcome cbContext :=
  match cx_promises c !! i with
  | None => Blocked
  | Some k =>
      run_pending k r (cx_set_outstanding (delete i (cx_promises c)) (cx_deferred c) (cx_next c) (cx_sent c)
                         (cx_tracked c) c)
  end.

(** [trackOutputStats(ctx, topic, size)] *)
Definition track (topic : string) (size : Z) (c : cbContext) : cbContext :=
  cx_set_outstanding (cx_promises c) (cx_deferred c) (cx_next c) (cx_sent c) (cx_tracked c ++ [(topic, size)]) c.

(** ** Operations of the callback *)

(** [Fail]: the partition processor's [syncFailer] panics, but only stores the error if the context
    of the processor is done ([cancelled]). *)
Definition Fail (cancelled : bool) (err : error) (c : cbContext) : outcome cbContext :=
  if cancelled then Ret (cx_set_rerr (Some err) c) else Panic err.

Definition fail_if (b : bool) (cancelled : bool) (err : error) (c : cbContext) : outcome cbContext :=
  if b then Fail cancelled err c else Ret c.

(** The option [WithCtxEmitHeaders(hdr)] on the headers of the options so far. *)
Definition WithCtxEmitHeaders (hdr emitHeaders : Headers) : Headers :=
  Some (put_all (map_to_list (entries hdr)) (entries emitHeaders)).

(** [opts.applyOptions(options...)] for options made by [WithCtxEmitHeaders]. *)
Definition applyOptions (options : list Headers) : Headers :=
  fold_left (fun h hdr => WithCtxEmitHeaders hdr h) options None.

Definition ctx_emit (topic key : string) (value : bytes) (hdr : Headers) (r : option resolution) (c : cbContext)
  : outcome cbContext :=
  c ← send topic key value
        (Merged (map_to_list (entries (cx_emitterDefaultHeaders c))) [map_to_list (entries hdr)])
        (PEmit topic) r (count_emit c);
  Ret (track topic (bytes_len value) c).

Definition is_nil (v : value) : bool := match v with VNil => true | _ => false end.

(** [c.Encode(value)] of a codec that may be nil; after an error that did not panic the data is nil. *)
Definition encode (codec : option Codec) (cancelled : bool) (msg : string) (v : value) (c : cbContext)
  : outcome (bytes * cbContext) :=
  match codec with
  | None => Panic (ErrNew "nil pointer dereference")
  | Some codec =>
      match Encode codec v with
      | Ok data => Ret (data, c)
      | Err e => c ← Fail cancelled (ErrWrap msg e) c; Ret (None, c)
      end
  end.

Definition Emit (cancelled : bool) (topic key : string) (v : value) (options : list Headers) (r : option resolution)
    (c : cbContext) : outcome cbContext :=
  let hdr := applyOptions options in
  let gg := cx_graph c in
  c ← fail_if (String.eqb topic "") cancelled (ErrNew "cannot emit to empty topic") c;
  c ← fail_if (String.eqb (loopName (gg_group gg)) topic) cancelled
        (ErrNew "cannot emit to loop topic (use Loopback instead)") c;
  c ← fail_if (String.eqb (tableName (gg_group gg)) topic) cancelled
        (ErrNew "cannot emit to table topic (use SetValue instead)") c;
  c ← fail_if (negb (isOutputTopic topic gg)) cancelled (ErrNew ("topic is not configured for output: " +:+ topic)) c;
  c ← fail_if (bool_decide (graph_codec topic gg = None)) cancelled (ErrNew ("no codec for topic " +:+ topic)) c;
  '(data, c) ← (if is_nil v then Ret (None, c)
                else encode (graph_codec topic gg) cancelled ("error encoding message for topic " +:+ topic) v c);
  ctx_emit topic key data hdr r c.

Definition Loopback (cancelled : bool) (key : string) (v : value) (options : list Headers) (r : option resolution)
    (c : cbContext) : outcome cbContext :=
  let hdr := applyOptions options in
  c ← fail_if (bool_decide (LoopStream (cx_graph c) = None)) cancelled (ErrNew "no loop topic configured") c;
  match LoopStream (cx_graph c) with
  | None => Panic (ErrNew "nil pointer dereference")
  | Some l =>
      '(data, c) ← encode (td_codec l) cancelled ("error encoding message for key " +:+ key) v c;
      ctx_emit (td_name l) key data hdr r c
  end.

(** Accessors of the message. *)
Definition ctx_Key (c : cbContext) : string := string_of_bytes (cm_Key (cx_msg c)).
Definition ctx_Topic (c : cbContext) : string := cm_Topic (cx_msg c).
Definition ctx_Offset (c : cbContext) : Z := cm_Offset (cx_msg c).
Definition ctx_Partition (c : cbContext) : Z := cm_Partition (cx_msg c).
Definition ctx_Group (c : cbContext) : string := gg_group (cx_graph c).
Definition ctx_Headers (c : cbContext) : Headers * cbContext :=
  let h := match cx_headers c with None => FromSarama (cm_Headers (cx_msg c)) | h => h end in
  (h, cx_set_headers h c).

(** [valueForKey] *)
Definition valueForKey (key : string) (c : cbContext) : outcome (res value) :=
  match cx_table c with
  | None => Ret (Err (ErrNew "Cannot access state in stateless processor"))
  | Some t =>
      r ← table_Get key t;
      match r with
      | Err e => Ret (Err (ErrWrap "error reading value" e))
      | Ok None => Ret (Ok VNil)
      | Ok (Some data) =>
          match GroupTable (cx_graph c) with
          | Some (mkTopicDef _ (Some codec)) =>
              Ret (match Decode codec (Some data) with
                   | Err e => Err (ErrWrap "error decoding value" e)
                   | Ok v => Ok v
                   end)
          | _ => Panic (ErrNew "nil pointer dereference")
          end
      end
  end.

(** [Value]: after an error that did not panic the value is nil. *)
Definition ctx_Value (cancelled : bool) (c : cbContext) : outcome (value * cbContext) :=
  r ← valueForKey (ctx_Key c) c;
  match r with
  | Ok v => Ret (v, c)
  | Err e => c ← Fail cancelled e c; Ret (VNil, c)
  end.

Definition deleteKey (key : string) (hdr : Headers) (r : option resolution) (c : cbContext)
  : outcome (option error * cbContext) :=
  match GroupTable (cx_graph c) with
  | None => Ret (Some (ErrNew "Cannot access state in stateless processor"), c)
  | Some gt =>
      let c := count_store c in
      match cx_table c with
      | None => Panic (ErrNew "nil pointer dereference")
      | Some t =>
          '(err, t) ← table_Delete key t;
          let c := cx_set_table (Some t) c in
          match err with
          | Some e => Ret (Some (ErrWrap "error deleting key from storage" e), c)
          | None => c ← send (td_name gt) key None hdr PDelete r (count_emit c); Ret (None, c)
          end
      end
  end.

Definition setValueForKey (key : string) (v : value) (hdr : Headers) (skip : bool) (r : option resolution)
    (c : cbContext) : outcome (option error * cbContext) :=
  match GroupTable (cx_graph c) with
  | None => Ret (Some (ErrNew "Cannot access state in stateless processor"), c)
  | Some gt =>
      if is_nil v then Ret (Some (ErrNew "cannot set nil as value"), c)
      else match td_codec gt with
      | None => Panic (ErrNew "nil pointer dereference")
      | Some codec =>
          match Encode codec v with
          | Err e => Ret (Some (ErrWrap "error encoding value" e), c)
          | Ok encodedValue =>
              let c := count_store c in
              match cx_table c with
              | None => Panic (ErrNew "nil pointer dereference")
              | Some t =>
                  '(err, t) ← table_Set key encodedValue t;
                  let c := cx_set_table (Some t) c in
                  match err with
                  | Some e => Ret (Some (ErrWrap "error storing value" e), c)
                  | None =>
                      c ← send (td_name gt) key encodedValue hdr PStore r (count_emit c);
                      let c := track (td_name gt) (bytes_len encodedValue) c in
                      Ret (None, match cx_table c with
                                 | Some t => cx_set_table (Some (TrackMessageWrite skip (bytes_len encodedValue) t)) c
                                 | None => c
                                 end)
                  end
              end
          end
      end
  end.

(** The tail of [Delete] and [SetValue]. *)
Definition fail_err (cancelled : bool) (rc : option error * cbContext) : outcome cbContext :=
  match rc with
  | (Some e, c) => Fail cancelled e c
  | (None, c) => Ret c
  end.

Definition ctx_Delete (cancelled : bool) (options : list Headers) (r : option resolution) (c : cbContext)
  : outcome cbContext :=
  rc ← deleteKey (ctx_Key c) (applyOptions options) r c; fail_err cancelled rc.

Definition ctx_SetValue (cancelled : bool) (v : value) (options : list Headers) (skip : bool) (r : option resolution)
    (c : cbContext) : outcome cbContext :=
  rc ← setValueForKey (ctx_Key c) v (applyOptions options) skip r c; fail_err cancelled rc.

(** [Join] reads the storage of the joined table directly. *)
Definition ctx_Join (cancelled : bool) (topic : string) (c : cbContext) : outcome (value * cbContext) :=
  c ← fail_if (bool_decide (cx_pviews c = None)) cancelled (ErrNew "table not subscribed") c;
  match cx_pviews c ≫= (.!! topic) with
  | None => c ← Fail cancelled (ErrNew "table not subscribed") c; Panic (ErrNew "nil pointer dereference")
  | Some v =>
      match pt_st v with
      | None => Panic (ErrNew "nil pointer dereference")
      | Some st =>
          match st_Get (ctx_Key c) (sp_Storage st) with
          | Ok None => Ret (VNil, c)
          | r =>
              '(data, c) ← match r with
                           | Err e => c ← Fail cancelled (ErrWrap "error getting key of table" e) c; Ret (None, c)
                           | Ok data => Ret (data, c)
                           end;
              match graph_codec topic (cx_graph c) with
              | None => Panic (ErrNew "nil pointer dereference")
              | Some codec =>
                  match Decode codec data with
                  | Ok v => Ret (v, c)
                  | Err e => c ← Fail cancelled (ErrWrap "error decoding value key of table" e) c; Ret (VNil, c)
                  end
              end
          end
      end
  end.

Definition ctx_Lookup (cancelled : bool) (topic key : string) (c : cbContext) : outcome (value * cbContext) :=
  c ← fail_if (bool_decide (cx_views c = None)) cancelled (ErrNew "topic not subscribed") c;
  match cx_views c ≫= (.!! topic) with
  | None => c ← Fail cancelled (ErrNew "topic not subscribed") c; Panic (ErrNew "nil pointer dereference")
  | Some v =>
      r ← view_Get key v;
      match r with
      | Ok val => Ret (val, c)
      | Err e => c ← Fail cancelled (ErrWrap "error getting key of table" e) c; Ret (VNil, c)
      end
  end.

(** ** Runs *)

(** One step of a context: an operation of the callback, the return of the callback, or the
    resolution of a promise or a deferred commit.  [cancelled] tells whether the processor's context
    is done. *)
Inductive ctx_action : Type :=
| AEmit (cancelled : bool) (topic key : string) (v : value) (options : list Headers) (r : option resolution)
| ALoopback (cancelled : bool) (key : string) (v : value) (options : list Headers) (r : option resolution)
| ASetValue (cancelled : bool) (v : value) (options : list Headers) (skip : bool) (r : option resolution)
| ADelete (cancelled : bool) (options : list Headers) (r : option resolution)
| ADeferCommit
| AFail (cancelled : bool) (e : error)
| AFinish
| AResolve (i : nat) (r : resolution)
| ADeferred (i : nat) (err : option error).

Definition ctx_step (a : ctx_action) (c : cbContext) : outcome cbContext :=
  match a with
  | AEmit cancelled topic key v options r => Emit cancelled topic key v options r c
  | ALoopback cancelled key v options r => Loopback cancelled key v options r c
  | ASetValue cancelled v options skip r => ctx_SetValue cancelled v options skip r c
  | ADelete cancelled options r => ctx_Delete cancelled options r c
  | ADeferCommit => Ret (DeferCommit c).2
  | AFail cancelled e => Fail cancelled e c
  | AFinish => cx_finish None c
  | AResolve i r => resolve i r c
  | ADeferred i err => call_deferred i err c
  end.

Fixpoint ctx_run (l : list ctx_action) (c : cbContext) : outcome cbContext :=
  match l with
  | [] => Ret c
  | a :: l => c ← ctx_step a c; ctx_run l c
  end.

(** The context that [processMessage] creates for a message. *)
Definition newContext (gg : GroupGraph CB) (msg : ConsumerMessage) (hdr : Headers) (table : option (PartitionTable S))
    (joins : gmap string (PartitionTable S)) (lookups : gmap string (View S)) : cbContext :=
  mkCtx gg msg hdr None table (Some joins) (Some lookups) false 0 0 0 new_Errors ∅ ∅ 0 [] [] 0 [] 0 None.
End context.
Arguments cbContext : clear implicits.

(** ** The invariant *)

Section invariant.
Context {S I : Type} {ST : Storage S I} {IT : Iterator I} {CB : Type}.
Implicit Types c : cbContext S CB.

(** The number of promises and deferred commits that are not resolved. *)
Definition outstanding c : nat := size (cx_promises c) + size (cx_deferred c).

(** Neither committed nor failed. *)
Definition ctx_open c : Prop := cx_wg c = 1 /\ cx_commits c = 0%nat /\ cx_failures c = [].

(** Committed once, or failed once with all the errors. *)
Definition ctx_settled c : Prop :=
  cx_wg c = 0 /\
  ((errs (cx_errors c) = [] /\ cx_commits c = 1%nat /\ cx_failures c = []) \/
   (errs (cx_errors c) <> [] /\ cx_commits c = 0%nat /\ cx_failures c = [Some (ErrMulti (errs (cx_errors c)))])).

(** The names in use are below the next one. *)
Definition ctx_fresh c : Prop :=
  (forall i k, cx_promises c !! i = Some k -> (i < cx_next c)%nat) /\ (forall i, i ∈ cx_deferred c -> (i < cx_next c)%nat).

Record ctx_inv c : Prop := {
  ci_count : cx_emits c = cx_dones c + Z.of_nat (outstanding c);
  ci_fresh : ctx_fresh c;
  ci_state : if cx_done c && (outstanding c =? 0)%nat then ctx_settled c else ctx_open c
}.

(** A context in which one emit has been counted but is neither pending nor done. *)
Record ctx_mid c : Prop := {
  cm_count : cx_emits c = cx_dones c + Z.of_nat (outstanding c) + 1;
  cm_fresh : ctx_fresh c;
  cm_open : ctx_open c
}.

(** What a step may change: errors are only added, [done] is kept. *)
Definition ctx_later c c' : Prop :=
  cx_done c' = cx_done c /\ exists es, errs (cx_errors c') = errs (cx_errors c) ++ es.

#[global] Instance ctx_later_refl : Reflexive ctx_later.
Proof. intros c. split; [done|]. exists []. by rewrite app_nil_r. Qed.
#[global] Instance ctx_later_trans : Transitive ctx_later.
Proof.
  intros c1 c2 c3 [H1 [e1 E1]] [H2 [e2 E2]]. split; [congruence|]. exists (e1 ++ e2). by rewrite E2, E1, app_assoc.
Qed.

(** [tryCommit] settles an open context exactly if nothing is outstanding and the callback is done. *)
Lemma tryCommit_ok err c :
  cx_emits c = cx_dones c + Z.of_nat (outstanding c) -> ctx_fresh c -> ctx_open c ->
  exists c', tryCommit err c = Ret c' /\ ctx_inv c' /\ cx_done c' = cx_done c /\
    errs (cx_errors c') = errs (cx_errors c) ++ option_list err /\ cx_table c' = cx_table c /\
    cx_promises c' = cx_promises c /\ cx_deferred c' = cx_deferred c.
Proof.
  intros Hc Hf (Hw & Hk & Hfl). unfold tryCommit. simpl.
  pose proof (errs_Collect (cx_errors c) err) as Herr.
  destruct (cx_done c) eqn:Ed; simpl.
  2:{ eexists. split; [done|]. split_and!; try done; constructor; simpl; try done; by rewrite Ed. }
  destruct (cx_dones c <? cx_emits c) eqn:El; simp_bool; simpl.
  { eexists. split; [done|]. split_and!; try done. constructor; simpl; try done.
    unfold outstanding in *. simpl.
    destruct (Nat.eqb_spec (size (cx_promises c) + size (cx_deferred c)) 0); [lia|done]. }
  assert (outstanding c = 0%nat) as Ho by lia. unfold markDone, wg_add.
  destruct (Errors_HasErrors (Errors_Collect (cx_errors c) err)) eqn:Eh; simpl; rewrite Hw; simpl;
    (eexists; split; [done|]); split_and!; try done; constructor; simpl; try done;
    unfold outstanding in *; simpl; rewrite Ho; simpl; (split; [done|]); simpl.
  - right. apply HasErrors_spec in Eh. split_and!; [done|done|].
    rewrite Hfl. unfold Errors_NilOrError. by rewrite (proj2 (HasErrors_spec _) Eh).
  - left. apply HasErrors_false in Eh. by rewrite Eh, Hk.
Qed.

Lemma emitDone_ok err c :
  ctx_mid c ->
  exists c', emitDone err c = Ret c' /\ ctx_inv c' /\ cx_done c' = cx_done c /\
    errs (cx_errors c') = errs (cx_errors c) ++ option_list err /\ cx_table c' = cx_table c /\
    cx_promises c' = cx_promises c /\ cx_deferred c' = cx_deferred c.
Proof.
  intros [Hc Hf Ho]. unfold emitDone.
  destruct (tryCommit_ok err (cx_set_protocol (cx_done c) (cx_emits c) (cx_dones c + 1) (cx_stores c) (cx_errors c)
    (cx_commits c) (cx_failures c) (cx_wg c) c)) as (c' & Hr & H'); [|done|done|by exists c'].
  unfold outstanding in *. simpl. lia.
Qed.

Lemma run_pending_inv k r c c' :
  ctx_mid c -> run_pending k r c = Ret c' ->
  ctx_inv c' /\ ctx_later c c' /\
  (match r.2 with Some _ => errs (cx_errors c') <> [] | None => True end).
Proof.
  intros Hmid. unfold run_pending. destruct r as [msg err].
  assert (forall err' c0 c1, ctx_mid c0 -> cx_done c0 = cx_done c -> cx_errors c0 = cx_errors c ->
    (is_Some err -> is_Some err') -> emitDone err' c0 = Ret c1 ->
    ctx_inv c1 /\ ctx_later c c1 /\ match err with Some _ => errs (cx_errors c1) <> [] | None => True end) as Hgen.
  { intros err' c0 c1 Hm Hd He Hs H. destruct (emitDone_ok err' c0 Hm) as (c2 & E & Hi & Hd' & Her & _).
    rewrite E in H. simplify_eq. split_and!; [done|split; [congruence|eexists; by rewrite Her, He]|].
    destruct err as [e|]; [|done]. rewrite Her. destruct (Hs ltac:(done)) as [e' ->]. simpl.
    by destruct (errs (cx_errors c0)). }
  destruct k as [topic| |].
  - apply Hgen; try done. destruct err; [by eexists|by intros []].
  - by apply Hgen.
  - destruct err as [e|]; [by apply Hgen|]. destruct msg as [m|]; [|by apply Hgen].
    destruct (cx_table c) as [t|]; [|done]. destruct (storeNewestOffset _ t) as [[err' t']| |]; [|done|done].
    simpl. apply Hgen; try done; (by intros []) || by destruct Hmid.
Qed.

Lemma count_emit_mid c : ctx_inv c -> cx_done c = false -> ctx_mid (count_emit c).
Proof.
  intros [Hc Hf Hs] Hd. rewrite Hd in Hs. constructor; [|done|done]. unfold outstanding in *. simpl. lia.
Qed.

Lemma send_inv topic key v hdr k r c c' :
  ctx_mid c -> cx_done c = false -> send topic key v hdr k r c = Ret c' -> ctx_inv c' /\ ctx_later c c'.
Proof.
  intros Hmid Hd. unfold send. destruct r as [r|].
  - intros H. apply run_pending_inv in H as (Hi & [Hd' He] & _); [done|]. by destruct Hmid as [? ? ?]; constructor.
  - intros [= <-]. destruct Hmid as [Hc [Hf1 Hf2] Ho].
    assert (cx_promises c !! cx_next c = None) as Hnone.
    { destruct (cx_promises c !! cx_next c) eqn:E; [|done]. apply Hf1 in E. lia. }
    split; [|split; [done|exists []; by rewrite app_nil_r]]. constructor; simpl.
    + unfold outstanding in *. simpl. rewrite map_size_insert_None by done. lia.
    + split; simpl; [|intros i Hi%Hf2; lia]. intros i x. rewrite lookup_insert. case_decide; [lia|].
      intros ?%Hf1. lia.
    + by rewrite Hd.
Qed.
End invariant.

Section steps.
Context {S I : Type} {ST : Storage S I} {IT : Iterator I} {CB : Type}.
Implicit Types c : cbContext S CB.

(** A step of the callback before it has returned. *)
Definition keeps c c' : Prop := ctx_inv c' /\ ctx_later c c'.

Lemma keeps_trans c1 c2 c3 : ctx_later c1 c2 -> keeps c2 c3 -> keeps c1 c3.
Proof. intros H1 [Hi H2]. split; [done|]. by transitivity c2. Qed.

Lemma Fail_keeps cancelled e c c' : ctx_inv c -> Fail cancelled e c = Ret c' -> keeps c c'.
Proof.
  intros Hi. unfold Fail. destruct cancelled; [|done]. intros [= <-].
  split; [by destruct Hi|split; [done|exists []; by rewrite app_nil_r]].
Qed.

Lemma fail_if_keeps b cancelled e c c' : ctx_inv c -> fail_if b cancelled e c = Ret c' -> keeps c c'.
Proof.
  intros Hi. unfold fail_if. destruct b; [by apply Fail_keeps|]. intros [= <-]. by split.
Qed.

Lemma encode_keeps codec cancelled m v c d c' : ctx_inv c -> encode codec cancelled m v c = Ret (d, c') -> keeps c c'.
Proof.
  intros Hi. unfold encode. destruct codec as [codec|]; [|done]. destruct (Encode codec v) as [data|e].
  - intros [= <- <-]. by split.
  - destruct (Fail cancelled _ c) eqn:E; [|done|done]. simpl. intros [= <- <-]. by apply Fail_keeps in E.
Qed.

Lemma ctx_emit_keeps topic key v hdr r c c' :
  ctx_inv c -> cx_done c = false -> ctx_emit topic key v hdr r c = Ret c' -> keeps c c'.
Proof.
  intros Hi Hd. unfold ctx_emit. destruct (send _ _ _ _ _ _ _) as [c1| |] eqn:E; [|done|done].
  simpl. intros [= <-]. apply send_inv in E as [Hi1 [Hd1 He1]]; [|by apply count_emit_mid|done].
  split; [by destruct Hi1|done].
Qed.

Ltac bind_inv H :=
  match type of H with
  | (?m ≫= _) = Ret _ => let E := fresh "E" in destruct m as [?| |] eqn:E; [simpl in H|done|done]
  end.

Lemma Emit_keeps cancelled topic key v o r c c' :
  ctx_inv c -> cx_done c = false -> Emit cancelled topic key v o r c = Ret c' -> keeps c c'.
Proof.
  intros Hi Hd H. unfold Emit in H.
  do 5 (bind_inv H; match goal with E : fail_if _ _ _ _ = Ret ?c1 |- _ =>
    apply fail_if_keeps in E as [? ?]; [|done] end).
  bind_inv H. destruct a4 as [data c5].
  assert (keeps a3 c5) as [Hi5 Hl5].
  { destruct (is_nil v); [|by eapply encode_keeps]. by simplify_eq. }
  assert (ctx_later c c5) as Hl. { repeat (etransitivity; [eassumption|]). done. }
  eapply keeps_trans; [exact Hl|]. eapply ctx_emit_keeps; [done| |done]. destruct Hl. congruence.
Qed.

Lemma Loopback_keeps cancelled key v o r c c' :
  ctx_inv c -> cx_done c = false -> Loopback cancelled key v o r c = Ret c' -> keeps c c'.
Proof.
  intros Hi Hd H. unfold Loopback in H. bind_inv H. apply fail_if_keeps in E as [Hi1 Hl1]; [|done].
  destruct (LoopStream _) as [l|]; [|done]. bind_inv H. destruct a0 as [data c2].
  apply encode_keeps in E as [Hi2 Hl2]; [|done]. assert (ctx_later c c2) as Hl by (by etransitivity).
  eapply keeps_trans; [exact Hl|]. eapply ctx_emit_keeps; [done| |done]. destruct Hl. congruence.
Qed.

Lemma fail_err_keeps cancelled rc c c' :
  (forall e c1, rc = (e, c1) -> keeps c c1) -> fail_err cancelled rc = Ret c' -> keeps c c'.
Proof.
  intros Hk. unfold fail_err. destruct rc as [[e|] c1]; [|intros [= <-]; by eapply Hk].
  intros H. destruct (Hk _ _ eq_refl) as [Hi Hl]. eapply keeps_trans; [exact Hl|]. by eapply Fail_keeps.
Qed.

Lemma set_table_inv t c : ctx_inv c -> ctx_inv (cx_set_table t c).
Proof. by intros []. Qed.

Lemma ctx_Delete_keeps cancelled o r c c' :
  ctx_inv c -> cx_done c = false -> ctx_Delete cancelled o r c = Ret c' -> keeps c c'.
Proof.
  intros Hi Hd H. unfold ctx_Delete in H. bind_inv H. eapply fail_err_keeps; [|exact H]. clear H.
  intros e c1 ->. unfold deleteKey in E. destruct (GroupTable _); [|simplify_eq; by split].
  destruct (cx_table _) as [t1|]; [|done]. bind_inv E. destruct a as [err t2].
  assert (ctx_inv (cx_set_table (Some t2) (count_store c))) as Hi2 by (by destruct Hi).
  destruct err as [e2|].
  { simplify_eq/=. split; [done|]. split; [done|]. exists []. by rewrite app_nil_r. }
  bind_inv E. simplify_eq/=. apply send_inv in E1 as [Hi3 [Hd3 He3]]; [|by apply count_emit_mid|done]. by split.
Qed.

Lemma ctx_SetValue_keeps cancelled v o skip r c c' :
  ctx_inv c -> cx_done c = false -> ctx_SetValue cancelled v o skip r c = Ret c' -> keeps c c'.
Proof.
  intros Hi Hd H. unfold ctx_SetValue in H. bind_inv H. eapply fail_err_keeps; [|exact H]. clear H.
  intros e c1 ->. unfold setValueForKey in E. destruct (GroupTable _) as [gt|]; [|simplify_eq; by split].
  destruct (is_nil v); [simplify_eq; by split|]. destruct (td_codec gt) as [codec|]; [|done].
  destruct (Encode codec v) as [data|]; [|simplify_eq; by split].
  destruct (cx_table _) as [t1|]; [|done]. bind_inv E. destruct a as [err t2].
  assert (ctx_inv (cx_set_table (Some t2) (count_store c))) as Hi2 by (by destruct Hi).
  destruct err as [e2|].
  { simplify_eq/=. split; [done|]. split; [done|]. exists []. by rewrite app_nil_r. }
  bind_inv E. apply send_inv in E1 as [Hi3 [Hd3 He3]]; [|by apply count_emit_mid|done].
  injection E as <- <-. simpl. destruct (cx_table a); (split; [by destruct Hi3|by split]).
Qed.

Lemma DeferCommit_keeps c : ctx_inv c -> cx_done c = false -> keeps c (DeferCommit c).2.
Proof.
  intros [Hc [Hf1 Hf2] Hs] Hd. rewrite Hd in Hs. simpl in Hs. split; [|split; [done|exists []; by rewrite app_nil_r]].
  assert (cx_next c ∉ cx_deferred c) as Hn by (intros ?%Hf2; lia).
  constructor; simpl.
  - unfold outstanding in *. simpl. rewrite size_union, size_singleton by set_solver. lia.
  - split; simpl; [intros i k ?%Hf1; lia|]. intros i [->%elem_of_singleton|?%Hf2]%elem_of_union; lia.
  - rewrite Hd. done.
Qed.

(** Resolving a promise, before or after the callback has returned. *)
Lemma resolve_mid i k c :
  ctx_inv c -> cx_promises c !! i = Some k ->
  ctx_mid (cx_set_outstanding (delete i (cx_promises c)) (cx_deferred c) (cx_next c) (cx_sent c) (cx_tracked c) c).
Proof.
  intros [Hc [Hf1 Hf2] Hs] Hk.
  assert (size (cx_promises c) <> 0%nat) as Hne.
  { intros E%map_size_empty_inv. by rewrite E, lookup_empty in Hk. }
  constructor; simpl.
  - unfold outstanding in *. simpl. rewrite map_size_delete_Some by (by eexists). lia.
  - split; [|done]. simpl. intros j x. rewrite lookup_delete_Some. intros [_ ?%Hf1]. done.
  - unfold outstanding in Hs. destruct (cx_done c); simpl in Hs; [|done].
    destruct (Nat.eqb_spec (size (cx_promises c) + size (cx_deferred c)) 0); [lia|done].
Qed.

Lemma deferred_mid i c :
  ctx_inv c -> i ∈ cx_deferred c ->
  ctx_mid (cx_set_outstanding (cx_promises c) (cx_deferred c ∖ {[i]}) (cx_next c) (cx_sent c) (cx_tracked c) c).
Proof.
  intros [Hc [Hf1 Hf2] Hs] Hk.
  assert (size (cx_deferred c) = Datatypes.S (size (cx_deferred c ∖ {[i]}))) as Hsz.
  { rewrite (union_difference_L {[i]} (cx_deferred c)) at 1 by set_solver.
    rewrite size_union, size_singleton by set_solver. done. }
  constructor; simpl.
  - unfold outstanding in *. simpl. lia.
  - split; [done|]. simpl. intros j [? _]%elem_of_difference. by apply Hf2.
  - unfold outstanding in Hs. destruct (cx_done c); simpl in Hs; [|done].
    destruct (Nat.eqb_spec (size (cx_promises c) + size (cx_deferred c)) 0); [lia|done].
Qed.
End steps.

Section runs.
Context {S I : Type} {ST : Storage S I} {IT : Iterator I} {CB : Type}.
Implicit Types c : cbContext S CB.

(** An action that the callback itself performs. *)
Definition by_callback (a : ctx_action) : bool :=
  match a with AResolve _ _ | ADeferred _ _ | AFinish => false | _ => true end.

(** An action of the environment: a promise or a deferred commit is resolved. *)
Definition by_environment (a : ctx_action) : bool :=
  match a with AResolve _ _ | ADeferred _ _ => true | _ => false end.

Lemma env_step_keeps a c c' :
  ctx_inv c -> by_environment a = true -> ctx_step a c = Ret c' -> keeps c c'.
Proof.
  intros Hi Ha H. destruct a as [| | | | | | |i r|i err]; try done; simpl in *.
  - unfold resolve in H. destruct (cx_promises c !! i) as [k|] eqn:E; [|done].
    apply run_pending_inv in H as (Hi' & Hl & _); [|by eapply resolve_mid]. by split.
  - unfold call_deferred in H. case_decide; [|simplify_eq; by split].
    destruct (emitDone_ok err _ (deferred_mid i c Hi ltac:(done))) as (c1 & E & Hi1 & Hd1 & He1 & _).
    rewrite E in H. simplify_eq. split; [done|]. split; [done|]. by eexists.
Qed.

Lemma step_keeps a c c' :
  ctx_inv c -> cx_done c = false -> a <> AFinish -> ctx_step a c = Ret c' -> keeps c c'.
Proof.
  intros Hi Hd Hne H. destruct (by_environment a) eqn:Ea; [by eapply env_step_keeps|].
  destruct a; simpl in H; try done.
  - by eapply Emit_keeps.
  - by eapply Loopback_keeps.
  - by eapply ctx_SetValue_keeps.
  - by eapply ctx_Delete_keeps.
  - injection H as <-. by apply DeferCommit_keeps.
  - by eapply Fail_keeps.
Qed.

(** The return of the callback. *)
Lemma cx_finish_ok c :
  ctx_inv c -> cx_done c = false ->
  exists c', cx_finish None c = Ret c' /\ ctx_inv c' /\ cx_done c' = true /\
    errs (cx_errors c') = errs (cx_errors c) /\ cx_table c' = cx_table c.
Proof.
  intros [Hc Hf Hs] Hd. rewrite Hd in Hs. simpl in Hs. unfold cx_finish.
  destruct (tryCommit_ok None (cx_set_protocol true (cx_emits c) (cx_dones c) (cx_stores c)
      (cx_errors c) (cx_commits c) (cx_failures c) (cx_wg c) c)) as (c' & E & Hi & Hd' & He & Ht & _); [done|done|done|].
  exists c'. split_and!; try done. rewrite He. by rewrite app_nil_r.
Qed.

(** A settled context does not change any more. *)
Lemma settled_env_step a c c' :
  ctx_inv c -> outstanding c = 0%nat -> by_environment a = true -> ctx_step a c = Ret c' -> c' = c.
Proof.
  intros Hi Ho Ha H. unfold outstanding in Ho. destruct a as [| | | | | | |i r|i err]; try done; simpl in H.
  - unfold resolve in H. assert (cx_promises c = ∅) as E by (apply map_size_empty_inv; lia).
    by rewrite E, lookup_empty in H.
  - unfold call_deferred in H. assert (cx_deferred c = ∅) as E by (apply leibniz_equiv, size_empty_iff; lia).
    rewrite E in H. by injection H as <-.
Qed.

Lemma ctx_run_app l1 l2 c : ctx_run (l1 ++ l2) c = (c ← ctx_run l1 c; ctx_run l2 c).
Proof.
  revert c. induction l1 as [|a l1 IH]; intros c; simpl; [done|].
  destruct (ctx_step a c); simpl; [apply IH|done|done].
Qed.

Lemma ctx_run_rest l1 l2 c c1 c2 : ctx_run l1 c = Ret c1 -> ctx_run (l1 ++ l2) c = Ret c2 -> ctx_run l2 c1 = Ret c2.
Proof. rewrite ctx_run_app. by intros ->. Qed.

(** *** The errors that a run reports *)

(** The error that an answer to an emission reports: its own, or that of storing its offset. *)
Definition answer_error (k : pending) (r : resolution) (t : option (PartitionTable S)) : option error :=
  match k, r with
  | PEmit topic, (_, Some e) => Some (ErrWrap ("error emitting to " +:+ topic) e)
  | _, (_, Some e) => Some e
  | PStore, (Some m, None) =>
      match t with
      | Some t => match storeNewestOffset (pm_Offset m) t with Ret (err, _) => err | _ => None end
      | None => None
      end
  | _, _ => None
  end.
Arguments answer_error : simpl never.

(** An operation whose answer is already there is the operation and then the answer. *)
Definition answered (a : ctx_action) : option (ctx_action * resolution) :=
  match a with
  | AEmit b topic key v o (Some r) => Some (AEmit b topic key v o None, r)
  | ALoopback b key v o (Some r) => Some (ALoopback b key v o None, r)
  | ASetValue b v o skip (Some r) => Some (ASetValue b v o skip None, r)
  | ADelete b o (Some r) => Some (ADelete b o None, r)
  | _ => None
  end.

(** The error a step reports: that of the answer to what is outstanding, or that of a deferred commit,
    of which every call but the first is ignored. *)
Definition step_error (a : ctx_action) c : option error :=
  match a with
  | AResolve i r => k ← cx_promises c !! i; answer_error k r (cx_table c)
  | ADeferred i err => if decide (i ∈ cx_deferred c) then err else None
  | _ =>
      '(a, r) ← answered a;
      match ctx_step a c with
      | Ret c' => k ← cx_promises c' !! cx_next c; answer_error k r (cx_table c')
      | _ => None
      end
  end.

Fixpoint run_errors (l : list ctx_action) c : list error :=
  match l with
  | [] => []
  | a :: l => option_list (step_error a c) ++ match ctx_step a c with Ret c => run_errors l c | _ => [] end
  end.

Lemma run_pending_errors k r c c' :
  ctx_mid c -> run_pending k r c = Ret c' -> errs (cx_errors c') = errs (cx_errors c) ++ option_list (answer_error k r (cx_table c)).
Proof.
  intros Hmid H. destruct r as [msg err]. unfold run_pending in H.
  assert (forall err' c0, ctx_mid c0 -> cx_errors c0 = cx_errors c -> emitDone err' c0 = Ret c' ->
    errs (cx_errors c') = errs (cx_errors c) ++ option_list err') as Hgen.
  { intros err' c0 Hm He E. destruct (emitDone_ok err' c0 Hm) as (c2 & E2 & _ & _ & Her & _).
    rewrite E2 in E. injection E as <-. by rewrite Her, He. }
  unfold answer_error. destruct k as [topic| |], err as [e|], msg as [m|]; try (by eapply Hgen in H; [exact H|done|done]).
  destruct (cx_table c) as [t|]; [|done]. destruct (storeNewestOffset _ t) as [[err' t']| |]; [|done|done].
  simpl in H. eapply Hgen in H; [exact H| |done]. by destruct Hmid.
Qed.

(** The pending context of an emission whose answer comes later. *)
Lemma send_errors topic key v hdr k r c c' :
  ctx_mid c -> cx_done c = false -> send topic key v hdr k (Some r) c = Ret c' ->
  errs (cx_errors c') = errs (cx_errors c) ++ option_list (answer_error k r (cx_table c)) /\
  exists c1, send topic key v hdr k None c = Ret c1 /\ cx_promises c1 !! cx_next c = Some k /\ cx_table c1 = cx_table c.
Proof.
  intros Hmid Hd H. split.
  - unfold send in H. apply run_pending_errors in H; [exact H|]. by destruct Hmid.
  - eexists. split; [done|]. split; [apply lookup_insert_eq|done].
Qed.

Lemma set_rerr_id c : c = cx_set_rerr (cx_rerr c) c.
Proof. by destruct c. Qed.

(** Whatever its checks find, an emit that returns has emitted; at most the error of [Fail] changes. *)
Lemma fail_if_shape b cancelled e c c' : fail_if b cancelled e c = Ret c' -> exists e', c' = cx_set_rerr e' c.
Proof.
  unfold fail_if, Fail. destruct b; [destruct cancelled; [|done]|]; intros [= <-]; [by eexists|]. eexists. apply set_rerr_id.
Qed.

Lemma encode_shape codec cancelled m v c d c' : encode codec cancelled m v c = Ret (d, c') -> exists e', c' = cx_set_rerr e' c.
Proof.
  unfold encode, Fail. destruct codec as [codec|]; [|done]. destruct (Encode codec v); [|destruct cancelled; [|done]];
    intros [= <- <-]; [eexists; apply set_rerr_id|by eexists].
Qed.

Lemma Emit_shape cancelled topic key v o r c c' :
  Emit cancelled topic key v o r c = Ret c' ->
  exists data e, forall r', Emit cancelled topic key v o r' c = ctx_emit topic key data (applyOptions o) r' (cx_set_rerr e c).
Proof.
  unfold Emit. intros H.
  repeat match type of H with
  | (fail_if ?b ?x ?e ?c1 ≫= _) = Ret _ =>
      let E := fresh "E" in let c2 := fresh "c" in
      destruct (fail_if b x e c1) as [c2| |] eqn:E; [|done|done]; cbn [mbind outcome_bind] in H |- *;
      apply fail_if_shape in E as [? ->]
  end.
  destruct (if is_nil v then _ else _) as [[data c5]| |] eqn:E; [|done|done]. cbn [mbind outcome_bind] in H |- *.
  assert (exists e, c5 = cx_set_rerr e c) as [e ->].
  { destruct (is_nil v); [by injection E as <- <-; eexists|]. apply encode_shape in E as [e ->]. by eexists. }
  by exists data, e.
Qed.

Lemma Loopback_shape cancelled key v o r c c' :
  Loopback cancelled key v o r c = Ret c' ->
  exists topic data e, forall r', Loopback cancelled key v o r' c = ctx_emit topic key data (applyOptions o) r' (cx_set_rerr e c).
Proof.
  unfold Loopback. intros H. destruct (fail_if _ _ _ _) as [c1| |] eqn:E; [|done|done]. cbn [mbind outcome_bind] in H |- *.
  apply fail_if_shape in E as [e ->]. destruct (LoopStream _) as [l|]; [|done].
  destruct (encode _ _ _ _ _) as [[data c1]| |] eqn:E; [|done|done]. cbn [mbind outcome_bind] in H |- *.
  apply encode_shape in E as [e' ->]. by exists (td_name l), data, e'.
Qed.

Lemma ctx_emit_errors topic key v hdr r e c c' :
  ctx_inv c -> cx_done c = false -> ctx_emit topic key v hdr (Some r) (cx_set_rerr e c) = Ret c' ->
  exists c1 k, ctx_emit topic key v hdr None (cx_set_rerr e c) = Ret c1 /\ cx_promises c1 !! cx_next c = Some k /\
    errs (cx_errors c') = errs (cx_errors c) ++ option_list (answer_error k r (cx_table c1)).
Proof.
  intros Hi Hd. unfold ctx_emit. destruct (send _ _ _ _ _ (Some r) _) as [c2| |] eqn:E; [|done|done].
  cbn [mbind outcome_bind]. intros [= <-].
  apply send_errors in E as [He (c1 & -> & Hk & Ht)]; [|apply count_emit_mid; [by destruct Hi|done]|done].
  eexists _, _. split; [done|]. split; [exact Hk|].
  change (cx_table (track _ _ c1)) with (cx_table c1). by rewrite Ht.
Qed.

(** Nothing is pending under the next name. *)
Lemma next_free c : ctx_inv c -> cx_promises c !! cx_next c = None.
Proof.
  intros [_ [Hf _] _]. destruct (cx_promises c !! cx_next c) eqn:E; [|done]. apply Hf in E. lia.
Qed.

(** Queuing an update of the statistics does not change how an offset is stored. *)
Lemma answer_error_track k r skip n (t : PartitionTable S) :
  answer_error k r (Some (TrackMessageWrite skip n t)) = answer_error k r (Some t).
Proof.
  unfold TrackMessageWrite. destruct (enqueue_shape skip (UTrackWrite n) t) as [us ->].
  unfold answer_error. destruct k as [topic| |], r as [[m|] [e|]]; try done.
  unfold storeNewestOffset, table_GetOffset, table_SetOffset, on_storage, with_st. simpl.
  destruct (pt_st t) as [st|]; [|done]. simpl. destruct (st_GetOffset _ _) as [o|]; [|done].
  destruct (_ && _); [|done]. by destruct (st_SetOffset _ _).
Qed.

(** An operation that fails without stopping the callback reports nothing. *)
Lemma Fail_reports cancelled e r c c1 c' :
  ctx_inv c -> cx_errors c1 = cx_errors c -> cx_promises c1 = cx_promises c -> Fail cancelled e c1 = Ret c' ->
  errs (cx_errors c') = errs (cx_errors c) ++ option_list (match Fail cancelled e c1 with
    Ret c2 => k ← cx_promises c2 !! cx_next c; answer_error k r (cx_table c2) | _ => None end).
Proof.
  intros Hi%next_free He Hp Hf. rewrite Hf. unfold Fail in Hf. destruct cancelled; [|done]. injection Hf as <-. simpl.
  rewrite Hp, Hi, He. simpl. by rewrite app_nil_r.
Qed.

Lemma ctx_Delete_errors cancelled o r c c' :
  ctx_inv c -> cx_done c = false -> ctx_Delete cancelled o (Some r) c = Ret c' ->
  errs (cx_errors c') = errs (cx_errors c) ++ option_list (step_error (ADelete cancelled o (Some r)) c).
Proof.
  intros Hi Hd H. cbn [step_error answered mbind option_bind ctx_step]. unfold ctx_Delete, deleteKey in *.
  destruct (GroupTable (cx_graph c)) as [gt|]; [|by apply Fail_reports].
  destruct (cx_table (count_store c)) as [t|]; [|done].
  destruct (table_Delete _ t) as [[[e|] t']| |]; cbn [mbind outcome_bind fail_err] in *; [by apply Fail_reports| |done|done].
  destruct (send _ _ _ _ _ (Some r) _) as [c2| |] eqn:E; [|done|done]. cbn [mbind outcome_bind fail_err] in *. injection H as <-.
  apply send_errors in E as [He (c1 & -> & Hk & Ht)]; [|apply count_emit_mid; [by destruct Hi|done]|done].
  cbn [mbind outcome_bind fail_err]. rewrite Ht. simpl in Hk. by rewrite Hk.
Qed.

Lemma ctx_SetValue_errors cancelled v o skip r c c' :
  ctx_inv c -> cx_done c = false -> ctx_SetValue cancelled v o skip (Some r) c = Ret c' ->
  errs (cx_errors c') = errs (cx_errors c) ++ option_list (step_error (ASetValue cancelled v o skip (Some r)) c).
Proof.
  intros Hi Hd H. cbn [step_error answered mbind option_bind ctx_step]. unfold ctx_SetValue, setValueForKey in *.
  destruct (GroupTable (cx_graph c)) as [gt|]; [|by apply Fail_reports]. destruct (is_nil v); [by apply Fail_reports|].
  destruct (td_codec gt) as [codec|]; [|done]. destruct (Encode codec v) as [data|]; [|by apply Fail_reports].
  destruct (cx_table (count_store c)) as [t|]; [|done].
  destruct (table_Set _ _ t) as [[[e|] t']| |]; cbn [mbind outcome_bind fail_err] in *; [by apply Fail_reports| |done|done].
  destruct (send _ _ _ _ _ (Some r) _) as [c2| |] eqn:E; [|done|done]. cbn [mbind outcome_bind fail_err] in *. injection H as <-.
  apply send_errors in E as [He (c1 & -> & Hk & Ht)]; [|apply count_emit_mid; [by destruct Hi|done]|done].
  cbn [mbind outcome_bind fail_err]. change (cx_table (track _ _ c1)) with (cx_table c1). rewrite Ht. simpl in Hk, He |- *.
  rewrite Hk. cbn [mbind option_bind]. rewrite answer_error_track, <- He. by destruct (cx_table c2).
Qed.

(** Without an answer nothing is reported. *)
Lemma unanswered_errors a c c' :
  answered a = None -> by_callback a = true -> ctx_step a c = Ret c' -> cx_errors c' = cx_errors c.
Proof.
  intros Ha Hb H. destruct a as [b topic key v o [r|]|b key v o [r|]|b v o skip [r|]|b o [r|]| |b e| |i r|i err]; try done; cbn [ctx_step] in H.
  - destruct (Emit_shape _ _ _ _ _ _ _ _ H) as (d & e & E). rewrite E in H. by injection H as <-.
  - destruct (Loopback_shape _ _ _ _ _ _ _ H) as (t & d & e & E). rewrite E in H. by injection H as <-.
  - unfold ctx_SetValue, setValueForKey, table_Set, on_storage, with_st, send, fail_err, Fail in H. repeat (case_match; simplify_eq/=; try done).
  - unfold ctx_Delete, deleteKey, table_Delete, on_storage, with_st, send, fail_err, Fail in H. repeat (case_match; simplify_eq/=; try done).
  - by injection H as <-.
  - unfold Fail in H. destruct b; [|done]. by injection H as <-.
Qed.

(** A step adds the error it reports. *)
Lemma step_errors a c c' :
  ctx_inv c -> a <> AFinish -> (cx_done c = false \/ by_environment a = true) -> ctx_step a c = Ret c' ->
  errs (cx_errors c') = errs (cx_errors c) ++ option_list (step_error a c).
Proof.
  intros Hi Hne Hph H. destruct (by_callback a) eqn:Eb.
  - destruct Hph as [Hd|?]; [|by destruct a]. destruct (answered a) as [[a' r]|] eqn:Ea.
    2: { rewrite (unanswered_errors a c c' Ea Eb H). destruct a; try done; cbn [step_error]; rewrite Ea; simpl; by rewrite app_nil_r. }
    destruct a as [b topic key v o [r'|]|b key v o [r'|]|b v o skip [r'|]|b o [r'|]| |b e| |i r'|i err]; try done;
      injection Ea as <- ->; cbn [ctx_step] in H.
    + destruct (Emit_shape _ _ _ _ _ _ _ _ H) as (d & e & E). rewrite E in H.
      destruct (ctx_emit_errors _ _ _ _ _ _ _ _ Hi Hd H) as (c1 & k & E1 & Hk & He).
      cbn [step_error answered mbind option_bind ctx_step]. by rewrite E, E1, Hk.
    + destruct (Loopback_shape _ _ _ _ _ _ _ H) as (t & d & e & E). rewrite E in H.
      destruct (ctx_emit_errors _ _ _ _ _ _ _ _ Hi Hd H) as (c1 & k & E1 & Hk & He).
      cbn [step_error answered mbind option_bind ctx_step]. by rewrite E, E1, Hk.
    + by apply ctx_SetValue_errors.
    + by apply ctx_Delete_errors.
  - destruct a as [| | | | | | |i r|i err]; try done; cbn [ctx_step step_error] in *.
    + unfold resolve in H. destruct (cx_promises c !! i) as [k|] eqn:E; [|done].
      apply run_pending_errors in H; [exact H|by eapply resolve_mid].
    + unfold call_deferred in H. destruct (decide (i ∈ cx_deferred c)) as [Hi'|]; [|injection H as <-; by rewrite app_nil_r].
      destruct (emitDone_ok err _ (deferred_mid i c Hi Hi')) as (c1 & E & _ & _ & He1 & _). rewrite E in H. by injection H as <-.
Qed.

Lemma run_keeps l c c' :
  ctx_inv c -> Forall (fun a => a <> AFinish /\ (cx_done c = false \/ by_environment a = true)) l -> ctx_run l c = Ret c' ->
  ctx_inv c' /\ cx_done c' = cx_done c /\ errs (cx_errors c') = errs (cx_errors c) ++ run_errors l c.
Proof.
  revert c. induction l as [|a l IH]; intros c Hi HF H; simpl in *.
  { simplify_eq. by rewrite app_nil_r. }
  apply Forall_cons in HF as [[Hne Hph] HF].
  destruct (ctx_step a c) as [c1| |] eqn:E; [|done|done]. simpl in H.
  assert (keeps c c1) as [Hi1 [Hd1 _]] by (destruct Hph; [by eapply step_keeps|by eapply env_step_keeps]).
  pose proof (step_errors a c c1 Hi Hne Hph E) as He1.
  rewrite <- Hd1 in HF. destruct (IH c1 Hi1 HF H) as (Hi2 & Hd2 & He2).
  split_and!; [done|congruence|]. by rewrite He2, He1, app_assoc.
Qed.

(** The errors of a run in two parts. *)
Lemma run_errors_app l1 l2 c c1 : ctx_run l1 c = Ret c1 -> run_errors (l1 ++ l2) c = run_errors l1 c ++ run_errors l2 c1.
Proof.
  revert c. induction l1 as [|a l1 IH]; intros c H; simpl in *; [by injection H as <-|].
  destruct (ctx_step a c) as [c2| |]; [|done|done]. simpl in H. by rewrite (IH c2 H), app_assoc.
Qed.

Lemma newContext_start gg msg hdr table joins lookups :
  exists c, cx_start (newContext (S := S) (CB := CB) gg msg hdr table joins lookups) = Ret c /\ ctx_inv c /\
    cx_done c = false /\ errs (cx_errors c) = [] /\ cx_table c = table.
Proof.
  eexists. split_and!; done.
Qed.
End runs.

(** ** The table and its changelog *)

(** The effect of the emissions to the topic of the group table. *)
Definition replay_sent (topic : string) (l : list emission) (m : gmap string string) : gmap string string :=
  fold_left (fun m e => if String.eqb (em_topic e) topic then apply_kv (em_key e) (em_value e) m else m) l m.

Lemma replay_sent_app topic l1 l2 m : replay_sent topic (l1 ++ l2) m = replay_sent topic l2 (replay_sent topic l1 m).
Proof. apply fold_left_app. Qed.

(** The loop stream and the group table have the names of the group, as [DefineGroup] sets them. *)
Definition graph_named {CB} (gg : GroupGraph CB) : Prop :=
  (forall l, LoopStream gg = Some l -> td_name l = loopName (gg_group gg)) /\
  (forall t, GroupTable gg = Some t -> td_name t = tableName (gg_group gg)).

Lemma DefineGroup_named {CB} group (edges : list (Edge CB)) gg :
  DefineGroup group edges = Ret gg -> graph_named gg.
Proof.
  unfold DefineGroup. rewrite add_edges_flat. intros Hd.
  destruct (add_edges_grows _ _ _ (flat_simple edges) Hd) as (G & _ & _ & _ & _ & L1 & P1 & _).
  simpl in *. unfold graph_named, LoopStream, GroupTable. rewrite G, L1, P1. split.
  - intros l Hl. apply head_Some_elem_of in Hl. by apply loop_defs_name in Hl as [_ ?].
  - intros t Ht. apply head_Some_elem_of in Ht. by apply table_defs_name in Ht as [_ ?].
Qed.

Lemma DefineGroup_group {CB} group (edges : list (Edge CB)) gg : DefineGroup group edges = Ret gg -> gg_group gg = group.
Proof.
  unfold DefineGroup. rewrite add_edges_flat. intros Hd.
  by destruct (add_edges_grows _ _ _ (flat_simple edges) Hd) as (-> & _).
Qed.

Section changelog.
Context {S I : Type} {ST : Storage S I} {SL : StorageLaws S I} {IT : Iterator I} {CB : Type}.
Implicit Types c : cbContext S CB.

(** What the steps of a context never change. *)
Definition same_frame c c' : Prop := cx_graph c' = cx_graph c /\ cx_msg c' = cx_msg c.

Lemma tryCommit_frame err c c' :
  tryCommit err c = Ret c' -> cx_table c' = cx_table c /\ cx_sent c' = cx_sent c /\ same_frame c c'.
Proof.
  unfold tryCommit, markDone, wg_add, same_frame. simpl.
  destruct (_ || _); [by intros [= <-]|]. destruct (Errors_HasErrors _); simpl; destruct (_ <? _); try done;
    by intros [= <-].
Qed.

(** The table of the context is open and holds the changelog applied to [m0]. *)
Definition in_step (m0 : gmap string string) c : Prop :=
  exists t st, cx_table c = Some t /\ pt_st t = Some st /\ st_ok (sp_Storage st) /\
    st_contents (sp_Storage st) = replay_sent (tableName (gg_group (cx_graph c))) (cx_sent c) m0.

(** The offsets Kafka reports fit an [int64]. *)
Definition resolution_ok (r : resolution) : Prop := match r.1 with Some m => in_int64 (pm_Offset m) | None => True end.

Lemma storeNewestOffset_ok o t st :
  pt_st t = Some st -> st_ok (sp_Storage st) -> in_int64 o ->
  exists t' s', storeNewestOffset o t = Ret (None, t') /\ pt_st t' = Some (sp_set s' st) /\ st_ok s' /\
    st_contents s' = st_contents (sp_Storage st).
Proof.
  intros Hst Hok Ho. unfold storeNewestOffset, table_GetOffset, table_SetOffset, on_storage, with_st.
  rewrite Hst. cbn [mbind outcome_bind]. rewrite law_GetOffset by done.
  destruct (negb _ && _).
  - destruct (law_SetOffset (sp_Storage st) o Hok Ho) as (s' & -> & Hok' & Hc & _). by eexists _, s'.
  - exists t, (sp_Storage st). split_and!; try done. rewrite Hst. by destruct st.
Qed.

(** Resolving a promise leaves the contents of the table and what was emitted alone. *)
Lemma run_pending_contents k r c c' t st :
  cx_table c = Some t -> pt_st t = Some st -> st_ok (sp_Storage st) -> resolution_ok r -> run_pending k r c = Ret c' ->
  cx_sent c' = cx_sent c /\ same_frame c c' /\
  exists t' st', cx_table c' = Some t' /\ pt_st t' = Some st' /\ st_ok (sp_Storage st') /\
    st_contents (sp_Storage st') = st_contents (sp_Storage st).
Proof.
  intros Ht Hst Hok Hr H. destruct r as [msg err]. unfold run_pending in H.
  assert (forall err', emitDone err' c = Ret c' -> cx_sent c' = cx_sent c /\ same_frame c c' /\
    exists t' st', cx_table c' = Some t' /\ pt_st t' = Some st' /\ st_ok (sp_Storage st') /\
      st_contents (sp_Storage st') = st_contents (sp_Storage st)) as Hgen.
  { intros err' (Et & Es & Hf)%tryCommit_frame. simpl in *. split_and!; [done|done|]. exists t, st. by rewrite Et. }
  destruct k; [by eapply Hgen|by eapply Hgen|].
  destruct err as [e|]; [by eapply Hgen|]. destruct msg as [m|]; [|by eapply Hgen]. rewrite Ht in H.
  destruct (storeNewestOffset_ok (pm_Offset m) t st Hst Hok Hr) as (t' & s' & E & Hst' & Hok' & Hc'). rewrite E in H.
  simpl in H. apply tryCommit_frame in H as (Et & Es & Hf). simpl in *. split_and!; [done|done|].
  exists t', (sp_set s' st). by rewrite Et.
Qed.

Lemma run_pending_in_step m0 k r c c' :
  in_step m0 c -> resolution_ok r -> run_pending k r c = Ret c' -> in_step m0 c' /\ same_frame c c'.
Proof.
  intros (t & st & Ht & Hst & Hok & Hc) Hr H.
  destruct (run_pending_contents k r c c' t st Ht Hst Hok Hr H) as (Es & Hf & t' & st' & Ht' & Hst' & Hok' & Hc').
  split; [|done]. exists t', st'. rewrite Es, (proj1 Hf), Hc'. done.
Qed.

(** Sending a record keeps the table in step if the record is what the table was changed by. *)
Lemma send_in_step m0 topic key v hdr k r c c' t st :
  cx_table c = Some t -> pt_st t = Some st -> st_ok (sp_Storage st) ->
  st_contents (sp_Storage st) = replay_sent (tableName (gg_group (cx_graph c)))
    (cx_sent c ++ [mkEmission topic key v hdr]) m0 ->
  (forall r', r = Some r' -> resolution_ok r') ->
  send topic key v hdr k r c = Ret c' -> in_step m0 c' /\ same_frame c c'.
Proof.
  intros Ht Hst Hok Hc Hr H. unfold send in H. destruct r as [r|].
  - eapply run_pending_in_step in H; [exact H| |by apply Hr]. exists t, st. done.
  - injection H as <-. split; [|done]. exists t, st. done.
Qed.
End changelog.

Section changelog_steps.
Context {S I : Type} {ST : Storage S I} {SL : StorageLaws S I} {IT : Iterator I} {CB : Type}.
Implicit Types c : cbContext S CB.

(** An action of a processor that is not shutting down; what is resolved at once fits. *)
Definition action_live (a : ctx_action) : Prop :=
  match a with
  | AEmit cancelled _ _ _ _ r | ALoopback cancelled _ _ _ r | ASetValue cancelled _ _ _ r | ADelete cancelled _ r =>
      cancelled = false /\ forall r', r = Some r' -> resolution_ok r'
  | AFail cancelled _ => cancelled = false
  | AResolve _ r => resolution_ok r
  | _ => True
  end.

(** The codec of the group table never encodes a value as nil. *)
Definition codec_non_nil (gg : GroupGraph CB) : Prop :=
  forall t codec v, GroupTable gg = Some t -> td_codec t = Some codec -> Encode codec v <> Ok None.

Lemma fail_if_false b e c c' : fail_if b false e c = Ret c' -> b = false /\ c' = c.
Proof. unfold fail_if, Fail. destruct b; [done|]. by intros [= <-]. Qed.

Lemma encode_false codec m v c d c' : encode codec false m v c = Ret (d, c') -> c' = c.
Proof. unfold encode. destruct codec; [|done]. destruct (Encode c0 v); simpl; [|done]. by intros [= _ <-]. Qed.

Lemma ctx_emit_in_step m0 topic key v hdr r c c' :
  in_step m0 c -> topic <> tableName (gg_group (cx_graph c)) -> (forall r', r = Some r' -> resolution_ok r') ->
  ctx_emit topic key v hdr r c = Ret c' -> in_step m0 c' /\ same_frame c c'.
Proof.
  intros (t & st & Ht & Hst & Hok & Hc) Hne Hr H. unfold ctx_emit in H.
  destruct (send _ _ _ _ _ _ _) as [c1| |] eqn:E; [|done|done]. simpl in H. injection H as <-.
  eapply (send_in_step m0) in E; [|exact Ht|exact Hst|exact Hok| |exact Hr]; [exact E|].
  rewrite replay_sent_app. simpl. by rewrite (proj2 (String.eqb_neq _ _) Hne).
Qed.

(** A write of the storage behind the table. *)
Lemma on_storage_ok (f : S -> option error * S) (t t' : PartitionTable S) err st :
  pt_st t = Some st -> on_storage f t = Ret (err, t') ->
  err = (f (sp_Storage st)).1 /\ pt_st t' = Some (sp_set (f (sp_Storage st)).2 st).
Proof.
  intros Hst H. unfold on_storage, with_st in H. rewrite Hst in H. destruct (f (sp_Storage st)) as [e s].
  by injection H as <- <-.
Qed.

Lemma ctx_Delete_in_step m0 o r c c' :
  in_step m0 c -> graph_named (cx_graph c) -> ~ st_reserved (ctx_Key c) -> (forall r', r = Some r' -> resolution_ok r') ->
  ctx_Delete false o r c = Ret c' -> in_step m0 c' /\ same_frame c c'.
Proof.
  intros (t & st & Ht & Hst & Hok & Hc) [_ Hn] Hk Hr H. unfold ctx_Delete, deleteKey in H. simpl in H.
  destruct (GroupTable (cx_graph c)) as [gt|] eqn:Eg; [|done]. rewrite Ht in H.
  destruct (table_Delete (ctx_Key c) t) as [[err t']| |] eqn:Ed; [|done|done]. simpl in H.
  apply (on_storage_ok _ _ _ _ st Hst) in Ed as [-> Hst'].
  destruct (law_Delete (sp_Storage st) (ctx_Key c) Hok Hk) as (s' & El & Hok' & Hc' & _). rewrite El in H, Hst'.
  simpl in *. destruct (send _ _ _ _ _ _ _) as [c1| |] eqn:E; [|done|done]. simpl in H. injection H as <-.
  eapply (send_in_step m0) in E; [exact E|done|exact Hst'|done| |exact Hr].
  simpl. rewrite replay_sent_app. simpl. rewrite (Hn gt eq_refl), String.eqb_refl. simpl. by rewrite Hc', Hc.
Qed.

Lemma ctx_SetValue_in_step m0 v o skip r c c' :
  in_step m0 c -> graph_named (cx_graph c) -> codec_non_nil (cx_graph c) -> ~ st_reserved (ctx_Key c) ->
  (forall r', r = Some r' -> resolution_ok r') ->
  ctx_SetValue false v o skip r c = Ret c' -> in_step m0 c' /\ same_frame c c'.
Proof.
  intros (t & st & Ht & Hst & Hok & Hc) [_ Hn] Hnn Hk Hr H. unfold ctx_SetValue, setValueForKey in H. simpl in H.
  destruct (GroupTable (cx_graph c)) as [gt|] eqn:Eg; [|done]. destruct (is_nil v); [done|].
  destruct (td_codec gt) as [codec|] eqn:Ec; [|done]. destruct (Encode codec v) as [[data|]|] eqn:Ee; [|by destruct (Hnn gt codec v)|done].
  rewrite Ht in H. destruct (table_Set (ctx_Key c) (Some data) t) as [[err t']| |] eqn:Ed; [|done|done]. simpl in H.
  apply (on_storage_ok _ _ _ _ st Hst) in Ed as [-> Hst'].
  destruct (law_Set (sp_Storage st) (ctx_Key c) data Hok Hk) as (s' & El & Hok' & Hc' & _). rewrite El in H, Hst'.
  simpl in *. destruct (send _ _ _ _ _ _ _) as [c1| |] eqn:E; [|done|done]. simpl in H.
  eapply (send_in_step m0) in E; [|done|exact Hst'|done| |exact Hr].
  2:{ simpl. rewrite replay_sent_app. simpl. rewrite (Hn gt eq_refl), String.eqb_refl. simpl. by rewrite Hc', Hc. }
  destruct E as [(t1 & st1 & Ht1 & Hst1 & Hok1 & Hc1) Hf1].
  destruct (cx_table c1) as [t2|] eqn:Et2; injection H as <-; [|simplify_eq]. injection Ht1 as <-.
  split; [|done]. destruct (enqueue_shape skip (UTrackWrite (Z.of_nat (String.length data))) t2) as [us Eq].
  unfold TrackMessageWrite. rewrite Eq. exists (pt_set_updates us t2), st1. done.
Qed.

Lemma step_in_step m0 a c c' :
  in_step m0 c -> graph_named (cx_graph c) -> codec_non_nil (cx_graph c) -> ~ st_reserved (ctx_Key c) ->
  action_live a -> ctx_step a c = Ret c' -> in_step m0 c' /\ same_frame c c'.
Proof.
  intros Hin Hn Hnn Hk Ha H. destruct a as [b topic key v o r|b key v o r|b v o skip r|b o r| |b e| |i r|i err]; simpl in *.
  - destruct Ha as [-> Hr]. unfold Emit in H.
    repeat match type of H with
    | (fail_if ?b false ?e ?c1 ≫= _) = Ret _ =>
        let E := fresh "E" in destruct (fail_if b false e c1) as [?| |] eqn:E; [|done|done];
        apply fail_if_false in E as [E ->]; simpl in H
    end.
    destruct (if is_nil v then _ else _) as [[data c1]| |] eqn:Ee; [|done|done]. simpl in H.
    assert (c1 = c) as -> by (destruct (is_nil v); [by injection Ee as _ <-|by apply encode_false in Ee]).
    eapply ctx_emit_in_step; [done| |done|done]. intros ->. by rewrite String.eqb_refl in *.
  - destruct Ha as [-> Hr]. unfold Loopback in H.
    destruct (fail_if _ _ _ _) as [c1| |] eqn:E; [|done|done]. apply fail_if_false in E as [_ ->]. simpl in H.
    destruct (LoopStream (cx_graph c)) as [l|] eqn:El; [|done].
    destruct (encode _ _ _ _ _) as [[data c1]| |] eqn:Ee; [|done|done]. simpl in H. apply encode_false in Ee as ->.
    eapply ctx_emit_in_step; [done| |done|done]. rewrite (proj1 Hn l El). apply loopName_tableName.
  - destruct Ha as [-> Hr]. by eapply ctx_SetValue_in_step.
  - destruct Ha as [-> Hr]. by eapply ctx_Delete_in_step.
  - injection H as <-. split; [|done]. destruct Hin as (t & st & ?). by exists t, st.
  - by subst b.
  - apply tryCommit_frame in H as (Et & Es & Hf). simpl in *. split; [|done].
    destruct Hin as (t & st & ?), Hf as [Eg _]. exists t, st. by rewrite Et, Es, Eg.
  - unfold resolve in H. destruct (cx_promises c !! i); [|done]. eapply run_pending_in_step in H; [exact H| |done].
    destruct Hin as (t & st & ?). by exists t, st.
  - unfold call_deferred in H. case_decide; [|injection H as <-; split; [done|done]].
    apply tryCommit_frame in H as (Et & Es & Hf). simpl in *. split; [|done].
    destruct Hin as (t & st & ?), Hf as [Eg _]. exists t, st. by rewrite Et, Es, Eg.
Qed.

Lemma run_in_step (l : list ctx_action) m0 c c' :
  in_step m0 c -> graph_named (cx_graph c) -> codec_non_nil (cx_graph c) -> ~ st_reserved (ctx_Key c) ->
  Forall action_live l -> ctx_run l c = Ret c' -> in_step m0 c'.
Proof.
  intros Hin Hn Hnn Hk Hl. revert c Hin Hn Hnn Hk. induction Hl as [|a l Ha Hl IH]; intros c Hin Hn Hnn Hk Hrun; simpl in Hrun.
  { by injection Hrun as <-. }
  destruct (ctx_step a c) as [c1| |] eqn:E; [|done|done]. simpl in Hrun.
  destruct (step_in_step m0 a c c1 Hin Hn Hnn Hk Ha E) as [Hin1 [Eg Em]].
  eapply (IH c1); [done|by rewrite Eg|by rewrite Eg| |done]. unfold ctx_Key. by rewrite Em.
Qed.
End changelog_steps.

(** ** Properties *)

(** C2. A message is committed at most once, and only after its callback has returned and everything it
    emitted is acknowledged: in every run of a context (the callback's operations and resolutions in
    any order, the return of the callback, further resolutions) nothing is committed or failed before
    the callback has returned or while something is outstanding; when nothing is outstanding the message
    is committed exactly once if no error was reported, and otherwise the processor is failed exactly
    once with the errors that were reported, which are those of emissions, of storing their offsets and
    of deferred commits, in order.  In both cases the context has left the wait group. *)
Theorem message_committed_once {S I} `{Storage S I} `{!Iterator I} {CB} (gg : GroupGraph CB) msg hdr table joins lookups
    (before after : list ctx_action) (c0 c1 c : cbContext S CB) :
  cx_start (newContext gg msg hdr table joins lookups) = Ret c0 ->
  Forall (fun a => a <> AFinish) before -> Forall (fun a => by_environment a = true) after ->
  ctx_run before c0 = Ret c1 -> ctx_run (AFinish :: after) c1 = Ret c ->
  let reported := run_errors (before ++ AFinish :: after) c0 in
  ctx_open c1 /\
  if (outstanding c =? 0)%nat
  then cx_wg c = 0 /\ (if decide (reported = []) then cx_commits c = 1%nat /\ cx_failures c = []
                       else cx_commits c = 0%nat /\ cx_failures c = [Some (ErrMulti reported)])
  else ctx_open c.
Proof.
  intros Hst Hb Ha E1 Hrun reported.
  destruct (newContext_start (S := S) gg msg hdr table joins lookups) as (c0' & Hst' & Hi0 & Hd0 & He0 & _).
  rewrite Hst' in Hst. simplify_eq.
  destruct (run_keeps before c0 c1 Hi0) as (Hi1 & Hd1 & He1); [|done|].
  { eapply Forall_impl; [exact Hb|]. auto. }
  cbn [ctx_run ctx_step] in Hrun.
  destruct (cx_finish_ok c1 Hi1) as (c2 & E2 & Hi2 & Hd2 & He2 & _); [congruence|]. rewrite E2 in Hrun. simpl in Hrun.
  destruct (run_keeps after c2 c Hi2) as ([_ _ Hs] & Hd & He); [|done|].
  { eapply Forall_impl; [exact Ha|]. intros a Hx. split; [by destruct a|by right]. }
  assert (errs (cx_errors c) = reported) as Herr.
  { unfold reported. rewrite (run_errors_app _ _ _ _ E1), He, He2, He1, He0. cbn [run_errors ctx_step]. by rewrite E2. }
  split; [destruct Hi1 as [_ _ Hs1]; by rewrite Hd1, Hd0 in Hs1|].
  rewrite Hd, Hd2 in Hs. simpl in Hs. destruct (outstanding c =? 0)%nat; [|done].
  destruct Hs as [Hw Hs]. rewrite Herr in Hs. split; [done|].
  destruct (decide (reported = [])), Hs as [(? & ? & ?)|(? & ? & ?)]; done.
Qed.

(** A small processor: the group g with the input topic in, an output topic and an int64 table. *)
Definition ctx_graph : GroupGraph nat :=
  ret_or (empty_graph "g")
    (DefineGroup "g" [Input "in" (Some StringCodec) (Some 0%nat); Output "out" (Some StringCodec); Persist (Some Int64Codec)]).

Lemma ctx_graph_defined :
  DefineGroup "g" [Input "in" (Some StringCodec) (Some 0%nat); Output "out" (Some StringCodec); Persist (Some Int64Codec)]
  = Ret ctx_graph.
Proof. apply ret_or_ok. vm_cast_no_check (eq_refl true). Qed.

Definition ctx_msg : ConsumerMessage := mkMsg "in" 0 (Some "k"%string) (Some "hello"%string) 5 [] None.

Definition ctx_demo {S} (s : S) (u : UpdateCallback S) : cbContext S nat :=
  let p := mkPT "g-table" 0 (NewSignal [0; 1; 2; 3; 4; 5]) (Some (mkProxy s "g-table" 0 false u None None)) u
             (newTableStats empty_heap).1 (newTableStats empty_heap).2 [] 0 in
  match cx_start (newContext ctx_graph ctx_msg None (Some p) ∅ ∅) with
  | Ret c => c
  | _ => newContext ctx_graph ctx_msg None (Some p) ∅ ∅
  end.

Definition demo_ctx : cbContext memory nat := ctx_demo NewMemory (fun _ s => (None, s)).

(** The callback emits a message and sets its value; the promises are resolved afterwards. *)
Definition demo_before : list ctx_action :=
  [AEmit false "out" "k" (VString "x") [] None; ASetValue false (VInt64 7) [] false None].
Definition demo_after : list ctx_action :=
  [AResolve 1 (Some (mkPMsg 0 3), None); AResolve 0 (Some (mkPMsg 0 9), None)].

Definition run_demo : outcome (cbContext memory nat) :=
  ctx_run (ST := memory_Storage id) (demo_before ++ AFinish :: demo_after) demo_ctx.
Definition final_demo : cbContext memory nat := ret_or demo_ctx run_demo.

Definition returned_demo : cbContext memory nat :=
  ret_or demo_ctx (ctx_run (ST := memory_Storage id) demo_before demo_ctx).

Lemma run_demo_ok : ctx_run (ST := memory_Storage id) (demo_before ++ AFinish :: demo_after) demo_ctx = Ret final_demo.
Proof. apply (ret_or_ok demo_ctx). vm_cast_no_check (eq_refl true). Qed.

Lemma returned_demo_ok : ctx_run (ST := memory_Storage id) demo_before demo_ctx = Ret returned_demo.
Proof. apply ret_or_ok. vm_cast_no_check (eq_refl true). Qed.

Lemma demo_no_errors : run_errors (ST := memory_Storage id) (demo_before ++ AFinish :: demo_after) demo_ctx = [].
Proof. vm_cast_no_check (eq_refl (@nil error)). Qed.

Lemma message_committed_once_witness :
  outstanding final_demo = 0%nat /\ cx_commits final_demo = 1%nat.
Proof.
  assert (outstanding final_demo = 0%nat) as Ho by (vm_cast_no_check (eq_refl 0%nat)). split; [exact Ho|].
  destruct (message_committed_once (H := memory_Storage id) (CB := nat) ctx_graph ctx_msg None (cx_table demo_ctx) ∅ ∅
    demo_before demo_after demo_ctx returned_demo final_demo) as [_ Hs].
  - reflexivity.
  - by repeat constructor.
  - by repeat constructor.
  - exact returned_demo_ok.
  - exact (ctx_run_rest _ _ _ _ _ returned_demo_ok run_demo_ok).
  - rewrite Ho, demo_no_errors in Hs. exact (proj1 (proj2 Hs)).
Defined.

(** C35. Progress: in every context that satisfies the invariant and has a working table, each promise and
    each deferred commit that is outstanding can be resolved; this returns, keeps the invariant, and
    leaves one less outstanding.  So every context whose promises are all finished is settled. *)
Theorem resolution_progress {S I} `{StorageLaws S I} `{!Iterator I} {CB} (m0 : gmap string string) (a : ctx_action)
    (c : cbContext S CB) :
  ctx_inv c -> in_step m0 c ->
  match a with
  | AResolve i r => is_Some (cx_promises c !! i) /\ resolution_ok r
  | ADeferred i _ => i ∈ cx_deferred c
  | _ => False
  end ->
  exists c', ctx_step a c = Ret c' /\ ctx_inv c' /\ outstanding c = Datatypes.S (outstanding c').
Proof.
  intros Hi (t & st & Ht & Hst & Hok & _) Ha. destruct a as [| | | | | | |i r|i err]; try done; simpl.
  - destruct Ha as [[k Hk] Hr]. pose proof (resolve_mid i k c Hi Hk) as Hmid. unfold resolve. rewrite Hk.
    set (c1 := cx_set_outstanding _ _ _ _ _ c) in *.
    assert (outstanding c = Datatypes.S (outstanding c1)) as Hout.
    { destruct Hi as [Hc _ _], Hmid as [Hc1 _ _]. unfold c1 in *. simpl in *. lia. }
    assert (forall err (c2 : cbContext S CB), ctx_mid c2 -> cx_promises c2 = cx_promises c1 -> cx_deferred c2 = cx_deferred c1 ->
      exists c' : cbContext S CB, emitDone err c2 = Ret c' /\ ctx_inv c' /\ outstanding c = Datatypes.S (outstanding c')) as Hgen.
    { intros err c2 Hm Hp Hd. destruct (emitDone_ok err c2 Hm) as (c' & E & Hi' & _ & _ & _ & Hp' & Hd').
      exists c'. split_and!; [done|done|]. rewrite Hout. unfold outstanding. by rewrite Hp', Hd', Hp, Hd. }
    unfold run_pending. destruct r as [msg err]. destruct k; [by apply Hgen|by apply Hgen|].
    destruct err as [e|]; [by apply Hgen|]. destruct msg as [m|]; [|by apply Hgen].
    change (cx_table c1) with (cx_table c). rewrite Ht.
    destruct (storeNewestOffset_ok (pm_Offset m) t st Hst Hok Hr) as (t' & s' & -> & _). simpl.
    apply Hgen; [|done|done]. by destruct Hmid.
  - unfold call_deferred. rewrite decide_True by done. pose proof (deferred_mid i c Hi Ha) as Hmid.
    destruct (emitDone_ok err _ Hmid) as (c' & E & Hi' & _ & _ & _ & Hp' & Hd'). exists c'. split_and!; [done|done|].
    destruct Hi as [Hc _ _], Hmid as [Hc1 _ _]. unfold outstanding in *. rewrite Hp', Hd'. simpl in *. lia.
Qed.

(** The demo context after the callback has returned, with both promises pending. *)
Definition mid_demo : cbContext memory nat :=
  ret_or demo_ctx (ctx_run (ST := memory_Storage id) (demo_before ++ [AFinish]) demo_ctx).

(** C3. The group table follows its changelog: in a group made by [DefineGroup] whose codec never encodes
    a value as nil, whatever a callback does while the processor is not shutting down (for a key that
    the storage does not reserve), and however its promises are resolved, the local contents are those
    before the callback with the records applied that were emitted to the table topic; so a processor
    that recovers from the topic has the same table.  (During a shutdown this fails, see
    [shutdown_emit_escapes].) *)
Theorem table_follows_changelog {S I} `{StorageLaws S I} `{!Iterator I} {CB} (l : list ctx_action)
    (m0 : gmap string string) (c c' : cbContext S CB) :
  in_step m0 c -> graph_named (cx_graph c) -> codec_non_nil (cx_graph c) -> ~ st_reserved (ctx_Key c) ->
  Forall action_live l -> ctx_run l c = Ret c' -> in_step m0 c'.
Proof.
  apply run_in_step.
Qed.

Lemma demo_ctx_in_step : in_step (SL := memory_Laws id) ∅ demo_ctx.
Proof.
  eexists _, _. split; [reflexivity|]. split; [reflexivity|]. split; [|reflexivity]. apply NewMemory_wf.
Qed.

Lemma demo_codec_non_nil : codec_non_nil ctx_graph.
Proof.
  intros t codec v Ht Hc.
  assert (GroupTable ctx_graph = Some (mkTopicDef "g-table" (Some Int64Codec))) as E
    by (vm_cast_no_check (eq_refl (Some (mkTopicDef "g-table" (Some Int64Codec))))).
  rewrite E in Ht. injection Ht as <-. injection Hc as <-. by destruct v.
Qed.

Lemma demo_graph_named : graph_named ctx_graph.
Proof. eapply DefineGroup_named, ctx_graph_defined. Qed.

Lemma demo_actions_live : Forall action_live (demo_before ++ AFinish :: demo_after).
Proof.
  repeat constructor; simpl; try done; intros; try discriminate; unfold resolution_ok, in_int64; simpl; lia.
Qed.

Lemma table_follows_changelog_witness : in_step (SL := memory_Laws id) ∅ final_demo.
Proof.
  apply (table_follows_changelog (H0 := memory_Laws id) (demo_before ++ AFinish :: demo_after) ∅ demo_ctx final_demo).
  - exact demo_ctx_in_step.
  - exact demo_graph_named.
  - exact demo_codec_non_nil.
  - intros [].
  - exact demo_actions_live.
  - exact run_demo_ok.
Defined.

Lemma mid_demo_inv : ctx_inv mid_demo.
Proof.
  constructor.
  - vm_cast_no_check (eq_refl 2).
  - assert (cx_promises mid_demo = <[1%nat := PStore]> {[0%nat := PEmit "out"]}) as E1
      by (vm_cast_no_check (eq_refl (cx_promises mid_demo))).
    assert (cx_deferred mid_demo = ∅) as E2 by (vm_cast_no_check (eq_refl (cx_deferred mid_demo))).
    assert (cx_next mid_demo = 2%nat) as E3 by (vm_cast_no_check (eq_refl 2%nat)).
    unfold ctx_fresh. rewrite E1, E2, E3. split; [|set_solver].
    intros i k [[<- _]|[_ [<- _]%lookup_singleton_Some]]%lookup_insert_Some; lia.
  - assert (cx_done mid_demo && (outstanding mid_demo =? 0)%nat = false) as -> by (vm_cast_no_check (eq_refl false)).
    split_and!; [vm_cast_no_check (eq_refl 1)|vm_cast_no_check (eq_refl 0%nat)|].
    vm_cast_no_check (eq_refl (cx_failures mid_demo)).
Qed.

Lemma mid_demo_in_step : in_step (SL := memory_Laws id) ∅ mid_demo.
Proof.
  apply (run_in_step (demo_before ++ [AFinish]) ∅ demo_ctx mid_demo).
  - exact demo_ctx_in_step.
  - exact demo_graph_named.
  - exact demo_codec_non_nil.
  - intros [].
  - pose proof demo_actions_live as HF. rewrite Forall_app, Forall_cons in HF. rewrite Forall_app.
    destruct HF as (? & ? & ?). split; [done|by constructor].
  - apply ret_or_ok. vm_cast_no_check (eq_refl true).
Qed.

Lemma resolution_progress_witness :
  exists c', ctx_step (ST := memory_Storage id) (AResolve 0 (None, None)) mid_demo = Ret c' /\
    outstanding mid_demo = Datatypes.S (outstanding c').
Proof.
  destruct (resolution_progress (H0 := memory_Laws id) ∅
    (AResolve 0 (None, None)) mid_demo) as (c' & Hc & _ & Ho).
  - exact mid_demo_inv.
  - exact mid_demo_in_step.
  - split; [|done]. exists (PEmit "out"). vm_cast_no_check (eq_refl (Some (PEmit "out"))).
  - exists c'. split; [exact Hc|exact Ho].
Defined.

(** While the processor shuts down a failing operation does not stop the callback: [Fail] only stores
    the error, the callback runs on, and when it returns the message is committed although its update
    was lost.  (The context's documentation says that a synchronous error stops the callback.) *)
Theorem failure_during_shutdown_commits {S I} `{Storage S I} `{!Iterator I} {CB} (gg : GroupGraph CB) msg hdr table
    joins lookups (c0 : cbContext S CB) :
  cx_start (newContext gg msg hdr table joins lookups) = Ret c0 ->
  exists c, ctx_run [ASetValue true VNil [] false None; AFinish] c0 = Ret c /\
    cx_commits c = 1%nat /\ cx_failures c = [] /\ is_Some (cx_rerr c) /\ cx_sent c = [] /\ cx_table c = table.
Proof.
  intros [= <-]. simpl. unfold ctx_SetValue, setValueForKey. simpl.
  destruct (GroupTable gg) as [gt|]; simpl; eexists; (split; [done|]); split_and!; try done; by eexists.
Qed.

Lemma failure_during_shutdown_commits_witness :
  exists c, ctx_run (ST := memory_Storage id) [ASetValue true VNil [] false None; AFinish] demo_ctx = Ret c /\
    cx_commits c = 1%nat.
Proof.
  destruct (failure_during_shutdown_commits (H := memory_Storage id) ctx_graph ctx_msg None (cx_table demo_ctx) ∅ ∅ demo_ctx)
    as (c & Hr & Hc & _); [reflexivity|].
  exists c. split; [exact Hr|exact Hc].
Defined.

(** While the processor shuts down the checks of [Emit] do not stop it either: a callback can then emit a
    record to the topic of the group table, which is not applied to the local table. *)
Theorem shutdown_emit_escapes :
  exists c, ctx_run (ST := memory_Storage id) [AEmit true "g-table" "k" VNil [] None] demo_ctx = Ret c /\
    em_topic <$> cx_sent c = [tableName (gg_group (cx_graph c))] /\ cx_table c = cx_table demo_ctx /\ is_Some (cx_rerr c).
Proof.
  exists (ret_or demo_ctx (ctx_run (ST := memory_Storage id) [AEmit true "g-table" "k" VNil [] None] demo_ctx)).
  split; [apply (ret_or_ok demo_ctx); vm_cast_no_check (eq_refl true)|].
  split; [vm_cast_no_check (eq_refl ["g-table"%string])|]. split; [reflexivity|].
  exists (ErrNew "topic is not configured for output: g-table"). vm_cast_no_check (eq_refl (Some (ErrNew "topic is not configured for output: g-table"))).
Qed.
