(* ===== verification/PartitionProcessor.v ===== *)
(** * Partition processors

    [partition_processor.go]: the message loop of one partition.  Several messages can be in flight
    at a time, each with its own context; they share the group table.  The user's callback is
    represented by the operations it performs on its context ([run_cb]). *)
From Stdlib Require Import ZArith Lia.
From stdpp Require Import base gmap strings list.
From S2P Require Import Prelude Multierr Signal Codec Storage Memory MergeIterator Headers Stats Proxy PartitionTable Promise Graph View Context.
Open Scope Z_scope.

(** ** Data *)

Definition PPStateIdle : Z := 0.
Definition PPStateRecovering : Z := 1.
Definition PPStateRunning : Z := 2.
Definition PPStateStopping : Z := 3.

(** [type PPRunMode int]. *)
Inductive PPRunMode : Type := runModeActive | runModePassive | runModeRecoverOnly.

(** [type NilHandling int]. *)
Inductive NilHandling : Type := NilIgnore | NilProcess | NilDecode.

Section processor.
Context {S I : Type} {ST : Storage S I} {IT : Iterator I} {CB : Type}.

(** What the callback does with its context for a decoded message. *)
Variable run_cb : CB -> value -> cbContext S CB -> list ctx_action.

(** [type PartitionProcessor struct]; [pp_ctxs] are the contexts created so far, [pp_commits] the
    messages passed to [pp.commit], [pp_errs], [pp_asyncErrs] and [pp_rerr] the variables of [run]. *)
Record PartitionProcessor : Type := mkPP {
  pp_graph : GroupGraph CB;
  pp_callbacks : gmap string (option CB);
  pp_table : option (PartitionTable S);
  pp_joins : gmap string (PartitionTable S);
  pp_lookups : gmap string (View S);
  pp_nilHandling : NilHandling;
  pp_defaultHeaders : Headers;
  pp_ctxs : list (cbContext S CB);
  pp_commits : list ConsumerMessage;
  pp_errs : Errors;
  pp_asyncErrs : bool;
  pp_rerr : option error
}.

Definition pp_set_run (table : option (PartitionTable S)) (ctxs : list (cbContext S CB)) (commits : list ConsumerMessage)
    (errs : Errors) (async : bool) (rerr : option error) (pp : PartitionProcessor) : PartitionProcessor :=
  mkPP (pp_graph pp) (pp_callbacks pp) table (pp_joins pp) (pp_lookups pp) (pp_nilHandling pp) (pp_defaultHeaders pp)
    ctxs commits errs async rerr.

(** ** Construction *)

(** The topics a partition processor consumes: a set, in the order the map is visited. *)
Definition pp_topicMap (gg : GroupGraph CB) : gset string :=
  list_to_set (Topics (InputStreams gg)) ∪
  match LoopStream gg with Some l => {[td_name l]} | None => ∅ end.

Definition pp_outputList (gg : GroupGraph CB) : list string :=
  Topics (OutputStreams gg) ++
  match LoopStream gg with Some l => [td_name l] | None => [] end ++
  match GroupTable gg with Some t => [td_name t] | None => [] end.

Definition pp_callbackMap (gg : GroupGraph CB) : gmap string (option CB) :=
  set_to_map (fun t => (t, graph_callback t gg)) (pp_topicMap gg).

(** [newPartitionProcessor] *)
Definition newPartitionProcessor (partition : Z) (gg : GroupGraph CB) (u : UpdateCallback S) (nilHandling : NilHandling)
    (hdr : Headers) (lookupTables : gmap string (View S)) : outcome PartitionProcessor :=
  table ← match GroupTable gg with
          | None => Ret None
          | Some t => p ← newPartitionTable (td_name t) partition u empty_heap; Ret (Some p)
          end;
  Ret (mkPP gg (pp_callbackMap gg) table ∅ lookupTables nilHandling hdr [] [] new_Errors false None).

(** ** Processing a message *)

(** What a step of a context does to the processor: the table may have changed, a commit is passed
    on, a failure is collected and closes [asyncErrs], and a synchronous failure during the shutdown
    is stored in [rerr]. *)
Definition absorb (n : nat) (c c' : cbContext S CB) (pp : PartitionProcessor) : PartitionProcessor :=
  let commits := if (cx_commits c <? cx_commits c')%nat then pp_commits pp ++ [cx_msg c'] else pp_commits pp in
  let fails := drop (length (cx_failures c)) (cx_failures c') in
  let errs := fold_left Errors_Collect fails (pp_errs pp) in
  pp_set_run (cx_table c') (<[n := c']> (pp_ctxs pp)) commits errs
    (pp_asyncErrs pp || match fails with [] => false | _ => true end)
    (match cx_rerr c' with Some e => Some e | None => pp_rerr pp end) pp.

(** A step of context [n] on the shared table. *)
Definition ctx_do (n : nat) (a : ctx_action) (pp : PartitionProcessor) : outcome PartitionProcessor :=
  match pp_ctxs pp !! n with
  | None => Blocked
  | Some c =>
      let c := cx_set_rerr None (cx_set_table (pp_table pp) c) in
      c' ← ctx_step a c;
      Ret (absorb n c c' pp)
  end.

(** The operations of a callback.  A panic ends the callback and is reported; the operation that
    panicked has no effect on the processor. *)
Fixpoint ctx_do_all (n : nat) (l : list ctx_action) (pp : PartitionProcessor)
  : outcome (option error * PartitionProcessor) :=
  match l with
  | [] => Ret (None, pp)
  | a :: l =>
      match ctx_do n a pp with
      | Ret pp => ctx_do_all n l pp
      | Panic e => Ret (Some e, pp)
      | Blocked => Blocked
      end
  end.

(** How [processMessage] ends: it returns, with an error perhaps, or the callback panics. *)
Inductive processed : Type := Returned (err : option error) | Panicked (e : error).

(** The second half of [processMessage]: the callback of the topic runs on the decoded value. *)
Definition processValue (msg : ConsumerMessage) (m : value) (pp : PartitionProcessor)
  : outcome (processed * PartitionProcessor) :=
  match mjoin (pp_callbacks pp !! cm_Topic msg) with
  | None => Ret (Returned (Some (ErrNew "error processing message")), pp)
  | Some cb =>
      c ← cx_start (newContext (pp_graph pp) msg (pp_defaultHeaders pp) (pp_table pp) (pp_joins pp) (pp_lookups pp));
      let n := length (pp_ctxs pp) in
      let pp := pp_set_run (pp_table pp) (pp_ctxs pp ++ [c]) (pp_commits pp) (pp_errs pp) (pp_asyncErrs pp)
                  (pp_rerr pp) pp in
      '(panic, pp) ← ctx_do_all n (filter (fun a => by_callback a = true) (run_cb cb m c)) pp;
      match panic with
      | Some e => Ret (Panicked e, pp)
      | None => pp ← ctx_do n AFinish pp; Ret (Returned None, pp)
      end
  end.

Definition processMessage (msg : ConsumerMessage) (pp : PartitionProcessor)
  : outcome (processed * PartitionProcessor) :=
  match cm_Value msg, pp_nilHandling pp with
  | None, NilIgnore =>
      Ret (Returned None, pp_set_run (pp_table pp) (pp_ctxs pp) (pp_commits pp ++ [msg]) (pp_errs pp) (pp_asyncErrs pp)
                            (pp_rerr pp) pp)
  | None, NilProcess => processValue msg VNil pp
  | _, _ =>
      match graph_codec (cm_Topic msg) (pp_graph pp) with
      | None => Ret (Returned (Some (ErrNew ("cannot handle topic " +:+ cm_Topic msg))), pp)
      | Some codec =>
          match Decode codec (cm_Value msg) with
          | Err e => Ret (Returned (Some (ErrWrap "error decoding message" e)), pp)
          | Ok m => processValue msg m pp
          end
      end
  end.

(** ** The loop *)

(** What happens to a running partition processor: the [select] of [run] receives a message, finds
    the channel or the context closed or an asynchronous error; or the environment resolves
    something of context [n]. *)
Inductive run_event : Type :=
| RMsg (msg : ConsumerMessage)
| RInputClosed
| RCtxDone
| RAsyncErrs
| RResolve (n i : nat) (r : resolution)
| RDeferred (n i : nat) (err : option error).

(** The deferred wait for the contexts in flight: what is still resolved; no message is received. *)
Fixpoint pp_wait (evs : list run_event) (pp : PartitionProcessor) : outcome PartitionProcessor :=
  match evs with
  | [] => Ret pp
  | RResolve n i r :: evs => pp ← ctx_do n (AResolve i r) pp; pp_wait evs pp
  | RDeferred n i err :: evs => pp ← ctx_do n (ADeferred i err) pp; pp_wait evs pp
  | _ :: evs => pp_wait evs pp
  end.

Definition pp_exit (rerr : option error) (evs : list run_event) (pp : PartitionProcessor)
  : outcome (option (option error) * PartitionProcessor) :=
  pp ← pp_wait evs pp; Ret (Some (collect_return (pp_errs pp) rerr), pp).

(** [run]: the result is [None] while the loop is still running after the events.  A panic of the
    callback is recovered and becomes the returned error, without waiting. *)
Fixpoint pp_run (evs : list run_event) (pp : PartitionProcessor)
  : outcome (option (option error) * PartitionProcessor) :=
  match evs with
  | [] => Ret (None, pp)
  | RMsg msg :: evs =>
      '(r, pp) ← processMessage msg pp;
      match r with
      | Returned None => pp_run evs pp
      | Returned (Some e) => pp_exit (Some (ErrWrap "error processing message" e)) evs pp
      | Panicked e => Ret (Some (collect_return (pp_errs pp) (Some e)), pp)
      end
  | RInputClosed :: evs => pp_exit None evs pp
  | RCtxDone :: evs => pp_exit (pp_rerr pp) evs pp
  | RAsyncErrs :: evs => if pp_asyncErrs pp then pp_exit (pp_rerr pp) evs pp else Blocked
  | RResolve n i r :: evs => pp ← ctx_do n (AResolve i r) pp; pp_run evs pp
  | RDeferred n i err :: evs => pp ← ctx_do n (ADeferred i err) pp; pp_run evs pp
  end.

(** ** Start and stop *)

(** [Start], given what recovering the table and the joins returned and whether the context was
    done: the returned error and the goroutines started in the runner group. *)
Inductive runner : Type := RunJoin (topic : string) | RunLoop | RunTableCatchup | RunNothing.

Definition pp_Start (runMode : PPRunMode) (hasTable : bool) (joins : list string) (recovered : list (option error))
    (ctxDone : bool) : option error * list runner :=
  match Errors_NilOrError (ErrGroup_Wait NewErrGroup recovered).1 with
  | Some e => (Some (ErrWrap "Setup failed. Cannot start processor for partition" e), [])
  | None =>
      if ctxDone then (None, [])
      else match runMode with
           | runModeRecoverOnly => (None, [])
           | runModeActive => (None, (RunJoin <$> joins) ++ [RunLoop])
           | runModePassive => (None, (RunJoin <$> joins) ++ [if hasTable then RunTableCatchup else RunNothing])
           end
  end.

(** [Stop]: the error of the runner group and those of closing the joins and the table. *)
Definition pp_Stop (runnerErr : option error) (closed : list (option error)) : option error :=
  let errs := Errors_Collect new_Errors runnerErr in
  let errs := Errors_Collect errs (Errors_NilOrError (ErrGroup_Wait NewErrGroup closed).1) in
  Errors_NilOrError errs.
End processor.
Arguments PartitionProcessor : clear implicits.

(** ** Statistics *)

(** [updateStatsWithMessage] at time [now]; a topic without input stats is a nil dereference. *)
Definition updateStatsWithMessage (now : Z) (ev : ConsumerMessage) (s : PartitionProcStats) (h : stats_heap)
  : option stats_heap :=
  l ← pps_Input s !! cm_Topic ev;
  ip ← h_in h !! l;
  Some (set_in l (mkInputStats (uint64 (is_Count ip + 1)) (int64 (is_Bytes ip + bytes_len (cm_Value ev)))
                    (is_OffsetLag ip) (cm_Offset ev)
                    (match cm_Timestamp ev with None => is_Delay ip | Some t => time_Sub now t end)) h).

(** One iteration of [updateHwmStats]: [hwm] is what the consumer reports for the topic. *)
Definition updateHwmStat (hwm : Z) (l : loc) (h : stats_heap) : stats_heap :=
  match h_in h !! l with
  | None => h
  | Some ip =>
      if negb (hwm =? 0) && negb (is_LastOffset ip =? 0)
      then set_in l (mkInputStats (is_Count ip) (is_Bytes ip) (int64 (hwm - is_LastOffset ip)) (is_LastOffset ip)
                       (is_Delay ip)) h
      else h
  end.

(** ** The invariant *)

Section invariant.
Context {S I : Type} {ST : Storage S I} {IT : Iterator I} {CB : Type}.
Variable run_cb : CB -> value -> cbContext S CB -> list ctx_action.
Implicit Types pp : PartitionProcessor S CB.

(** Every context follows the commit protocol; what was committed is a nil message that is ignored or
    the message of a context that has committed; a failed context has left its errors. *)
Record pp_inv pp : Prop := {
  pi_ctx : forall n c, pp_ctxs pp !! n = Some c -> ctx_inv c;
  pi_commits : forall m, m ∈ pp_commits pp ->
    (cm_Value m = None /\ pp_nilHandling pp = NilIgnore) \/
    exists n c, pp_ctxs pp !! n = Some c /\ cx_msg c = m /\ cx_commits c = 1%nat;
  pi_errs : forall n c, pp_ctxs pp !! n = Some c -> cx_failures c <> [] -> errs (pp_errs pp) <> []
}.

Lemma newPartitionProcessor_inv partition gg u nh hdr lookups pp :
  newPartitionProcessor (S := S) (CB := CB) partition gg u nh hdr lookups = Ret pp -> pp_inv pp /\ pp_ctxs pp = [].
Proof.
  unfold newPartitionProcessor. destruct (match GroupTable gg with Some _ => _ | None => _ end); [|done|done].
  simpl. intros [= <-]. split; [|done]. constructor; simpl; try done. set_solver.
Qed.

(** The commits and failures of a context that satisfies the invariant. *)
Lemma ctx_inv_cases (c : cbContext S CB) :
  ctx_inv c ->
  (cx_commits c = 0%nat /\ cx_failures c = []) \/
  (outstanding c = 0%nat /\ cx_done c = true /\ ctx_settled c).
Proof.
  intros [_ _ Hs]. destruct (cx_done c && (outstanding c =? 0)%nat) eqn:E.
  - apply andb_true_iff in E as [Ed Eo%Nat.eqb_eq]. auto.
  - left. by destruct Hs as (_ & ? & ?).
Qed.

Lemma collect_fold l e : errs (fold_left Errors_Collect l e) = errs e ++ omap id l.
Proof.
  revert e. induction l as [|x l IH]; intros e; simpl; [by rewrite app_nil_r|].
  rewrite IH, errs_Collect. destruct x; simpl; [by rewrite <- app_assoc|by rewrite app_nil_r].
Qed.

(** A step of one context preserves the invariant. *)
Lemma ctx_do_inv n a pp pp' c :
  pp_inv pp -> pp_ctxs pp !! n = Some c -> (by_environment a = true \/ cx_done c = false) ->
  ctx_do n a pp = Ret pp' ->
  pp_inv pp' /\ pp_nilHandling pp' = pp_nilHandling pp /\
  exists c', pp_ctxs pp' = <[n := c']> (pp_ctxs pp) /\ (a <> AFinish -> cx_done c' = cx_done c).
Proof.
  intros [P1 P2 P3] Hc Hph H. unfold ctx_do in H. rewrite Hc in H.
  set (c0 := cx_set_rerr None (cx_set_table (pp_table pp) c)) in *.
  assert (ctx_inv c0) as Hi0 by (by destruct (P1 n c Hc)).
  destruct (ctx_step a c0) as [c'| |] eqn:E; [|done|done]. simpl in H. injection H as <-.
  assert (ctx_inv c' /\ (a <> AFinish -> cx_done c' = cx_done c) /\
    (cx_commits c = 1%nat -> cx_commits c' = 1%nat /\ cx_msg c' = cx_msg c) /\
    (exists l, cx_failures c' = cx_failures c ++ l)) as (Hi' & Hd' & Hk' & [l Hl]).
  { assert (ctx_inv c' /\ (a <> AFinish -> cx_done c' = cx_done c)) as [Hi' Hd'].
    { assert (a = AFinish \/ a <> AFinish) as [->|Hne] by (destruct a; auto).
      - destruct Hph as [?|Hd]; [done|]. destruct (cx_finish_ok c0 Hi0 Hd) as (c1 & E1 & Hi1 & _).
        simpl in E. rewrite E1 in E. by simplify_eq.
      - assert (keeps c0 c') as [Hi' [Hd' _]].
        { destruct Hph; [by eapply env_step_keeps|by eapply step_keeps]. } done. }
    split; [done|]. split; [done|]. destruct (ctx_inv_cases c0 Hi0) as [[Hk Hf]|(Ho & Hd & Hs)].
    - split; [simpl in Hk; congruence|]. exists (cx_failures c'). simpl in Hf. by rewrite Hf.
    - assert (by_environment a = true) as Henv by (destruct Hph as [?|Hph]; [done|simpl in Hd; congruence]).
      apply (settled_env_step a c0 c' Hi0 Ho Henv) in E as ->. split; [done|]. exists []. by rewrite app_nil_r. }
  assert (n < length (pp_ctxs pp))%nat as Hlt by (by eapply lookup_lt_Some).
  split; [|split; [done|by exists c']]. unfold absorb. constructor; simpl.
  - intros m d. destruct (decide (n = m)) as [<-|]; [|rewrite list_lookup_insert_ne by done; apply P1].
    rewrite list_lookup_insert_eq by done. by intros [= <-].
  - intros m Hm.
    assert (m ∈ pp_commits pp \/ m = cx_msg c' /\ cx_commits c' = 1%nat) as [Hin|[-> Hone]].
    { destruct (cx_commits c <? cx_commits c')%nat eqn:Elt; [|by left].
      apply elem_of_app in Hm as [Hm|Hm]; [by left|]. apply list_elem_of_singleton in Hm as ->. right. split; [done|].
      apply Nat.ltb_lt in Elt. destruct (ctx_inv_cases c' Hi') as [[? _]|(_ & _ & [_ [(_ & ? & _)|(_ & ? & _)]])]; lia. }
    + destruct (P2 m Hin) as [?|(k & d & Hd & Hmsg & Hone)]; [by left|]. right.
      destruct (decide (n = k)) as [<-|].
      * simplify_eq. exists n, c'. rewrite list_lookup_insert_eq by done. destruct (Hk' Hone) as [-> ->]. done.
      * exists k, d. by rewrite list_lookup_insert_ne.
    + right. exists n, c'. by rewrite list_lookup_insert_eq.
  - intros m d Hd Hf. rewrite collect_fold, Hl, drop_app_length.
    destruct (decide (n = m)) as [<-|]; [|rewrite list_lookup_insert_ne in Hd by done; specialize (P3 m d Hd Hf); by destruct (errs (pp_errs pp))].
    rewrite list_lookup_insert_eq in Hd by done. injection Hd as <-.
    destruct (cx_failures c) as [|x xs] eqn:Ec.
    + destruct (ctx_inv_cases c' Hi') as [[_ ?]|(_ & _ & [_ [(_ & _ & ?)|(_ & _ & Hf')]])]; [done|done|].
      rewrite Hf' in Hl. simpl in Hl. subst l. simpl. by destruct (errs (pp_errs pp)).
    + specialize (P3 n c Hc). rewrite Ec in P3. specialize (P3 ltac:(done)). by destruct (errs (pp_errs pp)).
Qed.

Lemma ctx_do_all_inv n l pp r pp' c :
  pp_inv pp -> pp_ctxs pp !! n = Some c -> cx_done c = false -> Forall (fun a => by_callback a = true) l ->
  ctx_do_all n l pp = Ret (r, pp') ->
  pp_inv pp' /\ pp_nilHandling pp' = pp_nilHandling pp /\
  exists c', pp_ctxs pp' !! n = Some c' /\ cx_done c' = false.
Proof.
  revert pp c. induction l as [|a l IH]; intros pp c P Hc Hd HF H; simpl in H.
  { injection H as <- <-. split_and!; [done|done|by exists c]. }
  apply Forall_cons in HF as [Ha HF].
  destruct (ctx_do n a pp) as [pp1|e|] eqn:E; [| |done].
  - destruct (ctx_do_inv n a pp pp1 c P Hc (or_intror Hd) E) as (P1 & N1 & c1 & Hc1 & Hd1).
    destruct (IH pp1 c1) as (P2 & N2 & c2 & Hc2 & Hd2); try done.
    + rewrite Hc1. apply list_lookup_insert_eq. by eapply lookup_lt_Some.
    + rewrite Hd1; [done|by destruct a].
    + split_and!; [done|congruence|by exists c2].
  - injection H as <- <-. split_and!; [done|done|by exists c].
Qed.

Lemma processValue_inv m msg pp r pp' :
  pp_inv pp -> processValue run_cb msg m pp = Ret (r, pp') -> pp_inv pp' /\ pp_nilHandling pp' = pp_nilHandling pp.
Proof.
  intros P H. unfold processValue in H. destruct (mjoin _) as [cb|]; [|by injection H as <- <-].
  destruct (newContext_start (S := S) (pp_graph pp) msg (pp_defaultHeaders pp) (pp_table pp) (pp_joins pp) (pp_lookups pp))
    as (c & E & Hi & Hd & _). rewrite E in H. cbn [mbind outcome_bind] in H. cbv zeta in H.
  set (pp1 := pp_set_run _ (pp_ctxs pp ++ [c]) _ _ _ _ pp) in H.
  assert (pp_inv pp1) as P1.
  { destruct P as [Q1 Q2 Q3].
    assert (cx_commits c = 0%nat /\ cx_failures c = []) as [Hk Hf].
    { destruct (ctx_inv_cases c Hi) as [?|(_ & ? & _)]; [done|congruence]. }
    constructor; simpl.
    - intros n d [?|[_ <-]]%lookup_snoc_Some; [naive_solver|done].
    - intros m' Hm'. destruct (Q2 m' Hm') as [?|(n & d & Hn & ?)]; [by left|]. right. exists n, d.
      split; [|done]. by apply lookup_app_l_Some.
    - intros n d [[_ Hn]|[_ <-]]%lookup_snoc_Some; [by eapply Q3|done]. }
  assert (pp_ctxs pp1 !! length (pp_ctxs pp) = Some c) as Hc by (simpl; by apply list_lookup_middle).
  destruct (ctx_do_all _ _ pp1) as [[panic pp2]| |] eqn:E2; [|done|done]. cbn [mbind outcome_bind] in H.
  eapply ctx_do_all_inv in E2 as (P2 & N2 & c2 & Hc2 & Hd2); [|exact P1|exact Hc|exact Hd|].
  2:{ apply Forall_forall. by intros a [? _]%list_elem_of_filter. }
  destruct panic as [e|]; [by injection H as <- <-|].
  destruct (ctx_do _ AFinish pp2) as [pp3| |] eqn:E3; [|done|done]. injection H as <- <-.
  destruct (ctx_do_inv _ AFinish pp2 pp3 c2 P2 Hc2 (or_intror Hd2) E3) as (P3 & N3 & _). split; [done|by rewrite N3, N2].
Qed.

Lemma processMessage_inv msg pp r pp' :
  pp_inv pp -> processMessage run_cb msg pp = Ret (r, pp') -> pp_inv pp' /\ pp_nilHandling pp' = pp_nilHandling pp.
Proof.
  intros P H. unfold processMessage in H.
  assert (forall v, match graph_codec (cm_Topic msg) (pp_graph pp) with
    | None => Ret (Returned (Some (ErrNew ("cannot handle topic " +:+ cm_Topic msg))), pp)
    | Some codec => match Decode codec v with
        | Err e => Ret (Returned (Some (ErrWrap "error decoding message" e)), pp)
        | Ok m => processValue run_cb msg m pp end end = Ret (r, pp') ->
    pp_inv pp' /\ pp_nilHandling pp' = pp_nilHandling pp) as Hdec.
  { intros v Hm. destruct (graph_codec _ _) as [codec|]; [|by injection Hm as <- <-].
    destruct (Decode codec v) as [m|]; [by eapply processValue_inv|by injection Hm as <- <-]. }
  destruct (cm_Value msg) as [v|] eqn:Ev; [by apply Hdec in H|].
  destruct (pp_nilHandling pp) eqn:En; [|rewrite <- En; by eapply processValue_inv|by apply Hdec in H].
  injection H as <- <-. split; [|done]. destruct P as [Q1 Q2 Q3]. constructor; simpl; [done| |done].
  intros m [Hm|Hm]%elem_of_app; [by apply Q2|]. apply list_elem_of_singleton in Hm as ->. by left.
Qed.

Lemma env_do_inv n a pp pp' :
  pp_inv pp -> by_environment a = true -> ctx_do n a pp = Ret pp' ->
  pp_inv pp' /\ pp_nilHandling pp' = pp_nilHandling pp.
Proof.
  intros P Ha H. destruct (pp_ctxs pp !! n) as [c|] eqn:E; [|unfold ctx_do in H; by rewrite E in H].
  destruct (ctx_do_inv n a pp pp' c P E (or_introl Ha) H) as (? & ? & _). done.
Qed.

Lemma pp_wait_inv evs pp pp' :
  pp_inv pp -> pp_wait evs pp = Ret pp' -> pp_inv pp' /\ pp_nilHandling pp' = pp_nilHandling pp.
Proof.
  revert pp. induction evs as [|e evs IH]; intros pp P H; simpl in H; [by injection H as <-|].
  destruct e; try by apply IH.
  all: destruct (ctx_do _ _ pp) as [pp1| |] eqn:E; [|done|done]; simpl in H;
    (eapply env_do_inv in E as [P1 <-]; [|exact P|done]); by apply IH.
Qed.

Lemma pp_run_inv evs pp r pp' :
  pp_inv pp -> pp_run run_cb evs pp = Ret (r, pp') ->
  pp_inv pp' /\ pp_nilHandling pp' = pp_nilHandling pp /\ (r = Some None -> errs (pp_errs pp') = []).
Proof.
  assert (forall rerr evs pp r pp', pp_inv pp -> pp_exit rerr evs pp = Ret (r, pp') ->
    pp_inv pp' /\ pp_nilHandling pp' = pp_nilHandling pp /\ (r = Some None -> errs (pp_errs pp') = [])) as Hexit.
  { intros rerr l pp0 r0 pp1 P H. unfold pp_exit in H. destruct (pp_wait l pp0) as [pp2| |] eqn:E; [|done|done].
    injection H as <- <-. destruct (pp_wait_inv _ _ _ P E) as [P2 N2]. split_and!; [done|done|].
    intros [= E2]. by apply collect_return_None in E2 as [? _]. }
  revert pp. induction evs as [|e evs IH]; intros pp P H; simpl in H.
  { injection H as <- <-. done. }
  destruct e as [msg| | | |n i r0|n i err].
  - destruct (processMessage run_cb msg pp) as [[res pp1]| |] eqn:E; [|done|done]. simpl in H.
    destruct (processMessage_inv _ _ _ _ P E) as [P1 <-]. destruct res as [[e|]|e]; [by eapply Hexit|by apply IH|].
    injection H as <- <-. split_and!; [done|done|]. intros [= E2]. by apply collect_return_None in E2 as [_ ?].
  - by eapply Hexit.
  - by eapply Hexit.
  - destruct (pp_asyncErrs pp); [by eapply Hexit|done].
  - destruct (ctx_do _ _ pp) as [pp1| |] eqn:E; [|done|done]. simpl in H.
    eapply env_do_inv in E as [P1 <-]; [|exact P|done]. by apply IH.
  - destruct (ctx_do _ _ pp) as [pp1| |] eqn:E; [|done|done]. simpl in H.
    eapply env_do_inv in E as [P1 <-]; [|exact P|done]. by apply IH.
Qed.
End invariant.

(** ** Properties *)

(** C7. Only messages that are fully processed are committed: whatever messages arrive, whatever the
    callbacks do, and in whatever order promises and deferred commits are resolved, every message the
    partition processor has committed is a nil message that is to be ignored or the message of a
    context that is done, has nothing outstanding and no error; and if any context has failed, [run]
    returns an error. *)
Theorem commits_only_processed {S I} `{Storage S I} `{!Iterator I} {CB}
    (run_cb : CB -> value -> cbContext S CB -> list ctx_action) partition gg u nh hdr lookups
    (evs : list run_event) (pp0 pp : PartitionProcessor S CB) r :
  newPartitionProcessor partition gg u nh hdr lookups = Ret pp0 -> pp_run run_cb evs pp0 = Ret (r, pp) ->
  (forall m, m ∈ pp_commits pp ->
     (cm_Value m = None /\ pp_nilHandling pp = NilIgnore) \/
     exists n c, pp_ctxs pp !! n = Some c /\ cx_msg c = m /\ cx_done c = true /\ outstanding c = 0%nat /\
       errs (cx_errors c) = []) /\
  (forall n c, pp_ctxs pp !! n = Some c -> cx_failures c <> [] -> r <> Some None).
Proof.
  intros Hnew Hrun. destruct (newPartitionProcessor_inv _ _ _ _ _ _ _ Hnew) as [P0 _].
  destruct (pp_run_inv _ _ _ _ _ P0 Hrun) as ([P1 P2 P3] & _ & Hr). split.
  - intros m Hm. destruct (P2 m Hm) as [?|(n & c & Hc & Hmsg & Hone)]; [by left|]. right. exists n, c.
    destruct (ctx_inv_cases c (P1 n c Hc)) as [[? _]|(Ho & Hd & [_ [(He & _)|(_ & ? & _)]])]; [lia|done|lia].
  - intros n c Hc Hf E. by apply (P3 n c Hc Hf), Hr.
Qed.

(** The processor of the group g whose callback sends the value on. *)
Definition pp_demo_cb (cb : nat) (v : value) (c : cbContext memory nat) : list ctx_action :=
  [AEmit false "out" "k" (VString "x") [] None].

Definition pp_demo0 : PartitionProcessor memory nat :=
  ret_or (mkPP ctx_graph ∅ None ∅ ∅ NilIgnore None [] [] new_Errors false None)
    (newPartitionProcessor 0 ctx_graph (fun _ s => (None, s)) NilIgnore None ∅).

Definition pp_msg (o : Z) : ConsumerMessage := mkMsg "in" 0 (Some "k"%string) (Some "hello"%string) o [] None.

(** Two messages; the emit of the second one is acknowledged first. *)
Definition pp_demo_evs : list run_event :=
  [RMsg (pp_msg 5); RMsg (pp_msg 6); RResolve 1 0 (None, None)].

Definition pp_demo : PartitionProcessor memory nat :=
  (ret_or (None, pp_demo0) (pp_run (ST := memory_Storage id) pp_demo_cb pp_demo_evs pp_demo0)).2.

Lemma pp_demo_ok : pp_run (ST := memory_Storage id) pp_demo_cb pp_demo_evs pp_demo0 = Ret (None, pp_demo).
Proof. apply ret_or_pair; [vm_cast_no_check (eq_refl true)|vm_cast_no_check (eq_refl (None : option (option error)))]. Qed.

Lemma commits_only_processed_witness :
  pp_commits pp_demo = [pp_msg 6] /\
  forall m, m ∈ pp_commits pp_demo ->
     (cm_Value m = None /\ pp_nilHandling pp_demo = NilIgnore) \/
     exists n c, pp_ctxs pp_demo !! n = Some c /\ cx_msg c = m /\ cx_done c = true /\ outstanding c = 0%nat /\
       errs (cx_errors c) = [].
Proof.
  split; [vm_cast_no_check (eq_refl [pp_msg 6])|].
  refine (proj1 (commits_only_processed (H := memory_Storage id) pp_demo_cb 0 ctx_graph (fun _ s => (None, s)) NilIgnore
    None ∅ pp_demo_evs pp_demo0 pp_demo None _ _)).
  - apply ret_or_ok. vm_cast_no_check (eq_refl true).
  - exact pp_demo_ok.
Defined.

(** Messages can be committed out of order: after the messages with offsets 5 and 6 were received and
    the emit of the second one was acknowledged first, offset 6 is committed while the emit of offset 5
    is still outstanding. *)
Theorem commit_out_of_order :
  exists pp c, pp_run (ST := memory_Storage id) pp_demo_cb pp_demo_evs pp_demo0 = Ret (None, pp) /\
    pp_commits pp = [pp_msg 6] /\ pp_ctxs pp !! 0%nat = Some c /\ cx_msg c = pp_msg 5 /\ outstanding c = 1%nat.
Proof.
  exists pp_demo. destruct (pp_ctxs pp_demo !! 0%nat) as [c|] eqn:E.
  2:{ exfalso. assert (is_Some (pp_ctxs pp_demo !! 0%nat)) as [? Hx]; [|congruence].
      apply lookup_lt_is_Some. assert (length (pp_ctxs pp_demo) = 2%nat) as -> by (vm_cast_no_check (eq_refl 2%nat)). lia. }
  assert ((fun c => (cx_msg c, outstanding c)) <$> (pp_ctxs pp_demo !! 0%nat) = Some (pp_msg 5, 1%nat)) as Hc
    by (vm_cast_no_check (eq_refl (Some (pp_msg 5, 1%nat)))).
  rewrite E in Hc. simpl in Hc. injection Hc as Hm Ho. exists c.
  split; [exact pp_demo_ok|].
  split; [vm_cast_no_check (eq_refl [pp_msg 6])|]. split; [reflexivity|]. split; [exact Hm|exact Ho].
Qed.
