(* ===== verification/Failover.v ===== *)
(** * Failover of a partition

    The composition of [partition_processor.go], [context.go] and [partition_table.go]: a partition
    processor changes its table and emits the changes to the topic of the table; when the partition
    moves, another processor rebuilds the table from that topic. *)
From Stdlib Require Import ZArith Lia.
From stdpp Require Import base gmap strings list.
From S2P Require Import Prelude Multierr Signal Codec Storage Memory MergeIterator Headers Stats Proxy PartitionTable Recovery.
From S2P Require Import Promise Graph View Context PartitionProcessor.
Open Scope Z_scope.

(** ** The changelog of a partition processor *)

Section changelog.
Context {S I : Type} {ST : Storage S I} {SL : StorageLaws S I} {IT : Iterator I} {CB : Type}.
Variable run_cb : CB -> value -> cbContext S CB -> list ctx_action.
Implicit Types pp : PartitionProcessor S CB.
Implicit Types c : cbContext S CB.

(** Everything the callbacks emitted, in order: the callbacks run one after the other. *)
Definition pp_sent pp : list emission := concat (cx_sent <$> pp_ctxs pp).

(** The contexts of the processor share its graph, and their keys can be stored. *)
Definition ctx_of pp c : Prop := cx_graph c = pp_graph pp /\ ~ st_reserved (ctx_Key c).

(** The table is open and holds what was emitted to its topic, applied to [m0]. *)
Definition table_at (t : option (PartitionTable S)) (m : gmap string string) : Prop :=
  exists p st, t = Some p /\ pt_st p = Some st /\ st_ok (sp_Storage st) /\ st_contents (sp_Storage st) = m.

Record pp_in_step (m0 : gmap string string) pp : Prop := {
  ps_table : table_at (pp_table pp) (replay_sent (tableName (gg_group (pp_graph pp))) (pp_sent pp) m0);
  ps_ctxs : Forall (ctx_of pp) (pp_ctxs pp)
}.

(** What the runs of this section rely on: the graph comes from [DefineGroup], the table's codec does
    not encode values as nil, and the callbacks run in a processor that is not shutting down. *)
Record pp_live pp : Prop := {
  pl_named : graph_named (pp_graph pp);
  pl_codec : codec_non_nil (pp_graph pp);
  pl_callback : forall cb v c, Forall action_live (filter (fun a => by_callback a = true) (run_cb cb v c))
}.

Definition event_live (e : run_event) : Prop :=
  match e with
  | RMsg msg => ~ st_reserved (string_of_bytes (cm_Key msg))
  | RResolve _ _ r => resolution_ok r
  | _ => True
  end.

(** One step of a context, with what it does to the processor. *)
Lemma ctx_do_step n a pp pp' :
  ctx_do n a pp = Ret pp' ->
  exists c c', pp_ctxs pp !! n = Some c /\
    ctx_step a (cx_set_rerr None (cx_set_table (pp_table pp) c)) = Ret c' /\
    pp_graph pp' = pp_graph pp /\ pp_table pp' = cx_table c' /\ pp_ctxs pp' = <[n := c']> (pp_ctxs pp).
Proof.
  unfold ctx_do. destruct (pp_ctxs pp !! n) as [c|]; [|done]. intros H.
  destruct (ctx_step a _) as [c'| |] eqn:E; [|done|done]. injection H as <-. by exists c, c'.
Qed.

(** A step of the callback that runs last appends to the changelog what it changes in the table. *)
Lemma callback_in_step m0 l c a pp pp' :
  pp_in_step m0 pp -> graph_named (pp_graph pp) -> codec_non_nil (pp_graph pp) -> action_live a ->
  pp_ctxs pp = l ++ [c] -> ctx_do (length l) a pp = Ret pp' ->
  pp_in_step m0 pp' /\ pp_graph pp' = pp_graph pp /\ exists c', pp_ctxs pp' = l ++ [c'].
Proof.
  intros [(t & st & Ht & Hst & Hok & Hc) HF] Hn Hnn Ha Hl H.
  apply ctx_do_step in H as (d & c' & Hd & Hstep & Hg & Htab & Hctx). rewrite Hl, list_lookup_middle in Hd by done.
  injection Hd as <-. rewrite Hl in Hctx, HF. apply Forall_app in HF as [HFl [[Eg Hk] _]%Forall_cons].
  assert (<[length l := c']> (l ++ [c]) = l ++ [c']) as Hins by (rewrite insert_app_r_alt, Nat.sub_diag by lia; done).
  rewrite Hins in Hctx. unfold pp_sent in Hc. rewrite Hl, fmap_app, concat_app, replay_sent_app in Hc.
  simpl in Hc. rewrite app_nil_r in Hc. set (m1 := replay_sent _ (concat (cx_sent <$> l)) m0) in Hc.
  destruct (step_in_step m1 a (cx_set_rerr None (cx_set_table (pp_table pp) c)) c')
    as [(t' & st' & Ht' & Hst' & Hok' & Hc') [Eg' Em']]; try done.
  - exists t, st. simpl. rewrite Eg. done.
  - simpl. by rewrite Eg.
  - simpl. by rewrite Eg.
  - simpl in *. split_and!; [|done|by exists c']. constructor.
    + exists t', st'. rewrite Htab. split_and!; [done|done|done|]. unfold pp_sent.
      rewrite Hg, Hctx, fmap_app, concat_app, replay_sent_app, Hc', Eg', Eg. simpl. by rewrite app_nil_r.
    + rewrite Hctx. unfold ctx_of in *. rewrite Hg. apply Forall_app. split; [done|]. constructor; [|done].
      unfold ctx_Key in *. by rewrite Eg', Em', Eg.
Qed.

(** A resolution by the environment changes neither the contents nor the changelog. *)
Lemma environment_step_contents a c c' t st :
  by_environment a = true -> action_live a -> cx_table c = Some t -> pt_st t = Some st -> st_ok (sp_Storage st) ->
  ctx_step a c = Ret c' ->
  cx_sent c' = cx_sent c /\ same_frame c c' /\ table_at (cx_table c') (st_contents (sp_Storage st)).
Proof.
  intros Henv Ha Ht Hst Hok H. destruct a as [| | | | | | |i r|i err]; try discriminate Henv; simpl in H.
  - unfold resolve in H. destruct (cx_promises c !! i) as [k|]; [|done].
    eapply run_pending_contents in H as (Es & Hf & t' & st' & ?); [|exact Ht|exact Hst|exact Hok|exact Ha].
    split_and!; [exact Es|exact Hf|]. by exists t', st'.
  - unfold call_deferred in H. case_decide.
    + apply tryCommit_frame in H as (Et & Es & Hf). split_and!; [exact Es|exact Hf|]. exists t, st. by rewrite Et.
    + injection H as <-. split_and!; [done|done|by exists t, st].
Qed.

Lemma environment_in_step m0 n a pp pp' :
  pp_in_step m0 pp -> action_live a -> by_environment a = true -> ctx_do n a pp = Ret pp' ->
  pp_in_step m0 pp' /\ pp_graph pp' = pp_graph pp.
Proof.
  intros [(t & st & Ht & Hst & Hok & Hc) HF] Ha Henv H.
  apply ctx_do_step in H as (c & c' & Hd & Hstep & Hg & Htab & Hctx).
  eapply environment_step_contents in Hstep as (Es & [Eg Em] & (t' & st' & Ht' & Hst' & Hok' & Hc'));
    [|exact Henv|exact Ha|exact Ht|exact Hst|exact Hok]. cbn in Es, Eg, Em.
  assert (cx_sent <$> pp_ctxs pp' = cx_sent <$> pp_ctxs pp) as Esent.
  { rewrite Hctx, list_fmap_insert, Es. apply list_insert_id. by rewrite list_lookup_fmap, Hd. }
  split; [|done]. constructor.
  - exists t', st'. rewrite Htab. split_and!; [done|done|done|]. unfold pp_sent. by rewrite Hg, Esent, Hc'.
  - rewrite Hctx. unfold ctx_of in *. rewrite Hg. apply Forall_insert; [done|].
    rewrite Forall_lookup in HF. specialize (HF n c Hd). unfold ctx_Key in *. by rewrite Eg, Em.
Qed.

Lemma callbacks_in_step m0 l acts c pp r pp' :
  pp_in_step m0 pp -> graph_named (pp_graph pp) -> codec_non_nil (pp_graph pp) -> Forall action_live acts ->
  pp_ctxs pp = l ++ [c] -> ctx_do_all (length l) acts pp = Ret (r, pp') ->
  pp_in_step m0 pp' /\ pp_graph pp' = pp_graph pp /\ exists c', pp_ctxs pp' = l ++ [c'].
Proof.
  revert pp c. induction acts as [|a acts IH]; intros pp c Hin Hn Hnn HF Hl H; simpl in H.
  { injection H as <- <-. eauto. }
  apply Forall_cons in HF as [Ha HF]. destruct (ctx_do _ a pp) as [pp1|e|] eqn:E; [| |done].
  - destruct (callback_in_step m0 l c a pp pp1) as (Hin1 & Hg1 & c1 & Hl1); try done.
    destruct (IH pp1 c1) as (Hin2 & Hg2 & ?); [done|by rewrite Hg1|by rewrite Hg1|done|done|done|].
    split_and!; [done|congruence|done].
  - injection H as <- <-. eauto.
Qed.

Lemma processValue_in_step m0 m msg pp r pp' :
  pp_in_step m0 pp -> pp_live pp -> event_live (RMsg msg) -> processValue run_cb msg m pp = Ret (r, pp') ->
  pp_in_step m0 pp' /\ pp_graph pp' = pp_graph pp.
Proof.
  intros Hin [Hn Hnn Hcb] Hk H. unfold processValue in H. destruct (mjoin _) as [cb|]; [|by injection H as <- <-].
  unfold cx_start, wg_add in H. simpl in H. set (c := cx_set_protocol _ _ _ _ _ _ _ _ _) in H.
  set (pp1 := pp_set_run _ (pp_ctxs pp ++ [c]) _ _ _ _ pp) in H.
  assert (pp_in_step m0 pp1) as Hin1.
  { destruct Hin as [Ht HF]. constructor.
    - simpl. unfold pp_sent. simpl. rewrite fmap_app, concat_app. simpl. by rewrite app_nil_r.
    - simpl. apply Forall_app. split; [done|]. by constructor. }
  destruct (ctx_do_all _ _ pp1) as [[panic pp2]| |] eqn:E2; [|done|done]. cbn [mbind outcome_bind] in H.
  destruct (callbacks_in_step m0 (pp_ctxs pp) _ c pp1 panic pp2 Hin1 Hn Hnn (Hcb _ _ _) eq_refl E2) as (Hin2 & Hg2 & c2 & Hl2).
  destruct panic as [e|]; [by injection H as <- <-|].
  destruct (ctx_do _ AFinish pp2) as [pp3| |] eqn:E3; [|done|done]. injection H as <- <-.
  destruct (callback_in_step m0 (pp_ctxs pp) c2 AFinish pp2 pp3) as (Hin3 & Hg3 & _); [done|by rewrite Hg2|by rewrite Hg2|done..|].
  split; [done|]. by rewrite Hg3, Hg2.
Qed.

Lemma processMessage_in_step m0 msg pp r pp' :
  pp_in_step m0 pp -> pp_live pp -> event_live (RMsg msg) -> processMessage run_cb msg pp = Ret (r, pp') ->
  pp_in_step m0 pp' /\ pp_graph pp' = pp_graph pp.
Proof.
  intros Hin Hl Hk H. unfold processMessage in H.
  assert (pp_in_step m0 (pp_set_run (pp_table pp) (pp_ctxs pp) (pp_commits pp ++ [msg]) (pp_errs pp) (pp_asyncErrs pp)
    (pp_rerr pp) pp)) as Hnil by (destruct Hin; constructor; done).
  repeat case_match; simplify_eq; try done; by eapply processValue_in_step.
Qed.

Lemma pp_wait_in_step m0 evs pp pp' :
  pp_in_step m0 pp -> Forall event_live evs -> pp_wait evs pp = Ret pp' -> pp_in_step m0 pp'.
Proof.
  revert pp. induction evs as [|e evs IH]; intros pp Hin HF H; simpl in H; [by injection H as <-|].
  apply Forall_cons in HF as [He HF]. destruct e; try by eapply IH.
  all: destruct (ctx_do _ _ pp) as [pp1| |] eqn:E; [|done|done]; simpl in H;
    (eapply environment_in_step in E as [Hin1 _]; [|done|done|done]); by eapply IH.
Qed.

(** Every run of the loop keeps the table in step with the changelog. *)
Lemma pp_run_in_step m0 evs pp r pp' :
  pp_in_step m0 pp -> pp_live pp -> Forall event_live evs -> pp_run run_cb evs pp = Ret (r, pp') -> pp_in_step m0 pp'.
Proof.
  assert (forall rerr evs pp r pp', pp_in_step m0 pp -> Forall event_live evs -> pp_exit rerr evs pp = Ret (r, pp') ->
    pp_in_step m0 pp') as Hexit.
  { intros rerr l pp0 r0 pp1 Hin HF H. unfold pp_exit in H. destruct (pp_wait l pp0) as [pp2| |] eqn:E; [|done|done].
    injection H as <- <-. by eapply pp_wait_in_step. }
  assert (forall pp pp1, pp_live pp -> pp_graph pp1 = pp_graph pp -> pp_live pp1) as Hlive.
  { intros pp0 pp1 [? ? ?] Hg. constructor; rewrite ?Hg; done. }
  revert pp. induction evs as [|e evs IH]; intros pp Hin Hl HF H; simpl in H; [by injection H as <- <-|].
  apply Forall_cons in HF as [He HF].
  destruct e as [msg| | | |n i r0|n i err]; try by eapply Hexit.
  - destruct (processMessage run_cb msg pp) as [[res pp1]| |] eqn:E; [|done|done]. simpl in H.
    destruct (processMessage_in_step m0 msg pp res pp1 Hin Hl He E) as [Hin1 Hg1].
    destruct res as [[e|]|e]; [by eapply Hexit|by eapply IH; eauto|by injection H as <- <-].
  - destruct (pp_asyncErrs pp); [by eapply Hexit|done].
  - destruct (ctx_do _ _ pp) as [pp1| |] eqn:E; [|done|done]. simpl in H.
    eapply environment_in_step in E as [Hin1 Hg1]; [|done|done|done]. by eapply IH; eauto.
  - destruct (ctx_do _ _ pp) as [pp1| |] eqn:E; [|done|done]. simpl in H.
    eapply environment_in_step in E as [Hin1 Hg1]; [|done|done|done]. by eapply IH; eauto.
Qed.
End changelog.

(** ** The topic of the table *)

(** The key and value of a record and of an emission. *)
Definition rec_kv (r : ConsumerMessage) : string * bytes := (string_of_bytes (cm_Key r), cm_Value r).
Definition em_kv (e : emission) : string * bytes := (em_key e, em_value e).

(** [l] are the records that the emissions [sent] to the topic left in Kafka. *)
Definition recorded (topic : string) (sent : list emission) (l : list ConsumerMessage) : Prop :=
  rec_kv <$> l = em_kv <$> filter (fun e => em_topic e = topic) sent.

(** Replaying the records is replaying the emissions. *)
Lemma replay_recorded topic sent l m : recorded topic sent l -> replay l m = replay_sent topic sent m.
Proof.
  unfold recorded. revert l m. induction sent as [|e sent IH]; intros l m H.
  { by apply fmap_nil_inv in H as ->. }
  unfold replay_sent. simpl. fold (replay_sent topic sent). destruct (String.eqb_spec (em_topic e) topic) as [Et|Et].
  - rewrite filter_cons_True in H by done. destruct l as [|r l]; [done|]. simpl in H. injection H as Hk Hv H.
    unfold replay. simpl. fold (replay l). rewrite Hk, Hv. by apply IH.
  - rewrite filter_cons_False in H by done. by apply IH.
Qed.

(** ** Properties *)

(** A partition processor that has recovered its table from the log and received nothing yet. *)
Definition pp_recovered {S I CB} `{StorageLaws S I} (log : list ConsumerMessage) (pp : PartitionProcessor S CB) : Prop :=
  pp_ctxs pp = [] /\ table_at (pp_table pp) (replay log ∅).

(** C4. A partition can move: a processor that has recovered its table runs on whatever messages and
    acknowledgements arrive; if Kafka appended to the topic of the table what the callbacks emitted to
    it, then another processor, whose own storage is right for every key without a record after the
    offset it stored (whatever recoveries and crashes it has seen), whose recovery is not disturbed and
    which reads the topic as Kafka has compacted it, ends up running and answers every key as the
    storage of the first one does. The callbacks stay within what [pp_live] and [event_live] say:
    values that encode to bytes, and no shutdown while one runs; and the topic is not empty if the
    second storage has an offset above 0. *)
Theorem failover_same_table {S I CB} `{StorageLaws S I} `{!Iterator I} {S' I'} `{StorageLaws S' I'}
    (run_cb : CB -> value -> cbContext S CB -> list ctx_action) (pp pp' : PartitionProcessor S CB) (evs : list run_event) r
    (log records l : list ConsumerMessage) (oldest hwm : Z)
    (env : load_env) (p : PartitionTable S') (st : storageProxy S') :
  pp_live run_cb pp -> pp_recovered log pp -> Forall (event_live (S := S)) evs -> pp_run run_cb evs pp = Ret (r, pp') ->
  recorded (tableName (gg_group (pp_graph pp'))) (pp_sent pp') records ->
  table_ready p st -> kafka_log (S := S') (log ++ records) l oldest hwm ->
  undisturbed env p l oldest hwm ->
  offsetNotStored <= stored_offset st < 2 ^ 63 - 1 -> ~ (0 < stored_offset st /\ hwm = 0) ->
  reflects (log ++ records) (stored_offset st) (st_contents (sp_Storage st)) ->
  exists p' t old, load env true p = Ret (None, p') /\ CurrentState p' = PartitionRunning /\
    pp_table pp' = Some t /\ pt_st t = Some old /\
    forall k, ~ st_reserved (S := S) k -> ~ st_reserved (S := S') k -> table_Get k p' = Ret (st_Get k (sp_Storage old)).
Proof.
  intros Hlive [Hnil Ht] Hevs Hrun Hrec Hready Hlog Hund Hrng Hgone Hcont.
  assert (pp_in_step (replay log ∅) pp) as Hin.
  { constructor; [|by rewrite Hnil]. unfold pp_sent. by rewrite Hnil. }
  destruct (pp_run_in_step run_cb _ _ _ _ _ Hin Hlive Hevs Hrun) as [(t & old & Htab & Hst & Hok & Hc) _].
  destruct (load_undisturbed env p st (log ++ records) l oldest hwm) as (p' & s' & Hl & Hr & _ & _ & _ & Hg); try done.
  exists p', t, old. split_and!; [done|done|done|done|]. intros k Hk Hk'.
  rewrite Hg by done. rewrite law_Get by done. by rewrite Hc, replay_app, (replay_recorded _ _ _ _ Hrec).
Qed.

(** A processor of the group g whose callback stores a value; the second table starts empty. *)
Definition fo_cb (cb : nat) (v : value) (c : cbContext memory nat) : list ctx_action :=
  [ASetValue false (VInt64 7) [] false None].

Definition fo_proxy : storageProxy memory :=
  mkProxy NewMemory "g-table" 0 false (@DefaultUpdate _ _ (memory_Storage id)) None None.

Definition fo_table : PartitionTable memory :=
  mkPT "g-table" 0 table_signal0 (Some fo_proxy) (@DefaultUpdate _ _ (memory_Storage id))
    (newTableStats empty_heap).1 (newTableStats empty_heap).2 [] 0.

Definition fo_pp : PartitionProcessor memory nat :=
  mkPP ctx_graph (pp_callbackMap ctx_graph) (Some fo_table) ∅ ∅ NilIgnore None [] [] new_Errors false None.

Definition fo_evs : list run_event := [RMsg (pp_msg 5); RResolve 0 0 (Some (mkPMsg 0 0), None)].

Definition fo_end : PartitionProcessor memory nat :=
  (ret_or (None, fo_pp) (pp_run (ST := memory_Storage id) fo_cb fo_evs fo_pp)).2.

Definition fo_records : list ConsumerMessage := [mkMsg "g-table" 0 (Some "k"%string) (Some "7"%string) 0 [] None].

Definition fo_env : load_env := kafka_env "g-table" 0 fo_records 0 1.

Lemma fo_kafka_log : kafka_log (SL := memory_Laws id) ([] ++ fo_records) fo_records 0 1.
Proof.
  assert (forall r, r ∈ fo_records -> cm_Offset r = 0) as Ho by (by intros r ->%list_elem_of_singleton).
  constructor.
  - by repeat constructor.
  - split; [done|]. intros l1 r l2 E _. simpl in E. rewrite E. set_solver.
  - intros r ->%Ho. lia.
  - split; [lia|]. intros r ->%Ho. lia.
  - lia.
  - intros _. eexists. split; [by left|done].
  - intros r _ [].
Qed.

Lemma failover_same_table_witness :
  exists p' t old, load (ST := memory_Storage id) fo_env true fo_table = Ret (None, p') /\
    CurrentState p' = PartitionRunning /\ pp_table fo_end = Some t /\ pt_st t = Some old /\
    table_Get (ST := memory_Storage id) "k" p' = Ret (memory_Get "k" (sp_Storage old)).
Proof.
  destruct (failover_same_table (H := memory_Storage id) (H0 := memory_Laws id) (H2 := memory_Laws id)
    fo_cb fo_pp fo_end fo_evs None [] fo_records fo_records 0 1 fo_env fo_table fo_proxy)
    as (p' & t & old & Hl & Hr & Ht & Hst & Hg).
  - constructor; [exact demo_graph_named|exact demo_codec_non_nil|]. intros cb v c. by repeat constructor.
  - split; [reflexivity|]. exists fo_table, fo_proxy. split; [reflexivity|]. split; [reflexivity|]. split; [apply NewMemory_wf|reflexivity].
  - repeat constructor; [by intros []|]. unfold resolution_ok, in_int64. simpl. lia.
  - apply ret_or_pair; [vm_cast_no_check (eq_refl true)|vm_cast_no_check (eq_refl (None : option (option error)))].
  - vm_cast_no_check (eq_refl [("k"%string, Some "7"%string)]).
  - constructor; [done|done|apply NewMemory_wf|done|apply table_signal0_ok].
  - exact fo_kafka_log.
  - apply (kafka_env_undisturbed fo_table).
  - vm_compute. by split.
  - by intros [_ ?].
  - apply reflects_empty. by intros r ->%list_elem_of_singleton.
  - exists p', t, old. split_and!; [exact Hl|exact Hr|exact Ht|exact Hst|]. apply Hg; by intros [].
Defined.
