(* ===== verification/Apps.v ===== *)
(** * Stateful callbacks

    What a user of the library programs: a callback that reads the value of its key, computes a new one
    from it and the message, and stores it.  A group of such callbacks computes, for every key, the fold
    of its update over the messages of the key; this composes the graph, the partition processor, the
    context, the table and, for a partition that moves, its recovery.  The applications under
    [examples/] are instances. *)
From Stdlib Require Import ZArith Lia.
From stdpp Require Import countable base gmap strings list.
From S2P Require Import Prelude Multierr Signal Codec Json Storage Memory MergeIterator Headers Stats Proxy PartitionTable Recovery.
From S2P Require Import Promise Graph View Context PartitionProcessor Failover.
Open Scope Z_scope.

(** ** Values of the user's types *)

(** A value of the type with the given name as an [interface{}]. *)
Definition box {A} `{Countable A} (ty : string) (a : A) : value := VOther ty (countable.encode a).

(** The type assertion [v.(ty)]. *)
Definition unbox {A} `{Countable A} (ty : string) (v : value) : option A :=
  match v with VOther t n => if String.eqb t ty then countable.decode n else None | _ => None end.

Lemma unbox_box {A} `{Countable A} ty (a : A) : unbox ty (box ty a) = Some a.
Proof. unfold unbox, box. by rewrite String.eqb_refl, countable.decode_encode. Qed.

(** A codec that writes and reads JSON. *)
Lemma json_trip {A} `{Countable A} ty (to_json : A -> json) (rd : json -> res A) other a :
  json_ok (to_json a) -> rd (to_json a) = Ok a ->
  json_Encode (unbox ty) to_json other (box ty a) = Ok (Some (print (to_json a))) /\ Unmarshal rd (Some (print (to_json a))) = Ok a.
Proof. intros Hok Hr. unfold json_Encode. rewrite unbox_box. split; [done|]. by rewrite Unmarshal_print. Qed.

(** The codecs give back what they are given. *)
Definition codec_trip {A} (codec : Codec) (bx : A -> value) (a : A) : Prop :=
  exists d, Encode codec (bx a) = Ok (Some d) /\ Decode codec (Some d) = Ok (bx a).

(** ** Callbacks as the operations they perform *)

Section callbacks.
Context {S I : Type} {ST : Storage S I} {IT : Iterator I} {CB : Type}.
Implicit Types c : cbContext S CB.

(** What the surroundings of a callback decide: whether the processor is shutting down, whether the
    promise of its [n]-th emit is finished when it is returned, and whether the statistics of a write
    are dropped. *)
Record cb_env : Type := mkCbEnv {
  ce_cancelled : bool;
  ce_answer : ConsumerMessage -> nat -> option resolution;
  ce_skip : ConsumerMessage -> bool
}.

(** A panic ends the callback, as that of a failing operation does. *)
Definition cb_panic (e : error) : list ctx_action := [AFail false e].

Definition ErrTypeAssertion : error := ErrNew "interface conversion".

(** Go on with a value that was read: the error of a read during the shutdown is stored. *)
Definition cb_read (env : cb_env) (read : outcome (value * cbContext S CB)) (k : value -> list ctx_action) : list ctx_action :=
  match read with
  | Ret (v, c) => match cx_rerr c with Some e => [AFail (ce_cancelled env) e] | None => [] end ++ k v
  | Panic e => cb_panic e
  | Blocked => []
  end.

Definition cb_SetValue (env : cb_env) (n : nat) c (v : value) : ctx_action :=
  ASetValue (ce_cancelled env) v [] (ce_skip env (cx_msg c)) (ce_answer env (cx_msg c) n).
Definition cb_Emit (env : cb_env) (n : nat) c (topic key : string) (v : value) : ctx_action :=
  AEmit (ce_cancelled env) topic key v [] (ce_answer env (cx_msg c) n).
Definition cb_Loopback (env : cb_env) (n : nat) c (key : string) (v : value) : ctx_action :=
  ALoopback (ce_cancelled env) key v [] (ce_answer env (cx_msg c) n).

(** The reads do not block, so [cb_read] always goes on or panics. *)
Lemma guarded_returns {A} (f : S -> res A) p : guarded f p <> Blocked.
Proof. unfold guarded, with_st. destruct (readyToRead p); [done|]. by destruct (pt_st p). Qed.

Lemma ctx_Value_returns b c : ctx_Value b c <> Blocked.
Proof.
  unfold ctx_Value, valueForKey. destruct (cx_table c) as [t|]; [|by destruct b].
  unfold table_Get. pose proof (guarded_returns (st_Get (ctx_Key c)) t) as H. destruct (guarded _ t) as [[[d|]|e]| |]; try done; simpl.
  - destruct (GroupTable (cx_graph c)) as [[n [codec|]]|]; try done. simpl. destruct (Decode codec _); by destruct b.
  - by destruct b.
Qed.

Lemma ctx_Join_returns b topic c : ctx_Join b topic c <> Blocked.
Proof.
  unfold ctx_Join, fail_if, Fail.
  repeat (case_match || destruct b || (progress simplify_eq/=) || done).
Qed.

(** ** Aggregates *)

(** What a callback emits besides the new value: to an output topic, or to the loop topic. *)
Inductive request : Type :=
| RqEmit (topic key : string) (v : value)
| RqLoop (key : string) (v : value).

Definition request_action (env : cb_env) c (n : nat) (rq : request) : ctx_action :=
  match rq with
  | RqEmit topic key v => cb_Emit env n c topic key v
  | RqLoop key v => cb_Loopback env n c key v
  end.

(** The callback that stores the update of what it reads, by the message, and then emits; type
    assertions that fail panic. *)
Definition aggregate {A} (unb : value -> option A) (bx : A -> value) (zero : A) (upd : CB -> value -> A -> option A)
    (requests : CB -> value -> A -> string -> list request) (env : cb_env) (cb : CB) (msg : value) c : list ctx_action :=
  cb_read env (ctx_Value (ce_cancelled env) c) (fun val =>
    match (if is_nil val then Some zero else unb val) ≫= upd cb msg with
    | Some a => cb_SetValue env 0 c (bx a) ::
                imap (fun i => request_action env c (Datatypes.S i)) (requests cb msg a (ctx_Key c))
    | None => cb_panic ErrTypeAssertion
    end).
End callbacks.

(** A codec of the table for the states that satisfy [ok]. *)
Class StateCodec {A : Type} (codec : Codec) (unb : value -> option A) (bx : A -> value) (ok : A -> Prop) : Prop := {
  sc_unbox a : unb (bx a) = Some a;
  sc_not_nil a : is_nil (bx a) = false;
  sc_roundtrip a : ok a -> exists d, Encode codec (bx a) = Ok (Some d) /\ Decode codec (Some d) = Ok (bx a)
}.

(** ** Operations on a running table *)

Section running.
Context {S I : Type} {ST : Storage S I} {SL : StorageLaws S I} {IT : Iterator I} {CB : Type}.
Implicit Types c : cbContext S CB.
Implicit Types pp : PartitionProcessor S CB.
Implicit Types m : gmap string string.

(** The table is running and has these contents. *)
Definition run_at (t : option (PartitionTable S)) m : Prop :=
  exists p st, t = Some p /\ sig_state (pt_state p) = PartitionRunning /\ pt_st p = Some st /\ st_ok (sp_Storage st) /\
    st_contents (sp_Storage st) = m.

(** The topic, the key and the value of an emission. *)
Definition em_rec (e : emission) : string * string * bytes := (em_topic e, em_key e, em_value e).

Lemma run_at_table t m : run_at t m -> table_at t m.
Proof. intros (p & st & ? & _ & ? & ? & ?). by exists p, st. Qed.

Lemma storeNewestOffset_running o p m :
  run_at (Some p) m -> in_int64 o -> exists p', storeNewestOffset o p = Ret (None, p') /\ run_at (Some p') m.
Proof.
  intros (p0 & st & [= <-] & Hrun & Hst & Hok & Hc) Ho.
  destruct (storeNewestOffset_ok o p st Hst Hok Ho) as (p' & s' & E & Hst' & Hok' & Hc'). exists p'. split; [done|].
  exists p', (sp_set s' st). split_and!; [done| |done|done|by rewrite <- Hc].
  unfold storeNewestOffset, table_GetOffset, table_SetOffset, on_storage, with_st in E. rewrite Hst in E. simpl in E.
  destruct (st_GetOffset _ _); [|done]. destruct (negb _ && _); [|by injection E as <-].
  destruct (st_SetOffset _ _) as [e s1]. by injection E as _ <-.
Qed.

(** What a step of a callback that returns leaves: the context goes on, and has emitted [l]. *)
Definition step_done c c' m (l : list (string * string * bytes)) : Prop :=
  ctx_inv c' /\ cx_done c' = cx_done c /\ same_frame c c' /\ run_at (cx_table c') m /\
  em_rec <$> cx_sent c' = (em_rec <$> cx_sent c) ++ l.

(** Finishing a promise returns and keeps the contents. *)
Lemma run_pending_total k r c m :
  ctx_mid c -> run_at (cx_table c) m -> resolution_ok r -> exists c', run_pending k r c = Ret c' /\ step_done c c' m [].
Proof.
  intros Hmid Ht Hr.
  assert (forall err (c1 : cbContext S CB), ctx_mid c1 -> cx_done c1 = cx_done c -> same_frame c c1 -> cx_sent c1 = cx_sent c ->
    run_at (cx_table c1) m -> exists c', emitDone err c1 = Ret c' /\ step_done c c' m []) as Hgen.
  { intros err c1 Hm1 Hd [Eg Em] Es Ht1. destruct (emitDone_ok err c1 Hm1) as (c' & E & Hi & Hd' & _ & Etab & _).
    exists c'. pose proof (tryCommit_frame _ _ _ E) as (_ & Es' & [Eg' Em']). simpl in *. split; [done|].
    split_and!; [done|congruence|split; congruence|by rewrite Etab|]. by rewrite app_nil_r, Es', Es. }
  destruct r as [msg err]. unfold run_pending. destruct k; [by apply Hgen|by apply Hgen|].
  destruct err as [e|]; [by apply Hgen|]. destruct msg as [pm|]; [|by apply Hgen].
  destruct (cx_table c) as [p|] eqn:Et; [|by destruct Ht as (? & ? & ? & _)].
  destruct (storeNewestOffset_running (pm_Offset pm) p m Ht Hr) as (p' & -> & Ht'). cbn [mbind outcome_bind].
  by apply Hgen; [destruct Hmid|..].
Qed.

Lemma send_total topic key v hdr k r c m :
  ctx_mid c -> cx_done c = false -> run_at (cx_table c) m -> (forall r', r = Some r' -> resolution_ok r') ->
  exists c', send topic key v hdr k r c = Ret c' /\ step_done c c' m [(topic, key, v)].
Proof.
  intros Hmid Hd Ht Hr. destruct r as [r|].
  - destruct (run_pending_total k r (cx_set_outstanding (cx_promises c) (cx_deferred c) (cx_next c)
      (cx_sent c ++ [mkEmission topic key v hdr]) (cx_tracked c) c) m) as (c' & E & Hi & Hd' & Hf & Ht' & Es);
      [by destruct Hmid|done|by apply Hr|].
    exists c'. split; [done|]. split_and!; [done|done|done..|]. rewrite Es, app_nil_r. simpl. by rewrite fmap_app.
  - destruct (send_inv topic key v hdr k None c _ Hmid Hd eq_refl) as [Hi [Hd' _]]. eexists. split; [done|].
    split_and!; try done. simpl. by rewrite fmap_app.
Qed.

(** Setting the value of the key returns and stores its encoding. *)
Lemma SetValue_total gt codec v d skip r c m :
  ctx_inv c -> cx_done c = false -> run_at (cx_table c) m -> ~ st_reserved (ctx_Key c) ->
  (forall r', r = Some r' -> resolution_ok r') ->
  GroupTable (cx_graph c) = Some gt -> td_codec gt = Some codec -> is_nil v = false -> Encode codec v = Ok (Some d) ->
  exists c', ctx_SetValue false v [] skip r c = Ret c' /\
    step_done c c' (<[ctx_Key c := d]> m) [(td_name gt, ctx_Key c, Some d)].
Proof.
  intros Hi Hd (p & st & Hp & Hrun & Hst & Hok & Hc) Hk Hr Hg Hcodec Hnil He.
  unfold ctx_SetValue, setValueForKey. rewrite Hg, Hnil, Hcodec, He. cbn [cx_table count_store cx_set_protocol]. rewrite Hp.
  unfold table_Set, on_storage, with_st. rewrite Hst.
  destruct (law_Set (sp_Storage st) (ctx_Key c) d Hok Hk) as (s' & -> & Hok' & Hc' & _). cbn [mbind outcome_bind].
  set (p1 := pt_set_st (Some (sp_set s' st)) p).
  destruct (send_total (td_name gt) (ctx_Key c) (Some d) (applyOptions []) PStore r
    (count_emit (cx_set_table (Some p1) (count_store c))) (<[ctx_Key c := d]> m)) as (c1 & -> & Hi1 & Hd1 & Hf1 & Ht1 & Es1).
  - apply count_emit_mid; [by destruct Hi|done].
  - done.
  - exists p1, (sp_set s' st). split_and!; try done. simpl. by rewrite Hc', Hc.
  - done.
  - cbn [mbind outcome_bind fail_err]. destruct Ht1 as (p2 & st2 & Hp2 & Hrun2 & Hst2 & Hok2 & Hc2).
    cbn [cx_table track cx_set_outstanding]. rewrite Hp2. eexists. split; [done|].
    destruct (enqueue_shape skip (UTrackWrite (bytes_len (Some d))) p2) as [us Eq]. unfold TrackMessageWrite. rewrite Eq.
    split_and!; [by destruct Hi1|exact Hd1|exact Hf1| |exact Es1]. exists (pt_set_updates us p2), st2. by split_and!.
Qed.

(** Emitting returns and leaves the table alone. *)
Lemma ctx_emit_total topic key data hdr r c m :
  ctx_inv c -> cx_done c = false -> run_at (cx_table c) m -> (forall r', r = Some r' -> resolution_ok r') ->
  exists c', ctx_emit topic key data hdr r c = Ret c' /\ step_done c c' m [(topic, key, data)].
Proof.
  intros Hi Hd Ht Hr. unfold ctx_emit.
  destruct (send_total topic key data (Merged (map_to_list (entries (cx_emitterDefaultHeaders c))) [map_to_list (entries hdr)])
    (PEmit topic) r (count_emit c) m) as (c1 & -> & Hi1 & H1); [by apply count_emit_mid|done|done|done|].
  eexists. split; [done|]. split; [by destruct Hi1|exact H1].
Qed.

(** The record a request becomes: the topic is one of the group's, and the value can be encoded. *)
Definition request_record (gg : GroupGraph CB) (rq : request) : option (string * string * bytes) :=
  match rq with
  | RqEmit topic key v =>
      if String.eqb topic "" || String.eqb (loopName (gg_group gg)) topic || String.eqb (tableName (gg_group gg)) topic ||
         negb (isOutputTopic topic gg) then None
      else match graph_codec topic gg with
      | None => None
      | Some codec =>
          if is_nil v then Some (topic, key, None)
          else match Encode codec v with Ok d => Some (topic, key, d) | Err _ => None end
      end
  | RqLoop key v =>
      match LoopStream gg with
      | Some (mkTopicDef name (Some codec)) =>
          match Encode codec v with Ok d => Some (name, key, d) | Err _ => None end
      | _ => None
      end
  end.

Lemma request_total env n rq rc c c0 m :
  ctx_inv c -> cx_done c = false -> run_at (cx_table c) m -> ce_cancelled env = false ->
  (forall msg n r, ce_answer env msg n = Some r -> resolution_ok r) -> request_record (cx_graph c) rq = Some rc ->
  exists c', ctx_step (request_action env c0 n rq) c = Ret c' /\ step_done c c' m [rc].
Proof.
  intros Hi Hd Ht Hcanc Hans Hrec. destruct rq as [topic key v|key v]; simpl in *; rewrite Hcanc.
  - unfold Emit. destruct (String.eqb topic ""); [done|]. destruct (String.eqb (loopName _) topic); [done|].
    destruct (String.eqb (tableName _) topic); [done|]. destruct (negb _); [done|].
    destruct (graph_codec topic (cx_graph c)) as [codec|]; [|done]. cbn [fail_if mbind outcome_bind orb] in *.
    rewrite bool_decide_eq_false_2 by done. cbn [mbind outcome_bind]. destruct (is_nil v).
    + injection Hrec as <-. apply ctx_emit_total; try done. apply Hans.
    + unfold encode. destruct (Encode codec v) as [d|]; [|done]. injection Hrec as <-. apply ctx_emit_total; try done. apply Hans.
  - unfold Loopback. destruct (LoopStream (cx_graph c)) as [[name [codec|]]|] eqn:El; try done.
    rewrite bool_decide_eq_false_2 by done. cbn [fail_if mbind outcome_bind]. rewrite El. unfold encode. cbn [td_codec td_name].
    destruct (Encode codec v) as [d|]; [|done]. injection Hrec as <-. apply ctx_emit_total; try done. apply Hans.
Qed.
End running.

(** ** What a group of aggregates computes *)

Section aggregates.
Context {S I : Type} {ST : Storage S I} {SL : StorageLaws S I} {IT : Iterator I} {CB : Type}.
Context {A : Type} (codec : Codec) (unb : value -> option A) (bx : A -> value) (ok : A -> Prop) {SC : StateCodec codec unb bx ok}.
Variables (zero : A) (upd : CB -> value -> A -> option A) (requests : CB -> value -> A -> string -> list request).
Variable env : cb_env.
Variable run_cb : CB -> value -> cbContext S CB -> list ctx_action.
Variable gg : GroupGraph CB.
Implicit Types c : cbContext S CB.
Implicit Types pp : PartitionProcessor S CB.
Implicit Types m : gmap string string.
Implicit Types out : list (string * string * bytes).

(** *** The abstract application *)

Definition msg_key (msg : ConsumerMessage) : string := string_of_bytes (cm_Key msg).

(** The callback of a message and its decoded value. *)
Definition message_input (msg : ConsumerMessage) : option (CB * value) :=
  match mjoin (pp_callbackMap gg !! cm_Topic msg), graph_codec (cm_Topic msg) gg with
  | Some cb, Some icodec => match Decode icodec (cm_Value msg) with Ok v => Some (cb, v) | Err _ => None end
  | _, _ => None
  end.

(** The states of the keys, and the records emitted so far. *)
Definition app_state : Type := (string -> option A) * list (string * string * bytes).

Definition encoded (a : A) : bytes := match Encode codec (bx a) with Ok d => d | Err _ => None end.

(** A message changes the state of its key and emits the new value and the requests. *)
Definition app_step (s : app_state) (msg : ConsumerMessage) : app_state :=
  match message_input msg with
  | Some (cb, v) =>
      match upd cb v (default zero (s.1 (msg_key msg))) with
      | Some a =>
          (fun k => if decide (k = msg_key msg) then Some a else s.1 k,
           s.2 ++ (tableName (gg_group gg), msg_key msg, encoded a) ::
                  omap (request_record gg) (requests cb v a (msg_key msg)))
      | None => s
      end
  | None => s
  end.

Definition app_spec (msgs : list ConsumerMessage) (s : app_state) : app_state := fold_left app_step msgs s.

Lemma app_spec_cons msg msgs s : app_spec (msg :: msgs) s = app_spec msgs (app_step s msg).
Proof. reflexivity. Qed.

(** *** The refinement *)

(** The contents of the storage represent the states of the keys. *)
Definition holds m (f : string -> option A) : Prop :=
  forall k, ~ st_reserved (S := S) k ->
    match m !! k with
    | None => f k = None
    | Some d => exists a, ok a /\ Decode codec (Some d) = Ok (bx a) /\ f k = Some a
    end.

(** The messages that the group accepts: a key that can be stored, and an input topic whose callback is
    the aggregate, on which the update works and the requests can be emitted. *)
Definition accepted (msg : ConsumerMessage) : Prop :=
  is_Some (cm_Value msg) /\ ~ st_reserved (S := S) (msg_key msg) /\
  exists cb v, message_input msg = Some (cb, v) /\
    (forall c, run_cb cb v c = aggregate unb bx zero upd requests env cb v c) /\
    forall a, a = zero \/ ok a -> exists a', upd cb v a = Some a' /\ ok a' /\
      Forall (fun rq => is_Some (request_record gg rq)) (requests cb v a' (msg_key msg)).

(** A group whose table has the codec, in a processor that is not shutting down. *)
Record app_group : Prop := {
  ag_table : GroupTable gg = Some (mkTopicDef (tableName (gg_group gg)) (Some codec));
  ag_running : ce_cancelled env = false;
  ag_answers : forall msg n r, ce_answer env msg n = Some r -> resolution_ok r
}.

(** The state of a partition processor of the group between two events. *)
Record app_at m out pp : Prop := {
  aa_graph : pp_graph pp = gg;
  aa_callbacks : pp_callbacks pp = pp_callbackMap gg;
  aa_ctxs : Forall ctx_inv (pp_ctxs pp);
  aa_table : run_at (pp_table pp) m;
  aa_sent : em_rec <$> pp_sent pp = out
}.

(** The same, while the callback of the last context runs. *)
Definition in_callback m out (l : list (cbContext S CB)) (msg : ConsumerMessage) pp : Prop :=
  app_at m out pp /\ exists c, pp_ctxs pp = l ++ [c] /\ cx_done c = false /\ cx_graph c = gg /\ cx_msg c = msg.

Lemma sent_last (l : list (cbContext S CB)) c rs :
  em_rec <$> cx_sent c = rs -> em_rec <$> concat (cx_sent <$> l ++ [c]) = (em_rec <$> concat (cx_sent <$> l)) ++ rs.
Proof. intros <-. rewrite fmap_app, concat_app, fmap_app. simpl. by rewrite app_nil_r. Qed.

Lemma concat_fmap_em (l : list (cbContext S CB)) :
  em_rec <$> concat (cx_sent <$> l) = concat ((fun c => em_rec <$> cx_sent c) <$> l).
Proof. induction l as [|c l IH]; [done|]. rewrite !fmap_cons. cbn [concat]. by rewrite fmap_app, IH. Qed.

Lemma callback_step m m' out rs l msg a pp :
  in_callback m out l msg pp ->
  (forall c, ctx_inv c -> cx_done c = false -> run_at (cx_table c) m -> cx_graph c = gg -> cx_msg c = msg ->
    exists c', ctx_step a c = Ret c' /\ step_done c c' m' rs) ->
  exists pp', ctx_do (length l) a pp = Ret pp' /\ in_callback m' (out ++ rs) l msg pp'.
Proof.
  intros [[Hg Hcb HF Ht Hs] (c & Hl & Hd & Ecg & Ecm)] Hstep.
  assert (ctx_inv c) as Hi. { rewrite Hl in HF. apply Forall_app in HF as [_ HF]. by apply Forall_cons in HF as [? _]. }
  destruct (Hstep (cx_set_rerr None (cx_set_table (pp_table pp) c))) as (c' & E & Hi' & Hd' & [Eg' Em'] & Ht' & Es');
    [by destruct Hi|done..|].
  unfold ctx_do. rewrite Hl, list_lookup_middle by done. cbn zeta. rewrite E. eexists. split; [done|].
  assert (<[length l := c']> (l ++ [c]) = l ++ [c']) as Hins by (rewrite insert_app_r_alt, Nat.sub_diag by lia; done).
  split.
  - constructor; simpl; [done|done| |done|].
    + rewrite Hl, Hins. rewrite Hl in HF. apply Forall_app in HF as [HF _]. apply Forall_app. split; [done|by constructor].
    + unfold pp_sent in *. simpl. rewrite Hl in *. rewrite Hins. rewrite (sent_last l c' _ Es'), (sent_last l c _ eq_refl) in *.
      by rewrite <- Hs, app_assoc.
  - exists c'. simpl. rewrite Hl, Hins. simpl in *. split_and!; [done|congruence|congruence|congruence].
Qed.

(** The return of the callback. *)
Lemma finish_step m out l msg pp :
  in_callback m out l msg pp -> exists pp', ctx_do (length l) AFinish pp = Ret pp' /\ app_at m out pp'.
Proof.
  intros [[Hg Hcb HF Ht Hs] (c & Hl & Hd & Ecg & Ecm)]. rewrite Hl in HF. apply Forall_app in HF as [HFl [Hi _]%Forall_cons].
  set (c0 := cx_set_rerr None (cx_set_table (pp_table pp) c)).
  destruct (cx_finish_ok c0) as (c' & E & Hi' & _ & _ & Et); [by destruct Hi|done|].
  pose proof (tryCommit_frame _ _ _ E) as (_ & Es & _). unfold ctx_do. rewrite Hl, list_lookup_middle by done.
  cbn zeta. fold c0. cbn [ctx_step]. rewrite E. eexists. split; [done|].
  assert (<[length l := c']> (l ++ [c]) = l ++ [c']) as Hins by (rewrite insert_app_r_alt, Nat.sub_diag by lia; done).
  constructor; simpl; [done|done| |by rewrite Et|].
  - rewrite Hl, Hins. apply Forall_app. split; [done|by constructor].
  - unfold pp_sent in *. simpl. rewrite Hl, Hins, (fmap_app cx_sent l [c']). simpl. rewrite Es. by rewrite Hl, (fmap_app cx_sent l [c]) in Hs.
Qed.

(** The requests of a callback, one after the other. *)
Lemma requests_step m out l msg c0 rqs (n : nat) pp :
  app_group -> in_callback m out l msg pp -> Forall (fun rq => is_Some (request_record gg rq)) rqs ->
  exists pp', ctx_do_all (length l) (imap (fun i => request_action env c0 (n + i)) rqs) pp = Ret (None, pp') /\
    in_callback m (out ++ omap (request_record gg) rqs) l msg pp'.
Proof.
  intros [_ Hcanc Hans] Hin HF. revert n out pp Hin. induction HF as [|rq rqs [rc Hrc] HF IH]; intros n out pp Hin.
  { exists pp. simpl. by rewrite app_nil_r. }
  rewrite imap_cons. cbn [ctx_do_all].
  destruct (callback_step m m out [rc] l msg (request_action env c0 (n + 0) rq) pp Hin) as (pp1 & -> & Hin1).
  { intros c Hi Hd Ht Hg Hm. eapply request_total; try done. by rewrite Hg. }
  destruct (IH (Datatypes.S n) (out ++ [rc]) pp1 Hin1) as (pp2 & E & Hin2). exists pp2. split.
  - rewrite <- E. f_equal. apply imap_ext. intros i x _. simpl. f_equal. lia.
  - simpl. rewrite Hrc. by rewrite <- app_assoc in Hin2.
Qed.

Lemma newContext_ready msg hdr table joins lookups :
  exists c, cx_start (newContext (S := S) gg msg hdr table joins lookups) = Ret c /\ ctx_inv c /\ cx_done c = false /\
    cx_table c = table /\ cx_graph c = gg /\ cx_msg c = msg /\ cx_rerr c = None /\ cx_sent c = [].
Proof. eexists. by split_and!. Qed.

(** What the aggregate does in a fresh context. *)
Lemma aggregate_acts m f msg cb v c :
  app_group -> run_at (cx_table c) m -> holds m f -> cx_graph c = gg -> cx_msg c = msg -> cx_rerr c = None ->
  ~ st_reserved (S := S) (msg_key msg) ->
  (forall a, a = zero \/ ok a -> exists a', upd cb v a = Some a' /\ ok a' /\
    Forall (fun rq => is_Some (request_record gg rq)) (requests cb v a' (msg_key msg))) ->
  exists a, upd cb v (default zero (f (msg_key msg))) = Some a /\ ok a /\
    Forall (fun rq => is_Some (request_record gg rq)) (requests cb v a (msg_key msg)) /\
    aggregate unb bx zero upd requests env cb v c =
      cb_SetValue env 0 c (bx a) :: imap (fun i => request_action env c (1 + i)) (requests cb v a (msg_key msg)).
Proof.
  intros [Hgt Hcanc _] (p & st & Hp & Hrun & Hst & Hok & Hc) Hh Hg Hm Hre Hk Hu.
  assert (ctx_Key c = msg_key msg) as Ek by (unfold ctx_Key; by rewrite Hm). specialize (Hh (msg_key msg) Hk).
  unfold aggregate, cb_read, ctx_Value, valueForKey. rewrite Hp, Ek, (running_Get p st) by done. cbn [mbind outcome_bind].
  rewrite Hc. destruct (m !! msg_key msg) as [d|] eqn:Em.
  - destruct Hh as (a0 & Ha0 & Hdec & ->). rewrite Hg, Hgt, Hdec. cbn [mbind outcome_bind].
    rewrite Hre, sc_not_nil, sc_unbox. cbn [app mbind option_bind default].
    destruct (Hu a0) as (a & Ea & Hok' & HF); [by right|]. exists a. simpl. by rewrite Ea.
  - rewrite Hh. cbn [mbind outcome_bind]. rewrite Hre. cbn [is_nil app mbind option_bind default].
    destruct (Hu zero) as (a & Ea & Hok' & HF); [by left|]. exists a. simpl. by rewrite Ea.
Qed.

Lemma aggregate_by_callback c a rqs :
  filter (fun x => by_callback x = true) (cb_SetValue env 0 c a :: imap (fun i => request_action env c (1 + i)) rqs) =
  cb_SetValue env 0 c a :: imap (fun i => request_action env c (1 + i)) rqs.
Proof.
  assert (forall l, Forall (fun x => by_callback x = true) l -> filter (fun x => by_callback x = true) l = l) as Hall.
  { intros l HF. induction HF as [|x l Hx HF IH]; [done|]. by rewrite filter_cons_True, IH. }
  apply Hall. constructor; [done|]. apply Forall_lookup. intros i x Hx. rewrite list_lookup_imap in Hx.
  apply fmap_Some in Hx as (rq & _ & ->). by destruct rq.
Qed.

Lemma holds_update m f k0 a d :
  holds m f -> ok a -> Decode codec (Some d) = Ok (bx a) ->
  holds (<[k0 := d]> m) (fun k => if decide (k = k0) then Some a else f k).
Proof.
  intros Hh Ha Hd k Hk. destruct (decide (k = k0)) as [->|Hne].
  - rewrite lookup_insert_eq. by exists a.
  - rewrite lookup_insert_ne by done. by apply Hh.
Qed.

(** An accepted message is processed: the callback and [processMessage] return, and the processor is
    where the abstract application is. *)
Lemma processMessage_at m f out msg pp :
  app_group -> app_at m out pp -> holds m f -> accepted msg ->
  exists pp' m', processMessage run_cb msg pp = Ret (Returned None, pp') /\
    app_at m' (app_step (f, out) msg).2 pp' /\ holds m' (app_step (f, out) msg).1.
Proof.
  intros HG Hat Hh ([data Hdata] & Hk & cb & v & Hv & Hrun & Hu).
  pose proof HG as [Hgt Hcanc Hans]. pose proof Hat as [Hg Hcbs HF Ht Hs].
  unfold app_step. rewrite Hv. cbn [fst snd].
  unfold message_input in Hv. unfold processMessage. rewrite Hdata in *. rewrite Hg.
  destruct (mjoin _) as [cb'|] eqn:Ecb; [|done]. destruct (graph_codec _ gg) as [icodec|]; [|done].
  destruct (Decode icodec (Some data)) as [v'|]; [|done]. injection Hv as -> ->. unfold processValue. rewrite Hcbs, Ecb, Hg.
  destruct (newContext_ready msg (pp_defaultHeaders pp) (pp_table pp) (pp_joins pp) (pp_lookups pp))
    as (c & -> & Hi & Hd & Ect & Ecg & Ecm & Ecr & Ecs). cbn [mbind outcome_bind]. cbv zeta. rewrite Hrun.
  destruct (aggregate_acts m f msg cb v c) as (a & Ha & Hok & Hrq & ->); try done; [by rewrite Ect|].
  rewrite Ha, aggregate_by_callback. destruct (sc_roundtrip a Hok) as (d & Henc & Hdec).
  set (pp1 := pp_set_run (pp_table pp) (pp_ctxs pp ++ [c]) (pp_commits pp) (pp_errs pp) (pp_asyncErrs pp) (pp_rerr pp) pp).
  assert (in_callback m out (pp_ctxs pp) msg pp1) as Hin1.
  { split; [constructor; [done|done|by apply Forall_app; split; [|constructor]|done|]|by exists c].
    unfold pp_sent. simpl. rewrite (sent_last _ c []) by (by rewrite Ecs). by rewrite app_nil_r. }
  destruct (callback_step m (<[msg_key msg := d]> m) out [(tableName (gg_group gg), msg_key msg, Some d)] (pp_ctxs pp) msg
    (cb_SetValue env 0 c (bx a)) pp1 Hin1) as (pp2 & E2 & Hin2).
  { intros c1 Hi1 Hd1 Ht1 Hg1 Hm1. assert (ctx_Key c1 = msg_key msg) as Ek by (unfold ctx_Key; by rewrite Hm1).
    rewrite <- Ek. simpl. rewrite Hcanc. eapply (SetValue_total (mkTopicDef (tableName (gg_group gg)) (Some codec))); try done;
      [by rewrite Ek|by intros r Hr; eapply Hans|by rewrite Hg1|apply sc_not_nil]. }
  cbn [ctx_do_all]. rewrite E2.
  destruct (requests_step _ _ (pp_ctxs pp) msg c _ 1 pp2 HG Hin2 Hrq) as (pp3 & -> & Hin3). cbn [mbind outcome_bind].
  destruct (finish_step _ _ _ _ pp3 Hin3) as (pp4 & -> & Hat4).
  exists pp4, (<[msg_key msg := d]> m). split; [done|]. unfold encoded. rewrite Henc, <- app_assoc in *. split; [exact Hat4|].
  by apply holds_update.
Qed.

(** Resolving something of a context keeps the contents and emits nothing. *)
Lemma environment_step_total m a c :
  ctx_inv c -> run_at (cx_table c) m ->
  match a with AResolve _ r => resolution_ok r | ADeferred _ _ => True | _ => False end ->
  ctx_step a c = Blocked \/ exists c', ctx_step a c = Ret c' /\ ctx_inv c' /\ run_at (cx_table c') m /\ 
    em_rec <$> cx_sent c' = em_rec <$> cx_sent c.
Proof.
  intros Hi Ht Ha. destruct a as [| | | | | | |i r|i err]; try done; simpl.
  - unfold resolve. destruct (cx_promises c !! i) as [k|] eqn:Ek; [right|by left].
    destruct (run_pending_total k r (cx_set_outstanding (delete i (cx_promises c)) (cx_deferred c) (cx_next c)
      (cx_sent c) (cx_tracked c) c) m) as (c' & E & Hi' & _ & _ & Ht' & Es); [by apply resolve_mid with k|done|done|].
    exists c'. rewrite app_nil_r in Es. by split_and!.
  - right. unfold call_deferred. case_decide as Hin; [|by exists c].
    destruct (emitDone_ok err _ (deferred_mid i c Hi Hin)) as (c' & E & Hi' & _ & _ & Et & _).
    pose proof (tryCommit_frame _ _ _ E) as (_ & Es & _). exists c'. split_and!; [done|done|by rewrite Et|by rewrite Es].
Qed.

Lemma environment_at m out n a pp :
  app_at m out pp -> match a with AResolve _ r => resolution_ok r | ADeferred _ _ => True | _ => False end ->
  ctx_do n a pp = Blocked \/ exists pp', ctx_do n a pp = Ret pp' /\ app_at m out pp'.
Proof.
  intros [Hg Hcb HF Ht Hs] Ha. unfold ctx_do. destruct (pp_ctxs pp !! n) as [c|] eqn:Hn; [|by left].
  assert (ctx_inv c) as Hi by (rewrite Forall_lookup in HF; by apply (HF n)).
  destruct (environment_step_total m a (cx_set_rerr None (cx_set_table (pp_table pp) c))) as [E|(c' & E & Hi' & Ht' & Es)];
    [by destruct Hi|done|done|left|right]; cbn zeta; rewrite E; [done|]. eexists. split; [done|].
  constructor; simpl; [done|done|by apply Forall_insert|done|].
  rewrite <- Hs. unfold pp_sent. simpl. rewrite !concat_fmap_em. f_equal. rewrite list_fmap_insert, Es.
  apply list_insert_id. by rewrite list_lookup_fmap, Hn.
Qed.

(** The events of a run in which nothing ends the loop. *)
Definition app_event (e : run_event) : Prop :=
  match e with
  | RMsg msg => accepted msg
  | RResolve _ _ r => resolution_ok r
  | RDeferred _ _ _ => True
  | _ => False
  end.

Definition messages (evs : list run_event) : list ConsumerMessage :=
  omap (fun e => match e with RMsg msg => Some msg | _ => None end) evs.

(** Every run that can happen is one of the abstract application. *)
Lemma app_run m f out evs pp :
  app_group -> app_at m out pp -> holds m f -> Forall app_event evs -> pp_run run_cb evs pp <> Blocked ->
  exists pp' m', pp_run run_cb evs pp = Ret (None, pp') /\
    app_at m' (app_spec (messages evs) (f, out)).2 pp' /\ holds m' (app_spec (messages evs) (f, out)).1.
Proof.
  intros HG. revert m f out pp. induction evs as [|e evs IH]; intros m f out pp Hat Hh HF Hnb.
  { exists pp, m. by split_and!. }
  apply Forall_cons in HF as [He HF]. destruct e as [msg| | | |n i r|n i err]; try done; cbn [pp_run] in *.
  - destruct (processMessage_at m f out msg pp HG Hat Hh He) as (pp1 & m1 & E & Hat1 & Hh1). rewrite E in *.
    cbn [mbind outcome_bind] in *. destruct (IH m1 _ _ pp1 Hat1 Hh1 HF Hnb) as (pp' & m' & E' & H').
    exists pp', m'. split; [done|]. by rewrite <- surjective_pairing in H'.
  - destruct (environment_at m out n (AResolve i r) pp Hat He) as [E|(pp1 & E & Hat1)]; rewrite E in *; [done|].
    by apply (IH m f out pp1).
  - destruct (environment_at m out n (ADeferred i err) pp Hat He) as [E|(pp1 & E & Hat1)]; rewrite E in *; [done|].
    by apply (IH m f out pp1).
Qed.

(** The state of one key is the fold of the update over the messages of the key. *)
Definition key_update (old : option A) (msg : ConsumerMessage) : option A :=
  match message_input msg with
  | Some (cb, v) => match upd cb v (default zero old) with Some a => Some a | None => old end
  | None => old
  end.

Lemma app_spec_key msgs f out k :
  (app_spec msgs (f, out)).1 k = fold_left key_update (filter (fun msg => msg_key msg = k) msgs) (f k).
Proof.
  revert f out. induction msgs as [|msg msgs IH]; intros f out; [done|].
  rewrite app_spec_cons, (surjective_pairing (app_step (f, out) msg)), IH.
  assert ((app_step (f, out) msg).1 k = if decide (msg_key msg = k) then key_update (f k) msg else f k) as Hstep.
  { unfold app_step, key_update. simpl. destruct (message_input msg) as [[cb v]|]; [|by destruct (decide _)].
    destruct (decide (msg_key msg = k)) as [<-|Hne].
    - destruct (upd cb v _); [|done]. simpl. by rewrite decide_True.
    - destruct (upd cb v _); [|done]. simpl. by rewrite decide_False by congruence. }
  rewrite Hstep. destruct (decide (msg_key msg = k)) as [Hk|Hk];
    [by rewrite filter_cons_True by exact Hk|by rewrite filter_cons_False by exact Hk].
Qed.
End aggregates.

(** ** A partition that moves *)

(** The state that the value read for a key represents. *)
Definition state_of {A} (codec : Codec) (unb : value -> option A) (r : outcome (res bytes)) : option A :=
  match r with
  | Ret (Ok (Some d)) => match Decode codec (Some d) with Ok v => unb v | Err _ => None end
  | _ => None
  end.

Lemma holds_state {S I} `{StorageLaws S I} {A} codec unb bx ok `{!StateCodec codec unb bx ok} m (f : string -> option A) k :
  holds (S := S) codec bx ok m f -> ~ st_reserved (S := S) k -> state_of codec unb (Ret (Ok (m !! k))) = f k.
Proof.
  intros Hh Hk. specialize (Hh k Hk). unfold state_of. destruct (m !! k) as [d|]; [|done].
  destruct Hh as (a & _ & -> & ->). apply sc_unbox.
Qed.

(** Replaying the records of a processor of the group gives its table. *)
Lemma app_changelog {S I CB A} `{StorageLaws S I} `{!Iterator I} codec (unb : value -> option A) bx ok zero upd requests cenv
    (run_cb : CB -> value -> cbContext S CB -> list ctx_action) group edges gg m0 m' out' (pp pp' : PartitionProcessor S CB) evs records :
  DefineGroup group edges = Ret gg -> app_group codec cenv gg -> (forall v, Encode codec v <> Ok None) ->
  (forall cb v c, Forall action_live (filter (fun a => by_callback a = true) (run_cb cb v c))) ->
  app_at gg m0 [] pp -> Forall (app_event unb bx ok zero upd requests cenv run_cb gg) evs ->
  pp_ctxs pp = [] -> pp_run run_cb evs pp = Ret (None, pp') -> app_at gg m' out' pp' ->
  recorded (tableName group) (pp_sent pp') records -> replay records m0 = m'.
Proof.
  intros Hdef [Hgt Hcanc Hans] Hnn Hcb Hat Hevs Hnil Hrun Hat' Hrec.
  assert (pp_live run_cb pp) as Hlive.
  { constructor; rewrite ?(aa_graph _ _ _ _ Hat); [by eapply DefineGroup_named| |done].
    intros t0 c0 v Ht0 Hc0. rewrite Hgt in Ht0. injection Ht0 as <-. injection Hc0 as <-. apply Hnn. }
  assert (pp_in_step m0 pp) as Hin.
  { constructor; [|by rewrite Hnil]. unfold pp_sent. rewrite Hnil. apply run_at_table, (aa_table _ _ _ _ Hat). }
  assert (Forall (event_live (S := S)) evs) as Hlevs.
  { eapply Forall_impl; [exact Hevs|]. intros [msg| | | |? ? r|]; try done. by intros (_ & ? & _). }
  destruct (pp_run_in_step run_cb _ _ _ _ _ Hin Hlive Hlevs Hrun) as [(t & old & Htab & Hst & Hok & Hc) _].
  rewrite (aa_graph _ _ _ _ Hat'), (DefineGroup_group _ _ _ Hdef) in Hc. rewrite (replay_recorded _ _ _ _ Hrec), <- Hc.
  destruct (aa_table _ _ _ _ Hat') as (t2 & st2 & Et2 & _ & Est2 & _ & Ec2). congruence.
Qed.

(** The actions of a callback are those of a processor that is not shutting down. *)
Lemma cb_read_live {S I} `{StorageLaws S I} `{!Iterator I} {CB} env (r : outcome (value * cbContext S CB)) k :
  ce_cancelled env = false -> (forall v, Forall action_live (k v)) -> Forall action_live (cb_read env r k).
Proof.
  intros Hc Hk. unfold cb_read. destruct r as [[v c]| |]; [|by repeat constructor|done].
  apply Forall_app. split; [|done]. destruct (cx_rerr c); [by repeat constructor|done].
Qed.

Lemma callback_live (l : list ctx_action) :
  Forall action_live l -> Forall action_live (filter (fun a => by_callback a = true) l).
Proof. rewrite !Forall_forall. intros HF a [_ ?]%list_elem_of_filter. by apply HF. Qed.

(** ** The simplest application

    [examples/1-simplest/main.go]: a counter per key. *)
Module Simplest.

Definition topic : string := "example-stream".
Definition group : string := "example-group".

(** [val.(int64)] *)
Definition assert_int64 (v : value) : option Z := match v with VInt64 z => Some z | _ => None end.

(** [cb] of [runProcessor]. *)
Definition cb {S I CB} `{Storage S I} `{!Iterator I} (env : cb_env) (msg : value) (c : cbContext S CB) : list ctx_action :=
  cb_read env (ctx_Value (ce_cancelled env) c) (fun val =>
    match (if is_nil val then Some 0 else assert_int64 val) with
    | None => cb_panic ErrTypeAssertion
    | Some counter =>
        let counter := int64 (counter + 1) in
        [cb_SetValue env 0 c (VInt64 counter)]
    end).

Definition edges : list (Edge unit) := [Input topic (Some StringCodec) (Some tt); Persist (Some Int64Codec)].

Definition graph : GroupGraph unit := ret_or (empty_graph group) (DefineGroup group edges).

Lemma graph_defined : DefineGroup group edges = Ret graph.
Proof. apply ret_or_ok. vm_cast_no_check (eq_refl true). Qed.

(** The callback is an aggregate: each message counts one. *)
Definition count (_ : unit) (_ : value) (n : Z) : option Z := Some (int64 (n + 1)).
Definition no_requests {A} (_ : unit) (_ : value) (_ : A) (_ : string) : list request := [].

Lemma cb_aggregate {S I} `{Storage S I} `{!Iterator I} env v (c : cbContext S unit) :
  cb env v c = aggregate assert_int64 VInt64 0 count no_requests env tt v c.
Proof.
  unfold cb, aggregate, cb_read. destruct (ctx_Value _ c) as [[val c1]| |]; [|done|done]. f_equal.
  by destruct (if is_nil val then _ else _).
Qed.

Lemma cb_live {S I} `{StorageLaws S I} `{!Iterator I} env v (c : cbContext S unit) :
  ce_cancelled env = false -> (forall msg n r, ce_answer env msg n = Some r -> resolution_ok r) ->
  Forall action_live (cb env v c).
Proof.
  intros Hc Ha. unfold cb. apply cb_read_live; [done|]. intros val. destruct (if is_nil val then _ else _); [|by repeat constructor].
  repeat constructor; [done|]. intros r Hr. by eapply Ha.
Qed.

#[global] Instance counter_codec : StateCodec Int64Codec assert_int64 VInt64 in_int64.
Proof.
  split; [done|done|]. intros z Hz. exists (FormatInt z). split; [done|]. simpl. unfold Int64_Decode. simpl.
  by rewrite ParseInt_FormatInt.
Qed.

Lemma Int64Codec_not_nil v : Encode Int64Codec v <> Ok None.
Proof. by destruct v. Qed.
End Simplest.

(** ** Properties *)

(** C5. A stateful application refines its abstract one: a partition processor of a group whose callbacks
    update the value of the key and emit, whose table holds the given states and which has emitted the
    given records, processes every accepted message, however the messages interleave with the
    acknowledgements of what was emitted; the loop keeps running, and at the end the table holds the
    states of the abstract application, in which the state of a key is the fold of the update over the
    messages of that key, and exactly its records were emitted, in order.  ([Blocked] are the event
    lists that no run has: an acknowledgement of something that is not outstanding.) *)
Theorem stateful_app_refines {S I CB A} `{StorageLaws S I} `{!Iterator I}
    (codec : Codec) (unb : value -> option A) (bx : A -> value) (ok : A -> Prop) `{!StateCodec codec unb bx ok}
    (zero : A) (upd : CB -> value -> A -> option A) (requests : CB -> value -> A -> string -> list request) (cenv : cb_env)
    (run_cb : CB -> value -> cbContext S CB -> list ctx_action) (gg : GroupGraph CB)
    (m : gmap string string) (f : string -> option A) (out : list (string * string * bytes))
    (pp : PartitionProcessor S CB) (evs : list run_event) :
  app_group codec cenv gg -> app_at gg m out pp -> holds (S := S) codec bx ok m f ->
  Forall (app_event unb bx ok zero upd requests cenv run_cb gg) evs -> pp_run run_cb evs pp <> Blocked ->
  exists pp' m', pp_run run_cb evs pp = Ret (None, pp') /\ run_at (pp_table pp') m' /\
    let spec := app_spec codec bx zero upd requests gg (messages evs) (f, out) in
    em_rec <$> pp_sent pp' = spec.2 /\ holds (S := S) codec bx ok m' spec.1 /\
    forall k, spec.1 k = fold_left (key_update zero upd gg) (filter (fun msg => msg_key msg = k) (messages evs)) (f k).
Proof.
  intros HG Hat Hh Hevs Hnb.
  destruct (app_run codec unb bx ok zero upd requests cenv run_cb gg m f out evs pp HG Hat Hh Hevs Hnb)
    as (pp' & m' & Hrun & [_ _ _ Ht Hs] & Hh').
  exists pp', m'. split_and!; [done|done|]. cbv zeta. split_and!; [done|done|]. intros k. apply app_spec_key.
Qed.

(** C6. The state of an application survives a failover: when the processor of [stateful_app_refines],
    whose codec never encodes a value as nil and which is not shutting down, started with the table of
    the log, and Kafka appended what it emitted to the topic of the table, then a processor that takes
    the partition over, whose storage is right for every key without a record after the offset it
    stored and whose recovery is not disturbed (the topic is not empty if that offset is above 0),
    recovers a table in which the value of every key is the fold of the update over the messages of
    that key. *)
Theorem state_survives_failover {S I CB A} `{StorageLaws S I} `{!Iterator I} {S' I'} `{StorageLaws S' I'}
    (codec : Codec) (unb : value -> option A) (bx : A -> value) (ok : A -> Prop) `{!StateCodec codec unb bx ok}
    (zero : A) (upd : CB -> value -> A -> option A) (requests : CB -> value -> A -> string -> list request) (cenv : cb_env)
    (run_cb : CB -> value -> cbContext S CB -> list ctx_action)
    (group : string) (edges : list (Edge CB)) (gg : GroupGraph CB) (f : string -> option A)
    (pp : PartitionProcessor S CB) (evs : list run_event)
    (log records l : list ConsumerMessage) (oldest hwm : Z) (env : load_env) (p : PartitionTable S') (st : storageProxy S') :
  DefineGroup group edges = Ret gg -> app_group codec cenv gg -> (forall v, Encode codec v <> Ok None) ->
  (forall cb v c, Forall action_live (filter (fun a => by_callback a = true) (run_cb cb v c))) ->
  app_at gg (replay log ∅) [] pp -> pp_ctxs pp = [] -> holds (S := S) codec bx ok (replay log ∅) f ->
  Forall (app_event unb bx ok zero upd requests cenv run_cb gg) evs -> pp_run run_cb evs pp <> Blocked ->
  (forall pp', pp_run run_cb evs pp = Ret (None, pp') -> recorded (tableName group) (pp_sent pp') records) ->
  table_ready p st -> kafka_log (S := S') (log ++ records) l oldest hwm ->
  undisturbed env p l oldest hwm ->
  offsetNotStored <= stored_offset st < 2 ^ 63 - 1 -> ~ (0 < stored_offset st /\ hwm = 0) ->
  reflects (log ++ records) (stored_offset st) (st_contents (sp_Storage st)) ->
  exists p', load env true p = Ret (None, p') /\ CurrentState p' = PartitionRunning /\
    forall k, ~ st_reserved (S := S) k -> ~ st_reserved (S := S') k ->
      state_of codec unb (table_Get k p') =
        fold_left (key_update zero upd gg) (filter (fun msg => msg_key msg = k) (messages evs)) (f k).
Proof.
  intros Hdef HG Hnn Hcb Hat Hnil Hh Hevs Hnb Hrec Hready Hlog Hund Hrng Hgone Hcont.
  destruct (app_run codec unb bx ok zero upd requests cenv run_cb gg _ f [] evs pp HG Hat Hh Hevs Hnb)
    as (pp' & m' & Hrun & Hat' & Hh').
  pose proof (app_changelog codec unb bx ok zero upd requests cenv run_cb group edges gg _ m' _ pp pp' evs records
    Hdef HG Hnn Hcb Hat Hevs Hnil Hrun Hat' (Hrec pp' Hrun)) as Hrep.
  destruct (load_undisturbed env p st (log ++ records) l oldest hwm) as (p' & s' & Hl & Hrn & _ & _ & _ & Hg); try done.
  exists p'. split_and!; [done|done|]. intros k Hk Hk'. rewrite Hg by done. rewrite replay_app, Hrep.
  rewrite (holds_state codec unb bx ok m' _ k Hh' Hk). apply app_spec_key.
Qed.

(** Two clicks of one key in the simplest application, in a processor that starts with an empty log;
    another processor takes over. *)
Definition app_env : cb_env := mkCbEnv false (fun _ _ => None) (fun _ => false).

Definition app_proxy : storageProxy memory :=
  mkProxy NewMemory "example-group-table" 0 false (@DefaultUpdate _ _ (memory_Storage id)) None None.

Definition app_table (state : Signal) : PartitionTable memory :=
  mkPT "example-group-table" 0 state (Some app_proxy) (@DefaultUpdate _ _ (memory_Storage id))
    (newTableStats empty_heap).1 (newTableStats empty_heap).2 [] 0.

Definition running_signal : Signal :=
  mkSignal PartitionRunning [] [] (sig_allowed table_signal0) ∅ ∅ 0.

Definition app_pp : PartitionProcessor memory unit :=
  mkPP Simplest.graph (pp_callbackMap Simplest.graph) (Some (app_table running_signal)) ∅ ∅ NilIgnore None [] [] new_Errors false None.

Definition app_cb (_ : unit) (v : value) (c : cbContext memory unit) : list ctx_action :=
  Simplest.cb (H := memory_Storage id) app_env v c.

Definition click (o : Z) : ConsumerMessage := mkMsg "example-stream" 0 (Some "k"%string) (Some "x"%string) o [] None.

Definition app_evs : list run_event := [RMsg (click 0); RMsg (click 1); RResolve 1 0 (Some (mkPMsg 0 1), None)].

Lemma app_group_ok : app_group Int64Codec app_env Simplest.graph.
Proof.
  constructor; [|done|done].
  vm_cast_no_check (eq_refl (Some (mkTopicDef "example-group-table" (Some Int64Codec)))).
Qed.

Lemma click_input o : message_input Simplest.graph (click o) = Some (tt, VString "x").
Proof. vm_cast_no_check (eq_refl (Some (tt, VString "x"))). Qed.

Lemma click_accepted o :
  accepted (SL := memory_Laws id) Simplest.assert_int64 VInt64 in_int64 0 Simplest.count Simplest.no_requests app_env app_cb
    Simplest.graph (click o).
Proof.
  split_and!; [done|by intros []|]. exists tt, (VString "x"). split_and!; [apply click_input| |].
  - intros c. apply (Simplest.cb_aggregate (H := memory_Storage id)).
  - intros a _. exists (int64 (a + 1)). split_and!; [done|apply int64_range|done].
Qed.

Lemma app_evs_ok :
  Forall (app_event (SL := memory_Laws id) Simplest.assert_int64 VInt64 in_int64 0 Simplest.count Simplest.no_requests app_env
    app_cb Simplest.graph) app_evs.
Proof.
  constructor; [apply click_accepted|]. constructor; [apply click_accepted|]. constructor; [|done].
  unfold app_event, resolution_ok, in_int64. simpl. lia.
Qed.

Lemma app_pp_at : app_at (SL := memory_Laws id) Simplest.graph ∅ [] app_pp.
Proof.
  constructor; [done|done|done| |done]. exists (app_table running_signal), app_proxy.
  split_and!; [done|done|done|apply NewMemory_wf|done].
Qed.

Lemma holds_empty : holds (SL := memory_Laws id) Int64Codec VInt64 in_int64 ∅ (fun _ => None).
Proof. intros k _. by rewrite lookup_empty. Qed.

Definition app_end : PartitionProcessor memory unit :=
  (ret_or (None, app_pp) (pp_run (ST := memory_Storage id) app_cb app_evs app_pp)).2.

Lemma app_runs : pp_run (ST := memory_Storage id) app_cb app_evs app_pp = Ret (None, app_end).
Proof. apply ret_or_pair; [vm_cast_no_check (eq_refl true)|vm_cast_no_check (eq_refl (None : option (option error)))]. Qed.

Lemma stateful_app_refines_witness :
  exists pp' m', pp_run (ST := memory_Storage id) app_cb app_evs app_pp = Ret (None, pp') /\
    holds (SL := memory_Laws id) Int64Codec VInt64 in_int64 m'
      (app_spec Int64Codec VInt64 0 Simplest.count Simplest.no_requests Simplest.graph (messages app_evs) (fun _ => None, [])).1.
Proof.
  destruct (stateful_app_refines (H := memory_Storage id) (H0 := memory_Laws id) Int64Codec Simplest.assert_int64 VInt64 in_int64
    0 Simplest.count Simplest.no_requests app_env app_cb Simplest.graph ∅ (fun _ => None) [] app_pp app_evs)
    as (pp' & m' & Hrun & _ & _ & Hh & _).
  - exact app_group_ok.
  - exact app_pp_at.
  - exact holds_empty.
  - exact app_evs_ok.
  - rewrite app_runs. discriminate.
  - exists pp', m'. split; [exact Hrun|exact Hh].
Defined.

Definition app_records : list ConsumerMessage :=
  [mkMsg "example-group-table" 0 (Some "k"%string) (Some "1"%string) 0 [] None;
   mkMsg "example-group-table" 0 (Some "k"%string) (Some "2"%string) 1 [] None].

Definition takeover_env : load_env := kafka_env "example-group-table" 0 app_records 0 2.

Lemma app_kafka_log : kafka_log (SL := memory_Laws id) ([] ++ app_records) app_records 0 2.
Proof.
  assert (forall r, r ∈ app_records -> cm_Offset r = 0 \/ cm_Offset r = 1) as Ho.
  { intros r [-> | ->%list_elem_of_singleton]%elem_of_cons; [by left|by right]. }
  constructor.
  - by repeat constructor.
  - split; [done|]. intros l1 r l2 E _. simpl in E. rewrite E. set_solver.
  - intros r Hr. destruct (Ho r Hr); lia.
  - split; [lia|]. intros r Hr. destruct (Ho r Hr); lia.
  - lia.
  - intros _. eexists. split; [by right; left|done].
  - intros r _ [].
Qed.

Lemma state_survives_failover_witness :
  exists p', load (ST := memory_Storage id) takeover_env true (app_table table_signal0) = Ret (None, p') /\
    state_of Int64Codec Simplest.assert_int64 (table_Get (ST := memory_Storage id) "k" p') =
      fold_left (key_update 0 Simplest.count Simplest.graph) (filter (fun msg => msg_key msg = "k"%string) (messages app_evs)) None.
Proof.
  destruct (state_survives_failover (H := memory_Storage id) (H0 := memory_Laws id) (H2 := memory_Laws id)
    Int64Codec Simplest.assert_int64 VInt64 in_int64 0 Simplest.count Simplest.no_requests app_env app_cb
    Simplest.group Simplest.edges Simplest.graph (fun _ => None) app_pp app_evs [] app_records app_records 0 2
    takeover_env (app_table table_signal0) app_proxy) as (p' & Hl & _ & Hg).
  - exact Simplest.graph_defined.
  - exact app_group_ok.
  - exact Simplest.Int64Codec_not_nil.
  - intros cb v c. apply callback_live. apply Simplest.cb_live; [reflexivity|discriminate].
  - exact app_pp_at.
  - reflexivity.
  - exact holds_empty.
  - exact app_evs_ok.
  - rewrite app_runs. discriminate.
  - intros pp' E. rewrite <- (ret_pair_inj _ _ _ _ (eq_trans (eq_sym app_runs) E)).
    vm_cast_no_check (eq_refl [("k"%string, Some "1"%string); ("k"%string, Some "2"%string)]).
  - constructor; [done|done|apply NewMemory_wf|done|apply table_signal0_ok].
  - exact app_kafka_log.
  - apply (kafka_env_undisturbed (app_table table_signal0)).
  - vm_compute. by split.
  - by intros [_ ?].
  - apply reflects_empty. by intros r [-> | ->%list_elem_of_singleton]%elem_of_cons.
  - exists p'. split; [exact Hl|]. apply Hg; by intros [].
Defined.
