(* ===== verification/Messaging.v ===== *)
(** * The messaging service

    [examples/3-messaging]: users send each other messages.  The filter drops the messages of blocked
    users and translates the others, the collector keeps the latest messages each user received, the
    detector counts what users send and receive and reports spammers, the blocker keeps who is blocked,
    and a web service sends messages and shows them. *)
From Stdlib Require Import ZArith QArith Lia Lqa Ascii.
From stdpp Require Import countable base gmap strings list.
From S2P Require Import Prelude Multierr Signal Codec Json Float64 Storage Memory MergeIterator Headers Stats Proxy PartitionTable.
From S2P Require Import Recovery Promise Emitter Graph View Context PartitionProcessor Failover Apps.
Open Scope Z_scope.

(** ** Messages: [message.go] *)

Definition SentStream : string := "message_sent".
Definition ReceivedStream : string := "message_received".

Record Message : Type := mkMessage { From : string; To : string; Content : string }.

#[global] Instance Message_eq_dec : EqDecision Message.
Proof. solve_decision. Defined.
#[global] Instance Message_countable : Countable Message.
Proof.
  refine (inj_countable' (fun m => (From m, To m, Content m)) (fun '(f, t, c) => mkMessage f t c) _). by intros [].
Defined.

Definition message_value : Message -> value := box "*messaging.Message".
Definition assert_message : value -> option Message := unbox "*messaging.Message".

Definition message_json (m : Message) : json :=
  JObj [("From"%string, JStr (From m)); ("To"%string, JStr (To m)); ("Content"%string, JStr (Content m))].
Definition message_fields : fields Message :=
  [("From"%string, fun j m => s ← read_string j (From m); Ok (mkMessage s (To m) (Content m)));
   ("To"%string, fun j m => s ← read_string j (To m); Ok (mkMessage (From m) s (Content m)));
   ("Content"%string, fun j m => s ← read_string j (Content m); Ok (mkMessage (From m) (To m) s))].
Definition zero_message : Message := mkMessage "" "" "".

Definition MessageCodec_Encode : marshaller -> value -> res bytes := json_Encode assert_message message_json.
Definition MessageCodec_Decode (data : bytes) : res value :=
  match Unmarshal (fun j => read_struct message_fields j zero_message) data with
  | Ok m => Ok (message_value m)
  | Err e => Err e
  end.
Definition MessageCodec (other : marshaller) : Codec := mkCodec (MessageCodec_Encode other) MessageCodec_Decode.

(** A slice of messages is nil or has elements. *)
Definition messages_value : option (list Message) -> value := box "[]messaging.Message".
Definition assert_messages : value -> option (option (list Message)) := unbox "[]messaging.Message".

Definition messages_json (ml : option (list Message)) : json :=
  match ml with None => JNull | Some l => JArr (map message_json l) end.

Definition MessageListCodec_Encode : marshaller -> value -> res bytes := json_Encode assert_messages messages_json.
Definition MessageListCodec_Decode (data : bytes) : res value :=
  match Unmarshal (read_slice (read_struct message_fields) zero_message) data with
  | Ok m => Ok (messages_value m)
  | Err e => Err e
  end.
Definition MessageListCodec (other : marshaller) : Codec := mkCodec (MessageListCodec_Encode other) MessageListCodec_Decode.

(** ** The blocker: [blocker/blocker.go] *)

Module Blocker.
Definition group : string := "blocker".
Definition Table : string := tableName group.
Definition Stream : string := "block_user".

Record BlockEvent : Type := mkBlockEvent { Unblock : bool }.
Record BlockValue : Type := mkBlockValue { Blocked : bool }.

#[global] Instance BlockEvent_eq_dec : EqDecision BlockEvent.
Proof. solve_decision. Defined.
#[global] Instance BlockEvent_countable : Countable BlockEvent.
Proof. refine (inj_countable' Unblock mkBlockEvent _). by intros []. Defined.
#[global] Instance BlockValue_eq_dec : EqDecision BlockValue.
Proof. solve_decision. Defined.
#[global] Instance BlockValue_countable : Countable BlockValue.
Proof. refine (inj_countable' Blocked mkBlockValue _). by intros []. Defined.

Definition event_value : BlockEvent -> value := box "*blocker.BlockEvent".
Definition assert_event : value -> option BlockEvent := unbox "*blocker.BlockEvent".
Definition event_json (e : BlockEvent) : json := JObj [("Unblock"%string, JBool (Unblock e))].
Definition event_fields : fields BlockEvent := [("Unblock"%string, fun j e => b ← read_bool j (Unblock e); Ok (mkBlockEvent b))].

Definition BlockEventCodec_Encode : marshaller -> value -> res bytes := json_Encode assert_event event_json.
Definition BlockEventCodec_Decode (data : bytes) : res value :=
  match Unmarshal (fun j => read_struct event_fields j (mkBlockEvent false)) data with
  | Ok m => Ok (event_value m)
  | Err e => Err e
  end.
Definition BlockEventCodec (other : marshaller) : Codec := mkCodec (BlockEventCodec_Encode other) BlockEventCodec_Decode.

Definition block_value : BlockValue -> value := box "*blocker.BlockValue".
Definition assert_block : value -> option BlockValue := unbox "*blocker.BlockValue".
Definition block_json (b : BlockValue) : json := JObj [("Blocked"%string, JBool (Blocked b))].
Definition block_fields : fields BlockValue := [("Blocked"%string, fun j v => b ← read_bool j (Blocked v); Ok (mkBlockValue b))].

Definition BlockValueCodec_Encode : marshaller -> value -> res bytes := json_Encode assert_block block_json.
Definition BlockValueCodec_Decode (data : bytes) : res value :=
  match Unmarshal (fun j => read_struct block_fields j (mkBlockValue false)) data with
  | Ok m => Ok (block_value m)
  | Err e => Err e
  end.
Definition BlockValueCodec (other : marshaller) : Codec := mkCodec (BlockValueCodec_Encode other) BlockValueCodec_Decode.

(** The callback. *)
Definition block {S I CB} `{Storage S I} `{!Iterator I} (env : cb_env) (msg : value) (c : cbContext S CB) : list ctx_action :=
  cb_read env (ctx_Value (ce_cancelled env) c) (fun v =>
    match (if is_nil v then Some (mkBlockValue false) else assert_block v) with
    | None => cb_panic ErrTypeAssertion
    | Some s =>
        match assert_event msg with
        | None => cb_panic ErrTypeAssertion
        | Some e =>
            let s := if Unblock e then mkBlockValue false else mkBlockValue true in
            [cb_SetValue env 0 c (block_value s)]
        end
    end).

(** The edges of [Run]. *)
Definition blocker_edges (other : marshaller) : list (Edge unit) :=
  [Input Stream (Some (BlockEventCodec other)) (Some tt); Persist (Some (BlockValueCodec other))].
End Blocker.

(** ** The collector: [collector/collector.go] *)

Module Collector.
Definition maxMessages : nat := 5.
Definition group : string := "collector".
Definition Table : string := tableName group.

(** The [MessageListCodec] of the collector repeats that of [message.go]. *)
Definition FeedCodec_Encode : marshaller -> value -> res bytes := json_Encode assert_messages messages_json.
Definition FeedCodec_Decode (data : bytes) : res value :=
  match Unmarshal (read_slice (read_struct message_fields) zero_message) data with
  | Ok m => Ok (messages_value m)
  | Err e => Err e
  end.
Definition FeedCodec (other : marshaller) : Codec := mkCodec (FeedCodec_Encode other) FeedCodec_Decode.

Definition collect {S I CB} `{Storage S I} `{!Iterator I} (env : cb_env) (msg : value) (c : cbContext S CB) : list ctx_action :=
  cb_read env (ctx_Value (ce_cancelled env) c) (fun v =>
    match (if is_nil v then Some None else assert_messages v) with
    | None => cb_panic ErrTypeAssertion
    | Some ml =>
        match assert_message msg with
        | None => cb_panic ErrTypeAssertion
        | Some m =>
            let ml := default [] ml ++ [m] in
            let ml := if (maxMessages <? length ml)%nat then drop (length ml - maxMessages) ml else ml in
            [cb_SetValue env 0 c (messages_value (Some ml))]
        end
    end).

Definition collector_edges (other : marshaller) : list (Edge unit) :=
  [Input ReceivedStream (Some (MessageCodec other)) (Some tt); Persist (Some (FeedCodec other))].
End Collector.

(** ** The detector: [detector/detector.go] *)

Module Detector.
Definition minMessages : Q := 200.
Definition maxRate : Q := 1 # 2.
Definition group : string := "detector".

Record Counters : Type := mkCounters { Sent : Z; Received : Z }.

#[global] Instance Counters_eq_dec : EqDecision Counters.
Proof. solve_decision. Defined.
#[global] Instance Counters_countable : Countable Counters.
Proof. refine (inj_countable' (fun c => (Sent c, Received c)) (fun '(s, r) => mkCounters s r) _). by intros []. Defined.

Definition counters_value : Counters -> value := box "*detector.Counters".
Definition assert_counters : value -> option Counters := unbox "*detector.Counters".
Definition counters_json (c : Counters) : json :=
  JObj [("Sent"%string, JNum (FormatInt (Sent c))); ("Received"%string, JNum (FormatInt (Received c)))].
Definition counters_fields : fields Counters :=
  [("Sent"%string, fun j c => z ← read_int j (Sent c); Ok (mkCounters z (Received c)));
   ("Received"%string, fun j c => z ← read_int j (Received c); Ok (mkCounters (Sent c) z))].

Definition CountersCodec_Encode : marshaller -> value -> res bytes := json_Encode assert_counters counters_json.
Definition CountersCodec_Decode (data : bytes) : res value :=
  match Unmarshal (fun j => read_struct counters_fields j (mkCounters 0 0)) data with
  | Ok m => Ok (counters_value m)
  | Err e => Err e
  end.
Definition CountersCodec (other : marshaller) : Codec := mkCodec (CountersCodec_Encode other) CountersCodec_Decode.

Definition getValue {S I CB} `{Storage S I} `{!Iterator I} (env : cb_env) (c : cbContext S CB) (k : Counters -> list ctx_action) :
  list ctx_action :=
  cb_read env (ctx_Value (ce_cancelled env) c) (fun v =>
    if is_nil v then k (mkCounters 0 0)
    else match assert_counters v with Some cs => k cs | None => cb_panic ErrTypeAssertion end).

(** float64 of a number of either sign. *)
Definition signed_float64 (x : Q) : Q := if Qle_bool 0 x then float64 x else - float64 (- x).

(** The total of zero messages gives the rate NaN, which is not compared. *)
Definition detectSpammer (c : Counters) : bool :=
  let total := signed_float64 (inject_Z (int64 (Sent c + Received c))) in
  let rate := signed_float64 (signed_float64 (inject_Z (Sent c)) / total) in
  Qle_bool minMessages total && Qle_bool maxRate rate.

(** The two callbacks of [Run]: for the input and for the loop. *)
Inductive callback : Type := OnSent | OnLoop.

(** The report of a spammer, if the counters make one. *)
Definition report {S CB} (env : cb_env) (c : cbContext S CB) (cs : Counters) : list ctx_action :=
  if detectSpammer cs then [cb_Emit env 1 c Blocker.Stream (ctx_Key c) (Blocker.event_value (Blocker.mkBlockEvent false))] else [].

Definition on_sent {S I CB} `{Storage S I} `{!Iterator I} (env : cb_env) (msg : value) (c : cbContext S CB) : list ctx_action :=
  getValue env c (fun cs =>
    let cs := mkCounters (int64 (Sent cs + 1)) (Received cs) in
    cb_SetValue env 0 c (counters_value cs) :: report env c cs ++
    match assert_message msg with
    | None => cb_panic ErrTypeAssertion
    | Some m => [cb_Loopback env (1 + length (report env c cs)) c (To m) msg]
    end).

Definition on_loop {S I CB} `{Storage S I} `{!Iterator I} (env : cb_env) (msg : value) (c : cbContext S CB) : list ctx_action :=
  getValue env c (fun cs =>
    let cs := mkCounters (Sent cs) (int64 (Received cs + 1)) in
    cb_SetValue env 0 c (counters_value cs) :: report env c cs).

Definition run_callback {S I CB} `{Storage S I} `{!Iterator I} (env : cb_env) (cb : callback) : value -> cbContext S CB -> list ctx_action :=
  match cb with OnSent => on_sent env | OnLoop => on_loop env end.

Definition detector_edges (other : marshaller) : list (Edge callback) :=
  [Input SentStream (Some (MessageCodec other)) (Some OnSent); Loop (Some (MessageCodec other)) (Some OnLoop);
   Output Blocker.Stream (Some (Blocker.BlockEventCodec other)); Persist (Some (CountersCodec other))].
End Detector.

(** ** The translator: [translator/translator.go] *)

Module Translator.
Definition group : string := "translator".
Definition Table : string := tableName group.
Definition Stream : string := "translate-word".

(** The codec embeds [codec.String]. *)
Definition ValueCodec : Codec := StringCodec.

(** [msg.(string)] *)
Definition assert_string (v : value) : option string := match v with VString s => Some s | _ => None end.

(** [translate] *)
Definition store_word {S CB} (env : cb_env) (msg : value) (c : cbContext S CB) : list ctx_action :=
  match assert_string msg with
  | Some s => [cb_SetValue env 0 c (VString s)]
  | None => cb_panic ErrTypeAssertion
  end.

Definition translator_edges : list (Edge unit) := [Input Stream (Some ValueCodec) (Some tt); Persist (Some ValueCodec)].
End Translator.

(** ** The filter: [filter/filter.go] *)

(** [strings.Split(s, " ")] and [strings.Join(words, " ")]. *)
Fixpoint split_words (s : string) : list string :=
  match s with
  | EmptyString => [EmptyString]
  | String c s =>
      if Ascii.eqb c " " then EmptyString :: split_words s
      else match split_words s with w :: ws => String c w :: ws | [] => [String c EmptyString] end
  end.

Fixpoint join_words (words : list string) : string :=
  match words with
  | [] => EmptyString
  | [w] => w
  | w :: ws => w +:+ String " " (join_words ws)
  end.

Module Filter.
Definition group : string := "message_filter".

(** [shouldDrop]: whether the joined value blocks the sender. *)
Definition shouldDrop {S I CB} `{Storage S I} `{!Iterator I} (env : cb_env) (c : cbContext S CB) (k : bool -> list ctx_action) :
  list ctx_action :=
  cb_read env (ctx_Join (ce_cancelled env) Blocker.Table c) (fun v =>
    if is_nil v then k false
    else match Blocker.assert_block v with Some b => k (Blocker.Blocked b) | None => cb_panic ErrTypeAssertion end).

(** The loop of [translate] over the words. *)
Fixpoint translate_words {S I CB} `{Storage S I} `{!Iterator I} (env : cb_env) (c : cbContext S CB) (words : list string)
    (k : list string -> list ctx_action) : list ctx_action :=
  match words with
  | [] => k []
  | w :: words =>
      cb_read env (ctx_Lookup (ce_cancelled env) Translator.Table w c) (fun tw =>
        match (if is_nil tw then Some w else Translator.assert_string tw) with
        | Some w => translate_words env c words (fun ws => k (w :: ws))
        | None => cb_panic ErrTypeAssertion
        end)
  end.

Definition translate {S I CB} `{Storage S I} `{!Iterator I} (env : cb_env) (c : cbContext S CB) (m : Message)
    (k : Message -> list ctx_action) : list ctx_action :=
  translate_words env c (split_words (Content m)) (fun words => k (mkMessage (From m) (To m) (join_words words))).

Definition filter {S I CB} `{Storage S I} `{!Iterator I} (env : cb_env) (msg : value) (c : cbContext S CB) : list ctx_action :=
  shouldDrop env c (fun drop =>
    if drop then []
    else match assert_message msg with
         | None => cb_panic ErrTypeAssertion
         | Some m => translate env c m (fun m => [cb_Emit env 0 c ReceivedStream (To m) (message_value m)])
         end).

Definition filter_edges (other : marshaller) : list (Edge unit) :=
  [Input SentStream (Some (MessageCodec other)) (Some tt); Output ReceivedStream (Some (MessageCodec other));
   Join Blocker.Table (Some (Blocker.BlockValueCodec other)); Lookup Translator.Table (Some Translator.ValueCodec)].
End Filter.

(** ** The web service: [service/service.go] *)

Module Service.
(** What the handlers write, before it is formatted. *)
Inductive response : Type :=
| RespError (e : error)
| RespSent (m : Message)
| RespNotFound (user : string)
| RespFeed (user : string) (lines : list (nat * string * string)).

(** The handler that [send] returns: [body] is what reading the request gave, [user] its variable, [r]
    how the producer answers. *)
Definition send (stream : string) (body : res bytes) (user : string) (r : ProducerMessage + error) (emitter : Emitter)
  : outcome (response * Emitter) :=
  match body with
  | Err e => Ret (RespError e, emitter)
  | Ok b =>
      match Unmarshal (fun j => read_struct message_fields j zero_message) b with
      | Err e => Ret (RespError e, emitter)
      | Ok m =>
          let m := mkMessage user (To m) (Content m) in
          let key := if String.eqb stream ReceivedStream then To m else From m in
          '(err, emitter) ← EmitSync key (message_value m) r emitter;
          Ret (match err with Some e => RespError e | None => RespSent m end, emitter)
      end
  end.

(** The handler that [feed] returns: the error of the view is dropped, the value is nil then. *)
Definition feed {S I} `{Storage S I} (view : View S) (user : string) : outcome response :=
  r ← view_Get user view;
  let val := match r with Ok v => v | Err _ => VNil end in
  if is_nil val then Ret (RespNotFound user)
  else match assert_messages val with
       | None => Panic ErrTypeAssertion
       | Some messages =>
           Ret (RespFeed user (imap (fun i m => (i, From m, Content m)) (default [] messages)))
       end.
End Service.

(** Whatever the body claims, the message that is sent comes from the user of the request. *)
Lemma send_sender stream body user r e m e' : Service.send stream body user r e = Ret (Service.RespSent m, e') -> From m = user.
Proof.
  unfold Service.send. destruct body as [b|]; [|done]. destruct (Unmarshal _ b) as [m0|]; [|done]. cbv zeta.
  destruct (EmitSync _ _ r e) as [[[err|] e1]| |]; [done| |done|done]. by intros [= <- _].
Qed.

(** The feed lists the messages of the view in order, or says that there are none. *)
Lemma feed_lists {S I} `{Storage S I} (view : View S) user l :
  view_Get user view = Ret (Ok (messages_value (Some l))) ->
  Service.feed view user = Ret (Service.RespFeed user (imap (fun i m => (i, From m, Content m)) l)).
Proof.
  intros E. unfold Service.feed. rewrite E. cbn [mbind outcome_bind]. change (is_nil (messages_value (Some l))) with false.
  cbv iota zeta. unfold assert_messages, messages_value. by rewrite unbox_box.
Qed.

(** ** Round trips *)

Definition message_ok (m : Message) : Prop :=
  utf8_valid 0 (From m) = true /\ utf8_valid 0 (To m) = true /\ utf8_valid 0 (Content m) = true.

Lemma message_json_ok m : message_ok m -> json_ok (message_json m).
Proof. intros (? & ? & ?). constructor. repeat constructor; done. Qed.

Lemma read_message_json m : read_struct message_fields (message_json m) zero_message = Ok m.
Proof. by destruct m. Qed.

Lemma messages_json_ok l : Forall message_ok l -> json_ok (messages_json (Some l)).
Proof. intros HF. constructor. rewrite Forall_map. eapply Forall_impl; [exact HF|]. apply message_json_ok. Qed.

Lemma read_messages_json l : read_slice (read_struct message_fields) zero_message (messages_json (Some l)) = Ok (Some l).
Proof.
  simpl. assert (read_all_elements (read_struct message_fields) zero_message (map message_json l) = Ok l) as E; [|by rewrite E].
  induction l as [|m l IH]; [done|]. cbn [map read_all_elements]. rewrite read_message_json. cbn [mbind res_bind]. by rewrite IH.
Qed.

(** A message that was read has valid strings. *)
Lemma read_string_valid j s s' : json_utf8 j -> utf8_valid 0 s = true -> read_string j s = Ok s' -> utf8_valid 0 s' = true.
Proof. intros [| | |str Hstr| |] Hs E; try discriminate E; by injection E as <-. Qed.

Lemma decoded_message_ok data v : MessageCodec_Decode data = Ok v -> exists m, v = message_value m /\ message_ok m.
Proof.
  unfold MessageCodec_Decode. destruct (Unmarshal _ data) as [m|] eqn:E; [|done]. intros [= <-]. exists m. split; [done|].
  apply Unmarshal_Ok in E as (j & Hj & Hr). revert Hr. apply read_struct_inv; [|done|by repeat split].
  unfold message_fields. csimpl. rewrite !Forall_cons. split_and!; [..|done]; intros j' a a' Hj' (H1 & H2 & H3) H; simpl in H;
    (destruct (read_string j' _) as [s|] eqn:Es; [|done]); injection H as <-; apply read_string_valid in Es; repeat split; done.
Qed.

Lemma MessageCodec_trip other m : message_ok m -> codec_trip (MessageCodec other) message_value m.
Proof.
  intros Hm. destruct (json_trip "*messaging.Message" message_json (fun j => read_struct message_fields j zero_message) other m)
    as [He Hd]; [by apply message_json_ok|apply read_message_json|].
  exists (print (message_json m)). split; [exact He|]. cbv beta iota delta [Decode MessageCodec MessageCodec_Decode]. by rewrite Hd.
Qed.

(** The strings of the messages of a slice are valid. *)
Definition messages_ok (ml : option (list Message)) : Prop := Forall message_ok (default [] ml).

Lemma MessageListCodec_trip other ml : messages_ok ml -> codec_trip (Collector.FeedCodec other) messages_value ml.
Proof.
  intros Hm. destruct (json_trip "[]messaging.Message" messages_json (read_slice (read_struct message_fields) zero_message) other ml)
    as [He Hd].
  - destruct ml; [by apply messages_json_ok|constructor].
  - destruct ml; [apply read_messages_json|done].
  - exists (print (messages_json ml)). split; [exact He|]. cbv beta iota delta [Decode Collector.FeedCodec Collector.FeedCodec_Decode]. by rewrite Hd.
Qed.

Lemma BlockEventCodec_trip other e : codec_trip (Blocker.BlockEventCodec other) Blocker.event_value e.
Proof.
  destruct (json_trip "*blocker.BlockEvent" Blocker.event_json
    (fun j => read_struct Blocker.event_fields j (Blocker.mkBlockEvent false)) other e) as [He Hd].
  - by repeat constructor.
  - by destruct e.
  - exists (print (Blocker.event_json e)). split; [exact He|]. cbv beta iota delta [Decode Blocker.BlockEventCodec Blocker.BlockEventCodec_Decode]. by rewrite Hd.
Qed.

Lemma BlockValueCodec_trip other b : codec_trip (Blocker.BlockValueCodec other) Blocker.block_value b.
Proof.
  destruct (json_trip "*blocker.BlockValue" Blocker.block_json
    (fun j => read_struct Blocker.block_fields j (Blocker.mkBlockValue false)) other b) as [He Hd].
  - by repeat constructor.
  - by destruct b.
  - exists (print (Blocker.block_json b)). split; [exact He|]. cbv beta iota delta [Decode Blocker.BlockValueCodec Blocker.BlockValueCodec_Decode]. by rewrite Hd.
Qed.

Definition counters_ok (c : Detector.Counters) : Prop := in_int64 (Detector.Sent c) /\ in_int64 (Detector.Received c).

Lemma CountersCodec_trip other c : counters_ok c -> codec_trip (Detector.CountersCodec other) Detector.counters_value c.
Proof.
  intros [Hs Hr]. destruct (json_trip "*detector.Counters" Detector.counters_json
    (fun j => read_struct Detector.counters_fields j (Detector.mkCounters 0 0)) other c) as [He Hd].
  - constructor. repeat constructor; by apply FormatInt_literal.
  - cbn. rewrite ParseInt_FormatInt by done. cbn. rewrite ParseInt_FormatInt by done. by destruct c.
  - exists (print (Detector.counters_json c)). split; [exact He|]. cbv beta iota delta [Decode Detector.CountersCodec Detector.CountersCodec_Decode]. by rewrite Hd.
Qed.

#[global] Instance block_state other :
  StateCodec (Blocker.BlockValueCodec other) Blocker.assert_block Blocker.block_value (fun _ => True).
Proof. split; [intros a; apply unbox_box|done|]. intros a _. apply BlockValueCodec_trip. Qed.
#[global] Instance messages_state other :
  StateCodec (Collector.FeedCodec other) assert_messages messages_value messages_ok.
Proof. split; [intros a; apply unbox_box|done|]. intros a. apply MessageListCodec_trip. Qed.
#[global] Instance counters_state other :
  StateCodec (Detector.CountersCodec other) Detector.assert_counters Detector.counters_value counters_ok.
Proof. split; [intros a; apply unbox_box|done|]. intros a. apply CountersCodec_trip. Qed.

(** ** The groups *)

Section groups.
Variable other : marshaller.

Definition blocker_graph : GroupGraph unit := ret_or (empty_graph Blocker.group) (DefineGroup Blocker.group (Blocker.blocker_edges other)).
Definition collector_graph : GroupGraph unit :=
  ret_or (empty_graph Collector.group) (DefineGroup Collector.group (Collector.collector_edges other)).
Definition detector_graph : GroupGraph Detector.callback :=
  ret_or (empty_graph Detector.group) (DefineGroup Detector.group (Detector.detector_edges other)).

Lemma blocker_defined : DefineGroup Blocker.group (Blocker.blocker_edges other) = Ret blocker_graph.
Proof. apply ret_or_ok. vm_cast_no_check (eq_refl true). Qed.
Lemma collector_defined : DefineGroup Collector.group (Collector.collector_edges other) = Ret collector_graph.
Proof. apply ret_or_ok. vm_cast_no_check (eq_refl true). Qed.
Lemma detector_defined : DefineGroup Detector.group (Detector.detector_edges other) = Ret detector_graph.
Proof. apply ret_or_ok. vm_cast_no_check (eq_refl true). Qed.

Lemma blocker_table : GroupTable blocker_graph = Some (mkTopicDef (tableName (gg_group blocker_graph)) (Some (Blocker.BlockValueCodec other))).
Proof. vm_cast_no_check (eq_refl (Some (mkTopicDef "blocker-table" (Some (Blocker.BlockValueCodec other))))). Qed.
Lemma collector_table :
  GroupTable collector_graph = Some (mkTopicDef (tableName (gg_group collector_graph)) (Some (Collector.FeedCodec other))).
Proof. vm_cast_no_check (eq_refl (Some (mkTopicDef "collector-table" (Some (Collector.FeedCodec other))))). Qed.
Lemma detector_table :
  GroupTable detector_graph = Some (mkTopicDef (tableName (gg_group detector_graph)) (Some (Detector.CountersCodec other))).
Proof. vm_cast_no_check (eq_refl (Some (mkTopicDef "detector-table" (Some (Detector.CountersCodec other))))). Qed.

Lemma blocker_input :
  mjoin (pp_callbackMap blocker_graph !! Blocker.Stream) = Some tt /\
  graph_codec Blocker.Stream blocker_graph = Some (Blocker.BlockEventCodec other).
Proof. split; [vm_cast_no_check (eq_refl (Some tt))|vm_cast_no_check (eq_refl (Some (Blocker.BlockEventCodec other)))]. Qed.
Lemma collector_input :
  mjoin (pp_callbackMap collector_graph !! ReceivedStream) = Some tt /\
  graph_codec ReceivedStream collector_graph = Some (MessageCodec other).
Proof. split; [vm_cast_no_check (eq_refl (Some tt))|vm_cast_no_check (eq_refl (Some (MessageCodec other)))]. Qed.
Lemma detector_sent :
  mjoin (pp_callbackMap detector_graph !! SentStream) = Some Detector.OnSent /\
  graph_codec SentStream detector_graph = Some (MessageCodec other).
Proof. split; [vm_cast_no_check (eq_refl (Some Detector.OnSent))|vm_cast_no_check (eq_refl (Some (MessageCodec other)))]. Qed.
Lemma detector_loop :
  mjoin (pp_callbackMap detector_graph !! loopName Detector.group) = Some Detector.OnLoop /\
  graph_codec (loopName Detector.group) detector_graph = Some (MessageCodec other).
Proof. split; [vm_cast_no_check (eq_refl (Some Detector.OnLoop))|vm_cast_no_check (eq_refl (Some (MessageCodec other)))]. Qed.
End groups.

(** *** The blocker as an aggregate *)

Definition apply_event (_ : unit) (msg : value) (_ : Blocker.BlockValue) : option Blocker.BlockValue :=
  e ← Blocker.assert_event msg; Some (Blocker.mkBlockValue (negb (Blocker.Unblock e))).
Definition nothing {A} (_ : unit) (_ : value) (_ : A) (_ : string) : list request := [].

Lemma block_aggregate {S I} `{Storage S I} `{!Iterator I} env v (c : cbContext S unit) :
  Blocker.block env v c =
  aggregate Blocker.assert_block Blocker.block_value (Blocker.mkBlockValue false) apply_event nothing env tt v c.
Proof.
  unfold Blocker.block, aggregate, cb_read. destruct (ctx_Value _ c) as [[val c1]| |]; [|done|done]. f_equal.
  destruct (if is_nil val then _ else _) as [s|]; [|done]. unfold apply_event. simpl.
  destruct (Blocker.assert_event v) as [e|]; [|done]. simpl. by destruct (Blocker.Unblock e).
Qed.

(** *** The collector as an aggregate *)

(** The last [n] elements. *)
Definition lastn {A} (n : nat) (l : list A) : list A := drop (length l - n) l.

Lemma lastn_snoc {A} n (l : list A) x : lastn n (lastn n l ++ [x]) = lastn n (l ++ [x]).
Proof.
  unfold lastn. rewrite !length_app, !length_drop. simpl. destruct (decide (length l <= n)%nat) as [Hle|Hgt].
  - replace (length l - n)%nat with 0%nat by lia. by rewrite drop_0, Nat.sub_0_r.
  - rewrite <- (skipn_O (l ++ [x])) at 1. rewrite <- (drop_app_le l [x] (length l - n)) by lia. rewrite drop_drop. f_equal. lia.
Qed.

Definition add_message (_ : unit) (msg : value) (ml : option (list Message)) : option (option (list Message)) :=
  m ← assert_message msg; Some (Some (lastn Collector.maxMessages (default [] ml ++ [m]))).

Lemma collect_aggregate {S I} `{Storage S I} `{!Iterator I} env v (c : cbContext S unit) :
  Collector.collect env v c = aggregate assert_messages messages_value None add_message nothing env tt v c.
Proof.
  unfold Collector.collect, aggregate, cb_read. destruct (ctx_Value _ c) as [[val c1]| |]; [|done|done]. f_equal.
  destruct (if is_nil val then _ else _) as [ml|]; [|done]. unfold add_message. simpl.
  destruct (assert_message v) as [m|]; [|done]. simpl. do 3 f_equal. unfold lastn.
  destruct (Collector.maxMessages <? _)%nat eqn:E; [done|]. apply Nat.ltb_ge in E.
  replace (length _ - Collector.maxMessages)%nat with 0%nat by lia. done.
Qed.

(** ** Runs of the groups *)

(** Messages that satisfy [P] and have a key that can be stored, and acknowledgements. *)
Definition app_input {S I} `{StorageLaws S I} (P : ConsumerMessage -> Prop) (e : run_event) : Prop :=
  match e with
  | RMsg msg => P msg /\ is_Some (cm_Value msg) /\ ~ st_reserved (S := S) (msg_key msg)
  | RResolve _ _ r => resolution_ok r
  | RDeferred _ _ _ => True
  | _ => False
  end.

Lemma app_input_messages {S I} `{StorageLaws S I} (P : ConsumerMessage -> Prop) evs k :
  Forall (app_input (S := S) P) evs -> Forall P (filter (fun msg => msg_key msg = k) (messages evs)).
Proof.
  intros HF. apply Forall_forall. intros msg [_ Hm]%list_elem_of_filter. unfold messages in Hm.
  apply list_elem_of_omap in Hm as (e & He & Hmsg). rewrite Forall_forall in HF. specialize (HF e He).
  destruct e as [msg'| | | | |]; try done. injection Hmsg as ->. apply HF.
Qed.

Lemma app_input_all {S I} `{StorageLaws S I} (P : ConsumerMessage -> Prop) evs :
  Forall (app_input (S := S) P) evs -> Forall P (messages evs).
Proof.
  intros HF. apply Forall_forall. intros msg Hm. eapply Forall_forall; [apply (app_input_messages (S := S) P evs (msg_key msg) HF)|].
  by apply list_elem_of_filter.
Qed.

(** The block event and the message in a record. *)
Definition event_of (msg : ConsumerMessage) : option Blocker.BlockEvent :=
  match Blocker.BlockEventCodec_Decode (cm_Value msg) with Ok v => Blocker.assert_event v | Err _ => None end.
Definition message_of (msg : ConsumerMessage) : option Message :=
  match MessageCodec_Decode (cm_Value msg) with Ok v => assert_message v | Err _ => None end.

Lemma event_of_decoded msg e : event_of msg = Some e -> Blocker.BlockEventCodec_Decode (cm_Value msg) = Ok (Blocker.event_value e).
Proof.
  unfold event_of, Blocker.BlockEventCodec_Decode. destruct (Unmarshal _ _) as [m|]; [|done].
  unfold Blocker.assert_event, Blocker.event_value. rewrite unbox_box. by intros [= ->].
Qed.

Lemma message_of_decoded msg m :
  message_of msg = Some m -> MessageCodec_Decode (cm_Value msg) = Ok (message_value m) /\ message_ok m.
Proof.
  unfold message_of. destruct (MessageCodec_Decode _) as [v|] eqn:E; [|done].
  destruct (decoded_message_ok _ _ E) as (m' & -> & Hm). unfold assert_message, message_value. rewrite unbox_box. by intros [= ->].
Qed.

Definition block_message (msg : ConsumerMessage) : Prop := cm_Topic msg = Blocker.Stream /\ is_Some (event_of msg).
Definition received_message (msg : ConsumerMessage) : Prop := cm_Topic msg = ReceivedStream /\ is_Some (message_of msg).

Section runs.
Context {S I : Type} {ST : Storage S I} {SL : StorageLaws S I} {IT : Iterator I}.
Variables (other : marshaller) (env : cb_env).

Definition block_cb (_ : unit) (v : value) (c : cbContext S unit) : list ctx_action := Blocker.block env v c.
Definition collect_cb (_ : unit) (v : value) (c : cbContext S unit) : list ctx_action := Collector.collect env v c.

Lemma block_input msg e : block_message msg -> event_of msg = Some e ->
  message_input (blocker_graph other) msg = Some (tt, Blocker.event_value e).
Proof.
  intros [Ht _] He. apply event_of_decoded in He. unfold message_input. rewrite Ht. destruct (blocker_input other) as [-> ->].
  simpl. by rewrite He.
Qed.

Lemma block_event_ok e :
  app_input (S := S) block_message e ->
  app_event Blocker.assert_block Blocker.block_value (fun _ => True) (Blocker.mkBlockValue false) apply_event nothing env block_cb
    (blocker_graph other) e.
Proof.
  destruct e as [msg| | | |n i r|n i err]; try done. intros ([Ht [ev He]] & Hv & Hk). split_and!; [done|done|].
  exists tt, (Blocker.event_value ev). split_and!; [by apply block_input|intros c; apply block_aggregate|].
  intros a _. eexists. split_and!; [|done|done]. unfold apply_event, Blocker.assert_event, Blocker.event_value. by rewrite unbox_box.
Qed.

Lemma block_fold msgs (b : option Blocker.BlockValue) :
  Forall block_message msgs ->
  fold_left (key_update (Blocker.mkBlockValue false) apply_event (blocker_graph other)) msgs b =
  match last (omap event_of msgs) with
  | Some e => Some (Blocker.mkBlockValue (negb (Blocker.Unblock e)))
  | None => b
  end.
Proof.
  intros HF. revert b. induction msgs as [|msg msgs IH] using rev_ind; intros b; [done|].
  apply Forall_app in HF as [HF [[Ht [e He]] _]%Forall_cons]. rewrite fold_left_app, omap_app. cbn [fold_left omap list_omap].
  rewrite He, last_snoc. unfold key_update at 1. rewrite (block_input msg e) by done.
  unfold apply_event, Blocker.assert_event, Blocker.event_value. by rewrite unbox_box.
Qed.

Lemma collect_input msg m : received_message msg -> message_of msg = Some m ->
  message_input (collector_graph other) msg = Some (tt, message_value m).
Proof.
  intros [Ht _] Hm. apply message_of_decoded in Hm as [Hm _]. unfold message_input. rewrite Ht. destruct (collector_input other) as [-> ->].
  simpl. by rewrite Hm.
Qed.

Lemma lastn_Forall {A} (P : A -> Prop) n l : Forall P l -> Forall P (lastn n l).
Proof. apply Forall_drop. Qed.

Lemma collect_event_ok e :
  app_input (S := S) received_message e ->
  app_event assert_messages messages_value messages_ok None add_message nothing env collect_cb (collector_graph other) e.
Proof.
  destruct e as [msg| | | |n i r|n i err]; try done. intros ([Ht [m Hm]] & Hv & Hk). split_and!; [done|done|].
  exists tt, (message_value m). split_and!; [by apply collect_input|intros c; apply collect_aggregate|].
  intros a Ha. eexists. split_and!; [unfold add_message, assert_message, message_value; by rewrite unbox_box| |done].
  apply lastn_Forall. apply Forall_app. split; [by destruct Ha as [->|?]|]. constructor; [|done].
  by destruct (message_of_decoded msg m Hm).
Qed.

Lemma collector_fold msgs (ml : option (option (list Message))) :
  Forall received_message msgs ->
  fold_left (key_update None add_message (collector_graph other)) msgs ml =
  match msgs with
  | [] => ml
  | _ => Some (Some (lastn Collector.maxMessages (default [] (mjoin ml) ++ omap message_of msgs)))
  end.
Proof.
  intros HF. revert ml. induction msgs as [|msg msgs IH] using rev_ind; intros ml; [done|].
  apply Forall_app in HF as [HF [Hr _]%Forall_cons]. pose proof Hr as [Ht [m Hm]].
  rewrite fold_left_app, omap_app, IH by done. cbn [fold_left omap list_omap]. rewrite Hm.
  unfold key_update. rewrite (collect_input msg m Hr Hm). unfold add_message, assert_message, message_value. rewrite unbox_box.
  cbn [mbind option_bind]. destruct msgs as [|msg' msgs].
  - simpl. by destruct ml as [[l|]|].
  - change ((msg' :: msgs) ++ [msg]) with (msg' :: (msgs ++ [msg])). cbn [default from_option id]. do 2 f_equal.
    rewrite lastn_snoc, app_assoc. done.
Qed.
End runs.

(** *** The detector as an aggregate *)

Lemma fold_left_cons {A B} (f : A -> B -> A) x l a : fold_left f (x :: l) a = fold_left f l (f a x).
Proof. reflexivity. Qed.

Definition count_message (cb : Detector.callback) (_ : value) (cs : Detector.Counters) : option Detector.Counters :=
  Some (match cb with
        | Detector.OnSent => Detector.mkCounters (int64 (Detector.Sent cs + 1)) (Detector.Received cs)
        | Detector.OnLoop => Detector.mkCounters (Detector.Sent cs) (int64 (Detector.Received cs + 1))
        end).

Definition block_request (key : string) : request :=
  RqEmit Blocker.Stream key (Blocker.event_value (Blocker.mkBlockEvent false)).

Definition detector_requests (cb : Detector.callback) (v : value) (cs : Detector.Counters) (key : string) : list request :=
  (if Detector.detectSpammer cs then [block_request key] else []) ++
  match cb, assert_message v with Detector.OnSent, Some m => [RqLoop (To m) v] | _, _ => [] end.

Lemma detector_aggregate {S I} `{Storage S I} `{!Iterator I} env cb v (c : cbContext S Detector.callback) :
  is_Some (assert_message v) ->
  Detector.run_callback env cb v c =
  aggregate Detector.assert_counters Detector.counters_value (Detector.mkCounters 0 0) count_message detector_requests env cb v c.
Proof.
  intros [m Hm]. unfold aggregate. destruct cb; cbn [Detector.run_callback]; unfold Detector.on_sent, Detector.on_loop, Detector.getValue, cb_read;
    (destruct (ctx_Value _ c) as [[val c1]| |]; [|done|done]); f_equal;
    (destruct (is_nil val); [|destruct (Detector.assert_counters val) as [cs|]; [|done]]);
    cbn [mbind option_bind count_message]; unfold Detector.report, detector_requests; rewrite ?Hm;
    f_equal; by destruct (Detector.detectSpammer _).
Qed.

Definition detector_message (msg : ConsumerMessage) : Prop :=
  (cm_Topic msg = SentStream \/ cm_Topic msg = loopName Detector.group) /\ is_Some (message_of msg).

(** The counters of a key after a message. *)
Definition bump (msg : ConsumerMessage) (cs : Detector.Counters) : Detector.Counters :=
  if String.eqb (cm_Topic msg) SentStream
  then Detector.mkCounters (int64 (Detector.Sent cs + 1)) (Detector.Received cs)
  else Detector.mkCounters (Detector.Sent cs) (int64 (Detector.Received cs + 1)).

(** The counters after so many messages. *)
Definition counters_after (sent received : Z) (cs : Detector.Counters) : Detector.Counters :=
  Detector.mkCounters (int64 (Detector.Sent cs + sent)) (int64 (Detector.Received cs + received)).

Lemma counters_after_0 cs : counters_ok cs -> counters_after 0 0 cs = cs.
Proof. intros [Hs Hr]. unfold counters_after. rewrite !Z.add_0_r, (int64_id _ Hs), (int64_id _ Hr). by destruct cs. Qed.

Lemma bump_after msg a b cs :
  bump msg (counters_after a b cs) =
  if String.eqb (cm_Topic msg) SentStream then counters_after (a + 1) b cs else counters_after a (b + 1) cs.
Proof.
  unfold bump, counters_after. cbn [Detector.Sent Detector.Received]. rewrite !int64_add_l, <- !Z.add_assoc. by destruct (String.eqb _ _).
Qed.

Lemma bump_ok msg cs : counters_ok cs -> counters_ok (bump msg cs).
Proof.
  intros [Hs Hr]. unfold bump. destruct (String.eqb _ _); split; cbn [Detector.Sent Detector.Received];
    [apply int64_range|exact Hr|exact Hs|apply int64_range].
Qed.

(** The keys that are reported, in order: those whose counters make a spammer after a message. *)
Fixpoint reported (f : string -> option Detector.Counters) (msgs : list ConsumerMessage) : list string :=
  match msgs with
  | [] => []
  | msg :: msgs =>
      let cs := bump msg (default (Detector.mkCounters 0 0) (f (msg_key msg))) in
      (if Detector.detectSpammer cs then [msg_key msg] else []) ++
      reported (fun k => if decide (k = msg_key msg) then Some cs else f k) msgs
  end.

Section detector.
Context {S I : Type} {ST : Storage S I} {SL : StorageLaws S I} {IT : Iterator I}.
Variables (other : marshaller) (env : cb_env).

Definition detector_cb : Detector.callback -> value -> cbContext S Detector.callback -> list ctx_action := Detector.run_callback env.

Lemma detector_input msg m :
  detector_message msg -> message_of msg = Some m ->
  exists cb, message_input (detector_graph other) msg = Some (cb, message_value m) /\
    forall cs, count_message cb (message_value m) cs = Some (bump msg cs).
Proof.
  intros [Ht _] Hm. apply message_of_decoded in Hm as [Hm _]. unfold message_input, bump. destruct Ht as [-> | ->].
  - destruct (detector_sent other) as [-> ->]. simpl. rewrite Hm. by exists Detector.OnSent.
  - destruct (detector_loop other) as [-> ->]. simpl. rewrite Hm. by exists Detector.OnLoop.
Qed.

(** What is written for a block event. *)
Definition block_record : bytes := Some (print (Blocker.event_json (Blocker.mkBlockEvent false))).

Lemma block_request_record key : request_record (detector_graph other) (block_request key) = Some (Blocker.Stream, key, block_record).
Proof. vm_cast_no_check (eq_refl (Some (Blocker.Stream, key, block_record))). Qed.

Lemma loop_request_record key m :
  request_record (detector_graph other) (RqLoop key (message_value m)) =
  Some (loopName Detector.group, key, Some (print (message_json m))).
Proof.
  assert (LoopStream (detector_graph other) = Some (mkTopicDef (loopName Detector.group) (Some (MessageCodec other)))) as E
    by (vm_cast_no_check (eq_refl (Some (mkTopicDef (loopName Detector.group) (Some (MessageCodec other)))))).
  unfold request_record. rewrite E. cbn [Encode MessageCodec]. unfold MessageCodec_Encode, json_Encode, assert_message, message_value.
  by rewrite unbox_box.
Qed.

Lemma detector_records cb m cs key :
  exists loops, omap (request_record (detector_graph other)) (detector_requests cb (message_value m) cs key) =
    (if Detector.detectSpammer cs then [(Blocker.Stream, key, block_record)] else []) ++ loops /\
    Forall (fun r => r.1.1 = loopName Detector.group) loops /\
    Forall (fun rq => is_Some (request_record (detector_graph other) rq)) (detector_requests cb (message_value m) cs key).
Proof.
  unfold detector_requests. unfold assert_message at 1 2, message_value at 1 3. rewrite unbox_box.
  destruct (Detector.detectSpammer cs); cbn [app omap list_omap]; rewrite ?block_request_record; destruct cb;
    cbn [omap list_omap]; rewrite ?loop_request_record; eexists; (split; [reflexivity|]);
    (split; [by repeat constructor|]); repeat constructor; rewrite ?block_request_record, ?loop_request_record; done.
Qed.

Lemma detector_event_ok e :
  app_input (S := S) detector_message e ->
  app_event Detector.assert_counters Detector.counters_value counters_ok (Detector.mkCounters 0 0) count_message detector_requests
    env detector_cb (detector_graph other) e.
Proof.
  destruct e as [msg| | | |n i r|n i err]; try done. intros (Hd & Hv & Hk). split_and!; [done|done|].
  pose proof Hd as [_ [m Hm]]. destruct (detector_input msg m Hd Hm) as (cb & Hi & Hc). exists cb, (message_value m).
  split_and!; [done|intros c; apply detector_aggregate; unfold assert_message, message_value; by rewrite unbox_box|].
  intros cs Hcs. exists (bump msg cs). split_and!; [apply Hc| |].
  - apply bump_ok. destruct Hcs as [->|Hcs]; [split; unfold in_int64; simpl; lia|exact Hcs].
  - by destruct (detector_records cb m (bump msg cs) (msg_key msg)) as (_ & _ & _ & HF).
Qed.

Lemma detector_key msg cs :
  detector_message msg ->
  key_update (Detector.mkCounters 0 0) count_message (detector_graph other) cs msg =
  Some (bump msg (default (Detector.mkCounters 0 0) cs)).
Proof.
  intros Hd. pose proof Hd as [_ [m Hm]]. destruct (detector_input msg m Hd Hm) as (cb & Hi & Hc). unfold key_update. by rewrite Hi, Hc.
Qed.

(** The messages of a list that were sent, and those that were received. *)
Definition sent_count (msgs : list ConsumerMessage) : Z := Z.of_nat (length (filter (fun msg => cm_Topic msg = SentStream) msgs)).
Definition received_count (msgs : list ConsumerMessage) : Z := Z.of_nat (length (filter (fun msg => cm_Topic msg <> SentStream) msgs)).

Lemma counters_after_fold msgs a b old :
  Forall detector_message msgs ->
  fold_left (key_update (Detector.mkCounters 0 0) count_message (detector_graph other)) msgs (Some (counters_after a b old)) =
  Some (counters_after (a + sent_count msgs) (b + received_count msgs) old).
Proof.
  intros HF. revert a b. induction HF as [|msg msgs Hd HF IH]; intros a b.
  { unfold sent_count, received_count. rewrite !filter_nil. cbn [length fold_left]. by rewrite !Z.add_0_r. }
  rewrite fold_left_cons, detector_key by done. cbn [default from_option id]. rewrite bump_after.
  unfold sent_count, received_count in *. destruct (String.eqb_spec (cm_Topic msg) SentStream) as [Et|Et]; rewrite IH.
  - rewrite (filter_cons_True (fun msg => cm_Topic msg = SentStream)) by done.
    rewrite (filter_cons_False (fun msg => cm_Topic msg <> SentStream)) by auto. cbn [length]. do 2 f_equal. lia.
  - rewrite (filter_cons_False (fun msg => cm_Topic msg = SentStream)) by done.
    rewrite (filter_cons_True (fun msg => cm_Topic msg <> SentStream)) by done. cbn [length]. do 2 f_equal. lia.
Qed.

Lemma detector_fold msgs cs :
  Forall detector_message msgs -> counters_ok (default (Detector.mkCounters 0 0) cs) ->
  fold_left (key_update (Detector.mkCounters 0 0) count_message (detector_graph other)) msgs cs =
  match msgs with
  | [] => cs
  | _ => Some (counters_after (sent_count msgs) (received_count msgs) (default (Detector.mkCounters 0 0) cs))
  end.
Proof.
  intros HF Hok. destruct msgs as [|msg msgs]; [reflexivity|].
  assert (forall l, Forall detector_message l -> l <> [] ->
    fold_left (key_update (Detector.mkCounters 0 0) count_message (detector_graph other)) l cs =
    fold_left (key_update (Detector.mkCounters 0 0) count_message (detector_graph other)) l
      (Some (counters_after 0 0 (default (Detector.mkCounters 0 0) cs)))) as E.
  { intros [|x l] Hl Hne; [by destruct Hne|]. apply Forall_cons in Hl as [Hx _].
    rewrite !fold_left_cons, !detector_key by exact Hx. cbn [default from_option id]. by rewrite counters_after_0. }
  rewrite E, counters_after_fold by (exact HF || discriminate). by rewrite !Z.add_0_l.
Qed.

(** The block events of the abstract application. *)
Lemma detector_reports msgs f out :
  Forall detector_message msgs ->
  filter (fun r => r.1.1 = Blocker.Stream)
    (app_spec (Detector.CountersCodec other) Detector.counters_value (Detector.mkCounters 0 0) count_message detector_requests
      (detector_graph other) msgs (f, out)).2 =
  filter (fun r => r.1.1 = Blocker.Stream) out ++ ((fun k => (Blocker.Stream, k, block_record)) <$> reported f msgs).
Proof.
  intros HF. revert f out. induction HF as [|msg msgs Hd HF IH]; intros f out; [by rewrite app_nil_r|].
  pose proof Hd as [_ [m Hm]]. destruct (detector_input msg m Hd Hm) as (cb & Hi & Hc).
  set (cs := bump msg (default (Detector.mkCounters 0 0) (f (msg_key msg)))).
  destruct (detector_records cb m cs (msg_key msg)) as (loops & Hrec & HL & _).
  assert (app_step (Detector.CountersCodec other) Detector.counters_value (Detector.mkCounters 0 0) count_message detector_requests
      (detector_graph other) (f, out) msg =
    (fun k => if decide (k = msg_key msg) then Some cs else f k,
     out ++ (tableName (gg_group (detector_graph other)), msg_key msg, encoded (Detector.CountersCodec other) Detector.counters_value cs) ::
       (if Detector.detectSpammer cs then [(Blocker.Stream, msg_key msg, block_record)] else []) ++ loops)) as E.
  { unfold app_step. rewrite Hi. cbn [fst snd]. rewrite Hc. fold cs. by rewrite Hrec. }
  rewrite app_spec_cons, E, IH.
  assert (filter (fun r : string * string * bytes => r.1.1 = Blocker.Stream) loops = []) as Hno.
  { clear -HL. induction HL as [|r l Hr HL IHl]; [done|]. rewrite filter_cons_False; [done|]. rewrite Hr. by vm_compute. }
  cbn [reported]. fold cs. rewrite fmap_app, filter_app, filter_cons_False, filter_app, Hno, app_nil_r, <- app_assoc.
  2:{ rewrite (DefineGroup_group _ _ _ (detector_defined other)). by vm_compute. }
  f_equal. by destruct (Detector.detectSpammer cs).
Qed.
End detector.

(** ** The rate of messages *)

Lemma signed_float64_pos x : (0 <= x)%Q -> Detector.signed_float64 x = float64 x.
Proof. intros Hx. unfold Detector.signed_float64. by rewrite (proj2 (Qle_bool_iff 0 x) Hx). Qed.

Lemma inject_Z_pos n : 0 <= n -> (0 <= inject_Z n)%Q.
Proof. intros Hn. change 0%Q with (inject_Z 0). by rewrite <- Zle_Qle. Qed.

(** The rounded rate is compared with one half as the exact one is. *)
Lemma rate_half (s t : Q) (S T : Z) :
  (s == inject_Z S)%Q -> (t == inject_Z T)%Q -> 0 <= S <= T -> 0 < T < 2 ^ 53 ->
  Qle_bool (1 # 2) (float64 (s / t)) = (T <=? 2 * S).
Proof.
  intros Hs Ht HS HT.
  assert (0 < inject_Z T)%Q as HT0 by (change 0%Q with (inject_Z 0); rewrite <- Zlt_Qlt; lia).
  assert (0 <= s / t)%Q as H0 by (rewrite Hs, Ht; apply Qle_shift_div_l; [done|]; rewrite Qmult_0_l; apply inject_Z_pos; lia).
  destruct (T <=? 2 * S) eqn:E; simp_bool.
  - apply Qle_bool_iff, float64_half.
    + rewrite Hs, Ht. apply Qle_shift_div_l; [done|]. change (1 # 2)%Q with (/ inject_Z 2)%Q.
      rewrite Qmult_comm. apply Qle_shift_div_r; [done|]. rewrite <- inject_Z_mult, <- Zle_Qle. lia.
    + rewrite Hs, Ht. apply Qlt_shift_div_r; [done|]. rewrite <- inject_Z_mult, <- Zlt_Qlt. nia.
  - apply not_true_iff_false. rewrite Qle_bool_iff. intros Hle.
    assert (float64 (s / t) < 1 # 2)%Q as Hlt; [|by apply (Qlt_not_le _ _ Hlt)]. apply float64_below_half; [done|].
    rewrite Hs, Ht. apply Qle_shift_div_r; [done|]. unfold Qle, Qmult, Qminus, Qplus, Qopp, inject_Z. cbn [Qnum Qden]. lia.
Qed.

Lemma detectSpammer_spec S R :
  0 <= S -> 0 <= R -> S + R < 2 ^ 53 ->
  Detector.detectSpammer (Detector.mkCounters S R) = (200 <=? S + R) && (R <=? S).
Proof.
  intros HS HR HT. unfold Detector.detectSpammer. cbn [Detector.Sent Detector.Received].
  rewrite int64_id by (unfold in_int64; lia).
  rewrite (signed_float64_pos (inject_Z (S + R))), (signed_float64_pos (inject_Z S)) by (apply inject_Z_pos; lia).
  pose proof (float64_int (S + R)) as Ht. pose proof (float64_int S) as Hs.
  destruct (200 <=? S + R) eqn:E; simp_bool.
  - rewrite (proj2 (Qle_bool_iff _ _)) by (rewrite Ht by lia; change Detector.minMessages with (inject_Z 200); by rewrite <- Zle_Qle).
    assert (0 <= float64 (inject_Z S) / float64 (inject_Z (S + R)))%Q as H0.
    { rewrite Ht, Hs by lia. apply Qle_shift_div_l; [change 0%Q with (inject_Z 0); rewrite <- Zlt_Qlt; lia|].
      rewrite Qmult_0_l. by apply inject_Z_pos. }
    rewrite signed_float64_pos by done. unfold Detector.maxRate. rewrite (rate_half _ _ S (S + R)); [|by apply Hs; lia|by apply Ht; lia|lia|lia].
    cbn [andb]. destruct (R <=? S) eqn:E2; simp_bool; [apply Z.leb_le|apply Z.leb_gt]; lia.
  - replace (Qle_bool Detector.minMessages (float64 (inject_Z (S + R)))) with false; [done|]. symmetry.
    apply not_true_iff_false. rewrite Qle_bool_iff, Ht by lia. change Detector.minMessages with (inject_Z 200).
    rewrite <- Zle_Qle. lia.
Qed.

(** ** Words *)

Lemma split_words_nonempty s : split_words s <> [].
Proof. destruct s as [|c s]; [done|]. simpl. destruct (Ascii.eqb c " "); [done|]. by destruct (split_words s). Qed.

Lemma join_words_cons w ws : ws <> [] -> join_words (w :: ws) = w +:+ String " " (join_words ws).
Proof. by destruct ws. Qed.

Lemma join_split s : join_words (split_words s) = s.
Proof.
  induction s as [|c s IH]; [done|]. cbn [split_words]. pose proof (split_words_nonempty s) as Hne.
  destruct (Ascii.eqb_spec c " ") as [->|Hc]; [by rewrite join_words_cons, IH|].
  destruct (split_words s) as [|w ws]; [done|]. destruct ws as [|w2 ws]; [by rewrite <- IH|].
  rewrite join_words_cons in * by done. by rewrite <- IH.
Qed.

(** A word has no space in it. *)
Lemma split_word w : no_char " " w = true -> split_words w = [w].
Proof.
  induction w as [|c w IH]; [done|]. cbn [no_char split_words]. intros [Hc Hw]%andb_true_iff.
  apply negb_true_iff in Hc. by rewrite Hc, IH.
Qed.

Lemma split_join ws : ws <> [] -> Forall (fun w => no_char " " w = true) ws -> split_words (join_words ws) = ws.
Proof.
  intros Hne HF. induction HF as [|w ws Hw HF IH]; [done|]. destruct ws as [|w2 ws]; [by apply split_word|].
  rewrite join_words_cons by done. specialize (IH ltac:(done)). clear Hne. induction w as [|c w IHw].
  - change ("" +:+ String " " (join_words (w2 :: ws))) with (String " " (join_words (w2 :: ws))). cbn [split_words].
    change (Ascii.eqb " " " ") with true. cbv iota. by rewrite IH.
  - cbn [no_char] in Hw. apply andb_true_iff in Hw as [Hc Hw]. apply negb_true_iff in Hc.
    change (String c w +:+ String " " (join_words (w2 :: ws))) with (String c (w +:+ String " " (join_words (w2 :: ws)))).
    cbn [split_words]. by rewrite Hc, IHw.
Qed.

Lemma split_words_words s : Forall (fun w => no_char " " w = true) (split_words s).
Proof.
  induction s as [|c s IH]; [by constructor|]. cbn [split_words]. destruct (Ascii.eqb c " ") eqn:Ec; [by constructor|].
  destruct (split_words s) as [|w ws]; [constructor; [cbn [no_char]; by rewrite Ec|done]|].
  apply Forall_cons in IH as [Hw IH]. constructor; [cbn [no_char]; by rewrite Ec, Hw|done].
Qed.

(** ** What the filter does *)

(** The content with every word replaced that has a translation. *)
Definition translated (dict : string -> option string) (m : Message) : Message :=
  mkMessage (From m) (To m) (join_words ((fun w => default w (dict w)) <$> split_words (Content m))).

Section filter.
Context {S I : Type} {ST : Storage S I} {SL : StorageLaws S I} {IT : Iterator I} {CB : Type}.
Variables (other : marshaller) (env : cb_env).
Implicit Types c : cbContext S CB.

(** The joined table of the context holds who is blocked, its view the translations. *)
Record filter_ready c (blocked : string -> option Blocker.BlockValue) (dict : string -> option string) : Prop := {
  fr_rerr : cx_rerr c = None;
  fr_joined : exists pviews t st, cx_pviews c = Some pviews /\ pviews !! Blocker.Table = Some t /\ pt_st t = Some st /\
    st_ok (sp_Storage st) /\ holds (S := S) (Blocker.BlockValueCodec other) Blocker.block_value (fun _ => True) (st_contents (sp_Storage st)) blocked;
  fr_codec : graph_codec Blocker.Table (cx_graph c) = Some (Blocker.BlockValueCodec other);
  fr_lookup : exists views v, cx_views c = Some views /\ views !! Translator.Table = Some v /\
    forall w, view_Get w v = Ret (Ok match dict w with Some t => VString t | None => VNil end);
  fr_key : ~ st_reserved (S := S) (ctx_Key c)
}.

Lemma shouldDrop_reads c blocked dict k :
  filter_ready c blocked dict ->
  Filter.shouldDrop env c k = k (match blocked (ctx_Key c) with Some b => Blocker.Blocked b | None => false end).
Proof.
  intros [Hre (pviews & t & st & Hp & Ht & Hst & Hok & Hh) Hc _ Hk].
  unfold Filter.shouldDrop, cb_read, ctx_Join. rewrite Hp, bool_decide_eq_false_2 by done. cbn [fail_if mbind outcome_bind option_bind].
  rewrite Hp. cbn [mbind option_bind]. rewrite Ht, Hst, law_Get by done. specialize (Hh (ctx_Key c) Hk). destruct (st_contents (sp_Storage st) !! ctx_Key c) as [d|].
  - destruct Hh as (b & _ & Hd & ->). cbn [mbind outcome_bind]. rewrite Hc, Hd, Hre. cbn [app].
    change (is_nil (Blocker.block_value b)) with false. cbv iota. unfold Blocker.assert_block, Blocker.block_value. by rewrite unbox_box.
  - rewrite Hh, Hre. done.
Qed.

Lemma translate_words_reads c blocked dict words k :
  filter_ready c blocked dict ->
  Filter.translate_words env c words k = k ((fun w => default w (dict w)) <$> words).
Proof.
  intros [Hre _ _ (views & v & Hv & Hlv & Hd) _]. revert k. induction words as [|w words IH]; intros k; [done|].
  cbn [Filter.translate_words]. unfold cb_read, ctx_Lookup. rewrite Hv, bool_decide_eq_false_2 by done.
  cbn [fail_if mbind outcome_bind option_bind]. rewrite Hv. cbn [mbind option_bind]. rewrite Hlv, Hd. cbn [mbind outcome_bind]. rewrite Hre. cbn [app].
  rewrite fmap_cons. destruct (dict w) as [t|]; cbn [is_nil Translator.assert_string default from_option id]; apply IH.
Qed.

Lemma filter_acts c blocked dict m :
  filter_ready c blocked dict ->
  Filter.filter env (message_value m) c =
  if match blocked (ctx_Key c) with Some b => Blocker.Blocked b | None => false end then []
  else [cb_Emit env 0 c ReceivedStream (To m) (message_value (translated dict m))].
Proof.
  intros Hr. unfold Filter.filter. rewrite (shouldDrop_reads c blocked dict) by done.
  destruct (match blocked (ctx_Key c) with Some b => Blocker.Blocked b | None => false end); [done|].
  unfold assert_message, message_value at 1. rewrite unbox_box. unfold Filter.translate.
  by rewrite (translate_words_reads c blocked dict) by done.
Qed.
End filter.

(** ** Properties *)

(** C19. Round trips of the messaging service's codecs: what is encoded is read back, for messages and
    slices of messages whose strings are valid UTF-8 (escaped where JSON asks for it), for block events
    and values, and for all counters an int can hold; and a message that was read always has valid
    strings, whatever the text was, so that it can be stored again. *)
Theorem messaging_codecs_roundtrip (other : marshaller) :
  (forall m, message_ok m -> codec_trip (MessageCodec other) message_value m) /\
  (forall ml, messages_ok ml -> codec_trip (Collector.FeedCodec other) messages_value ml) /\
  (forall e, codec_trip (Blocker.BlockEventCodec other) Blocker.event_value e) /\
  (forall b, codec_trip (Blocker.BlockValueCodec other) Blocker.block_value b) /\
  (forall c, counters_ok c -> codec_trip (Detector.CountersCodec other) Detector.counters_value c) /\
  (forall data v, MessageCodec_Decode data = Ok v -> exists m, v = message_value m /\ message_ok m).
Proof.
  split_and!; [apply MessageCodec_trip|apply MessageListCodec_trip|apply BlockEventCodec_trip|apply BlockValueCodec_trip|
    apply CountersCodec_trip|apply decoded_message_ok].
Qed.

Lemma messaging_codecs_roundtrip_witness :
  codec_trip (MessageCodec (fun _ => Err ErrUnmarshalType)) message_value (mkMessage "ann" "bob" "1 < 2 & é").
Proof. apply (proj1 (messaging_codecs_roundtrip (fun _ => Err ErrUnmarshalType))). vm_compute. by repeat split. Defined.

Section run_theorems.
Context {S I : Type} {ST : Storage S I} {SL : StorageLaws S I} {IT : Iterator I}.
Variables (other : marshaller) (env : cb_env).
Hypothesis (Hrun : ce_cancelled env = false) (Hans : forall msg n r, ce_answer env msg n = Some r -> resolution_ok r).

Lemma blocker_run m blocked pp evs :
  app_at (blocker_graph other) m [] pp ->
  holds (S := S) (Blocker.BlockValueCodec other) Blocker.block_value (fun _ => True) m blocked ->
  Forall (app_input (S := S) block_message) evs -> pp_run (block_cb env) evs pp <> Blocked ->
  exists pp' m', pp_run (block_cb env) evs pp = Ret (None, pp') /\ run_at (pp_table pp') m' /\
    forall k, ~ st_reserved (S := S) k ->
      state_of (Blocker.BlockValueCodec other) Blocker.assert_block (Ret (Ok (m' !! k))) =
        match last (omap event_of (filter (fun msg => msg_key msg = k) (messages evs))) with
        | Some e => Some (Blocker.mkBlockValue (negb (Blocker.Unblock e)))
        | None => blocked k
        end.
Proof.
  intros Hat Hh Hevs Hnb.
  destruct (app_run (Blocker.BlockValueCodec other) Blocker.assert_block Blocker.block_value (fun _ => True) (Blocker.mkBlockValue false)
    apply_event nothing env (block_cb env) (blocker_graph other) m blocked [] evs pp) as (pp' & m' & E & Hat' & Hh'); [|done|done| |done|].
  - constructor; [apply blocker_table|done|done].
  - eapply Forall_impl; [exact Hevs|]. intros e. apply block_event_ok.
  - exists pp', m'. split_and!; [done|apply (aa_table _ _ _ _ Hat')|]. intros k Hk.
    rewrite (holds_state _ _ _ _ _ _ _ Hh' Hk), app_spec_key, block_fold; [done|]. by apply (app_input_messages (S := S)).
Qed.
End run_theorems.

(** C16. The collector keeps the latest five messages: whatever messages arrive for the users, and however
    they interleave with the acknowledgements, they are all processed, and at the end the table holds
    for every user the last five of the messages it held before and those that arrived, in order.  (The
    callback that the README of the example shows would keep six.) *)
Theorem collector_keeps_latest {S I} `{StorageLaws S I} `{!Iterator I} (other : marshaller) (env : cb_env)
    (m : gmap string string) (feeds : string -> option (option (list Message))) (pp : PartitionProcessor S unit) (evs : list run_event) :
  ce_cancelled env = false -> (forall msg n r, ce_answer env msg n = Some r -> resolution_ok r) ->
  app_at (collector_graph other) m [] pp ->
  holds (S := S) (Collector.FeedCodec other) messages_value messages_ok m feeds ->
  Forall (app_input (S := S) received_message) evs -> pp_run (collect_cb env) evs pp <> Blocked ->
  exists pp' m', pp_run (collect_cb env) evs pp = Ret (None, pp') /\ run_at (pp_table pp') m' /\
    forall k, ~ st_reserved (S := S) k ->
      let arrived := filter (fun msg => msg_key msg = k) (messages evs) in
      state_of (Collector.FeedCodec other) assert_messages (Ret (Ok (m' !! k))) =
        match arrived with
        | [] => feeds k
        | _ => Some (Some (lastn Collector.maxMessages (default [] (mjoin (feeds k)) ++ omap message_of arrived)))
        end.
Proof.
  intros Hrun Hans Hat Hh Hevs Hnb.
  destruct (app_run (Collector.FeedCodec other) assert_messages messages_value messages_ok None
    add_message nothing env (collect_cb env) (collector_graph other) m feeds [] evs pp) as (pp' & m' & E & Hat' & Hh'); [|done|done| |done|].
  - constructor; [apply collector_table|done|done].
  - eapply Forall_impl; [exact Hevs|]. intros e. apply collect_event_ok.
  - exists pp', m'. split_and!; [done|apply (aa_table _ _ _ _ Hat')|]. intros k Hk.
    rewrite (holds_state _ _ _ _ _ _ _ Hh' Hk), app_spec_key, collector_fold; [done|]. by apply (app_input_messages (S := S)).
Qed.

(** C15. The detector counts and reports: whatever messages are sent and looped back, and however they
    interleave with the acknowledgements, they are all processed; at the end the table holds for every
    user how many messages it sent and received, and the block events that were emitted are exactly
    those for the users whose counters made them a spammer after one of their messages, in order. *)
Theorem detector_counts_and_reports {S I} `{StorageLaws S I} `{!Iterator I} (other : marshaller) (env : cb_env)
    (m : gmap string string) (counters : string -> option Detector.Counters) (pp : PartitionProcessor S Detector.callback)
    (evs : list run_event) :
  ce_cancelled env = false -> (forall msg n r, ce_answer env msg n = Some r -> resolution_ok r) ->
  app_at (detector_graph other) m [] pp ->
  holds (S := S) (Detector.CountersCodec other) Detector.counters_value counters_ok m counters ->
  Forall (app_input (S := S) detector_message) evs -> pp_run (detector_cb env) evs pp <> Blocked ->
  exists pp' m', pp_run (detector_cb env) evs pp = Ret (None, pp') /\ run_at (pp_table pp') m' /\
    (forall k, ~ st_reserved (S := S) k ->
      let arrived := filter (fun msg => msg_key msg = k) (messages evs) in
      state_of (Detector.CountersCodec other) Detector.assert_counters (Ret (Ok (m' !! k))) =
        match arrived with
        | [] => counters k
        | _ => Some (counters_after (sent_count arrived) (received_count arrived) (default (Detector.mkCounters 0 0) (counters k)))
        end) /\
    filter (fun r => r.1.1 = Blocker.Stream) (em_rec <$> pp_sent pp') =
      (fun k => (Blocker.Stream, k, block_record)) <$> reported counters (messages evs).
Proof.
  intros Hrun Hans Hat Hh Hevs Hnb.
  destruct (app_run (Detector.CountersCodec other) Detector.assert_counters Detector.counters_value counters_ok (Detector.mkCounters 0 0)
    count_message detector_requests env (detector_cb env) (detector_graph other) m counters [] evs pp)
    as (pp' & m' & E & Hat' & Hh'); [|done|done| |done|].
  - constructor; [apply detector_table|done|done].
  - eapply Forall_impl; [exact Hevs|]. intros e. apply detector_event_ok.
  - exists pp', m'. split_and!; [done|apply (aa_table _ _ _ _ Hat')| |].
    + intros k Hk. rewrite (holds_state _ _ _ _ _ _ _ Hh' Hk), app_spec_key. apply detector_fold; [by apply (app_input_messages (S := S))|].
      specialize (Hh k Hk). destruct (m !! k); [by destruct Hh as (a & Ha & _ & ->)|].
      rewrite Hh. split; unfold in_int64; simpl; lia.
    + rewrite (aa_sent _ _ _ _ Hat'), detector_reports; [done|]. by apply (app_input_all (S := S)).
Qed.

(** C17. The rounding of [detectSpammer] does not matter: for counters whose sum is below 2^53, a user
    is a spammer exactly if at least 200 messages were counted, sent or received, and at least half of
    them were sent.  (The README of the example says that more than [minMessages] were sent, at a rate
    higher than [maxRate].) *)
Theorem detectSpammer_exact (sent received : Z) :
  0 <= sent -> 0 <= received -> sent + received < 2 ^ 53 ->
  Detector.detectSpammer (Detector.mkCounters sent received) = (200 <=? sent + received) && (sent + received <=? 2 * sent).
Proof.
  intros Hs Hr Ht. rewrite detectSpammer_spec by done. f_equal. destruct (received <=? sent) eqn:E; simp_bool; symmetry;
    [apply Z.leb_le|apply Z.leb_gt]; lia.
Qed.

Lemma detectSpammer_exact_witness :
  Detector.detectSpammer (Detector.mkCounters 4503599627370495 4503599627370495) = true /\
  Detector.detectSpammer (Detector.mkCounters 4503599627370494 4503599627370495) = false.
Proof.
  split.
  - rewrite (detectSpammer_exact 4503599627370495 4503599627370495); [reflexivity|lia|lia|lia].
  - rewrite (detectSpammer_exact 4503599627370494 4503599627370495); [reflexivity|lia|lia|lia].
Defined.

(** C18. The filter drops what blocked users send and translates the rest: in a context whose joined table
    says who is blocked and whose looked-up table has the translations, the callback does nothing for a
    blocked sender, and otherwise emits one message, to the receiver, with every word replaced that has
    a translation; without translations the message is not changed. *)
Theorem filter_drops_and_translates {S I} `{StorageLaws S I} `{!Iterator I} {CB} (other : marshaller) (env : cb_env)
    (c : cbContext S CB) (blocked : string -> option Blocker.BlockValue) (dict : string -> option string) (m : Message) :
  filter_ready other c blocked dict ->
  Filter.filter env (message_value m) c =
    (if match blocked (ctx_Key c) with Some b => Blocker.Blocked b | None => false end then []
     else [cb_Emit env 0 c ReceivedStream (To m) (message_value (translated dict m))]) /\
  translated (fun _ => None) m = m /\
  ((forall w t, dict w = Some t -> no_char " " t = true) ->
   split_words (Content (translated dict m)) = (fun w => default w (dict w)) <$> split_words (Content m)).
Proof.
  intros Hr. split_and!.
  - by apply (filter_acts other env c blocked dict).
  - unfold translated. rewrite list_fmap_id, join_split. by destruct m.
  - intros Hd. simpl. apply split_join; [intros E%fmap_nil_inv; by apply (split_words_nonempty (Content m))|].
    apply Forall_fmap. eapply Forall_impl; [apply split_words_words|]. intros w Hw. simpl.
    destruct (dict w) as [t|] eqn:E; simpl; [by eapply Hd|done].
Qed.

(** *** Concrete runs *)

Definition no_marshal : marshaller := fun _ => Err ErrUnmarshalType.

Definition ms_proxy (topic : string) (s : memory) : storageProxy memory :=
  mkProxy s topic 0 false (@DefaultUpdate _ _ (memory_Storage id)) None None.
Definition ms_table (topic : string) (s : memory) : PartitionTable memory :=
  mkPT topic 0 running_signal (Some (ms_proxy topic s)) (@DefaultUpdate _ _ (memory_Storage id))
    (newTableStats empty_heap).1 (newTableStats empty_heap).2 [] 0.
Definition ms_pp {CB} (gg : GroupGraph CB) (topic : string) : PartitionProcessor memory CB :=
  mkPP gg (pp_callbackMap gg) (Some (ms_table topic NewMemory)) ∅ ∅ NilIgnore None [] [] new_Errors false None.

Lemma ms_pp_at {CB} (gg : GroupGraph CB) topic : app_at (SL := memory_Laws id) gg ∅ [] (ms_pp gg topic).
Proof.
  constructor; [done|done|done| |done]. exists (ms_table topic NewMemory), (ms_proxy topic NewMemory).
  split_and!; [done|done|done|apply NewMemory_wf|done].
Qed.

Definition hello : Message := mkMessage "ann" "bob" "hello".
Definition ms_msg (topic key : string) : ConsumerMessage :=
  mkMsg topic 0 (Some key) (Some (print (message_json hello))) 0 [] None.

Lemma ms_msg_of topic key : message_of (ms_msg topic key) = Some hello.
Proof. vm_cast_no_check (eq_refl (Some hello)). Qed.

Definition ms_evs (topic key : string) : list run_event := [RMsg (ms_msg topic key); RResolve 0 0 (Some (mkPMsg 0 0), None)].

Lemma ms_evs_ok (P : ConsumerMessage -> Prop) topic key :
  P (ms_msg topic key) -> Forall (app_input (H0 := memory_Laws id) P) (ms_evs topic key).
Proof.
  intros HP. constructor; [split_and!; [done|done|by intros []]|]. constructor; [|done].
  unfold app_input, resolution_ok, in_int64. simpl. lia.
Qed.

Lemma collector_runs :
  is_ret (pp_run (ST := memory_Storage id) (collect_cb (ST := memory_Storage id) app_env) (ms_evs ReceivedStream "bob")
    (ms_pp (collector_graph no_marshal) "collector-table")) = true.
Proof. vm_cast_no_check (eq_refl true). Qed.

Lemma collector_keeps_latest_witness :
  exists pp' (m' : gmap string string),
    pp_run (ST := memory_Storage id) (collect_cb (ST := memory_Storage id) app_env) (ms_evs ReceivedStream "bob")
      (ms_pp (collector_graph no_marshal) "collector-table") = Ret (None, pp') /\
    state_of (Collector.FeedCodec no_marshal) assert_messages (Ret (Ok (m' !! "bob"%string))) = Some (Some [hello]).
Proof.
  destruct (collector_keeps_latest (H := memory_Storage id) (H0 := memory_Laws id) no_marshal app_env ∅ (fun _ => None)
    (ms_pp (collector_graph no_marshal) "collector-table") (ms_evs ReceivedStream "bob")) as (pp' & m' & Hrun & _ & Hk).
  - reflexivity.
  - discriminate.
  - apply ms_pp_at.
  - intros k _. by rewrite lookup_empty.
  - apply ms_evs_ok. split; [reflexivity|]. by rewrite ms_msg_of.
  - pose proof collector_runs as E. intros E'. rewrite E' in E. discriminate E.
  - exists pp', m'. split; [exact Hrun|]. rewrite (Hk "bob"%string) by (by intros []).
    change (messages (ms_evs ReceivedStream "bob")) with [ms_msg ReceivedStream "bob"].
    rewrite filter_cons_True by reflexivity. rewrite filter_nil. cbn [omap list_omap]. rewrite ms_msg_of. reflexivity.
Defined.

Lemma detector_runs :
  is_ret (pp_run (ST := memory_Storage id) (detector_cb (ST := memory_Storage id) app_env) (ms_evs SentStream "ann")
    (ms_pp (detector_graph no_marshal) "detector-table")) = true.
Proof. vm_cast_no_check (eq_refl true). Qed.

Lemma detector_counts_and_reports_witness :
  exists pp' (m' : gmap string string),
    pp_run (ST := memory_Storage id) (detector_cb (ST := memory_Storage id) app_env) (ms_evs SentStream "ann")
      (ms_pp (detector_graph no_marshal) "detector-table") = Ret (None, pp') /\
    state_of (Detector.CountersCodec no_marshal) Detector.assert_counters (Ret (Ok (m' !! "ann"%string))) =
      Some (Detector.mkCounters 1 0).
Proof.
  destruct (detector_counts_and_reports (H := memory_Storage id) (H0 := memory_Laws id) no_marshal app_env ∅ (fun _ => None)
    (ms_pp (detector_graph no_marshal) "detector-table") (ms_evs SentStream "ann")) as (pp' & m' & Hrun & _ & Hk & _).
  - reflexivity.
  - discriminate.
  - apply ms_pp_at.
  - intros k _. by rewrite lookup_empty.
  - apply ms_evs_ok. split; [by left|]. by rewrite ms_msg_of.
  - pose proof detector_runs as E. intros E'. rewrite E' in E. discriminate E.
  - exists pp', m'. split; [exact Hrun|]. rewrite (Hk "ann"%string) by (by intros []).
    change (messages (ms_evs SentStream "ann")) with [ms_msg SentStream "ann"].
    rewrite filter_cons_True by reflexivity. rewrite filter_nil. reflexivity.
Defined.

(** Ann is blocked; there are no translations. *)
Definition blocked_json : string := print (Blocker.block_json (Blocker.mkBlockValue true)).
Definition blocked_mem : memory := (memory_Set "ann" (Some blocked_json) NewMemory).2.
Definition words_view : View memory :=
  mkView Translator.Table (fun _ => Ok 0) Translator.ValueCodec [ms_table Translator.Table NewMemory] running_signal.
Definition filter_graph : GroupGraph unit :=
  ret_or (empty_graph Filter.group) (DefineGroup Filter.group (Filter.filter_edges no_marshal)).
Definition filter_ctx : cbContext memory unit :=
  ret_or (newContext filter_graph (ms_msg SentStream "ann") None None ∅ ∅)
    (cx_start (newContext filter_graph (ms_msg SentStream "ann") None None
      {[Blocker.Table := ms_table Blocker.Table blocked_mem]} {[Translator.Table := words_view]})).

Definition ann_blocked (k : string) : option Blocker.BlockValue :=
  if decide (k = "ann"%string) then Some (Blocker.mkBlockValue true) else None.

Lemma filter_ctx_ready :
  filter_ready (SL := memory_Laws id) no_marshal filter_ctx ann_blocked (fun _ => None).
Proof.
  constructor.
  - reflexivity.
  - destruct (law_Set (StorageLaws := memory_Laws id) NewMemory "ann" blocked_json NewMemory_wf) as (s' & Es & Hok & Hc & _); [by intros []|].
    assert (s' = blocked_mem) as -> by (unfold blocked_mem; by rewrite (Es : memory_Set "ann" (Some blocked_json) NewMemory = (None, s'))).
    eexists _, (ms_table Blocker.Table blocked_mem), (ms_proxy Blocker.Table blocked_mem).
    split; [reflexivity|]. split; [apply lookup_singleton_eq|]. split; [reflexivity|]. split; [exact Hok|].
    change (sp_Storage (ms_proxy Blocker.Table blocked_mem)) with blocked_mem. rewrite Hc. apply holds_update; [|done|].
    + intros k _. change (st_contents NewMemory) with (∅ : gmap string string). by rewrite lookup_empty.
    + vm_cast_no_check (eq_refl (Ok (Blocker.block_value (Blocker.mkBlockValue true)))).
  - vm_cast_no_check (eq_refl (Some (Blocker.BlockValueCodec no_marshal))).
  - eexists _, words_view. split; [reflexivity|]. split; [apply lookup_singleton_eq|]. intros w. reflexivity.
  - by intros [].
Qed.

Lemma filter_drops_and_translates_witness :
  Filter.filter (H := memory_Storage id) app_env (message_value hello) filter_ctx = [].
Proof.
  destruct (filter_drops_and_translates (H0 := memory_Laws id) no_marshal app_env filter_ctx ann_blocked (fun _ => None) hello
    filter_ctx_ready) as [E _]. exact E.
Defined.
