(* ===== verification/Copartition.v ===== *)
(** * The copartitioning strategy

    [copartition_strategy.go]: how the partitions are distributed to the members of a consumer
    group.  The boundaries are computed in [float64] (see [Float64]).  The plan is the sequence of calls of
    [plan.Add]. *)
From Stdlib Require Import ZArith QArith Qround Lia Lqa.
From stdpp Require Import base gmap strings list sorting.
From S2P Require Import Prelude Float64.
Open Scope Z_scope.

(** ** Data *)

(** [plan.Add(memberID, topic, partitions...)] *)
Definition plan_entry : Type := string * string * list Z.

Record copartitioningStrategy : Type := mkStrategy { failOnInconsistentTopics : bool }.

Definition CopartitioningStrategy : copartitioningStrategy := mkStrategy false.
Definition StrictCopartitioningStrategy : copartitioningStrategy := mkStrategy true.

(** ** Operations *)

(** [partitionsEqual] and [topicsEqual]: same length, and every element of the second is in the
    first. *)
Definition elems_equal {A} `{EqDecision A} (a b : list A) : bool :=
  if negb (length a =? length b)%nat then false
  else forallb (fun p => bool_decide (p ∈ a)) b.

Definition partitionsEqual (a b : list Z) : bool := elems_equal a b.
Definition topicsEqual (a b : list string) : bool := elems_equal a b.

(** Step (1): the loop over the topics in the order in which the map is visited. *)
Fixpoint collect_topics (topics : list (string * list Z)) (allPartitions : list Z) (allTopics : list string)
  : res (list Z * list string) :=
  match topics with
  | [] => Ok (allPartitions, allTopics)
  | (topic, topicPartitions) :: topics =>
      let allTopics := allTopics ++ [topic] in
      if (length allPartitions =? 0)%nat then collect_topics topics topicPartitions allTopics
      else if partitionsEqual allPartitions topicPartitions then collect_topics topics allPartitions allTopics
      else Err (ErrNew "Error balancing. Not all topics are copartitioned.")
  end.

(** Step (2): the loop over the members. *)
Fixpoint collect_members (s : copartitioningStrategy) (members : list (string * list string)) (allTopics : list string)
    (allMembers : list string) : res (list string) :=
  match members with
  | [] => Ok allMembers
  | (memberID, mtopics) :: members =>
      if negb (topicsEqual allTopics mtopics) && failOnInconsistentTopics s
      then Err (ErrNew "Error balancing. Not all members request the same list of topics.")
      else collect_members s members allTopics (allMembers ++ [memberID])
  end.

(** [int(math.Floor(pos*step + 0.5))] *)
Definition boundary (step : Q) (pos : Z) : Z :=
  Qfloor (float64 (float64 (inject_Z pos * step) + (1 # 2))).

(** [allPartitions[min:max]] panics if the bounds are not in order. *)
Definition slice {A} (l : list A) (lo hi : Z) : outcome (list A) :=
  if (0 <=? lo) && (lo <=? hi) && (hi <=? Z.of_nat (length l))
  then Ret (take (Z.to_nat (hi - lo)) (drop (Z.to_nat lo) l))
  else Panic (ErrNew "slice bounds out of range").

(** The loop over the topics of one member: the slice is taken for every [plan.Add]. *)
Fixpoint add_topics (parts : list Z) (lo hi : Z) (memberID : string) (mtopics : list string) (plan : list plan_entry)
  : outcome (list plan_entry) :=
  match mtopics with
  | [] => Ret plan
  | topic :: mtopics =>
      ps ← slice parts lo hi;
      add_topics parts lo hi memberID mtopics (plan ++ [(memberID, topic, ps)])
  end.

(** Step (4): the loop over the sorted members. *)
Fixpoint assign (members : gmap string (list string)) (parts : list Z) (step : Q) (idx : Z) (ids : list string)
    (plan : list plan_entry) : outcome (list plan_entry) :=
  match ids with
  | [] => Ret plan
  | memberID :: ids =>
      plan ← add_topics parts (boundary step idx) (boundary step (idx + 1)) memberID
               (default [] (members !! memberID)) plan;
      assign members parts step (idx + 1) ids plan
  end.

(** [Plan]; [members] and [topics] list the entries of the maps in the order they are visited. *)
Definition Plan (s : copartitioningStrategy) (members : list (string * list string)) (topics : list (string * list Z))
  : outcome (res (list plan_entry)) :=
  match collect_topics topics [] [] with
  | Err e => Ret (Err e)
  | Ok (allPartitions, allTopics) =>
      match collect_members s members allTopics [] with
      | Err e => Ret (Err e)
      | Ok allMembers =>
          let allMembers := sort_Strings allMembers in
          let allPartitions := merge_sort Z.le allPartitions in
          let step := float64 (inject_Z (Z.of_nat (length allPartitions)) / inject_Z (Z.of_nat (length allMembers))) in
          plan ← assign (list_to_map members) allPartitions step 0 allMembers [];
          Ret (Ok plan)
      end
  end.

(** ** Boundaries *)

Lemma Qfloor_eq (x : Q) (z : Z) : (inject_Z z <= x)%Q -> (x < inject_Z (z + 1))%Q -> Qfloor x = z.
Proof.
  intros H1 H2. pose proof (Qfloor_le x) as H3. pose proof (Qlt_floor x) as H4.
  assert (Qfloor x < z + 1). { rewrite Zlt_Qlt. by eapply Qle_lt_trans. }
  assert (z < Qfloor x + 1). { rewrite Zlt_Qlt. by eapply Qle_lt_trans. }
  lia.
Qed.

Section boundaries.
(** The numbers of partitions and members. *)
Context (P M : Z).
Hypothesis HP : 1 <= P < 2 ^ 31.
Hypothesis HM : 1 <= M < 2 ^ 31.

Definition step_of (P M : Z) : Q := float64 (inject_Z P / inject_Z M).

Lemma step_bounds :
  (0 <= step_of P M /\ inject_Z P * (1 - ulp_half) <= inject_Z M * step_of P M /\
   inject_Z M * step_of P M <= inject_Z P * (1 + ulp_half))%Q.
Proof.
  assert (0 < inject_Z M)%Q as HM' by (change 0%Q with (inject_Z 0); rewrite <- Zlt_Qlt; lia).
  assert (0 <= inject_Z P)%Q as HP' by (change 0%Q with (inject_Z 0); rewrite <- Zle_Qle; lia).
  assert (inject_Z M * (inject_Z P / inject_Z M) == inject_Z P)%Q as E by (field; lra).
  assert (0 <= inject_Z P / inject_Z M)%Q as Hpos by (apply Qle_shift_div_l; [done|]; lra).
  assert (inject_Z P / inject_Z M < inject_Z (2 ^ 53))%Q as Hlt.
  { apply Qlt_shift_div_r; [done|]. rewrite <- inject_Z_mult, <- Zlt_Qlt. nia. }
  destruct (float64_error _ Hpos Hlt) as [H1 H2]. fold (step_of P M) in *.
  assert (0 <= step_of P M)%Q as H0.
  { eapply Qle_trans; [|exact H1]. apply Qmult_le_0_compat; [done|]. unfold ulp_half. by vm_compute. }
  split_and!; [done| |].
  - rewrite <- E. rewrite <- Qmult_assoc. by apply Qmult_le_l.
  - rewrite <- E. rewrite <- Qmult_assoc. by apply Qmult_le_l.
Qed.

(** The value before the floor of the boundary at position [i]. *)
Definition raw_boundary (step : Q) (i : Z) : Q := float64 (float64 (inject_Z i * step) + (1 # 2)).

Lemma raw_bounds i :
  0 <= i <= M ->
  let X := (inject_Z i * step_of P M)%Q in
  (0 <= X /\ X <= inject_Z P * (1 + ulp_half) /\
   (X * (1 - ulp_half) + (1 # 2)) * (1 - ulp_half) <= raw_boundary (step_of P M) i /\
   raw_boundary (step_of P M) i <= (X * (1 + ulp_half) + (1 # 2)) * (1 + ulp_half))%Q.
Proof.
  intros Hi X. destruct step_bounds as (H0 & H1 & H2).
  assert (0 <= inject_Z i)%Q as Hi' by (change 0%Q with (inject_Z 0); rewrite <- Zle_Qle; lia).
  assert (0 <= X)%Q as HX by (by apply Qmult_le_0_compat).
  assert (X <= inject_Z P * (1 + ulp_half))%Q as HXP.
  { eapply Qle_trans; [|exact H2]. apply Qmult_le_compat_r; [|done]. rewrite <- Zle_Qle. lia. }
  assert (inject_Z P <= inject_Z (2 ^ 31))%Q as HP31 by (rewrite <- Zle_Qle; lia).
  assert (X < inject_Z (2 ^ 53))%Q as HX53.
  { eapply Qle_lt_trans; [exact HXP|]. qconst. lra. }
  destruct (float64_error X HX HX53) as [Y1 Y2]. set (Y := float64 X) in *.
  assert (0 <= Y)%Q as HY by (qconst; lra).
  assert (0 <= Y + (1 # 2))%Q as HZ by lra.
  assert (Y + (1 # 2) < inject_Z (2 ^ 53))%Q as HZ53 by (qconst; lra).
  destruct (float64_error _ HZ HZ53) as [Z1 Z2]. fold (raw_boundary (step_of P M) i) in *.
  unfold raw_boundary. fold X. fold Y.
  split_and!; [done|done| |]; qconst; lra.
Qed.

Lemma boundary_last : boundary (step_of P M) M = P.
Proof.
  destruct (raw_bounds M ltac:(lia)) as (_ & _ & H1 & H2). destruct step_bounds as (_ & H3 & H4).
  unfold boundary. fold (raw_boundary (step_of P M) M).
  assert (inject_Z P <= inject_Z (2 ^ 31))%Q as HP31 by (rewrite <- Zle_Qle; lia).
  assert (1 <= inject_Z P)%Q as HP1 by (change 1%Q with (inject_Z 1); rewrite <- Zle_Qle; lia).
  apply Qfloor_eq; [|rewrite inject_Z_plus]; qconst; lra.
Qed.

Lemma boundary_first : boundary (step_of P M) 0 = 0.
Proof. unfold boundary. by destruct (step_of P M) as [n d]. Qed.

Lemma boundary_mono i : 0 <= i < M -> boundary (step_of P M) i <= boundary (step_of P M) (i + 1).
Proof.
  intros Hi. destruct (raw_bounds i ltac:(lia)) as (HX0 & HXP & _ & H2).
  destruct (raw_bounds (i + 1) ltac:(lia)) as (_ & _ & H3 & _). destruct step_bounds as (HS & H4 & _).
  unfold boundary. apply Qfloor_resp_le. fold (raw_boundary (step_of P M) i) (raw_boundary (step_of P M) (i + 1)).
  assert (inject_Z M * step_of P M <= inject_Z (2 ^ 31) * step_of P M)%Q as HMS.
  { apply Qmult_le_compat_r; [|done]. rewrite <- Zle_Qle. lia. }
  assert (1 <= inject_Z P)%Q as HP1 by (change 1%Q with (inject_Z 1); rewrite <- Zle_Qle; lia).
  rewrite inject_Z_plus in H3.
  assert ((inject_Z i + inject_Z 1) * step_of P M == inject_Z i * step_of P M + step_of P M)%Q as E by ring.
  rewrite E in H3. generalize dependent (inject_Z i * step_of P M)%Q. intros X HX0 HXP H2 E H3.
  qconst. lra.
Qed.
End boundaries.

Lemma float64_zero x : Qnum x = 0 -> float64 x = 0%Q.
Proof. intros E. unfold float64. by rewrite E. Qed.

Lemma boundary_zero i : boundary 0 i = 0.
Proof.
  unfold boundary. rewrite (float64_zero (inject_Z i * 0)); [done|]. destruct i; done.
Qed.

(** The boundaries start at 0, end at the number of partitions and never decrease. *)
Lemma boundaries_ok P M :
  0 <= P < 2 ^ 31 -> 1 <= M < 2 ^ 31 ->
  boundary (step_of P M) 0 = 0 /\ boundary (step_of P M) M = P /\
  forall i, 0 <= i < M -> boundary (step_of P M) i <= boundary (step_of P M) (i + 1).
Proof.
  intros HP HM. destruct (decide (P = 0)) as [->|Hne].
  - assert (step_of 0 M = 0%Q) as -> by (unfold step_of; by apply float64_zero).
    split_and!; try apply boundary_zero. intros i _. by rewrite !boundary_zero.
  - split_and!; [apply boundary_first|apply boundary_last; lia|intros; apply boundary_mono; lia].
Qed.

(** ** The plan *)

Definition range_of (step : Q) (parts : list Z) (i : Z) : list Z :=
  take (Z.to_nat (boundary step (i + 1) - boundary step i)) (drop (Z.to_nat (boundary step i)) parts).

(** What a member is assigned: the same partitions for each of its topics. *)
Definition member_entries (members : gmap string (list string)) (memberID : string) (ps : list Z) : list plan_entry :=
  (fun topic => (memberID, topic, ps)) <$> default [] (members !! memberID).

(** The boundaries from position [idx] on are in order and within the list. *)
Definition bounds_from (step : Q) (n : nat) (idx : Z) (parts : list Z) : Prop :=
  forall i, idx <= i < idx + Z.of_nat n ->
    0 <= boundary step i /\ boundary step i <= boundary step (i + 1) /\ boundary step (i + 1) <= Z.of_nat (length parts).

Lemma add_topics_ok parts lo hi memberID mtopics plan :
  0 <= lo -> lo <= hi -> hi <= Z.of_nat (length parts) ->
  add_topics parts lo hi memberID mtopics plan =
    Ret (plan ++ ((fun topic => (memberID, topic, take (Z.to_nat (hi - lo)) (drop (Z.to_nat lo) parts))) <$> mtopics)).
Proof.
  intros H1 H2 H3. revert plan. induction mtopics as [|t ts IH]; intros plan; simpl; [by rewrite app_nil_r|].
  unfold slice. rewrite (proj2 (Z.leb_le _ _) H1), (proj2 (Z.leb_le _ _) H2), (proj2 (Z.leb_le _ _) H3). simpl.
  rewrite IH. by rewrite <- app_assoc.
Qed.

Lemma assign_ok members parts step idx ids plan :
  bounds_from step (length ids) idx parts ->
  assign members parts step idx ids plan =
    Ret (plan ++ concat (zip_with (member_entries members) ids
                           ((fun j => range_of step parts (idx + Z.of_nat j)) <$> seq 0 (length ids)))).
Proof.
  revert idx plan. induction ids as [|id ids IH]; intros idx plan Hb; cbn [assign length seq fmap list_fmap zip_with concat].
  { by rewrite app_nil_r. }
  destruct (Hb idx) as (H1 & H2 & H3); [simpl; lia|].
  rewrite add_topics_ok by done. simpl. fold (range_of step parts idx). fold (member_entries members id (range_of step parts idx)).
  rewrite IH; [|intros i Hi; apply Hb; simpl; lia].
  rewrite <- app_assoc. do 3 f_equal.
  - rewrite Z.add_0_r. done.
  - do 2 f_equal. rewrite <- (fmap_S_seq 0), <- list_fmap_compose. apply list_fmap_ext. intros _ j _. simpl. f_equal. lia.
Qed.

(** Consecutive ranges make up the list between the outer boundaries. *)
Lemma ranges_concat parts step n idx :
  bounds_from step n idx parts ->
  concat ((fun j => range_of step parts (idx + Z.of_nat j)) <$> seq 0 n) =
    take (Z.to_nat (boundary step (idx + Z.of_nat n) - boundary step idx)) (drop (Z.to_nat (boundary step idx)) parts).
Proof.
  revert idx. induction n as [|n IH]; intros idx Hb; cbn [seq fmap list_fmap concat].
  { by rewrite Z.add_0_r, Z.sub_diag. }
  destruct (Hb idx) as (H1 & H2 & H3); [lia|].
  rewrite <- (fmap_S_seq 0), <- list_fmap_compose.
  assert (concat ((fun j => range_of step parts (idx + Z.of_nat j)) ∘ S <$> seq 0 n) =
          concat ((fun j => range_of step parts (idx + 1 + Z.of_nat j)) <$> seq 0 n)) as ->.
  { f_equal. apply list_fmap_ext. intros _ j _. simpl. f_equal. lia. }
  rewrite IH; [|intros i Hi; apply Hb; lia].
  replace (idx + 1 + Z.of_nat n) with (idx + Z.of_nat (S n)) by lia. unfold range_of. rewrite Z.add_0_r.
  assert (boundary step (idx + 1) <= boundary step (idx + Z.of_nat (S n))) as Hm.
  { clear -Hb. replace (idx + Z.of_nat (S n)) with (idx + 1 + Z.of_nat n) by lia.
    assert (forall k, (k <= n)%nat -> boundary step (idx + 1) <= boundary step (idx + 1 + Z.of_nat k)) as Hk; [|by apply Hk].
    induction k as [|k IHk]; intros Hk; [rewrite Z.add_0_r; lia|].
    destruct (Hb (idx + 1 + Z.of_nat k)) as (_ & H & _); [lia|]. specialize (IHk ltac:(lia)).
    replace (idx + 1 + Z.of_nat (S k)) with (idx + 1 + Z.of_nat k + 1) by lia. lia. }
  set (b0 := boundary step idx) in *. set (b1 := boundary step (idx + 1)) in *.
  set (bn := boundary step (idx + Z.of_nat (S n))) in *.
  replace (Z.to_nat (bn - b0)) with (Z.to_nat (b1 - b0) + Z.to_nat (bn - b1))%nat by lia.
  replace (Z.to_nat b1) with (Z.to_nat b0 + Z.to_nat (b1 - b0))%nat by lia.
  rewrite <- drop_drop. apply take_take_drop.
Qed.

Lemma elems_equal_perm {A} `{EqDecision A} (a b : list A) : a ≡ₚ b -> elems_equal a b = true.
Proof.
  intros Hp. unfold elems_equal. rewrite (Permutation_length Hp), Nat.eqb_refl. simpl.
  apply forallb_forall. intros x Hx. apply bool_decide_eq_true. rewrite Hp. by apply list_elem_of_In.
Qed.

(** Every topic has the same partitions. *)
Definition copartitioned_topics (topics : list (string * list Z)) (parts : list Z) : Prop :=
  topics <> [] /\ parts <> [] /\ NoDup parts /\ Forall (fun tp => tp.2 ≡ₚ parts) topics.

(** The strategy tolerates the topics of the members. *)
Definition tolerated (s : copartitioningStrategy) (members : list (string * list string)) (topics : list (string * list Z)) : Prop :=
  failOnInconsistentTopics s = true -> Forall (fun m => topics.*1 ≡ₚ m.2) members.

Lemma collect_topics_ok parts topics acc ts :
  parts <> [] -> Forall (fun tp => tp.2 ≡ₚ parts) topics -> (acc = [] /\ topics <> [] \/ acc ≡ₚ parts) ->
  exists acc', acc' ≡ₚ parts /\ collect_topics topics acc ts = Ok (acc', ts ++ topics.*1).
Proof.
  intros Hne. revert acc ts. induction topics as [|[t ps] topics IH]; intros acc ts Hall Hacc; simpl.
  { destruct Hacc as [[_ ?]|Hacc]; [done|]. rewrite app_nil_r. eauto. }
  apply Forall_cons in Hall as [Hps Hall]. simpl in Hps.
  destruct (length acc =? 0)%nat eqn:El.
  - destruct (IH ps (ts ++ [t]) Hall (or_intror Hps)) as (acc' & ? & E). exists acc'. split; [done|].
    by rewrite E, <- app_assoc.
  - destruct Hacc as [[-> _]|Hacc]; [done|].
    unfold partitionsEqual. rewrite elems_equal_perm by (by rewrite Hps).
    destruct (IH acc (ts ++ [t]) Hall (or_intror Hacc)) as (acc' & ? & E). exists acc'. split; [done|].
    by rewrite E, <- app_assoc.
Qed.

Lemma collect_members_ok s members ts acc :
  (failOnInconsistentTopics s = true -> Forall (fun m => ts ≡ₚ m.2) members) ->
  collect_members s members ts acc = Ok (acc ++ members.*1).
Proof.
  revert acc. induction members as [|[m mts] members IH]; intros acc Hs; simpl; [by rewrite app_nil_r|].
  assert (negb (topicsEqual ts mts) && failOnInconsistentTopics s = false) as ->.
  { destruct (failOnInconsistentTopics s); [|by rewrite andb_false_r].
    unfold topicsEqual. rewrite elems_equal_perm; [done|]. by destruct (Forall_cons_1 _ _ _ (Hs eq_refl)). }
  rewrite IH, <- app_assoc; [done|]. intros E. by apply Hs in E as [_ ?]%Forall_cons_1.
Qed.

Lemma merge_sort_Zle_proper (l1 l2 : list Z) : l1 ≡ₚ l2 -> merge_sort Z.le l1 = merge_sort Z.le l2.
Proof.
  intros Hp. apply (Sorted_unique Z.le); [apply Sorted_merge_sort; tc_solve..|]. by rewrite !merge_sort_Permutation.
Qed.

(** The ranges the sorted members get. *)
Definition plan_ranges (parts : list Z) (n : nat) : list (list Z) :=
  (fun j => range_of (step_of (Z.of_nat (length parts)) (Z.of_nat n)) (merge_sort Z.le parts) (Z.of_nat j)) <$> seq 0 n.

Definition plan_of (members : list (string * list string)) (parts : list Z) : list plan_entry :=
  concat (zip_with (member_entries (list_to_map members)) (sort_Strings members.*1) (plan_ranges parts (length members))).

Section plan.
Context (members : list (string * list string)) (parts : list Z).
Hypothesis Hparts : (Z.of_nat (length parts) < 2 ^ 31).
Hypothesis Hmembers : (0 < Z.of_nat (length members) < 2 ^ 31).

Lemma plan_bounds :
  bounds_from (step_of (Z.of_nat (length parts)) (Z.of_nat (length members))) (length members) 0 (merge_sort Z.le parts).
Proof.
  destruct (boundaries_ok (Z.of_nat (length parts)) (Z.of_nat (length members))) as (H0 & HM & Hmono); [lia..|].
  set (b := boundary _) in *.
  assert (forall k, (k <= length members)%nat -> 0 <= b (Z.of_nat k)) as Hlo.
  { induction k as [|k IH]; intros Hk; [change (Z.of_nat 0) with 0; lia|]. specialize (Hmono (Z.of_nat k) ltac:(lia)).
    specialize (IH ltac:(lia)). replace (Z.of_nat (S k)) with (Z.of_nat k + 1) by lia. lia. }
  assert (forall k, (k <= length members)%nat -> b (Z.of_nat (length members - k)) <= Z.of_nat (length parts)) as Hhi.
  { induction k as [|k IH]; intros Hk; [rewrite Nat.sub_0_r; lia|].
    specialize (Hmono (Z.of_nat (length members - S k)) ltac:(lia)). specialize (IH ltac:(lia)).
    replace (Z.of_nat (length members - S k) + 1) with (Z.of_nat (length members - k)) in Hmono by lia. lia. }
  intros i Hi. rewrite (Permutation_length (merge_sort_Permutation _ _)). split_and!.
  - rewrite <- (Z2Nat.id i) by lia. apply Hlo. lia.
  - apply Hmono. lia.
  - specialize (Hhi (length members - Z.to_nat (i + 1))%nat ltac:(lia)).
    by replace (Z.of_nat (length members - (length members - Z.to_nat (i + 1)))) with (i + 1) in Hhi by lia.
Qed.

Lemma plan_ranges_concat : concat (plan_ranges parts (length members)) = merge_sort Z.le parts.
Proof.
  etransitivity; [exact (ranges_concat _ _ _ _ plan_bounds)|]. rewrite Z.add_0_l.
  destruct (boundaries_ok (Z.of_nat (length parts)) (Z.of_nat (length members))) as (H0 & HM & _); [lia..|].
  rewrite H0, HM, Z.sub_0_r, drop_0. apply take_ge. rewrite (Permutation_length (merge_sort_Permutation _ _)). lia.
Qed.

Lemma Plan_ok s topics :
  copartitioned_topics topics parts -> tolerated s members topics ->
  Plan s members topics = Ret (Ok (plan_of members parts)).
Proof.
  intros (Ht & Hne & Hnd & Hall) Htol. unfold Plan.
  destruct (collect_topics_ok parts topics [] []) as (acc & Hacc & ->); [done..|auto|]. simpl.
  rewrite collect_members_ok by (by apply Htol). simpl.
  rewrite (merge_sort_Zle_proper acc parts) by done.
  rewrite (Permutation_length (merge_sort_Permutation _ _)), (Permutation_length (sort_Strings_perm _)), length_fmap.
  fold (step_of (Z.of_nat (length parts)) (Z.of_nat (length members))).
  rewrite assign_ok; rewrite (Permutation_length (sort_Strings_perm _)), length_fmap; [done|]. apply plan_bounds.
Qed.
End plan.

(** ** Properties *)

Lemma elem_of_member_entries ms m ps m' t ps' :
  (m', t, ps') ∈ member_entries ms m ps <-> m' = m /\ ps' = ps /\ t ∈ default [] (ms !! m).
Proof.
  unfold member_entries. rewrite list_elem_of_fmap. split.
  - intros (t' & [= -> -> ->] & Ht). done.
  - intros (-> & -> & Ht). eauto.
Qed.

Lemma elem_of_concat {A} (rs : list (list A)) x : x ∈ concat rs <-> exists r, x ∈ r /\ r ∈ rs.
Proof. rewrite list_elem_of_In, in_concat. setoid_rewrite list_elem_of_In. naive_solver. Qed.

Lemma elem_of_concat_zip {A B C} (f : A -> B -> list C) (xs : list A) (ys : list B) c :
  c ∈ concat (zip_with f xs ys) <-> exists i x y, xs !! i = Some x /\ ys !! i = Some y /\ c ∈ f x y.
Proof.
  rewrite elem_of_concat. setoid_rewrite list_elem_of_lookup. setoid_rewrite lookup_zip_with_Some. naive_solver.
Qed.

(** An element of a list without duplicates is in exactly one of the segments. *)
Lemma concat_NoDup_owner {A} (rs : list (list A)) x :
  NoDup (concat rs) -> x ∈ concat rs ->
  exists i, forall j, (exists r, rs !! j = Some r /\ x ∈ r) <-> j = i.
Proof.
  induction rs as [|r rs IH]; simpl; [by intros _ ?%not_elem_of_nil|].
  intros (Hr & Hd & Hrs)%NoDup_app [Hx|Hx]%elem_of_app.
  - exists 0%nat. intros [|j]; simpl; [naive_solver|]. split; [|done].
    intros (r' & Hj & Hx'). destruct (Hd x Hx). apply elem_of_concat. exists r'. split; [done|].
    by eapply list_elem_of_lookup_2.
  - destruct (IH Hrs Hx) as [i Hi]. exists (S i). intros [|j]; simpl.
    + split; [|done]. intros (r' & [= ->] & Hx'). by destruct (Hd x Hx').
    + rewrite Hi. naive_solver.
Qed.

(** C8. If all topics have the same partitions (and, for the strict strategy, all members request
    all of them), [Plan] succeeds, never slices out of range although the boundaries are rounded
    floating-point numbers, and copartitions: every partition has exactly one owner in the group,
    the owner gets that partition of each topic it requests, no other member gets the partition of
    any topic, and nothing but the topics' partitions is assigned. *)
Theorem Plan_copartitions s members topics parts :
  copartitioned_topics topics parts -> tolerated s members topics -> NoDup members.*1 ->
  Z.of_nat (length parts) < 2 ^ 31 -> 0 < Z.of_nat (length members) < 2 ^ 31 ->
  exists plan, Plan s members topics = Ret (Ok plan) /\
    (forall p, p ∈ parts -> exists owner, owner ∈ members.*1 /\
       forall m t, (exists ps, (m, t, ps) ∈ plan /\ p ∈ ps) <-> m = owner /\ exists mts, (m, mts) ∈ members /\ t ∈ mts) /\
    (forall m t ps p, (m, t, ps) ∈ plan -> p ∈ ps -> p ∈ parts).
Proof.
  intros Hc Ht Hnd HP HM. exists (plan_of members parts). split; [by apply Plan_ok|].
  pose proof (plan_ranges_concat members parts HP HM) as Hcat. unfold plan_of.
  set (rs := plan_ranges _ _) in *. set (ids := sort_Strings members.*1).
  assert (length rs = length ids) as Hlen.
  { unfold rs, ids, plan_ranges. by rewrite (Permutation_length (sort_Strings_perm _)), !length_fmap, length_seq. }
  assert (NoDup ids) as Hids by (unfold ids; by rewrite sort_Strings_perm).
  split.
  - intros p Hp. destruct (concat_NoDup_owner rs p) as [i Hi].
    { rewrite Hcat, merge_sort_Permutation. apply Hc. }
    { by rewrite Hcat, merge_sort_Permutation. }
    destruct (proj2 (Hi i) eq_refl) as (r & Hr & Hpr).
    destruct (lookup_lt_is_Some_2 ids i) as [owner Ho]; [rewrite <- Hlen; by eapply lookup_lt_Some|].
    exists owner. split; [rewrite <- sort_Strings_perm; by eapply list_elem_of_lookup_2|]. intros m t. split.
    + intros (ps & (j & x & y & Hx & Hy & (-> & -> & Hmt)%elem_of_member_entries)%elem_of_concat_zip & Hps).
      assert (j = i) as -> by (apply Hi; eauto). simplify_eq. split; [done|].
      destruct (list_to_map members !! owner) as [mts|] eqn:E; [|by apply not_elem_of_nil in Hmt].
      exists mts. split; [by apply elem_of_list_to_map_2|done].
    + intros (-> & mts & Hm & Hmt). exists r. split; [|done]. apply elem_of_concat_zip. exists i, owner, r.
      split_and!; [done..|]. apply elem_of_member_entries. split_and!; [done..|].
      by rewrite (elem_of_list_to_map_1 (M := gmap string) members owner mts).
  - intros m t ps p (j & x & y & _ & Hy & (-> & -> & _)%elem_of_member_entries)%elem_of_concat_zip Hp.
    rewrite <- (merge_sort_Permutation Z.le parts), <- Hcat. apply elem_of_concat. exists y.
    split; [done|]. by eapply list_elem_of_lookup_2.
Qed.

Definition demo_members : list (string * list string) := [("b", ["X"; "Y"]); ("a", ["Y"; "X"]); ("c", ["X"; "Y"])].
Definition demo_topics : list (string * list Z) := [("X", [2; 0; 1; 4; 3]); ("Y", [0; 1; 2; 3; 4])].

Lemma demo_copartitioned : copartitioned_topics demo_topics [0; 1; 2; 3; 4].
Proof.
  split_and!; [done..| |]; [by apply (bool_decide_unpack _); vm_compute|].
  apply Forall_cons; split; [|apply Forall_singleton; done]. simpl. solve_Permutation.
Qed.

Lemma demo_tolerated : tolerated StrictCopartitioningStrategy demo_members demo_topics.
Proof. intros _. repeat constructor; simpl; try done. Qed.

Lemma Plan_copartitions_witness :
  exists plan, Plan StrictCopartitioningStrategy demo_members demo_topics = Ret (Ok plan) /\
    (forall p, p ∈ [0; 1; 2; 3; 4] -> exists owner, owner ∈ demo_members.*1 /\
       forall m t, (exists ps, (m, t, ps) ∈ plan /\ p ∈ ps) <-> m = owner /\ exists mts, (m, mts) ∈ demo_members /\ t ∈ mts) /\
    (forall m t ps p, (m, t, ps) ∈ plan -> p ∈ ps -> p ∈ [0; 1; 2; 3; 4]).
Proof.
  apply (Plan_copartitions StrictCopartitioningStrategy demo_members demo_topics [0; 1; 2; 3; 4]).
  - apply demo_copartitioned.
  - apply demo_tolerated.
  - by apply (bool_decide_unpack _); vm_compute.
  - done.
  - done.
Defined.

(** C38. For copartitioned topics the plan does not depend on the order in which the maps are visited: if
    the topics all have the same partitions (at least one, fewer than 2^31), if for the strict strategy
    every member asks for all of them, and there are fewer than 2^31 members with different names, then
    all runs of the balancing agree.  For topics that differ the order can matter:
    [Plan_empty_topic_depends_on_order]. *)
Theorem Plan_order_independent s members members' topics topics' parts :
  copartitioned_topics topics parts -> tolerated s members topics -> NoDup members.*1 ->
  Z.of_nat (length parts) < 2 ^ 31 -> 0 < Z.of_nat (length members) < 2 ^ 31 ->
  members ≡ₚ members' -> topics ≡ₚ topics' ->
  Plan s members topics = Plan s members' topics'.
Proof.
  intros Hc Ht Hnd HP HM Hm Htp. pose proof (Permutation_length Hm) as Hl.
  assert (copartitioned_topics topics' parts) as Hc'.
  { destruct Hc as (H1 & H2 & H3 & H4). split_and!; [|done..|by rewrite <- Htp].
    intros ->. by apply Permutation_nil_r in Htp. }
  assert (tolerated s members' topics') as Ht'.
  { intros E. rewrite <- Hm. eapply Forall_impl; [by apply Ht|]. intros m E'. simpl. by rewrite <- Htp. }
  rewrite (Plan_ok members parts), (Plan_ok members' parts); [|done || lia..]. unfold plan_of.
  rewrite (list_to_map_proper (M := gmap string) members members') by done. by rewrite Hm.
Qed.

Lemma Plan_order_independent_witness :
  Plan StrictCopartitioningStrategy demo_members demo_topics =
  Plan StrictCopartitioningStrategy (reverse demo_members) (reverse demo_topics).
Proof.
  apply (Plan_order_independent StrictCopartitioningStrategy demo_members (reverse demo_members) demo_topics
           (reverse demo_topics) [0; 1; 2; 3; 4]).
  - apply demo_copartitioned.
  - apply demo_tolerated.
  - by apply (bool_decide_unpack _); vm_compute.
  - done.
  - done.
  - by rewrite reverse_Permutation.
  - by rewrite reverse_Permutation.
Defined.

(** The check that all topics have the same partitions is not symmetric: a topic without
    partitions is accepted if the map happens to visit it before the others, and rejected after
    them. *)
Theorem Plan_empty_topic_depends_on_order :
  Plan CopartitioningStrategy [("a", ["X"; "Y"])] [("Y", []); ("X", [0; 1])] =
    Ret (Ok [("a", "X", [0; 1]); ("a", "Y", [0; 1])]) /\
  Plan CopartitioningStrategy [("a", ["X"; "Y"])] [("X", [0; 1]); ("Y", [])] =
    Ret (Err (ErrNew "Error balancing. Not all topics are copartitioned.")).
Proof. split; by vm_compute. Qed.
