(* ===== verification/TopicManager.v ===== *)
(** * The topic manager

    [topic_manager.go]: creating topics and checking those that exist.  The Kafka client and the
    cluster administration are the class [Cluster]; what is relied on of a cluster is [ClusterLaws],
    with the topics it holds as a ghost map.  What a topic manager promises to the processor is
    the class [TopicManagerLaws]. *)
From Stdlib Require Import ZArith Lia.
From stdpp Require Import base gmap strings list pretty.
From S2P Require Import Prelude Multierr.
Open Scope Z_scope.

(** ** Data *)

(** [type TMConfigMismatchBehavior int] *)
Inductive TMConfigMismatchBehavior : Type :=
| TMConfigMismatchBehaviorIgnore
| TMConfigMismatchBehaviorWarn
| TMConfigMismatchBehaviorFail.

(** [type TopicManagerConfig struct]; durations in nanoseconds. *)
Record TopicManagerConfig : Type := mkTMC {
  tmc_Table_Replication : Z;
  tmc_Table_CleanupPolicy : string;
  tmc_Stream_Replication : Z;
  tmc_Stream_Retention : Z;
  tmc_Stream_CleanupPolicy : string;
  tmc_MismatchBehavior : TMConfigMismatchBehavior
}.

Definition streamCleanupPolicy (tmc : TopicManagerConfig) : string :=
  if negb (String.eqb (tmc_Stream_CleanupPolicy tmc) "") then tmc_Stream_CleanupPolicy tmc else "delete".

Definition tableCleanupPolicy (tmc : TopicManagerConfig) : string :=
  if negb (String.eqb (tmc_Table_CleanupPolicy tmc) "") then tmc_Table_CleanupPolicy tmc else "compact".

Definition NewTopicManagerConfig : TopicManagerConfig :=
  mkTMC 2 "" 2 (3600 * 1000000000) "" TMConfigMismatchBehaviorIgnore.

(** [sarama.TopicDetail] *)
Record TopicDetail : Type := mkTopicDetail {
  NumPartitions : Z;
  ReplicationFactor : Z;
  ConfigEntries : gmap string string
}.

(** [sarama.Client] and [sarama.ClusterAdmin] on the cluster [K]. [DescribeConfig] gives the names
    and values of the entries, [DescribeTopics] the replicas of each partition of each described
    topic. *)
Class Cluster (K : Type) : Type := {
  client_RefreshMetadata : K -> option error * K;
  client_Topics : K -> res (list string);
  client_Partitions : string -> K -> res (list Z);
  client_GetOffset : string -> Z -> Z -> K -> res Z;
  client_Close : K -> option error * K;
  client_V0_11 : K -> bool;
  admin_CreateTopic : string -> TopicDetail -> K -> option error * K;
  admin_DescribeConfig : string -> K -> res (list (string * string));
  admin_DescribeTopics : string -> K -> res (list (list (list Z)))
}.

(** ** Operations *)

Section manager.
Context {K : Type} {CL : Cluster K}.

(** [type topicManager struct] *)
Record topicManager : Type := mkTopicManager { tm_client : K; tm_config : TopicManagerConfig }.

Definition set_client (k : K) (m : topicManager) : topicManager := mkTopicManager k (tm_config m).

(** [checkBroker], given the results of [broker.Open] and [broker.Connected]. *)
Definition checkBroker (opened : option error) (connected : res bool) : option error :=
  match opened with
  | Some e => Some (ErrWrap "error opening broker connection" e)
  | None =>
      match connected with
      | Err e => Some (ErrWrap "cannot connect to broker" e)
      | Ok false => Some (ErrNew "cannot connect to broker: not connected")
      | Ok true => None
      end
  end.

(** [newTopicManager], given the results of [check] for the first broker and of creating the
    administration client. *)
Definition newTopicManager (topicManagerConfig : option TopicManagerConfig) (client : option K) (activeBrokers : list string)
    (check : string -> option error) (admin : option error) : res topicManager :=
  match client with
  | None => Err (ErrNew "cannot create topic manager with nil client")
  | Some client =>
      match topicManagerConfig with
      | None => Err (ErrNew "cannot create topic manager with nil config")
      | Some cfg =>
          match activeBrokers with
          | [] => Err (ErrNew "no brokers active in current client")
          | broker :: _ =>
              match check broker with
              | Some e => Err e
              | None =>
                  match admin with
                  | Some e => Err (ErrWrap "error creating cluster admin" e)
                  | None => Ok (mkTopicManager client cfg)
                  end
              end
          end
      end
  end.

(** [NewTopicManager], given whether the configured version is at least 0.10 and the result of
    [sarama.NewClient]. *)
Definition NewTopicManager (versionOk : bool) (client : res K) (topicManagerConfig : option TopicManagerConfig)
    (activeBrokers : list string) (check : string -> option error) (admin : option error) : res topicManager :=
  if negb versionOk then Err (ErrNew "goka's topic manager needs kafka version v0.10.0.0 or higher to function")
  else match client with
       | Err e => Err (ErrWrap "Error creating the kafka client" e)
       | Ok client => newTopicManager topicManagerConfig (Some client) activeBrokers check admin
       end.

Definition topicManager_Close (m : topicManager) : option error * topicManager :=
  let '(err, k) := client_Close (tm_client m) in
  (Errors_NilOrError (Errors_Collect new_Errors err), set_client k m).

Definition topicManager_Partitions (topic : string) (m : topicManager) : res (list Z) * topicManager :=
  let '(err, k) := client_RefreshMetadata (tm_client m) in
  let m := set_client k m in
  match err with
  | Some e => (Err (ErrWrap "error refreshing metadata" e), m)
  | None =>
      match client_Topics k with
      | Err e => (Err e, m)
      | Ok topics =>
          if bool_decide (topic ∈ topics) then (client_Partitions topic k, m)
          else (Err ErrTopicNotFound, m)
      end
  end.

Definition topicManager_GetOffset (topic : string) (partitionID time : Z) (m : topicManager) : res Z :=
  client_GetOffset topic partitionID time (tm_client m).

(** [createTopic]: the numbers are converted to 32 and 16 bits. *)
Definition createTopic (topic : string) (npar rfactor : Z) (config : list (string * string)) (m : topicManager)
  : option error * topicManager :=
  let topicDetail := mkTopicDetail (int32 npar) (wrapS 16 rfactor)
                       (fold_left (fun entries kv => <[kv.1 := kv.2]> entries) config ∅) in
  let '(err, k) := admin_CreateTopic topic topicDetail (tm_client m) in
  (match err with Some e => Some (ErrWrap "error creating topic" e) | None => None end, set_client k m).

(** [handleConfigMismatch]; a warning is only logged. *)
Definition handleConfigMismatch (message : string) (m : topicManager) : option error :=
  match tmc_MismatchBehavior (tm_config m) with
  | TMConfigMismatchBehaviorWarn => None
  | TMConfigMismatchBehaviorFail => Some (ErrNew message)
  | TMConfigMismatchBehaviorIgnore => None
  end.

Definition adminSupported (m : topicManager) : bool := client_V0_11 (tm_client m).

Definition getTopicConfigMap (topic : string) (m : topicManager) : res (gmap string string) :=
  match admin_DescribeConfig topic (tm_client m) with
  | Err _ => Err (ErrNew "Error getting config for topic")
  | Ok cfg => Ok (fold_left (fun cfgMap e => <[e.1 := e.2]> cfgMap) cfg ∅)
  end.

Definition min_replicas (partitions : list (list Z)) : Z :=
  fold_left (fun replicasMin replicas =>
      if (replicasMin =? 0) || (Z.of_nat (length replicas) <? replicasMin) then Z.of_nat (length replicas)
      else replicasMin) partitions 0.

Definition getTopicMinReplicas (topic : string) (m : topicManager) : res Z :=
  match admin_DescribeTopics topic (tm_client m) with
  | Err _ => Err (ErrNew "Error describing topic")
  | Ok [topicMeta] => Ok (min_replicas topicMeta)
  | Ok _ => Err (ErrNew "Cannot find meta data for topic")
  end.

(** The loop over the requested configuration: the first mismatch, if any. *)
Fixpoint config_mismatch (cfgMap : gmap string string) (config : list (string * string)) : option string :=
  match config with
  | [] => None
  | (key, value) :: config =>
      match cfgMap !! key with
      | None => Some "config for topic did not contain requested key"
      | Some entry =>
          if negb (String.eqb entry value) then Some "unexpected config value for topic"
          else config_mismatch cfgMap config
      end
  end.

(** The checks of an existing topic by means of the administration client. *)
Definition check_admin (topic : string) (rfactor : Z) (config : list (string * string)) (m : topicManager) : option error :=
  match getTopicConfigMap topic m with
  | Err e => Some e
  | Ok cfgMap =>
      match config_mismatch cfgMap config with
      | Some message => handleConfigMismatch message m
      | None =>
          match getTopicMinReplicas topic m with
          | Err e => Some e
          | Ok topicMinReplicas =>
              if negb (topicMinReplicas =? rfactor)
              then handleConfigMismatch "unexpected replication factor for topic" m
              else None
          end
      end
  end.

Definition ensureExists (topic : string) (npar rfactor : Z) (config : list (string * string)) (m : topicManager)
  : option error * topicManager :=
  let '(r, m) := topicManager_Partitions topic m in
  let proceed (partitions : list Z) :=
    if (length partitions =? 0)%nat then createTopic topic npar rfactor config m
    else if negb (Z.of_nat (length partitions) =? npar)
    then (handleConfigMismatch "partition count mismatch for topic" m, m)
    else if adminSupported m then (check_admin topic rfactor config m, m)
    else (None, m) in
  match r with
  | Ok partitions => proceed partitions
  | Err ErrTopicNotFound => proceed []
  | Err e => (Some (ErrWrap "error checking topic" e), m)
  end.

(** The configuration of a stream; [Retention.Milliseconds()] truncates. *)
Definition stream_config (c : TopicManagerConfig) : list (string * string) :=
  [("cleanup.policy", streamCleanupPolicy c); ("retention.ms", pretty (Z.quot (tmc_Stream_Retention c) 1000000))].

Definition table_config (c : TopicManagerConfig) : list (string * string) := [("cleanup.policy", tableCleanupPolicy c)].

Definition topicManager_EnsureStreamExists (topic : string) (npar : Z) (m : topicManager) : option error * topicManager :=
  ensureExists topic npar (tmc_Stream_Replication (tm_config m)) (stream_config (tm_config m)) m.

Definition topicManager_EnsureTopicExists (topic : string) (npar rfactor : Z) (config : list (string * string)) (m : topicManager)
  : option error * topicManager := ensureExists topic npar rfactor config m.

Definition topicManager_EnsureTableExists (topic : string) (npar : Z) (m : topicManager) : option error * topicManager :=
  ensureExists topic npar (tmc_Table_Replication (tm_config m)) (table_config (tm_config m)) m.
End manager.
Arguments topicManager : clear implicits.

(** ** The cluster *)

(** What a cluster holds of a topic. *)
Record topic_info : Type := mkTopicInfo {
  ti_partitions : list Z;
  ti_replicas : list (list Z);
  ti_config : gmap string string
}.

(** What is relied on of a cluster: metadata that was just refreshed shows the topics of the
    cluster, and a topic without partitions is an error; a topic created
    successfully has the requested partitions, replicas and configuration if numbers of them were
    requested and not the default of the broker; the administration client shows the configuration and the replicas; [errTopicNotFound] is not
    an error of the client's. *)
Class ClusterLaws (K : Type) `{CL : Cluster K} : Type := {
  k_topics : K -> gmap string topic_info;
  k_fresh : K -> Prop;
  law_refresh k err k' : client_RefreshMetadata k = (err, k') ->
    k_topics k' = k_topics k /\ client_V0_11 k' = client_V0_11 k /\ (err = None -> k_fresh k');
  law_close k err k' : client_Close k = (err, k') -> k_topics k' = k_topics k;
  law_topics k l t : k_fresh k -> client_Topics k = Ok l -> t ∈ l <-> is_Some (k_topics k !! t);
  law_partitions k t ps : k_fresh k -> client_Partitions t k = Ok ps ->
    ps <> [] /\ exists ti, k_topics k !! t = Some ti /\ ti_partitions ti = ps;
  law_sentinel k t : client_Topics k <> Err ErrTopicNotFound /\ client_Partitions t k <> Err ErrTopicNotFound;
  law_create k t d k' : admin_CreateTopic t d k = (None, k') -> 0 < NumPartitions d -> 0 < ReplicationFactor d ->
    exists ti, k_topics k' = <[t := ti]> (k_topics k) /\
      ti_partitions ti = seqZ 0 (NumPartitions d) /\
      Forall (fun r => Z.of_nat (length r) = ReplicationFactor d) (ti_replicas ti) /\
      ConfigEntries d ⊆ ti_config ti;
  law_config k t l key value : admin_DescribeConfig t k = Ok l ->
    exists ti, k_topics k !! t = Some ti /\ NoDup l.*1 /\ ((key, value) ∈ l <-> ti_config ti !! key = Some value);
  law_describe k t l : admin_DescribeTopics t k = Ok l -> exists ti, k_topics k !! t = Some ti /\ l = [ti_replicas ti];
  law_replicas k t ti : k_topics k !! t = Some ti ->
    length (ti_replicas ti) = length (ti_partitions ti) /\ Forall (fun r => r <> []) (ti_replicas ti)
}.

(** ** Specification *)

(** The smallest number of replicas of a partition. *)
Definition has_min_replicas (replicas : list (list Z)) (n : Z) : Prop :=
  (exists r, r ∈ replicas /\ Z.of_nat (length r) = n) /\ Forall (fun r => n <= Z.of_nat (length r)) replicas.

Lemma min_replicas_ok replicas :
  Forall (fun r => r <> []) replicas -> replicas <> [] -> has_min_replicas replicas (min_replicas replicas).
Proof.
  intros HF Hne. unfold min_replicas.
  assert (forall l acc, Forall (fun r : list Z => r <> []) l -> 0 < acc ->
    let m := fold_left (fun replicasMin replicas =>
      if (replicasMin =? 0) || (Z.of_nat (length replicas) <? replicasMin) then Z.of_nat (length replicas)
      else replicasMin) l acc in
    m <= acc /\ Forall (fun r => m <= Z.of_nat (length r)) l /\ (m = acc \/ exists r, r ∈ l /\ Z.of_nat (length r) = m)) as Hgen.
  { induction l as [|r l IH]; intros acc HFl Hacc; simpl; [split_and!; [lia|done|by left]|].
    apply Forall_cons in HFl as [Hr HFl]. assert (0 < Z.of_nat (length r)) by (destruct r; [done|simpl; lia]).
    rewrite (proj2 (Z.eqb_neq acc 0)) by lia. simpl.
    destruct (Z.ltb_spec (Z.of_nat (length r)) acc) as [Hlt|Hge].
    - destruct (IH (Z.of_nat (length r)) HFl ltac:(lia)) as (H1 & H2 & H3). split_and!; [lia|constructor; [lia|done]|].
      right. destruct H3 as [->|(r' & ? & ?)]; [exists r|exists r']; set_solver.
    - destruct (IH acc HFl Hacc) as (H1 & H2 & H3). split_and!; [lia|constructor; [lia|done]|].
      destruct H3 as [?|(r' & ? & ?)]; [by left|right; exists r'; set_solver]. }
  destruct replicas as [|r l]; [done|]. apply Forall_cons in HF as [Hr HF]. simpl.
  assert (0 < Z.of_nat (length r)) by (destruct r; [done|simpl; lia]).
  destruct (Hgen l (Z.of_nat (length r)) HF ltac:(lia)) as (H1 & H2 & H3). split.
  - destruct H3 as [->|(r' & ? & ?)]; [exists r|exists r']; set_solver.
  - constructor; [lia|done].
Qed.

Lemma fold_insert_lookup (l : list (string * string)) (m : gmap string string) key value :
  NoDup l.*1 -> (key, value) ∈ l -> fold_left (fun m kv => <[kv.1 := kv.2]> m) l m !! key = Some value.
Proof.
  revert m. induction l as [|[k v] l IH]; intros m Hnd Hin; [by apply not_elem_of_nil in Hin|].
  rewrite fmap_cons in Hnd. apply NoDup_cons in Hnd as [Hk Hnd]. apply elem_of_cons in Hin as [[= <- <-]|Hin]; simpl; [|by apply IH].
  assert (forall m : gmap string string, m !! key = Some value -> fold_left (fun m kv => <[kv.1 := kv.2]> m) l m !! key = Some value) as Hkeep.
  { clear IH Hnd m. induction l as [|[k v] l IH]; intros m Hm; [done|]. simpl. apply IH; [rewrite fmap_cons in Hk; set_solver|].
    rewrite lookup_insert_ne; [done|]. rewrite fmap_cons in Hk. simpl. set_solver. }
  apply Hkeep. by rewrite lookup_insert_eq.
Qed.

Lemma fold_insert_lookup_inv (l : list (string * string)) (m : gmap string string) key value :
  fold_left (fun m kv => <[kv.1 := kv.2]> m) l m !! key = Some value -> (key, value) ∈ l \/ m !! key = Some value.
Proof.
  revert m. induction l as [|[k v] l IH]; intros m H; [by right|]. simpl in H.
  apply IH in H as [H|H]; [left; by apply elem_of_cons; right|].
  rewrite lookup_insert in H. case_decide; simplify_eq; [left; by apply elem_of_cons; left|by right].
Qed.

(** The topic is as requested. *)
Definition topic_as_requested (npar rfactor : Z) (config : list (string * string)) (admin : bool) (ti : topic_info) : Prop :=
  Z.of_nat (length (ti_partitions ti)) = npar /\
  (admin = true -> has_min_replicas (ti_replicas ti) rfactor /\
     forall key value, (key, value) ∈ config -> ti_config ti !! key = Some value).

Section spec.
Context {K : Type} {CL : Cluster K} {KL : ClusterLaws K}.
Implicit Types m : topicManager K.

Definition topics_of m : gmap string topic_info := k_topics (tm_client m).

Lemma Partitions_ok topic m r m' :
  topicManager_Partitions topic m = (r, m') ->
  topics_of m' = topics_of m /\ tm_config m' = tm_config m /\ adminSupported m' = adminSupported m /\
  match r with
  | Ok ps => ps <> [] /\ ti_partitions <$> topics_of m !! topic = Some ps
  | Err e => e = ErrTopicNotFound -> topics_of m !! topic = None
  end.
Proof.
  unfold topicManager_Partitions. destruct (client_RefreshMetadata (tm_client m)) as [err k] eqn:E.
  destruct (law_refresh _ _ _ E) as (Et & Ev & Hf). unfold topics_of, adminSupported.
  destruct (law_sentinel k topic) as [Hs1 Hs2].
  destruct err; [by intros [= <- <-]|]. destruct (client_Topics k) as [topics|] eqn:Et'; [|intros [= <- <-]; naive_solver].
  specialize (Hf eq_refl). case_bool_decide as Hin; intros [= <- <-]; split_and!; try done.
  - destruct (client_Partitions topic k) as [ps|] eqn:Ep; [|naive_solver].
    destruct (law_partitions k topic ps Hf Ep) as (Hne & ti & Hti & <-). rewrite <- Et. by rewrite Hti.
  - intros _. rewrite (law_topics k topics topic Hf Et'), Et in Hin. by apply eq_None_not_Some.
Qed.

Lemma check_admin_ok topic rfactor config m npar ti :
  tmc_MismatchBehavior (tm_config m) = TMConfigMismatchBehaviorFail ->
  topics_of m !! topic = Some ti -> Z.of_nat (length (ti_partitions ti)) = npar -> 0 < npar ->
  check_admin topic rfactor config m = None -> topic_as_requested npar rfactor config true ti.
Proof.
  intros Hb Hti Hn Hpos. unfold check_admin, getTopicConfigMap, getTopicMinReplicas, handleConfigMismatch. rewrite Hb.
  destruct (admin_DescribeConfig topic (tm_client m)) as [cfg|] eqn:Ec; [|done].
  destruct (config_mismatch _ config) eqn:Em; [done|].
  destruct (admin_DescribeTopics topic (tm_client m)) as [metas|] eqn:Ed; [|done].
  destruct (law_describe _ _ _ Ed) as (ti' & Hti' & ->). unfold topics_of in Hti. rewrite Hti in Hti'. injection Hti' as <-.
  destruct (Z.eqb_spec (min_replicas (ti_replicas ti)) rfactor) as [<-|]; [|done]. intros _.
  destruct (law_replicas _ _ _ Hti) as [Hl Hr]. split; [done|]. intros _. split.
  { apply min_replicas_ok; [done|]. intros E. rewrite E in Hl. simpl in Hl. lia. }
  intros key value Hin. destruct (law_config _ _ _ key value Ec) as (ti' & Hti' & Hnd & Hiff).
  rewrite Hti in Hti'. injection Hti' as <-. apply Hiff. clear -Em Hin. induction config as [|[k v] config IH]; [by apply not_elem_of_nil in Hin|].
  simpl in Em. destruct (_ !! k) as [entry|] eqn:Ek; [|done]. destruct (String.eqb_spec entry v) as [->|]; [|done].
  apply elem_of_cons in Hin as [[= -> ->]|Hin]; [|by apply IH].
  by apply fold_insert_lookup_inv in Ek as [?|?].
Qed.

(** A topic the manager created is as requested. *)
Lemma createTopic_ok topic npar rfactor config m m' :
  createTopic topic npar rfactor config m = (None, m') ->
  0 < npar < 2 ^ 31 -> 0 < rfactor < 2 ^ 15 -> NoDup config.*1 ->
  tm_config m' = tm_config m /\
  exists ti, topics_of m' = <[topic := ti]> (topics_of m) /\
    ti_partitions ti = seqZ 0 npar /\ topic_as_requested npar rfactor config true ti.
Proof.
  intros H Hn Hr Hnd. unfold createTopic in H. destruct (admin_CreateTopic _ _ _) as [[e|] k] eqn:E; [done|].
  injection H as <-. split; [done|]. unfold topics_of. simpl.
  destruct (law_create _ _ _ _ E) as (ti & Ht & Hp & Hrep & Hc); simpl in *;
    rewrite ?int32_id in * by (unfold in_int32; lia); rewrite ?wrapS_id in * by lia; [lia|lia|].
  exists ti. split; [done|]. split; [done|].
  destruct (law_replicas k topic ti) as [Hlr Hne]; [by rewrite Ht, lookup_insert_eq|].
  split; [rewrite Hp, length_seqZ; lia|]. intros _. split.
  - assert (exists r l, ti_replicas ti = r :: l) as (r & l & El).
    { destruct (ti_replicas ti) as [|r l]; [|by eauto]. rewrite Hp, length_seqZ in Hlr. simpl in Hlr. lia. }
    split; [exists r; rewrite El in *; apply Forall_cons in Hrep as [? _]; set_solver|].
    eapply Forall_impl; [exact Hrep|]. simpl. lia.
  - intros key value Hin. eapply lookup_weaken; [|exact Hc]. by apply fold_insert_lookup.
Qed.

Lemma ensureExists_ok topic npar rfactor config m m' :
  tmc_MismatchBehavior (tm_config m) = TMConfigMismatchBehaviorFail ->
  0 < npar < 2 ^ 31 -> 0 < rfactor < 2 ^ 15 -> NoDup config.*1 ->
  ensureExists topic npar rfactor config m = (None, m') ->
  tm_config m' = tm_config m /\
  exists ti, topics_of m' = <[topic := ti]> (topics_of m) /\
    topic_as_requested npar rfactor config (adminSupported m) ti /\
    (topics_of m !! topic = Some ti \/
     default [] (ti_partitions <$> topics_of m !! topic) = [] /\ ti_partitions ti = seqZ 0 npar).
Proof.
  intros Hb Hn Hr Hnd H. unfold ensureExists in H.
  destruct (topicManager_Partitions topic m) as [r m1] eqn:E.
  destruct (Partitions_ok _ _ _ _ E) as (Et & Ec & Ea & Hr').
  assert (forall m2, createTopic topic npar rfactor config m1 = (None, m2) ->
    default [] (ti_partitions <$> topics_of m !! topic) = [] ->
    tm_config m2 = tm_config m /\ exists ti, topics_of m2 = <[topic := ti]> (topics_of m) /\
      topic_as_requested npar rfactor config (adminSupported m) ti /\
      (topics_of m !! topic = Some ti \/
       default [] (ti_partitions <$> topics_of m !! topic) = [] /\ ti_partitions ti = seqZ 0 npar)) as Hcreate.
  { intros m2 Hc Hempty. destruct (createTopic_ok _ _ _ _ _ _ Hc Hn Hr Hnd) as (Ec2 & ti & Ht2 & Hp & [Hq1 Hq2]).
    split; [by rewrite Ec2|]. exists ti. rewrite Ht2, Et. split_and!; [done|split; auto|by right]. }
  assert (r = Err ErrTopicNotFound \/ exists ps, r = Ok ps) as [->|[ps ->]].
  { destruct r as [ps|[]]; try done; [right; by exists ps|by left]. }
  { apply Hcreate; [done|]. by rewrite Hr'. }
  destruct (topics_of m !! topic) as [ti|] eqn:Eti; [|by destruct Hr']. destruct Hr' as [Hne [= Hr']]. simpl in *.
  destruct (length ps =? 0)%nat eqn:El; simp_bool.
  { apply Hcreate; [done|]. rewrite Hr'. by destruct ps. }
  assert (topics_of m = <[topic := ti]> (topics_of m)) as Eins by (symmetry; by apply insert_id).
  destruct (Z.eqb_spec (Z.of_nat (length ps)) npar) as [Hlen|]; simpl in H.
  2:{ unfold handleConfigMismatch in H. by rewrite Ec, Hb in H. }
  rewrite Ea in H. destruct (adminSupported m) eqn:Eadm.
  - injection H as Hchk <-. split; [done|]. exists ti. rewrite Et. split_and!; [done| |by left].
    eapply check_admin_ok; [by rewrite Ec|by rewrite Et|by rewrite Hr'|lia|done].
  - injection H as <-. split; [done|]. exists ti. rewrite Et. split_and!; [done| |by left].
    split; [by rewrite Hr'|done].
Qed.

(** C13. If mismatches are to fail and [ensureExists] reports no error, for a positive number of partitions
    and replicas that fit the int32 and int16 of the request, the cluster has the topic as requested: the number of partitions, and, as far as the cluster can be asked, the smallest
    number of replicas of a partition and every configuration entry.  No other topic changes, and a
    topic that exists is not touched. *)
Theorem ensureExists_establishes topic npar rfactor config m m' :
  tmc_MismatchBehavior (tm_config m) = TMConfigMismatchBehaviorFail ->
  0 < npar < 2 ^ 31 -> 0 < rfactor < 2 ^ 15 -> NoDup config.*1 ->
  ensureExists topic npar rfactor config m = (None, m') ->
  exists ti, topics_of m' !! topic = Some ti /\
    topic_as_requested npar rfactor config (adminSupported m) ti /\
    (forall t, t <> topic -> topics_of m' !! t = topics_of m !! t) /\
    (forall ti0, topics_of m !! topic = Some ti0 -> ti_partitions ti0 <> [] -> ti = ti0).
Proof.
  intros Hb Hn Hr Hnd H. destruct (ensureExists_ok _ _ _ _ _ _ Hb Hn Hr Hnd H) as (_ & ti & Ht & Hreq & Hold).
  exists ti. rewrite Ht. split_and!; [by rewrite lookup_insert_eq|done| |].
  - intros t Hne. by rewrite lookup_insert_ne.
  - intros ti0 Hti0 Hne. destruct Hold as [?|[Hd _]]; [congruence|]. by rewrite Hti0 in Hd.
Qed.
End spec.

(** ** The interface *)

(** [type TopicManager interface] *)
Class TopicManager (M : Type) : Type := {
  tm_EnsureTableExists : string -> Z -> M -> option error * M;
  tm_EnsureStreamExists : string -> Z -> M -> option error * M;
  tm_EnsureTopicExists : string -> Z -> Z -> list (string * string) -> M -> option error * M;
  tm_Partitions : string -> M -> res (list Z) * M;
  tm_GetOffset : string -> Z -> Z -> M -> res Z;
  tm_Close : M -> option error * M
}.

(** What a topic manager that fails on mismatches promises: [tm_parts] are the partitions of the
    topics; asking for them changes nothing; a topic that was ensured to exist has the requested
    number of partitions, and the partitions of a topic never change. *)
Class TopicManagerLaws (M : Type) `{TM : TopicManager M} : Type := {
  tm_strict : M -> Prop;
  tm_parts : M -> string -> option (list Z);
  tml_Partitions t m r m' : tm_strict m -> tm_Partitions t m = (r, m') ->
    tm_strict m' /\ (forall t', tm_parts m' t' = tm_parts m t') /\ (forall ps, r = Ok ps -> ps <> [] /\ tm_parts m t = Some ps);
  tml_Stream t n m m' : tm_strict m -> 0 < n < 2 ^ 31 -> tm_EnsureStreamExists t n m = (None, m') ->
    tm_strict m' /\ (exists ps, tm_parts m' t = Some ps /\ Z.of_nat (length ps) = n) /\
    (forall t' ps, tm_parts m t' = Some ps -> ps <> [] -> tm_parts m' t' = Some ps);
  tml_Table t n m m' : tm_strict m -> 0 < n < 2 ^ 31 -> tm_EnsureTableExists t n m = (None, m') ->
    tm_strict m' /\ (exists ps, tm_parts m' t = Some ps /\ Z.of_nat (length ps) = n) /\
    (forall t' ps, tm_parts m t' = Some ps -> ps <> [] -> tm_parts m' t' = Some ps);
  tml_Close m err m' : tm_Close m = (err, m') -> forall t, tm_parts m' t = tm_parts m t
}.

#[export] Instance topicManager_TopicManager K `{Cluster K} : TopicManager (topicManager K) := {
  tm_EnsureTableExists := topicManager_EnsureTableExists;
  tm_EnsureStreamExists := topicManager_EnsureStreamExists;
  tm_EnsureTopicExists := topicManager_EnsureTopicExists;
  tm_Partitions := topicManager_Partitions;
  tm_GetOffset := topicManager_GetOffset;
  tm_Close := topicManager_Close
}.

(** The configurations for which the manager is strict. *)
Definition strict_config (c : TopicManagerConfig) : Prop :=
  tmc_MismatchBehavior c = TMConfigMismatchBehaviorFail /\
  0 < tmc_Stream_Replication c < 2 ^ 15 /\ 0 < tmc_Table_Replication c < 2 ^ 15.

Section laws.
Context {K : Type} {CL : Cluster K} {KL : ClusterLaws K}.
Implicit Types m : topicManager K.

Definition parts_of m (t : string) : option (list Z) := ti_partitions <$> topics_of m !! t.

Lemma ensureExists_parts topic npar rfactor config m m' :
  strict_config (tm_config m) -> 0 < npar < 2 ^ 31 -> 0 < rfactor < 2 ^ 15 -> NoDup config.*1 ->
  ensureExists topic npar rfactor config m = (None, m') ->
  strict_config (tm_config m') /\ (exists ps, parts_of m' topic = Some ps /\ Z.of_nat (length ps) = npar) /\
  (forall t ps, parts_of m t = Some ps -> ps <> [] -> parts_of m' t = Some ps).
Proof.
  intros Hs Hn Hr Hnd H. destruct (ensureExists_ok _ _ _ _ _ _ (proj1 Hs) Hn Hr Hnd H) as (Ec & ti & Ht & [Hreq _] & Hold).
  rewrite Ec. unfold parts_of. rewrite Ht. split_and!; [done| |].
  - exists (ti_partitions ti). by rewrite lookup_insert_eq.
  - intros t ps Hps Hne. rewrite lookup_insert. case_decide as Et; [subst t|done].
    destruct Hold as [Hold|[Hold _]]; rewrite Hold in Hps || rewrite Hps in Hold; done.
Qed.

#[export] Instance topicManager_Laws : TopicManagerLaws (topicManager K).
Proof.
  refine {| tm_strict := fun m => strict_config (tm_config m); tm_parts := parts_of |}.
  - intros t m r m' Hs H. destruct (Partitions_ok _ _ _ _ H) as (Et & Ec & _ & Hr). unfold parts_of. rewrite Et, Ec.
    split_and!; [done|done|]. by intros ps ->.
  - intros t n m m' Hs Hn H. eapply ensureExists_parts; [done|done| | |exact H]; [apply Hs|].
    repeat constructor; set_solver.
  - intros t n m m' Hs Hn H. eapply ensureExists_parts; [done|done| | |exact H]; [apply Hs|].
    repeat constructor; set_solver.
  - intros m err m'. simpl. unfold topicManager_Close. destruct (client_Close (tm_client m)) as [e k] eqn:E.
    intros [= <- <-] t. unfold parts_of, topics_of. simpl. by rewrite (law_close _ _ _ E).
Defined.
End laws.

(** ** A reference cluster *)

(** A cluster held in a map, with what was created of each topic. *)
Record mapcluster : Type := mkMapcluster { mc_topics : gmap string TopicDetail; mc_admin : bool }.

Definition mc_info (d : TopicDetail) : topic_info :=
  mkTopicInfo (seqZ 0 (NumPartitions d))
    ((fun _ => 0 :: replicate (Z.to_nat (ReplicationFactor d - 1)) 0) <$> seqZ 0 (NumPartitions d)) (ConfigEntries d).

Definition mc_lookup (t : string) (k : mapcluster) : option topic_info := mc_info <$> mc_topics k !! t.

Definition mc_create (t : string) (d : TopicDetail) (k : mapcluster) : option error * mapcluster :=
  match mc_topics k !! t with
  | Some _ => (Some (ErrNew "topic already exists"), k)
  | None =>
      if (0 <? NumPartitions d) && (0 <? ReplicationFactor d)
      then (None, mkMapcluster (<[t := d]> (mc_topics k)) (mc_admin k))
      else (Some (ErrNew "invalid topic detail"), k)
  end.

Definition mc_get {A} (f : topic_info -> A) (t : string) (k : mapcluster) : res A :=
  match mc_lookup t k with Some ti => Ok (f ti) | None => Err (ErrNew "unknown topic") end.

#[export] Instance mapcluster_Cluster : Cluster mapcluster := {
  client_RefreshMetadata k := (None, k);
  client_Topics k := Ok (map_to_list (mc_topics k)).*1;
  client_Partitions t k :=
    match mc_get ti_partitions t k with
    | Ok [] => Err (ErrNew "unknown topic")
    | r => r
    end;
  client_GetOffset _ _ _ _ := Ok 0;
  client_Close k := (None, k);
  client_V0_11 := mc_admin;
  admin_CreateTopic := mc_create;
  admin_DescribeConfig := mc_get (fun ti => map_to_list (ti_config ti));
  admin_DescribeTopics := mc_get (fun ti => [ti_replicas ti])
}.

#[export] Instance mapcluster_Laws : ClusterLaws mapcluster.
Proof.
  refine {| k_topics := fun k => mc_info <$> mc_topics k; k_fresh := fun _ => True |}; cbn.
  - by intros k err k' [= <- <-].
  - by intros k err k' [= <- <-].
  - intros k l t _ [= <-]. rewrite lookup_fmap, fmap_is_Some, list_elem_of_fmap. split.
    + intros ([t' d] & -> & Hd%elem_of_map_to_list). by exists d.
    + intros [d Hd]. exists (t, d). split; [done|]. by apply elem_of_map_to_list.
  - intros k t ps _. unfold mc_get, mc_lookup. rewrite lookup_fmap. destruct (_ !! t) as [d|]; [|done]. simpl.
    destruct (seqZ 0 _) eqn:E; [done|]. intros [= <-]. split; [done|]. by exists (mc_info d).
  - intros k t. unfold mc_get. destruct (mc_lookup t k) as [ti|]; [|done]. by destruct (ti_partitions ti).
  - intros k t d k'. unfold mc_create. destruct (_ !! t); [done|].
    destruct (0 <? NumPartitions d) eqn:E1, (0 <? ReplicationFactor d) eqn:E2; intros [= <-]. simp_bool.
    exists (mc_info d). cbn. rewrite fmap_insert. split_and!; [done|done| |done].
    apply Forall_fmap, Forall_forall. intros i _. cbn. rewrite length_replicate. lia.
  - intros k t l key value. unfold mc_get, mc_lookup. rewrite lookup_fmap. destruct (_ !! t) as [d|]; [|done]. intros [= <-].
    exists (mc_info d). split; [done|]. split; [apply NoDup_fst_map_to_list|]. by rewrite elem_of_map_to_list.
  - intros k t l. unfold mc_get, mc_lookup. rewrite lookup_fmap. destruct (_ !! t) as [d|]; [|done]. intros [= <-]. by eexists.
  - intros k t ti. rewrite lookup_fmap. intros (d & _ & ->)%fmap_Some. cbn. rewrite length_fmap. split; [done|].
    apply Forall_fmap, Forall_forall. by intros i _.
Defined.

Definition demo_tmc : TopicManagerConfig := mkTMC 3 "" 2 3600000000000 "" TMConfigMismatchBehaviorFail.
Definition demo_manager : topicManager mapcluster := mkTopicManager (mkMapcluster ∅ true) demo_tmc.

Lemma ensureExists_establishes_witness :
  let m' := (ensureExists "t" 4 3 [("cleanup.policy", "compact")] demo_manager).2 in
  exists ti, topics_of m' !! "t" = Some ti /\
    topic_as_requested 4 3 [("cleanup.policy", "compact")] (adminSupported demo_manager) ti /\
    (forall t, t <> "t" -> topics_of m' !! t = topics_of demo_manager !! t) /\
    (forall ti0, topics_of demo_manager !! "t" = Some ti0 -> ti_partitions ti0 <> [] -> ti = ti0).
Proof.
  apply (ensureExists_establishes "t" 4 3 [("cleanup.policy", "compact")] demo_manager).
  - reflexivity.
  - lia.
  - lia.
  - apply NoDup_singleton.
  - vm_compute. reflexivity.
Defined.
