(* ===== verification/Processor.v ===== *)
(** * Processors

    [processor.go]: preparing the topics of a group, the sessions of a consumer group with their
    partition processors, and looking up a key in the group table. *)
From Stdlib Require Import ZArith Lia.
From stdpp Require Import base gmap strings list sorting.
From S2P Require Import Prelude Multierr Signal Codec Storage Memory MergeIterator Headers Stats Proxy PartitionTable Recovery Promise Graph View Context PartitionProcessor Copartition TopicManager.
Open Scope Z_scope.

(** ** Data *)

Definition ProcStateIdle : Z := 0.
Definition ProcStateStarting : Z := 1.
Definition ProcStateSetup : Z := 2.
Definition ProcStateRunning : Z := 3.
Definition ProcStateStopping : Z := 4.

(** [type Assignment map[int32]int64]; a nil map is [None]. *)
Abbreviation Assignment := (gmap Z Z).

(** The partitions in an assignment; reading a nil map. *)
Definition assignment_parts (a : option Assignment) : Assignment := default ∅ a.

(** The loop over the claims of a session, in the order the map is visited. *)
Fixpoint check_claims (claims : list (string * list Z)) (assignment : option Assignment) : res (option Assignment) :=
  match claims with
  | [] => Ok assignment
  | (_, claim) :: claims =>
      match assignment with
      | None => check_claims claims (Some (fold_left (fun a part => <[part := OffsetNewest]> a) claim ∅))
      | Some a =>
          if negb (length claim =? size a)%nat then Err (ErrNew "session claims are not copartitioned")
          else if forallb (fun part => bool_decide (is_Some (a !! part))) claim then check_claims claims (Some a)
          else Err (ErrNew "session claims are not copartitioned")
      end
  end.

Definition assignmentFromSession (claims : list (string * list Z)) : res (option Assignment) :=
  check_claims claims None.

(** ** Topics *)

Section topics.
Context {M : Type} {TM : TopicManager M} {CB : Type}.

(** [ensureCopartitioned]: the loop over the topics. *)
Fixpoint ensure_copartitioned (topics : list string) (npar : Z) (tm : M) : res Z * M :=
  match topics with
  | [] => (Ok npar, tm)
  | topic :: topics =>
      let '(r, tm) := tm_Partitions topic tm in
      match r with
      | Err e => (Err (ErrWrap "Error fetching partitions for topic" e), tm)
      | Ok partitions =>
          if negb (gapless 0 partitions) then (Err (ErrNew "Topic has partition gap"), tm)
          else
            let npar := if npar =? 0 then Z.of_nat (length partitions) else npar in
            if negb (Z.of_nat (length partitions) =? npar) then (Err (ErrNew "topics are not copartitioned!"), tm)
            else ensure_copartitioned topics npar tm
      end
  end.

Definition ensureCopartitioned (tm : M) (topics : list string) : res Z * M := ensure_copartitioned topics 0 tm.

(** The body of [prepareTopics] between creating and closing the topic manager. *)
Definition prepare_topics (gg : GroupGraph CB) (tm : M) : res Z * M :=
  let '(r, tm) := ensureCopartitioned tm (Topics (copartitioned gg)) in
  match r with
  | Err e => (Err e, tm)
  | Ok npar =>
      let '(err, tm) := match LoopStream gg with
                        | Some ls => tm_EnsureStreamExists (td_name ls) npar tm
                        | None => (None, tm)
                        end in
      match err with
      | Some e => (Err e, tm)
      | None =>
          let '(err, tm) := match GroupTable gg with
                            | Some gt => tm_EnsureTableExists (td_name gt) npar tm
                            | None => (None, tm)
                            end in
          (match err with Some e => Err e | None => Ok npar end, tm)
      end
  end.

(** [prepareTopics], given the result of building the topic manager. *)
Definition prepareTopics (topicmgr : res M) (gg : GroupGraph CB) : res Z * option M :=
  match topicmgr with
  | Err e => (Err (ErrWrap "Error creating topic manager" e), None)
  | Ok tm =>
      let '(r, tm) := prepare_topics gg tm in
      let '(e, tm) := tm_Close tm in
      (match e, r with
       | Some e, Ok _ => Err (ErrWrap "Error closing topic manager" e)
       | _, _ => r
       end, Some tm)
  end.

(** The loop of [findStatefulPartitions]; [last] are the values of the two variables. *)
Fixpoint find_stateful (edges : list topicDef) (last : list Z * option error) (tm : M)
  : (list Z * option error) * M :=
  match edges with
  | [] => (last, tm)
  | edge :: edges =>
      let '(r, tm) := tm_Partitions (td_name edge) tm in
      match r with
      | Ok allPartitions =>
          if (0 <? length allPartitions)%nat then ((allPartitions, None), tm)
          else find_stateful edges (allPartitions, None) tm
      | Err ErrTopicNotFound => find_stateful edges ([], Some ErrTopicNotFound) tm
      | Err e => (([], Some e), tm)
      end
  end.

Definition findStatefulPartitions (gg : GroupGraph CB) (tm : M) : (list Z * option error) * M :=
  find_stateful (chainEdges [gg_groupTable gg; gg_inputTables gg]) ([], None) tm.

(** The topics the consumer group consumes. *)
Definition consumed_topics (gg : GroupGraph CB) : list string :=
  Topics (InputStreams gg) ++ match LoopStream gg with Some l => [td_name l] | None => [] end.
End topics.

(** ** The processor *)

Section processor.
Context {S I : Type} {ST : Storage S I} {IT : Iterator I} {CB M : Type} {TM : TopicManager M}.

(** The fields of [poptions] (see the file on options) that the processor uses. *)
Record proc_options : Type := mkPoptions {
  po_hasher : string -> res Z;
  po_updateCallback : UpdateCallback S;
  po_nilHandling : NilHandling;
  po_headers : Headers;
  po_hotStandby : bool;
  po_recoverAhead : bool;
  po_rebalanceCallback : bool
}.

(** [type Processor struct]; a partition processor is kept with its run mode.  [g_rebalances] are
    the assignments passed to the rebalance callback, [g_done] whether the channel is closed. *)
Record Processor : Type := mkProcessor {
  g_opts : proc_options;
  g_graph : GroupGraph CB;
  g_partitions : gmap Z (PPRunMode * PartitionProcessor S CB);
  g_lookupTables : gmap string (View S);
  g_partitionCount : Z;
  g_tmgr : M;
  g_state : Signal;
  g_rebalances : list (option Assignment);
  g_done : bool
}.

Definition g_set_partitions (ps : gmap Z (PPRunMode * PartitionProcessor S CB)) (g : Processor) : Processor :=
  mkProcessor (g_opts g) (g_graph g) ps (g_lookupTables g) (g_partitionCount g) (g_tmgr g) (g_state g) (g_rebalances g) (g_done g).
Definition g_set_state (s : Signal) (g : Processor) : Processor :=
  mkProcessor (g_opts g) (g_graph g) (g_partitions g) (g_lookupTables g) (g_partitionCount g) (g_tmgr g) s (g_rebalances g) (g_done g).
Definition g_set_tmgr (m : M) (g : Processor) : Processor :=
  mkProcessor (g_opts g) (g_graph g) (g_partitions g) (g_lookupTables g) (g_partitionCount g) m (g_state g) (g_rebalances g) (g_done g).
Definition g_rebalance (a : option Assignment) (g : Processor) : Processor :=
  mkProcessor (g_opts g) (g_graph g) (g_partitions g) (g_lookupTables g) (g_partitionCount g) (g_tmgr g) (g_state g)
    (if po_rebalanceCallback (g_opts g) then g_rebalances g ++ [a] else g_rebalances g) (g_done g).
Definition g_close (g : Processor) : Processor :=
  mkProcessor (g_opts g) (g_graph g) (g_partitions g) (g_lookupTables g) (g_partitionCount g) (g_tmgr g) (g_state g) (g_rebalances g) true.

Definition g_SetState (pick : nat -> bool) (st : Z) (g : Processor) : outcome Processor :=
  s ← Signal_SetState pick st (g_state g); Ret (g_set_state s g).

Definition newProcSignal : outcome Signal :=
  Signal_SetState (fun _ => false) ProcStateIdle
    (NewSignal [ProcStateIdle; ProcStateStarting; ProcStateSetup; ProcStateRunning; ProcStateStopping]).

(** The loop that creates the views of the lookup tables. *)
Fixpoint create_views (newView : string -> option Codec -> outcome (res (View S))) (tables : list topicDef)
    (views : gmap string (View S)) : outcome (res (gmap string (View S))) :=
  match tables with
  | [] => Ret (Ok views)
  | t :: tables =>
      r ← newView (td_name t) (td_codec t);
      match r with
      | Err e => Ret (Err (ErrWrap "error creating view" e))
      | Ok view => create_views newView tables (<[td_name t := view]> views)
      end
  end.

(** [NewProcessor], given the results of applying the options and of building the topic manager;
    [tmgr] is the topic manager that [Run] will build. *)
Definition NewProcessor (gg : GroupGraph CB) (opts : res proc_options) (topicmgr : res M)
    (newView : string -> option Codec -> outcome (res (View S))) (tmgr : M) : outcome (res Processor) :=
  match Validate gg with
  | Some e => Ret (Err e)
  | None =>
      match opts with
      | Err e => Ret (Err (ErrWrap "error applying options" e))
      | Ok opts =>
          match (prepareTopics topicmgr gg).1 with
          | Err e => Ret (Err e)
          | Ok npar =>
              r ← create_views newView (LookupTables gg) ∅;
              match r with
              | Err e => Ret (Err e)
              | Ok lookupTables =>
                  state ← newProcSignal;
                  Ret (Ok (mkProcessor opts gg ∅ lookupTables npar tmgr state [] false))
              end
          end
      end
  end.

Definition isStateless (g : Processor) : bool := match GroupTable (g_graph g) with None => true | Some _ => false end.

Definition getPartProc (partition : Z) (g : Processor) : option (PPRunMode * PartitionProcessor S CB) :=
  g_partitions g !! partition.

Definition setPartProc (partition : Z) (pproc : option (PPRunMode * PartitionProcessor S CB)) (g : Processor) : Processor :=
  g_set_partitions (match pproc with
                    | None => delete partition (g_partitions g)
                    | Some pproc => <[partition := pproc]> (g_partitions g)
                    end) g.

Definition processor_hash (key : string) (g : Processor) : res Z :=
  match po_hasher (g_opts g) key with
  | Err e => Err e
  | Ok sum =>
      let hash := int32 sum in
      let hash := if hash <? 0 then int32 (- hash) else hash in
      if g_partitionCount g =? 0 then Err (ErrNew "can't hash with 0 partitions")
      else Ok (Z.rem hash (int32 (g_partitionCount g)))
  end.

(** [find]: the storage proxy of the table, without the check that the table is running. *)
Definition processor_find (key : string) (g : Processor) : outcome (res (option (storageProxy S))) :=
  match processor_hash key g with
  | Err e => Ret (Err e)
  | Ok p =>
      match getPartProc p g with
      | None => Ret (Err (ErrNew "this processor does not contain partition"))
      | Some (_, pproc) =>
          match pp_table pproc with
          | None => Panic (ErrNew "nil pointer dereference")
          | Some table => Ret (Ok (pt_st table))
          end
      end
  end.

Definition processor_Get (key : string) (g : Processor) : outcome (res value) :=
  match GroupTable (g_graph g) with
  | None => Ret (Err (ErrNew "can't get a value from stateless processor"))
  | Some gt =>
      r ← processor_find key g;
      match r with
      | Err e => Ret (Err e)
      | Ok None => Panic (ErrNew "nil pointer dereference")
      | Ok (Some s) =>
          match st_Get key (sp_Storage s) with
          | Err e => Ret (Err (ErrWrap "error getting" e))
          | Ok None => Ret (Ok VNil)
          | Ok (Some val) =>
              match td_codec gt with
              | None => Panic (ErrNew "nil pointer dereference")
              | Some codec =>
                  Ret (match Decode codec (Some val) with
                       | Err e => Err (ErrWrap "error decoding" e)
                       | Ok value => Ok value
                       end)
              end
          end
      end
  end.

Definition processor_Recovered (g : Processor) : bool := Signal_IsState ProcStateRunning (g_state g).

(** ** Sessions *)

(** [createPartitionProcessor], given the result of the backoff builder. *)
Definition createPartitionProcessor (partition : Z) (backoff : option error) (g : Processor)
  : outcome (res (PartitionProcessor S CB)) :=
  match getPartProc partition g with
  | Some _ => Ret (Err (ErrNew "partition already exists"))
  | None =>
      match backoff with
      | Some e => Ret (Err (ErrWrap "could not build backoff handler" e))
      | None =>
          pp ← newPartitionProcessor partition (g_graph g) (po_updateCallback (g_opts g)) (po_nilHandling (g_opts g))
                 (po_headers (g_opts g)) (g_lookupTables g);
          Ret (Ok pp)
      end
  end.

(** What the world does in a session: the results of the backoff builder per partition, of
    recovering the tables of a partition, of its runner group and of closing its tables, and whether
    the context is done when the tables are recovered.  [visit] is the order in which a map is
    visited. *)
Record session_env : Type := mkSessionEnv {
  se_backoff : Z -> option error;
  se_recovered : Z -> list (option error);
  se_ctxDone : bool;
  se_runner : Z -> option error;
  se_closed : Z -> list (option error);
  se_visit : list Z -> list Z
}.

(** The loop over the assignment. *)
Fixpoint create_active (env : session_env) (parts : list Z) (g : Processor) : outcome (option error * Processor) :=
  match parts with
  | [] => Ret (None, g)
  | partition :: parts =>
      r ← createPartitionProcessor partition (se_backoff env partition) g;
      match r with
      | Err e => Ret (Some (ErrWrap "Error creating partition processor" e), g)
      | Ok pproc => create_active env parts (setPartProc partition (Some (runModeActive, pproc)) g)
      end
  end.

(** The loop over the partitions for standby. *)
Fixpoint create_standby (env : session_env) (parts : list Z) (g : Processor) : outcome (option error * Processor) :=
  match parts with
  | [] => Ret (None, g)
  | standby :: parts =>
      match getPartProc standby g with
      | Some _ => create_standby env parts g
      | None =>
          r ← createPartitionProcessor standby (se_backoff env standby) g;
          match r with
          | Err e => Ret (Some (ErrWrap "Error creating partition processor" e), g)
          | Ok pproc => create_standby env parts (setPartProc standby (Some (runModePassive, pproc)) g)
          end
      end
  end.

(** The result of [Start] of one partition processor. *)
Definition started (env : session_env) (entry : Z * (PPRunMode * PartitionProcessor S CB)) : option error :=
  let '(partition, (mode, pproc)) := entry in
  (pp_Start mode (match pp_table pproc with Some _ => true | None => false end)
     (Topics (JointTables (pp_graph pproc))) (se_recovered env partition) (se_ctxDone env)).1.

Definition start_all (env : session_env) (g : Processor) : option error :=
  Errors_NilOrError (ErrGroup_Wait NewErrGroup (started env <$> map_to_list (g_partitions g))).1.

(** The body of [Setup] after the state has been set. *)
Definition setup_session (env : session_env) (claims : list (string * list Z)) (g : Processor)
  : outcome (option error * Processor) :=
  match assignmentFromSession claims with
  | Err e => Ret (Some (ErrWrap "Error verifying assignment from session" e), g)
  | Ok assignment =>
      let g := g_rebalance assignment g in
      '(err, g) ← create_active env (se_visit env (map_to_list (assignment_parts assignment)).*1) g;
      match err with
      | Some e => Ret (Some e, g)
      | None =>
          if po_hotStandby (g_opts g) then
            let '((allPartitions, err), tm) := findStatefulPartitions (g_graph g) (g_tmgr g) in
            let g := g_set_tmgr tm g in
            match err with
            | Some _ => Ret (Some (ErrNew "Error finding partitions for standby"), g)
            | None =>
                '(err, g) ← create_standby env allPartitions g;
                match err with
                | Some e => Ret (Some e, g)
                | None => Ret (start_all env g, g)
                end
            end
          else Ret (start_all env g, g)
      end
  end.

(** [Setup]: the deferred state change happens on every return. *)
Definition Setup (pick : nat -> bool) (env : session_env) (claims : list (string * list Z)) (g : Processor)
  : outcome (option error * Processor) :=
  g ← g_SetState pick ProcStateSetup g;
  '(err, g) ← setup_session env claims g;
  g ← g_SetState pick ProcStateRunning g;
  Ret (err, g).

(** The goroutines of [Cleanup]. *)
Definition stopped (env : session_env) (entry : Z * (PPRunMode * PartitionProcessor S CB)) : option error :=
  match pp_Stop (se_runner env entry.1) (se_closed env entry.1) with
  | Some e => Some (ErrWrap "error stopping partition processor" e)
  | None => None
  end.

Definition Cleanup (pick : nat -> bool) (env : session_env) (g : Processor) : outcome (option error * Processor) :=
  g ← g_SetState pick ProcStateStopping g;
  let err := Errors_NilOrError (ErrGroup_Wait NewErrGroup (stopped env <$> map_to_list (g_partitions g))).1 in
  g ← g_SetState pick ProcStateIdle (g_set_partitions ∅ g);
  Ret (err, g).

(** ** Consuming a claim *)

(** What the [select]s of [ConsumeClaim] receive: a message that is handed to the partition processor,
    one that arrives when the partition processor has ended, the end of the claim, or the end of the
    partition processor. *)
Inductive claim_event : Type :=
| CMessage (msg : ConsumerMessage)
| CMessageEnded (msg : ConsumerMessage) (err : option error)
| CClosed
| CEnded (err : option error).

Definition claim_result (err : option error) : option error :=
  match err with Some e => Some (ErrProcessing e) | None => None end.

(** The loop: the messages handed on and the returned error, [None] while it is still running. *)
Fixpoint claim_loop (evs : list claim_event) (input : list ConsumerMessage)
  : list ConsumerMessage * option (option error) :=
  match evs with
  | [] => (input, None)
  | CMessage msg :: evs => claim_loop evs (input ++ [msg])
  | CMessageEnded _ err :: _ => (input, Some (claim_result err))
  | CClosed :: _ => (input, Some None)
  | CEnded err :: _ => (input, Some (claim_result err))
  end.

Definition ConsumeClaim (partition : Z) (evs : list claim_event) (g : Processor)
  : list ConsumerMessage * option (option error) :=
  match getPartProc partition g with
  | None => ([], Some (Some (ErrNew "No partition to handle input in topic")))
  | Some _ => claim_loop evs []
  end.

(** ** Running *)

(** The partition processors created to recover ahead; each is checked against those registered. *)
Fixpoint create_ahead (backoff : Z -> option error) (parts : list Z) (g : Processor) : outcome (option error) :=
  match parts with
  | [] => Ret None
  | part :: parts =>
      r ← createPartitionProcessor part (backoff part) g;
      match r with
      | Err e => Ret (Some (ErrWrap "Error creating partition processor for recover-ahead" e))
      | Ok _ => create_ahead backoff parts g
      end
  end.

(** How the waiting ends: the context is closed, or the group of goroutines has ended with the given
    results. *)
Inductive startup_end : Type := StartupCtxDone | StartupDone (results : list (option error)).

(** [waitForStartupTables].  What the channel of the group delivers is a pointer to its errors, which
    is never nil, and it is returned as an error. *)
Definition waitForStartupTables (backoff : Z -> option error) (fin : startup_end) (g : Processor)
  : outcome (option error * Processor) :=
  let wait :=
    match fin with
    | StartupCtxDone => Some (ErrNew "context closed while waiting for startup tables to become ready")
    | StartupDone results => Some (ErrMulti (errs (ErrGroup_Wait NewErrGroup results).1))
    end in
  if po_recoverAhead (g_opts g) then
    let '((partitions, err), tm) := findStatefulPartitions (g_graph g) (g_tmgr g) in
    let g := g_set_tmgr tm g in
    match err with
    | Some e => Ret (Some (ErrWrap "error finding dependent partitions" e), g)
    | None =>
        err ← create_ahead backoff partitions g;
        match err with
        | Some e => Ret (Some e, g)
        | None => Ret (wait, g)
        end
    end
  else Ret (wait, g).

(** What the goroutine that reads the errors of the consumer group sees. *)
Inductive group_event : Type := GError (err : error) | GClosed | GCtxDone.

(** [errors.As(err, &cbErr)]; an error wrapped with %v is not unwrapped. *)
Definition as_processing (err : error) : option error :=
  match err with ErrProcessing _ => Some err | _ => None end.

(** The goroutine: the returned error, [None] while it is running.  After the context is done the
    remaining errors are only logged. *)
Fixpoint consumer_errors (drain : bool) (evs : list group_event) : option (option error) :=
  match evs with
  | [] => None
  | GClosed :: _ => Some None
  | GCtxDone :: evs => consumer_errors true evs
  | GError err :: evs =>
      if drain then consumer_errors drain evs
      else match as_processing err with
           | Some e => Some (Some e)
           | None => consumer_errors drain evs
           end
  end.

(** The iterations of [rebalanceLoop]: [Consume] returns, before or after the context is done. *)
Inductive consume_event : Type := Consumed (err : option error) | ConsumedCtxDone (err : option error).

(** [rebalanceLoop], given the result of closing the consumer group: the returned error, [None] while
    it is running. *)
Fixpoint rebalanceLoop (evs : list consume_event) (closed : option error) : option (option error) :=
  let leave err := Some (collect_return (Errors_Collect (Errors_Collect new_Errors err) closed) None) in
  match evs with
  | [] => None
  | Consumed None :: evs => rebalanceLoop evs closed
  | Consumed (Some e) :: _ => leave (Some e)
  | ConsumedCtxDone err :: _ => leave err
  end.

(** The results of the builders used by [Run], of its goroutines and of closing the producer. *)
Record run_env : Type := mkRunEnv {
  re_consumerGroup : option error;
  re_consumerSarama : option error;
  re_topicmgr : res M;
  re_producer : option error;
  re_producerClosed : option error;
  re_backoff : Z -> option error;
  re_startup : startup_end;
  re_goroutines : list (option error)
}.

(** [Run]: the result of waiting for the startup tables is not used. *)
Definition processor_Run (pick : nat -> bool) (env : run_env) (g : Processor) : outcome (option error * Processor) :=
  if g_done g then Ret (Some (ErrNew "error running processor: it was already run and terminated"), g)
  else
    g ← g_SetState pick ProcStateStarting g;
    '(rerr, merrors, g) ←
      match re_consumerGroup env, re_consumerSarama env, re_topicmgr env with
      | Some e, _, _ => Ret (Some (ErrWrap "error creating Kafka consumer" e), new_Errors, g)
      | None, Some e, _ => Ret (Some (ErrWrap "Error creating consumer for brokers" e), new_Errors, g)
      | None, None, Err e => Ret (Some (ErrWrap "Error creating topic manager for brokers" e), new_Errors, g)
      | None, None, Ok tm =>
          let g := g_set_tmgr tm g in
          match re_producer env with
          | Some e => Ret (Some (ErrWrap "error creating Kafka producer" e), new_Errors, g)
          | None =>
              '(_, g) ← waitForStartupTables (re_backoff env) (re_startup env) g;
              let rerr := Errors_NilOrError (ErrGroup_Wait NewErrGroup (re_goroutines env)).1 in
              Ret (rerr, Errors_Collect new_Errors
                           (match re_producerClosed env with
                            | Some e => Some (ErrWrap "error closing producer" e)
                            | None => None
                            end), g)
          end
      end;
    Ret (collect_return merrors rerr, g_close g).
End processor.
Arguments proc_options : clear implicits.
Arguments Processor : clear implicits.

(** ** Lemmas *)

Lemma gapless_seqZ i ps : gapless i ps = true -> ps = seqZ i (Z.of_nat (length ps)).
Proof.
  revert i. induction ps as [|p ps IH]; intros i H; simpl in H; [done|]. simp_bool. subst p.
  simpl length. rewrite Nat2Z.inj_succ, seqZ_cons by lia. f_equal. rewrite Z.pred_succ.
  rewrite <- Z.add_1_r. by apply IH.
Qed.

Section topic_facts.
Context {M : Type} {TM : TopicManager M} {TL : TopicManagerLaws M} {CB : Type}.

Lemma ensure_copartitioned_ok topics npar n (tm tm' : M) :
  tm_strict tm -> 0 <= npar -> ensure_copartitioned topics npar tm = (Ok n, tm') ->
  tm_strict tm' /\ (forall t, tm_parts tm' t = tm_parts tm t) /\ (npar <> 0 -> n = npar) /\
  (topics <> [] -> 0 < n) /\ (forall t, t ∈ topics -> tm_parts tm t = Some (seqZ 0 n)).
Proof.
  revert npar tm. induction topics as [|topic topics IH]; intros npar tm Hs Hn H; simpl in H.
  { injection H as -> ->. split_and!; try done. set_solver. }
  destruct (tm_Partitions topic tm) as [[ps|] tm1] eqn:E; [|done].
  destruct (tml_Partitions _ _ _ _ Hs E) as (Hs1 & Hp1 & Hr). destruct (Hr ps eq_refl) as [Hne Hps].
  destruct (gapless 0 ps) eqn:Eg; [|done]. apply gapless_seqZ in Eg. simpl in H.
  assert (0 < Z.of_nat (length ps)) by (destruct ps; [done|simpl; lia]).
  destruct (Z.eqb_spec (Z.of_nat (length ps)) (if npar =? 0 then Z.of_nat (length ps) else npar)) as [El|]; [|done].
  simpl in H. apply IH in H as (Hs2 & Hp2 & Hnn & _ & Hall); [|done|destruct (npar =? 0); lia].
  rewrite <- El in *. specialize (Hnn ltac:(lia)). subst n. split_and!; [done| | |lia|].
  - intros t. by rewrite Hp2, Hp1.
  - intros Hn0. by rewrite (proj2 (Z.eqb_neq npar 0)) in El.
  - intros t [->|Ht]%elem_of_cons; [by rewrite Hps, <- Eg|]. rewrite <- Hp1. by apply Hall.
Qed.

Lemma seqZ_nonempty n : 0 < n -> seqZ 0 n <> [].
Proof. intros Hn E. apply (f_equal length) in E. rewrite length_seqZ in E. simpl in E. lia. Qed.

(** C12. After [prepareTopics] has succeeded with a topic manager that fails on mismatches, the group
    is copartitioned: all input streams and joined tables have the partitions 0 up to the returned
    number, and the loop stream and the group table have as many partitions, whether they existed or
    were created. *)
Theorem prepareTopics_copartitions (gg : GroupGraph CB) (tm : M) npar tm' :
  tm_strict tm -> Validate gg = None -> prepareTopics (Ok tm) gg = (Ok npar, Some tm') -> npar < 2 ^ 31 ->
  0 < npar /\
  (forall t, t ∈ Topics (copartitioned gg) -> tm_parts tm' t = Some (seqZ 0 npar)) /\
  (forall ls, LoopStream gg = Some ls -> exists ps, tm_parts tm' (td_name ls) = Some ps /\ Z.of_nat (length ps) = npar) /\
  (forall gt, GroupTable gg = Some gt -> exists ps, tm_parts tm' (td_name gt) = Some ps /\ Z.of_nat (length ps) = npar).
Proof.
  intros Hs Hv H Hlt. unfold prepareTopics, prepare_topics, ensureCopartitioned in H.
  destruct (ensure_copartitioned _ 0 tm) as [[n|] tm1] eqn:E1; [|by destruct (tm_Close tm1) as [[]]].
  destruct (ensure_copartitioned_ok _ _ _ _ _ Hs (Z.le_refl 0) E1) as (Hs1 & Hp1 & _ & Hpos & Hall).
  assert (0 < n) as Hn.
  { apply Hpos. unfold Validate in Hv. destruct (1 <? _)%nat; [done|]. destruct (1 <? _)%nat; [done|].
    unfold copartitioned, chainEdges, Topics. simpl. by destruct (gg_inputStreams gg). }
  destruct (match LoopStream gg with Some ls => _ | None => (None, tm1) end) as [[e|] tm2] eqn:E2;
    [by destruct (tm_Close tm2) as [[]]|].
  destruct (match GroupTable gg with Some gt => _ | None => (None, tm2) end) as [err tm3] eqn:E3.
  destruct (tm_Close tm3) as [e4 tm4] eqn:E4. pose proof (tml_Close _ _ _ E4) as Hp4.
  destruct err; [by destruct e4|]. destruct e4; [done|]. injection H as -> ->.
  assert (tm_strict tm2 /\ (forall t ps, tm_parts tm1 t = Some ps -> ps <> [] -> tm_parts tm2 t = Some ps) /\
    forall ls, LoopStream gg = Some ls -> exists ps, tm_parts tm2 (td_name ls) = Some ps /\ Z.of_nat (length ps) = npar)
    as (Hs2 & Hp2 & Hl).
  { destruct (LoopStream gg) as [ls|]; [|injection E2 as ->; naive_solver].
    destruct (tml_Stream _ npar _ _ Hs1 ltac:(lia) E2) as (? & ? & ?). split_and!; [done|done|]. by intros ? [= <-]. }
  assert ((forall t ps, tm_parts tm2 t = Some ps -> ps <> [] -> tm_parts tm3 t = Some ps) /\
    forall gt, GroupTable gg = Some gt -> exists ps, tm_parts tm3 (td_name gt) = Some ps /\ Z.of_nat (length ps) = npar)
    as (Hp3 & Ht).
  { destruct (GroupTable gg) as [gt|]; [|injection E3 as ->; naive_solver].
    destruct (tml_Table _ npar _ _ Hs2 ltac:(lia) E3) as (? & ? & ?). split_and!; [done|]. by intros ? [= <-]. }
  split_and!; [done| | |].
  - intros t Hin. pose proof (seqZ_nonempty _ Hn). rewrite Hp4. apply Hp3; [|done]. apply Hp2; [|done]. by rewrite Hp1, Hall.
  - intros ls Hls. destruct (Hl ls Hls) as (ps & Hps & Hlen). exists ps. rewrite Hp4. split; [|done].
    apply Hp3; [done|]. intros ->. simpl in Hlen. lia.
  - intros gt Hgt. destruct (Ht gt Hgt) as (ps & Hps & Hlen). exists ps. by rewrite Hp4.
Qed.
End topic_facts.

Definition demo_cluster : mapcluster :=
  mkMapcluster (<["clicks" := mkTopicDetail 3 1 ∅]> (<["users-table" := mkTopicDetail 3 1 ∅]> ∅)) true.
Definition demo_proc_manager : topicManager mapcluster := mkTopicManager demo_cluster demo_tmc.

(** The topics after preparing them. *)
Definition demo_prepared : topicManager mapcluster :=
  default demo_proc_manager (prepareTopics (Ok demo_proc_manager) demo_graph).2.

Lemma prepareTopics_copartitions_witness :
  prepareTopics (Ok demo_proc_manager) demo_graph = (Ok 3, Some demo_prepared) /\
    tm_parts demo_prepared "users-table" = Some (seqZ 0 3) /\
    exists ps, tm_parts demo_prepared (loopName "g") = Some ps /\ Z.of_nat (length ps) = 3.
Proof.
  assert (prepareTopics (Ok demo_proc_manager) demo_graph = (Ok 3, Some demo_prepared)) as E.
  { apply pair_default; [vm_cast_no_check (eq_refl (Ok 3 : res Z))|vm_cast_no_check (eq_refl true)]. }
  split; [exact E|].
  destruct (prepareTopics_copartitions demo_graph demo_proc_manager 3 demo_prepared) as (_ & Hc & Hl & _).
  - split_and!; [reflexivity|simpl; lia..].
  - vm_cast_no_check (eq_refl (None : option error)).
  - exact E.
  - lia.
  - split.
    + apply Hc. apply (bool_decide_unpack _). vm_cast_no_check I.
    + apply (Hl (mkTopicDef (loopName "g") (Some StringCodec))).
      vm_cast_no_check (eq_refl (Some (mkTopicDef (loopName "g") (Some StringCodec)))).
Defined.

(** ** Assignments *)

(** The assignment of the partitions of a claim. *)
Definition assignment_of (claim : list Z) : Assignment :=
  fold_left (fun a part => <[part := OffsetNewest]> a) claim ∅.

Lemma assignment_fold claim (a : Assignment) p o :
  fold_left (fun a part => <[part := OffsetNewest]> a) claim a !! p = Some o <->
  (p ∈ claim /\ o = OffsetNewest) \/ ((p ∉ claim) /\ a !! p = Some o).
Proof.
  revert a. induction claim as [|q claim IH]; intros a; simpl; [set_solver|]. rewrite IH, lookup_insert, elem_of_cons.
  destruct (decide (p ∈ claim)); [naive_solver|]. case_decide; subst; naive_solver.
Qed.

Lemma lookup_assignment_of claim p o : assignment_of claim !! p = Some o <-> p ∈ claim /\ o = OffsetNewest.
Proof. unfold assignment_of. rewrite assignment_fold, lookup_empty. naive_solver. Qed.

Lemma assignment_of_keys claim : NoDup claim -> (map_to_list (assignment_of claim)).*1 ≡ₚ claim.
Proof.
  intros Hnd. apply NoDup_Permutation; [apply NoDup_fst_map_to_list|done|]. intros p. rewrite list_elem_of_fmap. split.
  - by intros ([q o] & -> & [? _]%elem_of_map_to_list%lookup_assignment_of).
  - intros Hp. exists (p, OffsetNewest). split; [done|]. by apply elem_of_map_to_list, lookup_assignment_of.
Qed.

Lemma size_assignment_of claim : NoDup claim -> size (assignment_of claim) = length claim.
Proof.
  intros Hnd. rewrite <- length_map_to_list, <- (length_fmap fst). by apply Permutation_length, assignment_of_keys.
Qed.

(** The check of one more claim. *)
Definition claim_agrees (a : Assignment) (claim : list Z) : bool :=
  (length claim =? size a)%nat && forallb (fun part => bool_decide (is_Some (a !! part))) claim.

Lemma claim_agrees_perm claim c :
  NoDup claim -> NoDup c -> claim_agrees (assignment_of c) claim = true <-> claim ≡ₚ c.
Proof.
  intros Hnd Hc. unfold claim_agrees. rewrite size_assignment_of, andb_true_iff, Nat.eqb_eq, forallb_forall by done.
  assert ((forall x, In x claim -> bool_decide (is_Some (assignment_of c !! x)) = true) <-> claim ⊆ c) as ->.
  { split; intros H x.
    - intros Hx%list_elem_of_In. apply H, bool_decide_eq_true in Hx as [o Ho]. by apply lookup_assignment_of in Ho as [? _].
    - intros Hx%list_elem_of_In. apply bool_decide_eq_true. exists OffsetNewest. apply lookup_assignment_of. auto. }
  split.
  - intros [Hl Hs]. apply submseteq_length_Permutation; [by apply NoDup_submseteq|lia].
  - intros Hp. split; [by apply Permutation_length|]. by rewrite Hp.
Qed.

Lemma check_claims_step t claim claims a :
  check_claims ((t, claim) :: claims) (Some a) =
    if claim_agrees a claim then check_claims claims (Some a) else Err (ErrNew "session claims are not copartitioned").
Proof. simpl. unfold claim_agrees. by destruct (length claim =? size a)%nat, (forallb _ claim). Qed.

Lemma check_claims_ok (claims : list (string * list Z)) c :
  NoDup c -> Forall (fun tc => NoDup tc.2) claims ->
  check_claims claims (Some (assignment_of c)) =
    if decide (Forall (fun tc => tc.2 ≡ₚ c) claims) then Ok (Some (assignment_of c))
    else Err (ErrNew "session claims are not copartitioned").
Proof.
  intros Hc. induction claims as [|[t claim] claims IH]; intros HF; [done|].
  apply Forall_cons in HF as [Hnd HF]. rewrite check_claims_step.
  destruct (claim_agrees (assignment_of c) claim) eqn:E.
  - apply claim_agrees_perm in E; [|done..]. rewrite IH by done. apply decide_ext. rewrite Forall_cons. naive_solver.
  - rewrite decide_False; [done|]. intros [Hp _]%Forall_cons. apply claim_agrees_perm in Hp; [|done..]. simpl in Hp. congruence.
Qed.

(** The claims of a session are accepted exactly if every claim has the partitions of the first
    one, in whatever order; the assignment then holds those partitions, each from the newest offset.
    All others are rejected. *)
Theorem assignmentFromSession_iff t claim claims :
  Forall (fun tc => NoDup tc.2) ((t, claim) :: claims) ->
  assignmentFromSession ((t, claim) :: claims) =
    if decide (Forall (fun tc => tc.2 ≡ₚ claim) claims) then Ok (Some (assignment_of claim))
    else Err (ErrNew "session claims are not copartitioned").
Proof.
  intros [Hnd HF]%Forall_cons. unfold assignmentFromSession. simpl. fold (assignment_of claim). by apply check_claims_ok.
Qed.

Lemma assignmentFromSession_iff_witness :
  assignmentFromSession [("X", [0; 1]); ("Y", [1; 0])] = Ok (Some (assignment_of [0; 1])).
Proof.
  rewrite (assignmentFromSession_iff "X" [0; 1] [("Y", [1; 0])]).
  - rewrite decide_True; [reflexivity|]. apply Forall_singleton. simpl. constructor.
  - apply (bool_decide_unpack _). vm_compute. exact I.
Defined.

(** What a member is told to consume: [plan.Add] ignores an empty list of partitions. *)
Definition claims_of (plan : list plan_entry) (m : string) : list (string * list Z) :=
  omap (fun e => let '(m', t, ps) := e in
                 if bool_decide (m' = m) && negb (length ps =? 0)%nat then Some (t, ps) else None) plan.

Lemma elem_of_claims_of plan m t ps : (t, ps) ∈ claims_of plan m <-> (m, t, ps) ∈ plan /\ ps <> [].
Proof.
  unfold claims_of. rewrite list_elem_of_omap. split.
  - intros ([[m' t'] ps'] & Hin & H). destruct (bool_decide_reflect (m' = m)); [|done].
    destruct ps'; [done|]. simplify_eq/=. done.
  - intros [Hin Hne]. exists (m, t, ps). split; [done|]. rewrite bool_decide_eq_true_2 by done. by destruct ps.
Qed.

(** All claims of a member are the range of its position. *)
Lemma claims_of_range members parts m :
  NoDup parts -> NoDup members.*1 -> Z.of_nat (length parts) < 2 ^ 31 -> 0 < Z.of_nat (length members) < 2 ^ 31 ->
  exists r, NoDup r /\ forall t ps, (t, ps) ∈ claims_of (plan_of members parts) m -> ps = r.
Proof.
  intros Hparts Hnd HP HM.
  pose proof (plan_ranges_concat members parts HP HM) as Hcat. set (rs := plan_ranges _ _) in Hcat.
  assert (NoDup (sort_Strings members.*1)) as Hids by (by rewrite sort_Strings_perm).
  assert (forall i r, rs !! i = Some r -> NoDup r) as Hrs.
  { intros i r Hi. assert (NoDup (concat rs)) as Hd by (rewrite Hcat, merge_sort_Permutation; done).
    rewrite <- (take_drop_middle _ _ _ Hi) in Hd.
    rewrite concat_app in Hd. simpl in Hd. by apply NoDup_app in Hd as (_ & _ & [? _]%NoDup_app). }
  assert (forall t ps, (t, ps) ∈ claims_of (plan_of members parts) m ->
    exists i, sort_Strings members.*1 !! i = Some m /\ rs !! i = Some ps) as Hin.
  { intros t ps [(i & x & y & Hx & Hy & (-> & -> & _)%elem_of_member_entries)%elem_of_concat_zip _]%elem_of_claims_of. eauto. }
  destruct (list_find (fun x => x = m) (sort_Strings members.*1)) as [[i x]|] eqn:Ef.
  - apply list_find_Some in Ef as (Hi & -> & _). destruct (rs !! i) as [r|] eqn:Ei.
    + exists r. split; [by eapply Hrs|]. intros t ps (j & Hj & Hps)%Hin.
      rewrite (NoDup_lookup _ _ _ _ Hids Hj Hi) in Hps. congruence.
    + exists []. split; [constructor|]. intros t ps (j & Hj & Hps)%Hin.
      rewrite (NoDup_lookup _ _ _ _ Hids Hj Hi) in Hps. congruence.
  - exists []. split; [constructor|]. intros t ps (j & Hj & Hps)%Hin. apply list_find_None in Ef.
    rewrite Forall_forall in Ef. by destruct (Ef m (list_elem_of_lookup_2 _ _ _ Hj)).
Qed.

(** C10. The plan of the balancing strategy and the processors agree: for topics that are copartitioned,
    each member accepts the session that the plan gives it, and its assignment consists of exactly the
    partitions that it was planned to consume of every topic. *)
Theorem planned_sessions_accepted s members topics parts :
  copartitioned_topics topics parts -> tolerated s members topics -> NoDup members.*1 ->
  Z.of_nat (length parts) < 2 ^ 31 -> 0 < Z.of_nat (length members) < 2 ^ 31 ->
  exists plan, Plan s members topics = Ret (Ok plan) /\
    forall m, exists a, assignmentFromSession (claims_of plan m) = Ok a /\
      forall t ps p, (t, ps) ∈ claims_of plan m -> p ∈ ps <-> is_Some (assignment_parts a !! p).
Proof.
  intros Hc Ht Hnd HP HM. exists (plan_of members parts). split; [by apply Plan_ok|]. intros m.
  destruct (claims_of_range members parts m) as (r & Hr & Hall); [apply Hc|done..|].
  destruct (claims_of (plan_of members parts) m) as [|[t0 ps0] claims] eqn:Ecl.
  { exists None. split; [done|]. by intros ? ? ? ?%not_elem_of_nil. }
  assert (ps0 = r) as -> by (apply (Hall t0); set_solver). exists (Some (assignment_of r)). split.
  - unfold assignmentFromSession. simpl. fold (assignment_of r). rewrite check_claims_ok; [|done|].
    + rewrite decide_True; [done|]. apply Forall_forall. intros [t ps] Hin. simpl. by rewrite (Hall t ps) by set_solver.
    + apply Forall_forall. intros [t ps] Hin. simpl. by rewrite (Hall t ps) by set_solver.
  - intros t ps p Hin. rewrite (Hall t ps Hin). simpl. split.
    + intros Hp. exists OffsetNewest. by apply lookup_assignment_of.
    + by intros [o [? _]%lookup_assignment_of].
Qed.

Lemma planned_sessions_accepted_witness :
  exists plan, Plan StrictCopartitioningStrategy demo_members demo_topics = Ret (Ok plan) /\
    forall m, exists a, assignmentFromSession (claims_of plan m) = Ok a /\
      forall t ps p, (t, ps) ∈ claims_of plan m -> p ∈ ps <-> is_Some (assignment_parts a !! p).
Proof.
  apply (planned_sessions_accepted StrictCopartitioningStrategy demo_members demo_topics [0; 1; 2; 3; 4]).
  - apply demo_copartitioned.
  - apply demo_tolerated.
  - by apply (bool_decide_unpack _); vm_compute.
  - done.
  - done.
Defined.

(** ** Sessions *)

Section sessions.
Context {S I : Type} {ST : Storage S I} {IT : Iterator I} {CB M : Type} {TM : TopicManager M}.
Implicit Types g : Processor S CB M.
Implicit Types env : session_env.

(** The signal of a processor that nobody observes. *)
Record proc_signal (s : Signal) : Prop := {
  psg_wf : signal_wf s;
  psg_obs : sig_observers s = [];
  psg_allowed : forall st, 0 <= st <= 4 -> is_allowed s st = true
}.

Lemma g_SetState_ok pick st g :
  proc_signal (g_state g) -> 0 <= st <= 4 ->
  exists s, g_SetState pick st g = Ret (g_set_state s g) /\ proc_signal s /\ sig_state s = st.
Proof.
  intros [W Ho Ha] Hst. destruct (SetState_quiet pick st _ W Ho (Ha st Hst)) as (s & E & W' & Ho' & Ha' & Hst').
  exists s. unfold g_SetState. rewrite E. split_and!; [done| |done]. constructor; [done|done|].
  unfold is_allowed. by rewrite Ha'.
Qed.

Lemma createPartitionProcessor_ok partition g :
  g_partitions g !! partition = None ->
  exists pp, createPartitionProcessor partition None g = Ret (Ok pp).
Proof.
  intros Hn. unfold createPartitionProcessor, getPartProc. rewrite Hn. unfold newPartitionProcessor.
  destruct (GroupTable (g_graph g)) as [t|]; simpl; [|by eexists].
  unfold newPartitionTable. change newPartitionTableState with (Ret table_signal0). simpl. by eexists.
Qed.

(** The run mode in which a partition is processed, if it is. *)
Definition mode_of g (p : Z) : option PPRunMode := fst <$> g_partitions g !! p.

(** [g'] is [g] with other partition processors. *)
Definition with_partitions g g' : Prop := exists ps, g' = g_set_partitions ps g.

Lemma with_partitions_refl g : with_partitions g g.
Proof. exists (g_partitions g). by destruct g. Qed.

Lemma with_partitions_trans g1 g2 g3 : with_partitions g1 g2 -> with_partitions g2 g3 -> with_partitions g1 g3.
Proof. intros [ps ->] [ps' ->]. by exists ps'. Qed.

Lemma setPartProc_with p pproc g : with_partitions g (setPartProc p pproc g).
Proof. by eexists. Qed.

Lemma mode_setPartProc p m pp g q :
  mode_of (setPartProc p (Some (m, pp)) g) q = if decide (p = q) then Some m else mode_of g q.
Proof. unfold mode_of. simpl. rewrite lookup_insert. by case_decide. Qed.

Lemma mode_None g p : mode_of g p = None <-> g_partitions g !! p = None.
Proof. unfold mode_of. by rewrite fmap_None. Qed.

Lemma create_active_ok env parts g :
  (forall p, se_backoff env p = None) -> NoDup parts -> (forall p, p ∈ parts -> mode_of g p = None) ->
  exists g', create_active env parts g = Ret (None, g') /\ with_partitions g g' /\
    forall p, mode_of g' p = if decide (p ∈ parts) then Some runModeActive else mode_of g p.
Proof.
  intros Hb. revert g. induction parts as [|q parts IH]; intros g Hnd Hfree.
  { exists g. split_and!; [done|apply with_partitions_refl|done]. }
  apply NoDup_cons in Hnd as [Hq Hnd]. simpl. rewrite Hb.
  destruct (createPartitionProcessor_ok q g) as [pp ->]; [apply mode_None, Hfree; left|]. simpl.
  destruct (IH (setPartProc q (Some (runModeActive, pp)) g)) as (g' & E & Hw & Hm); [done| |].
  { intros p Hp. rewrite mode_setPartProc, decide_False by (by intros ->). apply Hfree. by right. }
  exists g'. split; [done|]. split; [eapply with_partitions_trans; [apply setPartProc_with|done]|].
  intros p. rewrite Hm, mode_setPartProc. destruct (decide (p ∈ parts)).
  - by rewrite decide_True by (by right).
  - destruct (decide (q = p)) as [->|]; [by rewrite decide_True by left|].
    rewrite decide_False; [done|]. by intros [->|?]%elem_of_cons.
Qed.

Lemma create_standby_ok env parts g :
  (forall p, se_backoff env p = None) ->
  exists g', create_standby env parts g = Ret (None, g') /\ with_partitions g g' /\
    forall p, mode_of g' p = match mode_of g p with
                             | Some m => Some m
                             | None => if decide (p ∈ parts) then Some runModePassive else None
                             end.
Proof.
  intros Hb. revert g. induction parts as [|q parts IH]; intros g.
  { exists g. split_and!; [done|apply with_partitions_refl|]. intros p. by destruct (mode_of g p). }
  simpl. unfold getPartProc. destruct (g_partitions g !! q) as [[mq ppq]|] eqn:Eq.
  - destruct (IH g) as (g' & E & Hw & Hm). exists g'. split_and!; [done|done|]. intros p. rewrite Hm.
    destruct (mode_of g p) as [m|] eqn:Ep; [done|]. apply decide_ext. rewrite elem_of_cons. split; [by right|].
    intros [->|?]; [|done]. apply mode_None in Ep. congruence.
  - rewrite Hb. destruct (createPartitionProcessor_ok q g Eq) as [pp ->]. simpl.
    destruct (IH (setPartProc q (Some (runModePassive, pp)) g)) as (g' & E & Hw & Hm). exists g'. split; [done|].
    split; [eapply with_partitions_trans; [apply setPartProc_with|done]|]. intros p. rewrite Hm, mode_setPartProc.
    destruct (decide (q = p)) as [->|Hne].
    + rewrite (proj2 (mode_None g p) Eq). by rewrite decide_True by left.
    + destruct (mode_of g p); [done|]. apply decide_ext. rewrite elem_of_cons. naive_solver.
Qed.

(** The partitions to be kept on standby. *)
Definition standby_of g : list Z :=
  if po_hotStandby (g_opts g) then (findStatefulPartitions (g_graph g) (g_tmgr g)).1.1 else [].

(** Which partitions a session has, in which mode. *)
Definition session_modes g (a : option Assignment) (p : Z) : option PPRunMode :=
  if decide (is_Some (assignment_parts a !! p)) then Some runModeActive
  else if decide (p ∈ standby_of g) then Some runModePassive else None.

Lemma setup_session_ok env claims g a :
  g_partitions g = ∅ -> assignmentFromSession claims = Ok a -> (forall l, se_visit env l ≡ₚ l) ->
  (forall p, se_backoff env p = None) ->
  (po_hotStandby (g_opts g) = true -> (findStatefulPartitions (g_graph g) (g_tmgr g)).1.2 = None) ->
  exists g', setup_session env claims g = Ret (start_all env g', g') /\ g_state g' = g_state g /\
    forall p, mode_of g' p = session_modes g a p.
Proof.
  intros Hempty Ha Hv Hb Hst. unfold setup_session. rewrite Ha.
  assert (forall p, p ∈ se_visit env (map_to_list (assignment_parts a)).*1 <-> is_Some (assignment_parts a !! p)) as Hin.
  { intros p. rewrite Hv, list_elem_of_fmap. split.
    - intros ([q o] & -> & Ho%elem_of_map_to_list). by exists o.
    - intros [o Ho]. exists (p, o). split; [done|]. by apply elem_of_map_to_list. }
  destruct (create_active_ok env (se_visit env (map_to_list (assignment_parts a)).*1) (g_rebalance a g)) as (g1 & -> & [ps ->] & Hm1).
  { done. }
  { rewrite Hv. apply NoDup_fst_map_to_list. }
  { intros p _. unfold mode_of. simpl. by rewrite Hempty, lookup_empty. }
  assert (forall p, mode_of (g_rebalance a g) p = None) as Hm0.
  { intros p. unfold mode_of. simpl. by rewrite Hempty, lookup_empty. }
  simpl. unfold session_modes, standby_of. destruct (po_hotStandby (g_opts g)) eqn:Eh.
  - specialize (Hst eq_refl). destruct (findStatefulPartitions (g_graph g) (g_tmgr g)) as [[allp err] tm] eqn:Ef.
    simpl in Hst. subst err. set (g2 := g_set_tmgr _ _).
    destruct (create_standby_ok env allp g2) as (g' & -> & [ps' ->] & Hm2); [done|].
    eexists. split; [done|]. split; [done|]. intros p. rewrite Hm2. change (mode_of g2 p) with (mode_of (g_set_partitions ps (g_rebalance a g)) p).
    rewrite Hm1, Hm0. rewrite (decide_ext _ _ _ _ (Hin p)). by case_decide.
  - eexists. split; [done|]. split; [done|]. intros p. rewrite Hm1, Hm0. rewrite (decide_ext _ _ _ _ (Hin p)).
    case_decide; [done|]. rewrite decide_False; [done|]. apply not_elem_of_nil.
Qed.

Lemma pp_Start_None mode hasTable joins recovered ctxDone :
  (pp_Start mode hasTable joins recovered ctxDone).1 = None <-> Forall (.= None) recovered.
Proof.
  unfold pp_Start. rewrite <- ErrGroup_Wait_None. destruct (Errors_NilOrError _); [done|].
  split; [done|]. intros _. by destruct ctxDone, mode.
Qed.

Lemma start_all_None env g :
  start_all env g = None <-> forall p, is_Some (mode_of g p) -> Forall (.= None) (se_recovered env p).
Proof.
  unfold start_all. rewrite ErrGroup_Wait_None, Forall_fmap, Forall_forall. unfold mode_of. split.
  - intros H p [m Hm]. apply fmap_Some in Hm as ([m' pp] & Hp & _).
    specialize (H (p, (m', pp)) ltac:(by apply elem_of_map_to_list)). simpl in H. by apply pp_Start_None in H.
  - intros H [p [m pp]] Hp%elem_of_map_to_list. simpl. apply pp_Start_None, H. rewrite Hp. by eexists.
Qed.

Lemma Cleanup_ok pick env g :
  proc_signal (g_state g) ->
  exists err g', Cleanup pick env g = Ret (err, g') /\ proc_signal (g_state g') /\
    Signal_State (g_state g') = ProcStateIdle /\ g_partitions g' = ∅ /\
    g_opts g' = g_opts g /\ g_graph g' = g_graph g /\ g_tmgr g' = g_tmgr g.
Proof.
  intros Hs. unfold Cleanup. destruct (g_SetState_ok pick ProcStateStopping g Hs) as (s1 & -> & Hs1 & _); [done|]. simpl.
  destruct (g_SetState_ok pick ProcStateIdle (g_set_partitions ∅ (g_set_state s1 g)) Hs1) as (s2 & -> & Hs2 & E2); [done|].
  simpl. do 2 eexists. split; [done|]. done.
Qed.

Lemma Setup_ok pick env claims g a :
  proc_signal (g_state g) -> g_partitions g = ∅ -> assignmentFromSession claims = Ok a -> (forall l, se_visit env l ≡ₚ l) ->
  (forall p, se_backoff env p = None) ->
  (po_hotStandby (g_opts g) = true -> (findStatefulPartitions (g_graph g) (g_tmgr g)).1.2 = None) ->
  exists err g', Setup pick env claims g = Ret (err, g') /\ proc_signal (g_state g') /\
    processor_Recovered g' = true /\ (forall p, mode_of g' p = session_modes g a p) /\
    (err = None <-> forall p, is_Some (session_modes g a p) -> Forall (.= None) (se_recovered env p)).
Proof.
  intros Hs He Ha Hv Hb Hst. unfold Setup.
  destruct (g_SetState_ok pick ProcStateSetup g Hs) as (s1 & -> & Hs1 & _); [done|]. simpl.
  destruct (setup_session_ok env claims (g_set_state s1 g) a) as (g1 & -> & Es1 & Hm); [done..|]. simpl.
  destruct (g_SetState_ok pick ProcStateRunning g1) as (s2 & -> & Hs2 & E2); [by rewrite Es1|done|]. simpl.
  do 2 eexists. split; [done|]. split; [done|]. split; [unfold processor_Recovered, Signal_IsState; simpl; by rewrite E2|].
  split; [done|]. rewrite start_all_None. by setoid_rewrite Hm.
Qed.

(** C11. Rebalancing: after the end of a session the next one starts from scratch.  [Cleanup] always
    forgets every partition processor, so [Setup] finds none registered; it then processes exactly
    the assigned partitions in active mode and, with hot standby, the other partitions of the
    group's tables in passive mode, and succeeds exactly if all their tables recover. *)
Theorem rebalance_session pick env0 env claims g a :
  proc_signal (g_state g) -> assignmentFromSession claims = Ok a -> (forall l, se_visit env l ≡ₚ l) ->
  (forall p, se_backoff env p = None) ->
  (po_hotStandby (g_opts g) = true -> (findStatefulPartitions (g_graph g) (g_tmgr g)).1.2 = None) ->
  exists err0 g0 err g', Cleanup pick env0 g = Ret (err0, g0) /\ Signal_State (g_state g0) = ProcStateIdle /\
    g_partitions g0 = ∅ /\
    Setup pick env claims g0 = Ret (err, g') /\ processor_Recovered g' = true /\
    (forall p, mode_of g' p = session_modes g a p) /\
    (err = None <-> forall p, is_Some (session_modes g a p) -> Forall (.= None) (se_recovered env p)).
Proof.
  intros Hs Ha Hv Hb Hst. destruct (Cleanup_ok pick env0 g Hs) as (err0 & g0 & E0 & Hs0 & Hi & Hp & Eo & Eg & Et).
  destruct (Setup_ok pick env claims g0 a) as (err & g' & E & _ & Hr & Hm & He); try done.
  { by rewrite Eo, Eg, Et. }
  exists err0, g0, err, g'. assert (forall p, session_modes g0 a p = session_modes g a p) as Hsm.
  { intros p. unfold session_modes, standby_of. by rewrite Eo, Eg, Et. }
  split_and!; [done..| |].
  - intros p. by rewrite Hm, Hsm.
  - rewrite He. by setoid_rewrite Hsm.
Qed.

(** A failed [Setup] is reported as recovered: the state becomes running on every return, so that
    after an error, be it that the claims are not copartitioned or that a table could not be
    recovered, [Recovered] answers true. *)
Theorem failed_Setup_is_recovered pick env claims g err g' :
  Setup pick env claims g = Ret (Some err, g') -> processor_Recovered g' = true.
Proof.
  unfold Setup, g_SetState. intros H.
  destruct (Signal_SetState pick ProcStateSetup (g_state g)) as [s1| |] eqn:E1; [|done|done]. simpl in H.
  destruct (setup_session env claims (g_set_state s1 g)) as [[e g1]| |] eqn:E2; [|done|done]. simpl in H.
  destruct (Signal_SetState pick ProcStateRunning (g_state g1)) as [s2| |] eqn:E3; [|done|done]. simpl in H.
  injection H as -> <-. unfold processor_Recovered, Signal_IsState. simpl.
  assert (sig_state s2 = ProcStateRunning) as ->; [|done].
  unfold Signal_SetState in E3. destruct (is_allowed _ _); [|done]. simpl in E3.
  destruct (sig_state (g_state g1) =? ProcStateRunning) eqn:Eq; [injection E3 as <-; by simp_bool|].
  destruct (release_waiters _ _ _) as [[ws cs]| |]; [|done|done]. simpl in E3.
  destruct (notify_observers _ _ _ _) as [h| |]; [|done|done]. simpl in E3. by injection E3 as <-.
Qed.
End sessions.

(** ** Reading the group table *)

(** A processor and a view hash alike. *)
Lemma processor_hash_key_hash {S CB M} key (g : Processor S CB M) :
  g_partitionCount g <> 0 -> processor_hash key g = key_hash (po_hasher (g_opts g)) (g_partitionCount g) key.
Proof.
  intros Hn. unfold processor_hash, key_hash. destruct (po_hasher (g_opts g) key); [|done].
  by rewrite (proj2 (Z.eqb_neq _ _) Hn).
Qed.

(** C39. [Get] of a processor: unless the hash of the key is 2^31, the key belongs to a partition of the
    group, the same one in which a view of the table looks for it.  If the processor does not have
    the partition, [Get] is an error; otherwise it returns the decoded value that the table's
    storage holds, and nil if it holds none. *)
Theorem processor_Get_reads {S I CB M} {ST : Storage S I} {SL : StorageLaws S I} (g : Processor S CB M) key sum gt codec :
  GroupTable (g_graph g) = Some gt -> td_codec gt = Some codec ->
  po_hasher (g_opts g) key = Ok sum -> 0 <= sum < 2 ^ 32 -> sum <> 2 ^ 31 ->
  0 < g_partitionCount g < 2 ^ 31 -> ~ st_reserved key ->
  exists p, 0 <= p < g_partitionCount g /\ processor_hash key g = Ok p /\
    (forall v : View S, v_hasher v = po_hasher (g_opts g) -> Z.of_nat (length (v_partitions v)) = g_partitionCount g ->
       view_hash key v = Ok p) /\
    (g_partitions g !! p = None ->
       processor_Get key g = Ret (Err (ErrNew "this processor does not contain partition"))) /\
    (forall m pp t st, g_partitions g !! p = Some (m, pp) -> pp_table pp = Some t -> pt_st t = Some st ->
       st_ok (sp_Storage st) ->
       processor_Get key g = Ret (match st_contents (sp_Storage st) !! key with
                                  | None => Ok VNil
                                  | Some v => match Decode codec (Some v) with
                                              | Ok x => Ok x
                                              | Err e => Err (ErrWrap "error decoding" e)
                                              end
                                  end)).
Proof.
  intros Hgt Hc Hh Hsum Hne Hn Hr. destruct (key_hash_range _ (g_partitionCount g) key sum Hh Hsum Hn) as (p & Hp & _ & Hrange).
  assert (processor_hash key g = Ok p) as Eh by (rewrite processor_hash_key_hash; [done|lia]).
  exists p. split; [by apply Hrange|]. split_and!; [done| | |].
  - intros v Ev El. unfold view_hash. by rewrite Ev, El.
  - intros Hnone. unfold processor_Get, processor_find, getPartProc. by rewrite Hgt, Eh, Hnone.
  - intros m pp t st Hm Ht Hst Hok. unfold processor_Get, processor_find, getPartProc. rewrite Hgt, Eh, Hm, Ht. simpl.
    rewrite Hst, law_Get by done. destruct (_ !! key); [|done]. rewrite Hc. by destruct (Decode codec _).
Qed.

(** [Get] cannot find a key with the hash 2^31, even if the processor has all partitions: the
    negation of the smallest [int32] is negative, and so is the number of the partition unless the
    number of partitions divides 2^31. *)
Theorem processor_Get_misses_min_hash {S I CB M} {ST : Storage S I} (g : Processor S CB M) key gt :
  GroupTable (g_graph g) = Some gt -> po_hasher (g_opts g) key = Ok (2 ^ 31) ->
  0 < g_partitionCount g < 2 ^ 31 -> 2 ^ 31 mod g_partitionCount g <> 0 ->
  (forall p, is_Some (g_partitions g !! p) -> 0 <= p) ->
  processor_Get key g = Ret (Err (ErrNew "this processor does not contain partition")).
Proof.
  intros Hgt Hh Hn Hmod Hpos.
  destruct (key_hash_range _ (g_partitionCount g) key (2 ^ 31) Hh ltac:(lia) Hn) as (p & Hp & Hmin & _).
  specialize (Hmin eq_refl). pose proof (Z.mod_pos_bound (2 ^ 31) (g_partitionCount g) ltac:(lia)).
  unfold processor_Get, processor_find, getPartProc. rewrite Hgt, processor_hash_key_hash, Hp by lia.
  destruct (g_partitions g !! p) eqn:E; [|done]. specialize (Hpos p ltac:(rewrite E; by eexists)). lia.
Qed.

(** ** Starting *)

(** [waitForStartupTables] never returns nil: if all startup tables have recovered it returns the
    group's empty error list as a non-nil error. *)
Theorem waitForStartupTables_never_nil {S CB M} {TM : TopicManager M} backoff fin (g g' : Processor S CB M) r :
  waitForStartupTables backoff fin g = Ret (r, g') -> r <> None.
Proof.
  unfold waitForStartupTables. destruct (po_recoverAhead (g_opts g)).
  - destruct (findStatefulPartitions _ _) as [[ps [e|]] tm]; [by intros [= <- _]|].
    destruct (create_ahead _ _ _) as [[e|]| |]; simpl; [by intros [= <- _]| |done|done].
    by destruct fin; intros [= <- _].
  - by destruct fin; intros [= <- _].
Qed.

(** The partitions of the group's tables are found as those of the first table that exists; but if
    no table exists, the result is the error that the topic was not found, although the loop
    tolerates that error and the function is documented to return an empty list then. *)
Theorem findStatefulPartitions_missing_tables {CB M} {TM : TopicManager M} (gg : GroupGraph CB) (tm : M) :
  chainEdges [gg_groupTable gg; gg_inputTables gg] <> [] ->
  (forall t, tm_Partitions t tm = (Err ErrTopicNotFound, tm)) ->
  (findStatefulPartitions gg tm).1 = ([], Some ErrTopicNotFound).
Proof.
  intros Hne Hnf. unfold findStatefulPartitions.
  assert (forall edges last, (find_stateful edges last tm).1 = match edges with [] => last | _ => ([], Some ErrTopicNotFound) end) as Hgen.
  { induction edges as [|e edges IH]; intros last; [done|]. simpl. rewrite Hnf, IH. by destruct edges. }
  rewrite Hgen. by destruct (chainEdges _).
Qed.

(** ** Examples *)

Definition proc_signal0 : Signal :=
  NewSignal [ProcStateIdle; ProcStateStarting; ProcStateSetup; ProcStateRunning; ProcStateStopping].

Lemma newProcSignal_ok : newProcSignal = Ret proc_signal0 /\ proc_signal proc_signal0.
Proof.
  split; [reflexivity|]. constructor; [apply NewSignal_wf|done|]. intros st Hst.
  assert (st = 0 \/ st = 1 \/ st = 2 \/ st = 3 \/ st = 4) as Hc by lia. repeat destruct Hc as [->|Hc]; try done. by subst.
Qed.

Definition demo_popts : proc_options memory :=
  mkPoptions DefaultHasher (DefaultUpdate (ST := memory_Storage id)) NilIgnore None true true true.

(** A processor in charge of all three partitions, all with the same table. *)
Definition demo_pp : PartitionProcessor memory nat :=
  mkPP demo_graph ∅ (Some (running_table (mem_of [("user-1", "7")]%string))) ∅ ∅ NilIgnore None [] [] new_Errors false None.
Definition demo_proc : Processor memory nat (topicManager mapcluster) :=
  mkProcessor demo_popts demo_graph
    (<[0 := (runModeActive, demo_pp)]> (<[1 := (runModeActive, demo_pp)]> (<[2 := (runModeActive, demo_pp)]> ∅)))
    ∅ 3 demo_prepared proc_signal0 [] false.
Definition demo_session : session_env :=
  mkSessionEnv (fun _ => None) (fun p => if p =? 1 then [Some (ErrNew "no table")] else [None]) false (fun _ => None)
    (fun _ => []) (fun l => l).
Definition demo_claims : list (string * list Z) := [("clicks", [0; 2]); (loopName "g", [2; 0])]%string.

(** The standby partition 1 cannot be recovered. *)
Lemma rebalance_session_witness :
  exists err (g0 g' : Processor memory nat (topicManager mapcluster)),
    Setup (fun _ => false) demo_session demo_claims g0 = Ret (Some err, g') /\
    mode_of g' 0 = Some runModeActive /\ mode_of g' 1 = Some runModePassive /\ mode_of g' 2 = Some runModeActive.
Proof.
  assert (assignmentFromSession demo_claims = Ok (Some (assignment_of [0; 2]))) as Ha
    by vm_cast_no_check (eq_refl (Ok (Some (assignment_of [0; 2])))).
  destruct (rebalance_session (fun _ => false) demo_session demo_session demo_claims demo_proc (Some (assignment_of [0; 2])))
    as (err0 & g0 & err & g' & _ & _ & _ & E & _ & Hm & He).
  - apply newProcSignal_ok.
  - exact Ha.
  - reflexivity.
  - reflexivity.
  - intros _. vm_cast_no_check (eq_refl (None : option error)).
  - assert (session_modes demo_proc (Some (assignment_of [0; 2])) 1 = Some runModePassive) as H1
      by vm_cast_no_check (eq_refl (Some runModePassive)).
    assert (session_modes demo_proc (Some (assignment_of [0; 2])) 0 = Some runModeActive) as H0
      by vm_cast_no_check (eq_refl (Some runModeActive)).
    assert (session_modes demo_proc (Some (assignment_of [0; 2])) 2 = Some runModeActive) as H2
      by vm_cast_no_check (eq_refl (Some runModeActive)).
    destruct err as [err|].
    + exists err, g0, g'. rewrite !Hm. split_and!; [exact E|exact H0|exact H1|exact H2].
    + exfalso. specialize (proj1 He eq_refl 1 ltac:(rewrite H1; by eexists)) as HF.
      apply Forall_cons in HF as [HF _]. discriminate.
Defined.

(** The claims are not copartitioned. *)
Lemma failed_Setup_is_recovered_witness :
  exists err g', Setup (fun _ => false) demo_session [("clicks", [0; 2]); ("clacks", [1])]%string
                   (g_set_partitions ∅ demo_proc) = Ret (Some err, g') /\ processor_Recovered g' = true.
Proof.
  do 2 eexists. split; [reflexivity|].
  eapply (failed_Setup_is_recovered (fun _ => false) demo_session [("clicks", [0; 2]); ("clacks", [1])]%string
            (g_set_partitions ∅ demo_proc)).
  reflexivity.
Defined.

Lemma processor_Get_reads_witness : processor_Get (ST := memory_Storage id) "user-1" demo_proc = Ret (Ok (VInt64 7)).
Proof.
  destruct (processor_Get_reads (SL := memory_Laws id) demo_proc "user-1" (fnv32a "user-1" 2166136261)
              (mkTopicDef (tableName "g") (Some Int64Codec)) Int64Codec) as (p & Hp & _ & _ & _ & Hget).
  - vm_cast_no_check (eq_refl (Some (mkTopicDef (tableName "g") (Some Int64Codec)))).
  - reflexivity.
  - reflexivity.
  - by vm_compute.
  - by vm_compute.
  - by vm_compute.
  - by intros ?.
  - rewrite (Hget runModeActive demo_pp (running_table (mem_of [("user-1", "7")]%string))
               (mkProxy (mem_of [("user-1", "7")]%string) "table" 0 false (fun _ s => (None, s)) None None)).
    + reflexivity.
    + simpl in Hp. assert (p = 0 \/ p = 1 \/ p = 2) as [->|[->| ->]] by lia; reflexivity.
    + reflexivity.
    + reflexivity.
    + apply mem_of_wf.
Defined.

Lemma processor_Get_misses_min_hash_witness :
  processor_Get (ST := memory_Storage id) "qqk42v" demo_proc = Ret (Err (ErrNew "this processor does not contain partition")).
Proof.
  apply (processor_Get_misses_min_hash (ST := memory_Storage id) demo_proc "qqk42v" (mkTopicDef (tableName "g") (Some Int64Codec))).
  - vm_cast_no_check (eq_refl (Some (mkTopicDef (tableName "g") (Some Int64Codec)))).
  - reflexivity.
  - by vm_compute.
  - by vm_compute.
  - intros p Hp. simpl in Hp. rewrite !lookup_insert_is_Some in Hp.
    rewrite lookup_empty in Hp. destruct Hp as [<-|[_ [<-|[_ [<-|[_ []]]]]]]; lia || done.
Defined.

Definition demo_ready : Processor memory nat (topicManager mapcluster) := g_set_partitions ∅ demo_proc.
Definition demo_started : Processor memory nat (topicManager mapcluster) :=
  (ret_or (None, demo_ready) (waitForStartupTables (fun _ => None) (StartupDone [None]) demo_ready)).2.

Lemma waitForStartupTables_never_nil_witness :
  waitForStartupTables (fun _ => None) (StartupDone [None]) demo_ready = Ret (Some (ErrMulti []), demo_started) /\
  Some (ErrMulti []) <> None.
Proof.
  assert (waitForStartupTables (fun _ => None) (StartupDone [None]) demo_ready = Ret (Some (ErrMulti []), demo_started)) as E.
  { apply ret_or_pair; [vm_cast_no_check (eq_refl true)|vm_cast_no_check (eq_refl (Some (ErrMulti [])))]. }
  split; [exact E|].
  exact (waitForStartupTables_never_nil (fun _ => None) (StartupDone [None]) demo_ready demo_started (Some (ErrMulti [])) E).
Defined.

Lemma findStatefulPartitions_missing_tables_witness :
  (findStatefulPartitions demo_graph (mkTopicManager (mkMapcluster ∅ true) demo_tmc)).1 = ([], Some ErrTopicNotFound).
Proof.
  apply (findStatefulPartitions_missing_tables demo_graph (mkTopicManager (mkMapcluster ∅ true) demo_tmc)).
  - assert (length (chainEdges [gg_groupTable demo_graph; gg_inputTables demo_graph]) = 2%nat) as E
      by vm_cast_no_check (eq_refl 2%nat).
    intros F. rewrite F in E. discriminate.
  - reflexivity.
Defined.
