(* ===== verification/Typing.v ===== *)
(** * Types of messages and values

    Codecs, messages and table values are [interface{}] in the code: what a callback gets is asserted
    to have a type at run time.  A group in which every edge has a codec of the type its topic is meant
    to have only ever passes values of these types to callbacks, and lets callbacks write no others. *)
From Stdlib Require Import ZArith Lia.
From stdpp Require Import base gmap strings list.
From S2P Require Import Prelude Multierr Signal Codec Storage Memory MergeIterator Headers Stats Proxy PartitionTable Recovery.
From S2P Require Import Promise Graph View Context PartitionProcessor TopicManager Processor.
Open Scope Z_scope.

(** ** Dynamic types *)

(** The dynamic types the bundled codecs test for, and the others, by name. *)
Inductive GoType : Type := TBytes | TString | TInt64 | TOther (ty : string).

#[export] Instance GoType_eq_dec : EqDecision GoType.
Proof. solve_decision. Defined.

(** The dynamic type of a value; nil has none. *)
Definition dyn_type (v : value) : option GoType :=
  match v with
  | VNil => None
  | VBytes _ => Some TBytes
  | VString _ => Some TString
  | VInt64 _ => Some TInt64
  | VOther ty _ => Some (TOther ty)
  end.

Definition typed_or_nil (T : GoType) (v : value) : Prop := v = VNil \/ dyn_type v = Some T.

(** A codec for values of type [T]: it encodes nothing else and decodes to nothing else. *)
Class CodecTyped (c : Codec) (T : GoType) : Prop := {
  ct_encode v b : Encode c v = Ok b -> dyn_type v = Some T;
  ct_decode b v : Decode c b = Ok v -> dyn_type v = Some T
}.

#[export] Instance BytesCodec_typed : CodecTyped BytesCodec TBytes.
Proof. split; [by intros []|]. by intros b v [= <-]. Qed.
#[export] Instance StringCodec_typed : CodecTyped StringCodec TString.
Proof. split; [by intros []|]. by intros b v [= <-]. Qed.
#[export] Instance Int64Codec_typed : CodecTyped Int64Codec TInt64.
Proof. split; [by intros []|]. intros b v. simpl. unfold Int64_Decode. destruct (ParseInt _); [by intros [= <-]|done]. Qed.

(** ** Typed groups *)

Definition def_typed (ty : string -> GoType) (t : topicDef) : Prop :=
  forall c, td_codec t = Some c -> CodecTyped c (ty (td_name t)).

(** The codec of every edge has the type of the topic, the group's own topics included. *)
Definition edges_typed {CB} (ty : string -> GoType) (group : string) (edges : list (Edge CB)) : Prop :=
  Forall (def_typed ty) (edges ≫= edge_defs group).

(** The codecs a graph answers with. *)
Record graph_typed {CB} (ty : string -> GoType) (gg : GroupGraph CB) : Prop := {
  gt_codecs topic c : graph_codec topic gg = Some c -> CodecTyped c (ty topic);
  gt_table t c : GroupTable gg = Some t -> td_codec t = Some c -> CodecTyped c (ty (tableName (gg_group gg)));
  gt_loop t c : LoopStream gg = Some t -> td_codec t = Some c -> CodecTyped c (ty (loopName (gg_group gg)));
  gt_lookup t c : t ∈ LookupTables gg -> td_codec t = Some c -> CodecTyped c (ty (td_name t))
}.

Lemma last_codec_typed ty topic l c0 c :
  Forall (def_typed ty) l -> (forall c, c0 = Some c -> CodecTyped c (ty topic)) -> last_codec topic l c0 = Some c ->
  CodecTyped c (ty topic).
Proof.
  intros HF. revert c0. induction HF as [|t l Ht HF IH]; intros c0 H0; unfold last_codec in *; simpl; [by apply H0|].
  destruct (String.eqb_spec (td_name t) topic) as [<-|]; [|by apply IH]. by apply IH.
Qed.

Lemma DefineGroup_typed {CB} ty group (edges : list (Edge CB)) gg :
  edges_typed ty group edges -> DefineGroup group edges = Ret gg -> graph_typed ty gg /\ gg_group gg = group.
Proof.
  unfold DefineGroup. rewrite add_edges_flat. intros Hty Hd.
  destruct (add_edges_grows _ _ _ (flat_simple edges) Hd) as (G & _ & _ & _ & X1 & L1 & P1 & _ & _ & C1 & _).
  simpl in *. rewrite flat_bind in C1, X1, L1, P1 by flat_case. split; [|done].
  pose proof (proj1 (Forall_forall _ _) Hty) as Hdef. constructor.
  - intros topic c. rewrite C1. by apply last_codec_typed.
  - intros t c Ht Hc. unfold GroupTable in Ht. rewrite P1 in Ht. apply head_Some_elem_of in Ht.
    apply table_defs_name in Ht as [Ht Hname]. rewrite G, <- Hname. by apply Hdef.
  - intros t c Ht Hc. unfold LoopStream in Ht. rewrite L1 in Ht. apply head_Some_elem_of in Ht.
    apply loop_defs_name in Ht as [Ht Hname]. rewrite G, <- Hname. by apply Hdef.
  - intros t c Ht Hc. unfold LookupTables in Ht. rewrite X1 in Ht. apply Hdef; [|done].
    apply list_elem_of_bind in Ht as (e & Ht & He). apply list_elem_of_bind. exists e. split; [|done]. destruct e; set_solver.
Qed.

(** ** Typed operations *)

Section operations.
Context {S I : Type} {ST : Storage S I} {IT : Iterator I} {CB : Type}.
Variable ty : string -> GoType.
Implicit Types c : cbContext S CB.

(** What a callback can read. *)
Lemma ctx_Value_typed cancelled c v c' :
  graph_typed ty (cx_graph c) -> ctx_Value cancelled c = Ret (v, c') ->
  typed_or_nil (ty (tableName (gg_group (cx_graph c)))) v.
Proof.
  intros Hty H. unfold ctx_Value in H. destruct (valueForKey (ctx_Key c) c) as [[w|e]| |] eqn:E; try done; simpl in H.
  2:{ destruct (Fail cancelled e c) as [c1| |]; simplify_eq/=. by left. }
  injection H as <- <-. unfold valueForKey in E. destruct (cx_table c) as [t|]; [|done].
  destruct (table_Get _ t) as [[[data|]|]| |]; simplify_eq/=; [|by left].
  destruct (GroupTable (cx_graph c)) as [[n [codec|]]|] eqn:Eg; try done.
  destruct (Decode codec _) as [x|] eqn:Ed; simplify_eq. right. by apply (gt_table _ _ Hty _ codec Eg eq_refl) in Ed.
Qed.

Lemma ctx_Join_typed cancelled topic c v c' :
  graph_typed ty (cx_graph c) -> ctx_Join cancelled topic c = Ret (v, c') -> typed_or_nil (ty topic) v.
Proof.
  intros Hty H. unfold ctx_Join in H. destruct (fail_if _ _ _ c) as [c1| |] eqn:Ef; try done. simpl in H.
  assert (forall e c2 c3, Fail cancelled e c2 = Ret c3 -> cx_graph c3 = cx_graph c2) as HF.
  { unfold Fail. intros e c2 c3. by destruct cancelled; intros [= <-]. }
  assert (cx_graph c1 = cx_graph c) as Eg.
  { unfold fail_if in Ef. destruct (bool_decide _); [by eapply HF|by injection Ef as <-]. }
  destruct (cx_pviews c1 ≫= _) as [t|]; [|by destruct (Fail cancelled _ c1)].
  destruct (pt_st t) as [st|]; [|done].
  destruct (st_Get _ _) as [[data|]|e]; simpl in H; [|by injection H as <- <-; left|].
  - rewrite Eg in H. destruct (graph_codec topic (cx_graph c)) as [codec|] eqn:Ec; [|done].
    destruct (Decode codec _) as [x|e] eqn:Ed.
    + injection H as <- <-. right. by apply (gt_codecs _ _ Hty _ _ Ec) in Ed.
    + destruct (Fail cancelled _ c1); simplify_eq/=. by left.
  - destruct (Fail cancelled _ c1) as [c2| |] eqn:E2; try done. simpl in H. apply HF in E2. rewrite E2, Eg in H.
    destruct (graph_codec topic (cx_graph c)) as [codec|] eqn:Ec; [|done].
    destruct (Decode codec _) as [x|e'] eqn:Ed.
    + injection H as <- <-. right. by apply (gt_codecs _ _ Hty _ _ Ec) in Ed.
    + destruct (Fail cancelled _ c2); simplify_eq/=. by left.
Qed.

(** The views decode the tables they look up with a codec of the right type. *)
Definition views_typed (views : option (gmap string (View S))) : Prop :=
  forall topic v, views ≫= (.!! topic) = Some v -> CodecTyped (v_tableCodec v) (ty topic).

Lemma ctx_Lookup_typed cancelled topic key c v c' :
  views_typed (cx_views c) -> ctx_Lookup cancelled topic key c = Ret (v, c') -> typed_or_nil (ty topic) v.
Proof.
  intros Hty H. unfold ctx_Lookup in H. destruct (fail_if _ _ _ c) as [c1| |] eqn:Ef; try done. simpl in H.
  assert (cx_views c1 = cx_views c) as Ev.
  { unfold fail_if, Fail in Ef. destruct (bool_decide _); [destruct cancelled|]; by simplify_eq. }
  rewrite Ev in H. destruct (cx_views c ≫= _) as [w|] eqn:Ew; [|by destruct (Fail cancelled _ c1)].
  destruct (view_Get key w) as [[x|e]| |] eqn:Eg; try done; simpl in H.
  2:{ destruct (Fail cancelled _ c1); simplify_eq/=. by left. }
  injection H as <- <-. unfold view_Get in Eg. destruct (view_find key w) as [[t|]| |]; try done; simpl in Eg.
  destruct (table_Get key t) as [[[data|]|]| |]; simplify_eq/=; [|by left].
  destruct (Decode _ _) as [y|] eqn:Ed; simplify_eq. right. by apply (Hty topic w Ew) in Ed.
Qed.

(** What a callback can write. *)
Lemma encode_typed codec T m v c d c' : CodecTyped codec T -> encode (Some codec) false m v c = Ret (d, c') -> dyn_type v = Some T.
Proof. intros [He _] H. unfold encode in H. destruct (Encode codec v) eqn:E; [by eapply He|done]. Qed.

Lemma Emit_typed topic key v options r c c' :
  graph_typed ty (cx_graph c) -> Emit false topic key v options r c = Ret c' -> typed_or_nil (ty topic) v.
Proof.
  intros Hty H. unfold Emit in H.
  repeat match type of H with
  | (fail_if ?b false ?e ?c1 ≫= _) = Ret _ =>
      let E := fresh "E" in destruct (fail_if b false e c1) as [?| |] eqn:E; [|done|done];
      apply fail_if_false in E as [_ ->]; simpl in H
  end.
  destruct v; try (by left); right; simpl in H;
    (destruct (graph_codec topic (cx_graph c)) as [codec|] eqn:Ec; [|done]);
    (destruct (encode _ _ _ _ _) as [[d c1]| |] eqn:Ee in H; [|done|done]);
    by eapply encode_typed in Ee; [|by apply (gt_codecs _ _ Hty)].
Qed.

Lemma Loopback_typed key v options r c c' :
  graph_typed ty (cx_graph c) -> Loopback false key v options r c = Ret c' ->
  dyn_type v = Some (ty (loopName (gg_group (cx_graph c)))).
Proof.
  intros Hty H. unfold Loopback in H. destruct (fail_if _ _ _ c) as [c1| |] eqn:Ef; try done. apply fail_if_false in Ef as [_ ->].
  simpl in H. destruct (LoopStream (cx_graph c)) as [l|] eqn:El; [|done].
  destruct (td_codec l) as [codec|] eqn:Ec; [|done].
  destruct (encode _ _ _ _ _) as [[d c1]| |] eqn:Ee; [|done|done].
  eapply encode_typed in Ee; [done|]. by apply (gt_loop _ _ Hty l).
Qed.

Lemma ctx_SetValue_typed v options skip r c c' :
  graph_typed ty (cx_graph c) -> ctx_SetValue false v options skip r c = Ret c' ->
  dyn_type v = Some (ty (tableName (gg_group (cx_graph c)))).
Proof.
  intros Hty H. unfold ctx_SetValue, setValueForKey in H.
  destruct (GroupTable (cx_graph c)) as [gt|] eqn:Eg; [|done]. destruct (is_nil v); [done|].
  destruct (td_codec gt) as [codec|] eqn:Ec; [|done].
  destruct (Encode codec v) as [d|] eqn:Ee; [|done]. by eapply (ct_encode (CodecTyped := gt_table _ _ Hty gt codec Eg Ec)).
Qed.

(** The messages a callback is called with. *)
Lemma processMessage_typed (cb1 cb2 : CB -> value -> cbContext S CB -> list ctx_action) msg (pp : PartitionProcessor S CB) :
  graph_typed ty (pp_graph pp) ->
  (forall cb v c, typed_or_nil (ty (cm_Topic msg)) v -> cb1 cb v c = cb2 cb v c) ->
  processMessage cb1 msg pp = processMessage cb2 msg pp.
Proof.
  intros Hty Hcb.
  assert (forall v, typed_or_nil (ty (cm_Topic msg)) v -> processValue cb1 msg v pp = processValue cb2 msg v pp) as HV.
  { intros v Hv. unfold processValue. destruct (mjoin _) as [cb|]; [|done].
    destruct (cx_start _) as [c| |]; [|done|done]. cbn [mbind outcome_bind]. by rewrite Hcb. }
  unfold processMessage.
  assert (forall data, match graph_codec (cm_Topic msg) (pp_graph pp) with
    | None => Ret (Returned (Some (ErrNew ("cannot handle topic " +:+ cm_Topic msg))), pp)
    | Some codec => match Decode codec data with
        | Err e => Ret (Returned (Some (ErrWrap "error decoding message" e)), pp)
        | Ok m => processValue cb1 msg m pp end end =
    match graph_codec (cm_Topic msg) (pp_graph pp) with
    | None => Ret (Returned (Some (ErrNew ("cannot handle topic " +:+ cm_Topic msg))), pp)
    | Some codec => match Decode codec data with
        | Err e => Ret (Returned (Some (ErrWrap "error decoding message" e)), pp)
        | Ok m => processValue cb2 msg m pp end end) as HD.
  { intros data. destruct (graph_codec _ _) as [codec|] eqn:Ec; [|done]. destruct (Decode codec data) as [m|] eqn:Ed; [|done].
    apply HV. right. by apply (gt_codecs _ _ Hty _ _ Ec) in Ed. }
  destruct (cm_Value msg) as [v|]; [apply HD|]. destruct (pp_nilHandling pp); [done|apply HV; by left|apply HD].
Qed.
End operations.

(** ** Views of a processor *)

Section views.
Context {S I : Type} {ST : Storage S I} {IT : Iterator I} {CB M : Type} {TM : TopicManager M}.

(** The builder of views keeps the codec it is given.  (A view without a codec cannot be read.) *)
Definition builds_views (newView : string -> option Codec -> outcome (res (View S))) : Prop :=
  forall topic codec v, newView topic codec = Ret (Ok v) -> codec = Some (v_tableCodec v).

Lemma createPartitions_codec u tmgr parts closed backoffs (v v' : View S) e :
  createPartitions u tmgr parts closed backoffs v = Ret (e, v') -> v_tableCodec v' = v_tableCodec v.
Proof.
  unfold createPartitions. destruct tmgr; [by intros [= <- <-]|]. destruct parts as [ps|]; [|by intros [= _ <-]].
  destruct (negb _); [by intros [= _ <-]|]. destruct (create_tables _ _ _ _ _) as [[e' l]| |]; try done. by intros [= _ <-].
Qed.

(** [NewView] does. *)
Lemma NewView_builds hasher u options consumer tmgr topicmgr parts closed backoffs :
  builds_views (fun topic codec =>
    match codec with
    | Some codec => NewView topic hasher codec u (options topic) (consumer topic) (tmgr topic) (topicmgr topic) (parts topic)
                      (closed topic) (backoffs topic)
    | None => Panic (ErrNew "nil pointer dereference")
    end).
Proof.
  intros topic [codec|] v; [|done]. unfold NewView. destruct (options topic), (consumer topic), (tmgr topic); try done.
  destruct newViewSignal as [sg| |]; try done. cbn [mbind outcome_bind].
  destruct (createPartitions _ _ _ _ _ _) as [[[e|] v']| |] eqn:E; try done. cbn [mbind outcome_bind]. intros [= <-].
  apply createPartitions_codec in E. by rewrite E.
Qed.

Lemma create_views_typed ty newView tables views views' :
  builds_views newView -> Forall (def_typed ty) tables -> views_typed ty (Some views) ->
  create_views newView tables views = Ret (Ok views') -> views_typed ty (Some views').
Proof.
  intros Hb HF. revert views. induction HF as [|t tables Ht HF IH]; intros views Hv H; simpl in H.
  { by injection H as <-. }
  destruct (newView (td_name t) (td_codec t)) as [[v|e]| |] eqn:E; try done. cbn [mbind outcome_bind] in H.
  apply (IH (<[td_name t := v]> views)); [|done]. intros topic w. simpl. rewrite lookup_insert.
  case_decide as Hn; [|apply Hv]. intros [= <-]. rewrite <- Hn. apply Ht. by eapply Hb.
Qed.

(** A context of processor [g]: it has the graph and the views of the processor. *)
Definition of_processor (g : Processor S CB M) (c : cbContext S CB) : Prop :=
  cx_graph c = g_graph g /\ cx_views c = Some (g_lookupTables g).

(** The contexts in which a partition processor of [g] starts its callbacks are. *)
Lemma started_of_processor partition backoff g pp msg c :
  createPartitionProcessor partition backoff g = Ret (Ok pp) ->
  cx_start (newContext (pp_graph pp) msg (pp_defaultHeaders pp) (pp_table pp) (pp_joins pp) (pp_lookups pp)) = Ret c ->
  of_processor g c.
Proof.
  unfold createPartitionProcessor, newPartitionProcessor. intros H [= <-]. simpl.
  destruct (getPartProc _ _), backoff; try done.
  destruct (match GroupTable _ with Some t => _ | None => _ end) as [t| |]; try done. by injection H as <-.
Qed.

Lemma NewProcessor_typed ty gg opts topicmgr newView tmgr (g : Processor S CB M) :
  graph_typed ty gg -> builds_views newView -> NewProcessor gg opts topicmgr newView tmgr = Ret (Ok g) ->
  g_graph g = gg /\ views_typed ty (Some (g_lookupTables g)).
Proof.
  intros Hty Hb. unfold NewProcessor. destruct (Validate gg); [done|]. destruct opts as [opts|]; [|done].
  destruct (prepareTopics topicmgr gg).1 as [npar|]; [|done].
  destruct (create_views newView (LookupTables gg) ∅) as [[views|e]| |] eqn:E; try done. cbn [mbind outcome_bind].
  destruct newProcSignal as [sg| |]; try done. cbn [mbind outcome_bind]. intros [= <-]. split; [done|].
  eapply (create_views_typed ty) in E; [done|done| |].
  - apply Forall_forall. intros t Ht c Hc. by eapply gt_lookup.
  - intros topic v. simpl. by rewrite lookup_empty.
Qed.
End views.

(** ** Properties *)

(** C9. Groups are type safe: if the codec of every edge is one for the type of the edge's topic, then in
    the contexts of a processor that [NewProcessor] made for the group (with views that decode with the
    codec they were created with, as [NewView] does), what a callback reads (the value of its key, a
    joined table, a looked-up table, and the message it is called with) is nil or has the type of the
    topic it comes from, so that type assertions on it succeed; and while the processor is not shutting
    down, an emit, a loopback or a change of the value goes through only with a value of the topic's
    type (or nil, for an emit). *)
Theorem group_type_safe {S I} `{Storage S I} `{!Iterator I} {CB M} `{TopicManager M} (ty : string -> GoType) (group : string)
    (edges : list (Edge CB)) (gg : GroupGraph CB) opts topicmgr newView tmgr (g : Processor S CB M) :
  edges_typed ty group edges -> DefineGroup group edges = Ret gg -> builds_views newView ->
  NewProcessor gg opts topicmgr newView tmgr = Ret (Ok g) ->
  (forall (c c' : cbContext S CB), of_processor g c ->
    (forall b v, ctx_Value b c = Ret (v, c') -> typed_or_nil (ty (tableName group)) v) /\
    (forall b topic v, ctx_Join b topic c = Ret (v, c') -> typed_or_nil (ty topic) v) /\
    (forall b topic key v, ctx_Lookup b topic key c = Ret (v, c') -> typed_or_nil (ty topic) v) /\
    (forall topic key v o r, Emit false topic key v o r c = Ret c' -> typed_or_nil (ty topic) v) /\
    (forall key v o r, Loopback false key v o r c = Ret c' -> dyn_type v = Some (ty (loopName group))) /\
    (forall v o skip r, ctx_SetValue false v o skip r c = Ret c' -> dyn_type v = Some (ty (tableName group)))) /\
  (forall (cb1 cb2 : CB -> value -> cbContext S CB -> list ctx_action) msg (pp : PartitionProcessor S CB),
    pp_graph pp = g_graph g ->
    (forall cb v c, typed_or_nil (ty (cm_Topic msg)) v -> cb1 cb v c = cb2 cb v c) ->
    processMessage cb1 msg pp = processMessage cb2 msg pp).
Proof.
  intros He Hd Hb Hnew. destruct (DefineGroup_typed ty group edges gg He Hd) as [Hty <-].
  destruct (NewProcessor_typed ty gg opts topicmgr newView tmgr g Hty Hb Hnew) as [Hg Hviews]. split.
  - intros c c' [Ec Ev]. rewrite <- Hg, <- Ec in *. rewrite <- Ev in Hviews. split_and!;
      eauto using ctx_Value_typed, ctx_Join_typed, ctx_Lookup_typed, Emit_typed, Loopback_typed, ctx_SetValue_typed.
  - intros cb1 cb2 msg pp Epp Hcb. rewrite Hg in Epp. eapply processMessage_typed; [by rewrite Epp|done].
Qed.

(** A group that counts strings in its table and looks up another table of strings; its processor, with
    the view of that table, and a context of it. *)
Definition demo_types (topic : string) : GoType := if String.eqb topic "g-table" then TInt64 else TString.

Definition typed_edges : list (Edge nat) :=
  [Input "in" (Some StringCodec) (Some 0%nat); Lookup "names" (Some StringCodec); Persist (Some Int64Codec)].

Definition typed_graph : GroupGraph nat := ret_or (empty_graph "g") (DefineGroup "g" typed_edges).

Definition names_table : PartitionTable memory :=
  mkPT "names" 0 (mkSignal PartitionRunning [] [] (sig_allowed table_signal0) ∅ ∅ 0)
    (Some (mkProxy (memory_Set "k" (Some "ann"%string) NewMemory).2 "names" 0 false (@DefaultUpdate _ _ (memory_Storage id)) None None))
    (@DefaultUpdate _ _ (memory_Storage id)) (newTableStats empty_heap).1 (newTableStats empty_heap).2 [] 0.

Definition names_view (topic : string) (codec : option Codec) : outcome (res (View memory)) :=
  match codec with
  | Some codec => Ret (Ok (mkView topic (fun _ => Ok 0) codec [names_table] table_signal0))
  | None => Panic (ErrNew "nil pointer dereference")
  end.

Definition typed_options : proc_options memory :=
  mkPoptions (fun _ => Ok 0) (@DefaultUpdate _ _ (memory_Storage id)) NilIgnore None false false false.

Definition typed_manager : topicManager mapcluster :=
  (tm_EnsureStreamExists "in" 1 (mkTopicManager (mkMapcluster ∅ true) demo_tmc)).2.

Definition typed_processor : outcome (res (Processor memory nat (topicManager mapcluster))) :=
  NewProcessor typed_graph (Ok typed_options) (Ok typed_manager) names_view typed_manager.

Definition is_made (r : outcome (res (Processor memory nat (topicManager mapcluster)))) : bool :=
  match r with Ret (Ok _) => true | _ => false end.

Definition typed_g : Processor memory nat (topicManager mapcluster) :=
  match typed_processor with
  | Ret (Ok g) => g
  | _ => mkProcessor typed_options typed_graph ∅ ∅ 0 typed_manager table_signal0 [] false
  end.

Lemma typed_g_made : typed_processor = Ret (Ok typed_g).
Proof.
  assert (is_made typed_processor = true) as E by (vm_cast_no_check (eq_refl true)). unfold typed_g.
  revert E. by destruct typed_processor as [[g|]| |].
Qed.

Definition counts_table : PartitionTable memory :=
  mkPT "g-table" 0 table_signal0
    (Some (mkProxy NewMemory "g-table" 0 false (@DefaultUpdate _ _ (memory_Storage id)) None None))
    (@DefaultUpdate _ _ (memory_Storage id)) (newTableStats empty_heap).1 (newTableStats empty_heap).2 [] 0.

Definition typed_start : cbContext memory nat :=
  newContext (g_graph typed_g) ctx_msg None (Some counts_table) ∅ (g_lookupTables typed_g).
Definition typed_ctx : cbContext memory nat := ret_or typed_start (cx_start typed_start).

Definition looked_up : value * cbContext memory nat :=
  ret_or (VNil, typed_ctx) (ctx_Lookup (ST := memory_Storage id) false "names" "k" typed_ctx).

Lemma looked_up_ok : ctx_Lookup (ST := memory_Storage id) false "names" "k" typed_ctx = Ret (VString "ann", looked_up.2).
Proof. apply ret_or_pair; [vm_cast_no_check (eq_refl true)|vm_cast_no_check (eq_refl (VString "ann"))]. Qed.

Definition counted : cbContext memory nat :=
  ret_or typed_ctx (ctx_SetValue (ST := memory_Storage id) false (VInt64 7) [] false None typed_ctx).

Lemma counted_ok : ctx_SetValue (ST := memory_Storage id) false (VInt64 7) [] false None typed_ctx = Ret counted.
Proof. apply ret_or_ok. vm_cast_no_check (eq_refl true). Qed.

Lemma typed_ctx_of : of_processor typed_g typed_ctx.
Proof. by split. Qed.

Lemma typed_defined : DefineGroup "g" typed_edges = Ret typed_graph.
Proof. apply ret_or_ok. vm_cast_no_check (eq_refl true). Qed.

Lemma group_type_safe_witness :
  typed_or_nil (demo_types "names") (VString "ann") /\ dyn_type (VInt64 7) = Some (demo_types (tableName "g")).
Proof.
  destruct (group_type_safe (H := memory_Storage id) demo_types "g" typed_edges typed_graph (Ok typed_options) (Ok typed_manager)
    names_view typed_manager typed_g) as [Hops _].
  - unfold edges_typed, def_typed. csimpl.
    repeat (apply Forall_cons; split); [..|apply Forall_nil_2]; intros c [= <-];
      [apply StringCodec_typed|apply StringCodec_typed|apply Int64Codec_typed].
  - exact typed_defined.
  - intros topic [codec|] v; [|done]. by intros [= <-].
  - exact typed_g_made.
  - split.
    + destruct (Hops typed_ctx looked_up.2 typed_ctx_of) as (_ & _ & Hl & _). exact (Hl _ _ _ _ looked_up_ok).
    + destruct (Hops typed_ctx counted typed_ctx_of) as (_ & _ & _ & _ & _ & Hset). exact (Hset _ _ _ _ counted_ok).
Defined.
