(* ===== verification/Examples.v ===== *)
(** * Example applications: counting clicks

    [examples/2-clicks], [examples/5-multiple] and [examples/8-monitoring]: processors that count the
    clicks of each user in a table of JSON values; [examples/7-redis]: events published as they come;
    [examples/9-defer-commit]: a processor that commits a message when another system has it. *)
From Stdlib Require Import ZArith Lia.
From stdpp Require Import countable base gmap strings list.
From S2P Require Import Prelude Multierr Signal Codec Json Storage Memory MergeIterator Headers Stats Proxy PartitionTable Recovery.
From S2P Require Import Promise Graph View Context PartitionProcessor Failover Apps Typing.
Open Scope Z_scope.

(** ** Clicks of users *)

Module Clicks.

Definition topic : string := "user-click".
Definition group : string := "mini-group".

Record user : Type := mkUser { Clicks : Z }.

#[global] Instance user_eq_dec : EqDecision user.
Proof. solve_decision. Defined.
#[global] Instance user_countable : Countable user.
Proof. refine (inj_countable' Clicks mkUser _). by intros []. Defined.

(** The values are pointers to users; codecs and callbacks never share them, so that a pointer is
    what it points to. *)
Definition user_value : user -> value := box "*main.user".
Definition assert_user : value -> option user := unbox "*main.user".

(** The JSON form of a user. *)
Definition user_json (u : user) : json := JObj [("Clicks"%string, JNum (FormatInt (Clicks u)))].
Definition user_fields : fields user := [("Clicks"%string, fun j u => z ← read_int j (Clicks u); Ok (mkUser z))].

Definition userCodec_Encode (v : value) : res bytes :=
  match assert_user v with
  | None => Err (ErrNew "Codec requires value *user")
  | Some u => Marshal (user_json u)
  end.

Definition userCodec_Decode (data : bytes) : res value :=
  match Unmarshal (fun j => read_struct user_fields j (mkUser 0)) data with
  | Err e => Err (ErrWrap "Error unmarshaling user" e)
  | Ok c => Ok (user_value c)
  end.

Definition userCodec : Codec := mkCodec userCodec_Encode userCodec_Decode.

Definition process {S I CB} `{Storage S I} `{!Iterator I} (env : cb_env) (msg : value) (c : cbContext S CB) : list ctx_action :=
  cb_read env (ctx_Value (ce_cancelled env) c) (fun val =>
    match (if is_nil val then Some (mkUser 0) else assert_user val) with
    | None => cb_panic ErrTypeAssertion
    | Some u => [cb_SetValue env 0 c (user_value (mkUser (int64 (Clicks u + 1))))]
    end).

(** The edges of [runProcessor]. *)
Definition clicks_edges : list (Edge unit) := [Input topic (Some StringCodec) (Some tt); Persist (Some userCodec)].

(** *** Lemmas *)

Definition user_ok (u : user) : Prop := in_int64 (Clicks u).

Lemma user_json_ok u : user_ok u -> json_ok (user_json u).
Proof. intros Hu. constructor. constructor; [|done]. split; [done|]. constructor. by apply FormatInt_literal. Qed.

Lemma userCodec_roundtrip u :
  user_ok u -> exists d, userCodec_Encode (user_value u) = Ok (Some d) /\ userCodec_Decode (Some d) = Ok (user_value u).
Proof.
  intros Hu. exists (print (user_json u)). unfold userCodec_Encode, userCodec_Decode, assert_user, user_value. rewrite unbox_box.
  split; [done|]. rewrite Unmarshal_print by (by apply user_json_ok).
  cbn. rewrite ParseInt_FormatInt by done. by destruct u.
Qed.

#[global] Instance user_state_codec : StateCodec userCodec assert_user user_value user_ok.
Proof. split; [intros a; apply unbox_box|done|apply userCodec_roundtrip]. Qed.

Lemma userCodec_not_nil v : Encode userCodec v <> Ok None.
Proof. simpl. unfold userCodec_Encode. by destruct (assert_user v). Qed.

#[global] Instance userCodec_typed : CodecTyped userCodec (TOther "*main.user").
Proof.
  split.
  - intros v b. simpl. unfold userCodec_Encode, assert_user, unbox. destruct v as [| | | |ty n]; try done. simpl.
    destruct (String.eqb_spec ty "*main.user") as [->|]; [done|done].
  - intros b v. simpl. unfold userCodec_Decode. destruct (Unmarshal _ b); [|done]. by intros [= <-].
Qed.

(** The callback is an aggregate. *)
Definition add_click {CB} (_ : CB) (_ : value) (u : user) : option user := Some (mkUser (int64 (Clicks u + 1))).
Definition no_requests {CB} (_ : CB) (_ : value) (_ : user) (_ : string) : list request := [].

Lemma process_aggregate {S I CB} `{Storage S I} `{!Iterator I} env cb v (c : cbContext S CB) :
  process env v c = aggregate assert_user user_value (mkUser 0) add_click no_requests env cb v c.
Proof.
  unfold process, aggregate, cb_read. destruct (ctx_Value _ c) as [[val c1]| |]; [|done|done]. f_equal.
  by destruct (if is_nil val then _ else _).
Qed.
End Clicks.

(** ** Two inputs

    [examples/5-multiple/main.go] repeats the user, its codec and the callback, for two input topics. *)
Module Multiple.

Definition inputA : string := "input-A".
Definition inputB : string := "input-B".
Definition group : string := "multiInput".

Definition multiple_process {S I CB} `{Storage S I} `{!Iterator I} : cb_env -> value -> cbContext S CB -> list ctx_action := Clicks.process.
Definition multiple_userCodec : Codec := Clicks.userCodec.

(** The edges of [runProcessor]. *)
Definition multiple_edges : list (Edge unit) :=
  [Input inputA (Some StringCodec) (Some tt); Input inputB (Some StringCodec) (Some tt); Persist (Some multiple_userCodec)].

Definition graph : GroupGraph unit := ret_or (empty_graph group) (DefineGroup group multiple_edges).

Lemma multiple_defined : DefineGroup group multiple_edges = Ret graph.
Proof. apply ret_or_ok. vm_cast_no_check (eq_refl true). Qed.

Lemma graph_table : GroupTable graph = Some (mkTopicDef "multiInput-table" (Some multiple_userCodec)).
Proof. vm_cast_no_check (eq_refl (Some (mkTopicDef "multiInput-table" (Some multiple_userCodec)))). Qed.

Lemma graph_inputs topic : topic = inputA \/ topic = inputB ->
  mjoin (pp_callbackMap graph !! topic) = Some tt /\ graph_codec topic graph = Some StringCodec.
Proof.
  intros [->| ->]; (split; [vm_cast_no_check (eq_refl (Some tt))|vm_cast_no_check (eq_refl (Some StringCodec))]).
Qed.
End Multiple.

(** ** Monitoring

    [examples/8-monitoring/main.go] repeats the user, its codec and the callback; it runs a processor
    that counts, one that ignores its messages, and one that counts and looks up the first one's table,
    which in turn joins the table of the third. *)
Module Monitoring.

Definition topic : string := "user-click".
Definition group : string := "mini-group".
Definition joinGroup : string := group +:+ "-join".

Definition monitoring_process {S I CB} `{Storage S I} `{!Iterator I} : cb_env -> value -> cbContext S CB -> list ctx_action := Clicks.process.
Definition monitoring_userCodec : Codec := Clicks.userCodec.

(** The callback of [runStatelessProcessor]. *)
Definition ignore {S CB} (env : cb_env) (msg : value) (c : cbContext S CB) : list ctx_action := [].

(** The callback of [runJoinProcessor]. *)
Definition join_process {S I CB} `{Storage S I} `{!Iterator I} (env : cb_env) (msg : value) (c : cbContext S CB) : list ctx_action :=
  cb_read env (ctx_Value (ce_cancelled env) c) (fun val =>
    match (if is_nil val then Some (Clicks.mkUser 0) else Clicks.assert_user val) with
    | None => cb_panic ErrTypeAssertion
    | Some u => [cb_SetValue env 0 c (Clicks.user_value (Clicks.mkUser (int64 (Clicks.Clicks u + 1))))]
    end).

Definition stateless_edges : list (Edge unit) := [Input topic (Some StringCodec) (Some tt)].
Definition join_edges : list (Edge unit) :=
  [Input topic (Some StringCodec) (Some tt); Lookup (tableName group) (Some monitoring_userCodec); Persist (Some monitoring_userCodec)].
Definition monitoring_edges : list (Edge unit) :=
  [Input topic (Some StringCodec) (Some tt); Join (tableName joinGroup) (Some StringCodec); Persist (Some monitoring_userCodec)].

(** The types of the two groups do not fit: the table of the join group holds users, and the first group
    joins it with a codec for strings.  (The callback does not read the joined table.) *)
Lemma join_codec_mistyped (ty : string -> GoType) :
  edges_typed ty joinGroup join_edges -> edges_typed ty group monitoring_edges -> False.
Proof.
  unfold edges_typed, def_typed. csimpl. rewrite !Forall_cons. cbn [td_codec td_name fst snd].
  intros (_ & _ & Hp & _) (_ & Hj & _).
  pose proof (ct_decode (CodecTyped := Hj _ eq_refl) (Some "null"%string) _ eq_refl) as E1.
  pose proof (ct_decode (CodecTyped := Hp _ eq_refl) (Some "null"%string) _ eq_refl) as E2.
  assert (Some TString = Some (TOther "*main.user")) as E by (exact (eq_trans E1 (eq_sym E2))). discriminate E.
Qed.
End Monitoring.

(** ** Events

    [examples/7-redis]: [codec.go], [event.go], [consumer.go] and [producer.go]. *)
Module Redis.

Record Event : Type := mkEvent { UserID : string; Timestamp : Z }.

#[global] Instance Event_eq_dec : EqDecision Event.
Proof. solve_decision. Defined.
#[global] Instance Event_countable : Countable Event.
Proof. refine (inj_countable' (fun e => (UserID e, Timestamp e)) (fun '(u, t) => mkEvent u t) _). by intros []. Defined.

Definition event_value : Event -> value := box "*main.Event".
Definition assert_event : value -> option Event := unbox "*main.Event".

(** The names of the fields come from the tags. *)
Definition event_json (e : Event) : json :=
  JObj [("user_id"%string, JStr (UserID e)); ("timestamp"%string, JNum (FormatInt (Timestamp e)))].
Definition event_fields : fields Event :=
  [("user_id"%string, fun j e => s ← read_string j (UserID e); Ok (mkEvent s (Timestamp e)));
   ("timestamp"%string, fun j e => z ← read_int j (Timestamp e); Ok (mkEvent (UserID e) z))].

Definition Codec_Encode : marshaller -> value -> res bytes := json_Encode assert_event event_json.
Definition Codec_Decode (data : bytes) : res value :=
  match Unmarshal (fun j => read_struct event_fields j (mkEvent "" 0)) data with
  | Ok event => Ok (event_value event)
  | Err e => Err e
  end.
Definition Codec (other : marshaller) : Codec := mkCodec (Codec_Encode other) Codec_Decode.

(** The callback of [Consume]: what is published for a message; it does nothing with its context. *)
Definition published {S CB} (msg : value) (c : cbContext S CB) : option (string * Event) :=
  match assert_event msg with Some event => Some (ctx_Key c, event) | None => None end.

(** The edges of [Consume]. *)
Definition redis_edges (stream : string) (other : marshaller) : list (Edge unit) :=
  [Input stream (Some (Codec other)) (Some tt); Persist (Some (Codec other))].

Lemma Codec_trip other e :
  utf8_valid 0 (UserID e) = true -> in_int64 (Timestamp e) -> codec_trip (Codec other) event_value e.
Proof.
  intros Hu Ht. destruct (json_trip "*main.Event" event_json (fun j => read_struct event_fields j (mkEvent "" 0)) other e) as [He Hd].
  - constructor. constructor; [split; [done|by constructor]|]. constructor; [|done]. split; [done|]. constructor. by apply FormatInt_literal.
  - cbn. rewrite ParseInt_FormatInt by done. by destruct e.
  - exists (print (event_json e)). split; [exact He|]. cbv beta iota delta [Decode Codec Codec_Decode]. by rewrite Hd.
Qed.
End Redis.

(** ** Commits that wait for another system

    [examples/9-defer-commit/main.go]. *)
Module DeferredCommit.

Definition inputTopic : string := "input-topic".
Definition forwardTopic : string := "forward-topic".

(** The callback of the forwarder, given what [forwardEmitter.Emit] returned: an error, or a promise
    that is pending ([None]) or finished already.  A promise that is finished calls [commit] at once,
    one that is pending does so when it is finished.  After an error the promise is nil. *)
Definition forward {S CB} (env : cb_env) (nocommit : bool) (emitted : res (option (option error))) (c : cbContext S CB)
  : list ctx_action :=
  let then_commit prom :=
    if nocommit then []
    else match prom with
         | Err _ => cb_panic (ErrNew "nil pointer dereference")
         | Ok None => []
         | Ok (Some err) => [ADeferred (cx_next c) err]
         end in
  match emitted with
  | Err e => [AFail (ce_cancelled env) (ErrWrap "error emitting" e)]
  | Ok _ => []
  end ++ ADeferCommit :: then_commit emitted.

Definition forwarder_edges : list (Edge unit) := [Input inputTopic (Some StringCodec) (Some tt)].
Definition consumer_edges : list (Edge unit) := [Input forwardTopic (Some StringCodec) (Some tt)].

(** A context whose callback runs and which waits for the deferred commits [i]. *)
Definition waits_for {S CB} (i : gset nat) (errors : list error) (c : cbContext S CB) : Prop :=
  ctx_inv c /\ cx_promises c = ∅ /\ cx_deferred c = i /\ errs (cx_errors c) = errors.

Section waits.
Context {S I : Type} {ST : Storage S I} {IT : Iterator I} {CB : Type}.
Implicit Types c : cbContext S CB.

Lemma DeferCommit_waits errors c :
  waits_for ∅ errors c -> cx_done c = false ->
  waits_for {[cx_next c]} errors (DeferCommit c).2 /\ cx_done (DeferCommit c).2 = false.
Proof.
  intros (Hi & Hp & Hd & He) Hdone. destruct (DeferCommit_keeps c Hi Hdone) as [Hi' [Hd' _]]. split; [|done].
  split_and!; [done|done| |done]. simpl. by rewrite Hd, union_empty_r_L.
Qed.

Lemma finish_waits i errors c :
  waits_for i errors c -> cx_done c = false ->
  exists c', cx_finish None c = Ret c' /\ waits_for i errors c' /\ cx_done c' = true.
Proof.
  intros ([Hc Hf Hs] & Hp & Hd & He) Hdone. rewrite Hdone in Hs. unfold cx_finish.
  destruct (tryCommit_ok None (cx_set_protocol true (cx_emits c) (cx_dones c) (cx_stores c)
      (cx_errors c) (cx_commits c) (cx_failures c) (cx_wg c) c)) as (c' & E & Hi & Hd' & He' & _ & Hp' & Hdef'); [done|done|done|].
  exists c'. split_and!; [done| |done]. simpl in *. split_and!; [done|congruence|congruence|by rewrite He', app_nil_r].
Qed.

Lemma deferred_waits i err c :
  waits_for {[i]} [] c ->
  exists c', call_deferred i err c = Ret c' /\ waits_for ∅ (option_list err) c' /\ cx_done c' = cx_done c.
Proof.
  intros (Hi & Hp & Hdef & He). unfold call_deferred. assert (i ∈ cx_deferred c) as Hin by (rewrite Hdef; set_solver).
  rewrite decide_True by done.
  destruct (emitDone_ok err _ (deferred_mid i c Hi Hin)) as (c' & E & Hi' & Hd' & He' & _ & Hp' & Hdef'). simpl in *.
  exists c'. split_and!; [done| |done]. split_and!; [done|congruence| |by rewrite He', He].
  by rewrite Hdef', Hdef, difference_diag_L.
Qed.

(** Waiting for nothing, the context is settled once the callback has returned. *)
Lemma waits_settled err c :
  waits_for ∅ (option_list err) c -> cx_done c = true ->
  ctx_settled c /\ cx_commits c = match err with Some _ => 0%nat | None => 1%nat end /\ errs (cx_errors c) = option_list err.
Proof.
  intros ([_ _ Hs] & Hp & Hd & He) Hdone. unfold outstanding in Hs. rewrite Hp, Hd, Hdone in Hs.
  assert (ctx_settled c) as Hset by exact Hs. split_and!; [done| |done].
  destruct Hset as [_ [(H1 & H2 & _)|(H1 & H2 & _)]]; rewrite He in H1; by destruct err.
Qed.

Lemma waits_open i errors c : waits_for {[i]} errors c -> ctx_open c.
Proof.
  intros ([_ _ Hs] & Hp & Hd & He). unfold outstanding in Hs. rewrite Hp, Hd in Hs. rewrite size_singleton, map_size_empty in Hs.
  by rewrite andb_false_r in Hs.
Qed.
End waits.
End DeferredCommit.

(** ** Properties *)

(** What arrives at the processor of [examples/5-multiple]: messages of its two inputs and
    acknowledgements. *)
Definition click_event {S I} `{StorageLaws S I} (e : run_event) : Prop :=
  match e with
  | RMsg msg => (cm_Topic msg = Multiple.inputA \/ cm_Topic msg = Multiple.inputB) /\ is_Some (cm_Value msg) /\
      ~ st_reserved (S := S) (msg_key msg)
  | RResolve _ _ r => resolution_ok r
  | RDeferred _ _ _ => True
  | _ => False
  end.

Definition clicks_cb {S I} `{Storage S I} `{!Iterator I} (env : cb_env) (_ : unit) (v : value) (c : cbContext S unit) :
  list ctx_action := Multiple.multiple_process env v c.

Lemma click_event_ok {S I} `{StorageLaws S I} `{!Iterator I} env e :
  click_event (S := S) e ->
  app_event Clicks.assert_user Clicks.user_value Clicks.user_ok (Clicks.mkUser 0) Clicks.add_click Clicks.no_requests env
    (clicks_cb (S := S) env) Multiple.graph e.
Proof.
  destruct e as [msg| | | |n i r|n i err]; try done. intros (Ht & Hv & Hk).
  destruct (Multiple.graph_inputs _ Ht) as [Hcb Hc]. split_and!; [done|done|].
  exists tt, (VString (string_of_bytes (cm_Value msg))). split_and!.
  - unfold message_input. by rewrite Hcb, Hc.
  - intros c. apply Clicks.process_aggregate.
  - intros u _. eexists. split_and!; [done|apply int64_range|done].
Qed.

(** Counting up. *)
Lemma clicks_fold msgs (u : option Clicks.user) :
  Forall (fun msg => is_Some (message_input Multiple.graph msg)) msgs ->
  fold_left (key_update (Clicks.mkUser 0) Clicks.add_click Multiple.graph) msgs u =
  match msgs with
  | [] => u
  | _ => Some (Clicks.mkUser (int64 (Clicks.Clicks (default (Clicks.mkUser 0) u) + Z.of_nat (length msgs))))
  end.
Proof.
  intros HF. revert u. induction HF as [|msg msgs [[cb v] Hv] HF IH]; intros u; [done|].
  cbn [fold_left]. rewrite IH. unfold key_update. rewrite Hv. cbn [Clicks.add_click default Clicks.Clicks].
  destruct msgs as [|msg' msgs]; [done|]. do 2 f_equal. cbn [from_option id Clicks.Clicks]. rewrite int64_add_l. f_equal.
  cbn [length]. lia.
Qed.

(** C14. Clicks are counted: the processor of [examples/5-multiple], whose table holds the given users,
    processes every message with a value of its two inputs, in any order and however they interleave
    with the acknowledgements; it keeps running, and at the end the table holds, for every key, the clicks the
    user had before and one for each message of the key, in two's complement if they exceed an int. *)
Theorem clicks_counted {S I} `{StorageLaws S I} `{!Iterator I} (env : cb_env) (m : gmap string string)
    (users : string -> option Clicks.user) (pp : PartitionProcessor S unit) (evs : list run_event) :
  ce_cancelled env = false -> (forall msg n r, ce_answer env msg n = Some r -> resolution_ok r) ->
  app_at Multiple.graph m [] pp -> holds (S := S) Multiple.multiple_userCodec Clicks.user_value Clicks.user_ok m users ->
  Forall (click_event (S := S)) evs -> pp_run (clicks_cb env) evs pp <> Blocked ->
  exists pp' m', pp_run (clicks_cb env) evs pp = Ret (None, pp') /\ run_at (pp_table pp') m' /\
    forall k, ~ st_reserved (S := S) k ->
      let n := length (filter (fun msg => msg_key msg = k) (messages evs)) in
      state_of Multiple.multiple_userCodec Clicks.assert_user (Ret (Ok (m' !! k))) =
        if (n =? 0)%nat then users k
        else Some (Clicks.mkUser (int64 (Clicks.Clicks (default (Clicks.mkUser 0) (users k)) + Z.of_nat n))).
Proof.
  intros Hc Ha Hat Hh Hevs Hnb.
  assert (Forall (fun msg => is_Some (message_input Multiple.graph msg)) (messages evs)) as Hin.
  { apply Forall_forall. intros msg Hm. unfold messages in Hm. apply list_elem_of_omap in Hm as (e & He & Hmsg).
    rewrite Forall_forall in Hevs. specialize (Hevs e He). destruct e as [msg'| | | | |]; try done. injection Hmsg as ->.
    destruct (click_event_ok env (RMsg msg) Hevs) as (_ & _ & cb & v & -> & _). done. }
  destruct (app_run Multiple.multiple_userCodec Clicks.assert_user Clicks.user_value Clicks.user_ok (Clicks.mkUser 0) Clicks.add_click
    Clicks.no_requests env (clicks_cb env) Multiple.graph m users [] evs pp) as (pp' & m' & Hrun & Hat' & Hh').
  - constructor; [exact Multiple.graph_table|done|done].
  - done.
  - done.
  - eapply Forall_impl; [exact Hevs|]. intros e. apply click_event_ok.
  - done.
  - exists pp', m'. split_and!; [done|apply (aa_table _ _ _ _ Hat')|]. intros k Hk. cbv zeta.
    rewrite (holds_state _ _ _ _ _ _ _ Hh' Hk), app_spec_key, clicks_fold.
    + by destruct (filter _ (messages evs)).
    + rewrite Forall_forall in *. intros msg [_ ?]%list_elem_of_filter. by apply Hin.
Qed.

(** A click of each input, for one user. *)
Definition ex_proxy : storageProxy memory :=
  mkProxy NewMemory "multiInput-table" 0 false (@DefaultUpdate _ _ (memory_Storage id)) None None.
Definition ex_table : PartitionTable memory :=
  mkPT "multiInput-table" 0 running_signal (Some ex_proxy) (@DefaultUpdate _ _ (memory_Storage id))
    (newTableStats empty_heap).1 (newTableStats empty_heap).2 [] 0.
Definition ex_pp : PartitionProcessor memory unit :=
  mkPP Multiple.graph (pp_callbackMap Multiple.graph) (Some ex_table) ∅ ∅ NilIgnore None [] [] new_Errors false None.
Definition ex_evs : list run_event :=
  [RMsg (mkMsg "input-A" 0 (Some "user-1"%string) (Some "now"%string) 0 [] None);
   RMsg (mkMsg "input-B" 0 (Some "user-1"%string) (Some "now"%string) 0 [] None);
   RResolve 1 0 (Some (mkPMsg 0 1), None)].

Lemma ex_runs : is_ret (pp_run (ST := memory_Storage id) (clicks_cb (H := memory_Storage id) app_env) ex_evs ex_pp) = true.
Proof. vm_cast_no_check (eq_refl true). Qed.

Lemma clicks_counted_witness :
  exists pp' (m' : gmap string string),
    pp_run (ST := memory_Storage id) (clicks_cb (H := memory_Storage id) app_env) ex_evs ex_pp = Ret (None, pp') /\
    state_of Multiple.multiple_userCodec Clicks.assert_user (Ret (Ok (m' !! "user-1"%string))) = Some (Clicks.mkUser 2).
Proof.
  destruct (clicks_counted (H := memory_Storage id) (H0 := memory_Laws id) app_env ∅ (fun _ => None) ex_pp ex_evs)
    as (pp' & m' & Hrun & _ & Hk).
  - reflexivity.
  - discriminate.
  - constructor; [done|done|done| |done]. exists ex_table, ex_proxy. split_and!; [done|done|done|apply NewMemory_wf|done].
  - intros k _. by rewrite lookup_empty.
  - repeat (apply Forall_cons; split); [..|done]; try (split_and!; [auto|done|by intros []]).
    unfold click_event, resolution_ok, in_int64. simpl. lia.
  - pose proof ex_runs as E. intros E'. rewrite E' in E. discriminate E.
  - exists pp', m'. split; [exact Hrun|]. apply (Hk "user-1"%string). by intros [].
Defined.

(** A forwarded message is committed with the external system: the callback of the forwarder never
    commits by returning; when the promise of the external emitter is finished, before the callback
    returns or afterwards, the message is committed once if the emit succeeded, and otherwise the
    processor is failed with its error.  With [no-commit] the message stays uncommitted. *)
Theorem forward_commits_with_emit {S I} `{Storage S I} `{!Iterator I} {CB} (gg : GroupGraph CB) msg hdr table joins lookups
    (env : cb_env) (err : option error) (c0 : cbContext S CB) :
  cx_start (newContext gg msg hdr table joins lookups) = Ret c0 ->
  let settled c := ctx_settled c /\ cx_commits c = (match err with Some _ => 0%nat | None => 1%nat end) /\ errs (cx_errors c) = option_list err in
  (exists c1 c2, ctx_run (DeferredCommit.forward env false (Ok None) c0 ++ [AFinish]) c0 = Ret c1 /\ ctx_open c1 /\
     ctx_step (ADeferred (cx_next c0) err) c1 = Ret c2 /\ settled c2) /\
  (exists c2, ctx_run (DeferredCommit.forward env false (Ok (Some err)) c0 ++ [AFinish]) c0 = Ret c2 /\ settled c2) /\
  (forall prom, exists c1, ctx_run (DeferredCommit.forward env true (Ok prom) c0 ++ [AFinish]) c0 = Ret c1 /\ ctx_open c1).
Proof.
  intros Hst. cbv zeta. destruct (newContext_start (S := S) gg msg hdr table joins lookups) as (c0' & Hst' & Hi & Hd & He & _).
  assert (c0' = c0) as -> by congruence.
  assert (DeferredCommit.waits_for ∅ [] c0) as Hw0 by (injection Hst as <-; by split_and!).
  destruct (DeferredCommit.DeferCommit_waits [] c0 Hw0 Hd) as [Hw1 Hd1].
  destruct (DeferredCommit.finish_waits _ _ _ Hw1 Hd1) as (c1 & E1 & Hw2 & Hd2).
  assert (ctx_run [ADeferCommit; AFinish] c0 = Ret c1) as Hrun by (cbn [ctx_run ctx_step mbind outcome_bind]; by rewrite E1).
  split_and!.
  - destruct (DeferredCommit.deferred_waits _ err c1 Hw2) as (c2 & E2 & Hw3 & Hd3). exists c1, c2.
    split; [exact Hrun|]. split; [by eapply DeferredCommit.waits_open|]. split; [exact E2|].
    apply DeferredCommit.waits_settled; congruence.
  - destruct (DeferredCommit.deferred_waits _ err _ Hw1) as (c2 & E2 & Hw3 & Hd3).
    destruct (DeferredCommit.finish_waits _ _ _ Hw3) as (c3 & E3 & Hw4 & Hd4); [congruence|]. exists c3. split.
    + cbn [DeferredCommit.forward app ctx_run ctx_step mbind outcome_bind]. rewrite E2. cbn [mbind outcome_bind]. by rewrite E3.
    + by apply DeferredCommit.waits_settled.
  - intros prom. exists c1. split; [exact Hrun|by eapply DeferredCommit.waits_open].
Qed.

Lemma forward_commits_with_emit_witness :
  exists c2, ctx_run (ST := memory_Storage id) (DeferredCommit.forward app_env false (Ok (Some None)) demo_ctx ++ [AFinish]) demo_ctx
    = Ret c2 /\ cx_commits c2 = 1%nat.
Proof.
  destruct (forward_commits_with_emit (H := memory_Storage id) ctx_graph ctx_msg None (cx_table demo_ctx) ∅ ∅ app_env None demo_ctx)
    as (_ & (c2 & Hr & _ & Hc & _) & _); [reflexivity|].
  exists c2. split; [exact Hr|exact Hc].
Defined.
