(* ===== verification/Paths.v ===== *)
(** * Paths of files

    What the code uses of [path/filepath]: [Join], with the lexical processing of [Clean], on a system
    whose separator is the slash. *)
From Stdlib Require Import ZArith Lia Ascii.
From stdpp Require Import base gmap strings list.
From S2P Require Import Prelude Codec.
Open Scope Z_scope.

Definition slash : ascii := "/"%char.

(** The elements of a path between the slashes; [cur] is the current one. *)
Fixpoint split_slash (s cur : string) : list string :=
  match s with
  | EmptyString => [cur]
  | String c s => if Ascii.eqb c slash then cur :: split_slash s "" else split_slash s (cur +:+ String c "")
  end.

(** One element: empty ones and dots are dropped, two dots remove the element before them. *)
Definition clean_step (rooted : bool) (out : list string) (elem : string) : list string :=
  if String.eqb elem "" || String.eqb elem "." then out
  else if String.eqb elem ".." then
    match out with
    | [] => if rooted then [] else [".."%string]
    | last :: rest => if String.eqb last ".." then ".."%string :: out else rest
    end
  else elem :: out.

(** [filepath.Clean] *)
Definition Clean (path : string) : string :=
  let rooted := match path with String c _ => Ascii.eqb c slash | EmptyString => false end in
  let out := fold_left (clean_step rooted) (split_slash path "") [] in
  let body := String.concat "/" (rev out) in
  if rooted then String slash body else if String.eqb body "" then "." else body.

(** [filepath.Join]: leading empty elements are ignored. *)
Fixpoint Join (elems : list string) : string :=
  match elems with
  | [] => ""
  | e :: rest => if String.eqb e "" then Join rest else Clean (String.concat "/" elems)
  end.

(** ** Lemmas *)

Lemma split_slash_last s name cur :
  no_char slash name = true -> split_slash (s +:+ String slash name) cur = split_slash s cur ++ [name].
Proof.
  intros Hn.
  assert (forall n c, no_char slash n = true -> split_slash n c = [c +:+ n]) as Hone.
  { clear. intros n. induction n as [|a n IH]; intros c Hn; cbn [split_slash]; [by rewrite str_app_nil_r|].
    cbn [no_char] in Hn. apply andb_true_iff in Hn as [Ha Hn]. apply negb_true_iff in Ha. rewrite Ha, IH by done.
    by rewrite <- str_app_assoc. }
  revert cur. induction s as [|a s IH]; intros cur.
  - change (EmptyString +:+ String slash name) with (String slash name). cbn [split_slash].
    rewrite Ascii.eqb_refl, Hone by done. done.
  - change (String a s +:+ String slash name) with (String a (s +:+ String slash name)). cbn [split_slash].
    destruct (Ascii.eqb a slash); rewrite IH; done.
Qed.

(** A plain name: no slash, and neither empty nor a dot or two. *)
Definition plain (name : string) : Prop :=
  no_char slash name = true /\ name <> ""%string /\ name <> "."%string /\ name <> ".."%string.

(** The elements of a directory with a slash behind them. *)
Definition dir_of (l : list string) : string :=
  match l with [] => "" | _ => String.concat "/" l +:+ "/" end.

Lemma concat_snoc (l : list string) x : String.concat "/" (l ++ [x]) = dir_of l +:+ x.
Proof.
  induction l as [|y l IH]; [done|]. destruct l as [|z l].
  - unfold dir_of. simpl. by rewrite <- str_app_assoc.
  - change (String.concat "/" ((y :: z :: l) ++ [x])) with (y +:+ "/" +:+ String.concat "/" ((z :: l) ++ [x])).
    rewrite IH. unfold dir_of. change (String.concat "/" (y :: z :: l)) with (y +:+ "/" +:+ String.concat "/" (z :: l)).
    by rewrite <- !str_app_assoc.
Qed.

(** Joining a directory and a plain name appends the name to something that depends on the directory
    alone. *)
Lemma Join_plain dir : exists prefix, forall name, plain name -> Join [dir; name] = prefix +:+ name.
Proof.
  assert (forall rooted out name, plain name -> clean_step rooted out name = name :: out) as Hstep.
  { intros rooted out name (_ & H0 & H1 & H2). unfold clean_step.
    by rewrite (proj2 (String.eqb_neq _ _) H0), (proj2 (String.eqb_neq _ _) H1), (proj2 (String.eqb_neq _ _) H2). }
  destruct (String.eqb_spec dir "") as [->|Hd].
  - exists ""%string. intros name Hn. pose proof Hn as (Hs & H0 & _). cbn [Join].
    change (String.eqb "" "") with true. cbv iota. rewrite (proj2 (String.eqb_neq _ _) H0). cbn [String.concat].
    unfold Clean. destruct name as [|c name]; [done|]. cbn [no_char] in Hs. apply andb_true_iff in Hs as [Hc Hs].
    apply negb_true_iff in Hc. rewrite Hc.
    assert (split_slash (String c name) "" = [String c name]) as ->.
    { pose proof (split_slash_last "" (String c name) "") as H. change ("" +:+ String slash (String c name))
        with (String slash (String c name)) in H. cbn [split_slash] in H. rewrite Ascii.eqb_refl in H.
      assert (no_char slash (String c name) = true) as Hnc by (cbn [no_char]; by rewrite Hc, Hs).
      specialize (H Hnc). injection H as H. exact H. }
    cbn [fold_left]. rewrite Hstep by done. reflexivity.
  - set (rooted := match dir with String c _ => Ascii.eqb c slash | EmptyString => false end).
    set (out := fold_left (clean_step rooted) (split_slash dir "") []).
    exists ((if rooted then "/" else "") +:+ dir_of (rev out))%string.
    intros name Hn. cbn [Join]. rewrite (proj2 (String.eqb_neq _ _) Hd).
    change (String.concat "/" [dir; name]) with (dir +:+ "/" +:+ name).
    change ("/" +:+ name) with (String slash name). unfold Clean.
    assert (match dir +:+ String slash name with String c _ => Ascii.eqb c slash | EmptyString => false end = rooted) as ->
      by (by destruct dir).
    rewrite split_slash_last by apply Hn. rewrite fold_left_app. fold out. cbn [fold_left]. rewrite Hstep by done.
    cbn [rev]. rewrite concat_snoc. destruct rooted.
    + by rewrite <- str_app_assoc.
    + change ("" +:+ ?x) with x. destruct (String.eqb_spec (dir_of (rev out) +:+ name) "")
        as [E|E]; [|done]. exfalso. destruct Hn as (_ & H0 & _).
      unfold dir_of in E. destruct (rev out) as [|x l]; [by apply H0|]. destruct (String.concat "/" (x :: l)); done.
Qed.
