(* ===== verification/Options.v ===== *)
(** * Options

    [options.go]: the options of processors, views and emitters are functions that change a record;
    [applyOptions] runs them on defaults and fills in the builders that are still missing.  The options
    that the constructors put in front of the user's are here too. *)
From Stdlib Require Import ZArith Lia.
From stdpp Require Import base gmap strings list.
From S2P Require Import Prelude Codec Storage Headers Proxy Graph PartitionProcessor Processor Paths.
Open Scope Z_scope.

(** ** Default values *)

Definition defaultBaseStoragePath : string := "/tmp/goka".
Definition defaultClientID : string := "goka".
Definition defaultBackoffResetTime : Z := 60 * 1000000000.
Definition defaultPartitionChannelSize : Z := 10.

Definition DefaultProcessorStoragePath (group : string) : string :=
  Join [defaultBaseStoragePath; "processor"%string; group].
Definition DefaultViewStoragePath : string := Join [defaultBaseStoragePath; "view"%string].

Section options.
(** The types of what is only passed on: loggers, hashers, the builders; and the state of the outside
    world that a hook or a tester may change. *)
Context {S CB Logger Hasher SB CSB CGB PB TMB BB World : Type}.

(** [wrapLogger], and the values the package falls back to. *)
Record package_defaults : Type := mkDefaults {
  pd_logger : Logger;
  pd_wrapLogger : Logger -> Logger;
  pd_isPrefixLogger : Logger -> bool;
  pd_hasher : Hasher;
  pd_storage : string -> SB;
  pd_consumerSarama : CSB;
  pd_consumerGroup : CGB;
  pd_producer : PB;
  pd_topicmgr : TMB;
  pd_backoff : BB;
  pd_updateCallback : UpdateCallback S
}.
Variable pd : package_defaults.

(** [l.(logger)], or a wrapped logger. *)
Definition as_logger (l : Logger) : Logger := if pd_isPrefixLogger pd l then l else pd_wrapLogger pd l.

(** [type Tester interface] *)
Record tester_interface : Type := mkTesterInterface {
  ti_StorageBuilder : option SB;
  ti_ProducerBuilder : option PB;
  ti_ConsumerGroupBuilder : option CGB;
  ti_ConsumerBuilder : option CSB;
  ti_EmitterProducerBuilder : option PB;
  ti_TopicManagerBuilder : option TMB;
  ti_RegisterGroupGraph : GroupGraph CB -> World -> string * World;
  ti_RegisterEmitter : string -> option Codec -> World -> World;
  ti_RegisterView : string -> option Codec -> World -> string * World
}.

(** ** Processor options *)

(** [type poptions struct]; a builder that is not set is nil.  The rebalance callback is given by
    whether it is set. *)
Record poptions : Type := mkPoptions' {
  po_log : option Logger;
  po_clientID : string;
  po_update : option (UpdateCallback S);
  po_rebalance : bool;
  po_partitionChannelSize : Z;
  po_hash : option Hasher;
  po_nil : NilHandling;
  po_backoffResetTime : Z;
  po_standby : bool;
  po_ahead : bool;
  po_producerDefaultHeaders : Headers;
  po_storageBuilder : option SB;
  po_consumerSaramaBuilder : option CSB;
  po_consumerGroupBuilder : option CGB;
  po_producerBuilder : option PB;
  po_topicmgrBuilder : option TMB;
  po_backoffBuilder : option BB
}.

(** [new(poptions)] *)
Definition new_poptions : poptions :=
  mkPoptions' None "" None false 0 None NilIgnore 0 false false None None None None None None None.

(** [type ProcessorOption func( *poptions, *GroupGraph)] *)
Definition ProcessorOption : Type := GroupGraph CB -> poptions * World -> poptions * World.

(** An option that changes the record only. *)
Definition popt (f : poptions -> poptions) : ProcessorOption := fun _ '(o, w) => (f o, w).

Definition WithUpdateCallback (cb : option (UpdateCallback S)) : ProcessorOption := popt (fun '(mkPoptions' a b _ d e f g h i j k l m n o p q) => mkPoptions' a b cb d e f g h i j k l m n o p q).
Definition WithClientID (clientID : string) : ProcessorOption := popt (fun '(mkPoptions' a _ c d e f g h i j k l m n o p q) => mkPoptions' a clientID c d e f g h i j k l m n o p q).
Definition WithStorageBuilder (sb : option SB) : ProcessorOption := popt (fun '(mkPoptions' a b c d e f g h i j k _ m n o p q) => mkPoptions' a b c d e f g h i j k sb m n o p q).
Definition WithTopicManagerBuilder (tmb : option TMB) : ProcessorOption := popt (fun '(mkPoptions' a b c d e f g h i j k l m n o _ q) => mkPoptions' a b c d e f g h i j k l m n o tmb q).
Definition WithConsumerGroupBuilder (cgb : option CGB) : ProcessorOption := popt (fun '(mkPoptions' a b c d e f g h i j k l m _ o p q) => mkPoptions' a b c d e f g h i j k l m cgb o p q).
Definition WithConsumerSaramaBuilder (cgb : option CSB) : ProcessorOption := popt (fun '(mkPoptions' a b c d e f g h i j k l _ n o p q) => mkPoptions' a b c d e f g h i j k l cgb n o p q).
Definition WithProducerBuilder (pb : option PB) : ProcessorOption := popt (fun '(mkPoptions' a b c d e f g h i j k l m n _ p q) => mkPoptions' a b c d e f g h i j k l m n pb p q).
Definition WithBackoffBuilder (bb : option BB) : ProcessorOption := popt (fun '(mkPoptions' a b c d e f g h i j k l m n o p _) => mkPoptions' a b c d e f g h i j k l m n o p bb).
Definition WithPartitionChannelSize (size : Z) : ProcessorOption := popt (fun '(mkPoptions' a b c d _ f g h i j k l m n o p q) => mkPoptions' a b c d size f g h i j k l m n o p q).
Definition WithLogger (l : Logger) : ProcessorOption := popt (fun '(mkPoptions' _ b c d e f g h i j k m n o p q r) => mkPoptions' (Some (as_logger l)) b c d e f g h i j k m n o p q r).
Definition WithHasher (hasher : option Hasher) : ProcessorOption := popt (fun '(mkPoptions' a b c d e _ g h i j k l m n o p q) => mkPoptions' a b c d e hasher g h i j k l m n o p q).
Definition WithHotStandby : ProcessorOption := popt (fun '(mkPoptions' a b c d e f g h _ j k l m n o p q) => mkPoptions' a b c d e f g h true j k l m n o p q).
Definition WithRecoverAhead : ProcessorOption := popt (fun '(mkPoptions' a b c d e f g h i _ k l m n o p q) => mkPoptions' a b c d e f g h i true k l m n o p q).
Definition WithGroupGraphHook (hook : GroupGraph CB -> World -> World) : ProcessorOption := fun gg '(o, w) => (o, hook gg w).
Definition WithBackoffResetTimeout (duration : Z) : ProcessorOption := popt (fun '(mkPoptions' a b c d e f g _ i j k l m n o p q) => mkPoptions' a b c d e f g duration i j k l m n o p q).
Definition WithProducerDefaultHeaders (hdr : Headers) : ProcessorOption := popt (fun '(mkPoptions' a b c d e f g h i j _ l m n o p q) => mkPoptions' a b c d e f g h i j hdr l m n o p q).
Definition WithNilHandling (nh : NilHandling) : ProcessorOption := popt (fun '(mkPoptions' a b c d e f _ h i j k l m n o p q) => mkPoptions' a b c d e f nh h i j k l m n o p q).
Definition WithRebalanceCallback (cb : bool) : ProcessorOption := popt (fun '(mkPoptions' a b c _ e f g h i j k l m n o p q) => mkPoptions' a b c cb e f g h i j k l m n o p q).

Definition WithTester (t : tester_interface) : ProcessorOption := fun gg '(o, w) =>
  let '(mkPoptions' a _ c d _ f g h i j k _ _ _ _ _ q) := o in
  let '(clientID, w) := ti_RegisterGroupGraph t gg w in
  (mkPoptions' a clientID c d 0 f g h i j k (ti_StorageBuilder t) (ti_ConsumerBuilder t) (ti_ConsumerGroupBuilder t)
     (ti_ProducerBuilder t) (ti_TopicManagerBuilder t) q, w).

(** [if x == nil { x = default }] *)
Definition or_default {A} (d : A) (x : option A) : option A := match x with None => Some d | Some _ => x end.

(** [applyOptions] of a processor; [noResponse] tells whether the global configuration asks for no
    acknowledgement. *)
Definition poptions_applyOptions (noResponse : bool) (gg : GroupGraph CB) (opts : list ProcessorOption) (opt : poptions) (w : World)
  : res poptions * World :=
  let '(mkPoptions' _ _ c d e _ g _ i j k l m n o p q) := opt in
  let opt := mkPoptions' (Some (pd_logger pd)) defaultClientID c d e (Some (pd_hasher pd)) g defaultBackoffResetTime i j k l m n o p q in
  let '(opt, w) := fold_left (fun ow o => o gg ow) opts (opt, w) in
  match po_storageBuilder opt with
  | None => (Err (ErrNew "StorageBuilder not set"), w)
  | Some _ =>
      if (noResponse : bool) then (Err (ErrNew "Processors do not work with `Config.Producer.RequiredAcks==sarama.NoResponse`"), w)
      else
        let '(mkPoptions' a b c d e f g h i j k l m n o p q) := opt in
        (Ok (mkPoptions' a b c d e f g h i j k l (or_default (pd_consumerSarama pd) m) (or_default (pd_consumerGroup pd) n)
               (or_default (pd_producer pd) o) (or_default (pd_topicmgr pd) p) (or_default (pd_backoff pd) q)), w)
  end.

(** The options [NewProcessor] puts in front. *)
Definition processor_default_options (gg : GroupGraph CB) : list ProcessorOption :=
  [WithClientID ("goka-processor-" +:+ gg_group gg);
   WithUpdateCallback (Some (pd_updateCallback pd));
   WithPartitionChannelSize defaultPartitionChannelSize;
   WithStorageBuilder (Some (pd_storage pd (DefaultProcessorStoragePath (gg_group gg))));
   WithRebalanceCallback true].

Definition processor_options (noResponse : bool) (gg : GroupGraph CB) (user : list ProcessorOption) (w : World) : res poptions * World :=
  poptions_applyOptions noResponse gg (processor_default_options gg ++ user) new_poptions w.

(** ** View options *)

(** [type voptions struct] *)
Record voptions : Type := mkVoptions {
  vo_log : option Logger;
  vo_clientID : string;
  vo_tableCodec : option Codec;
  vo_update : option (UpdateCallback S);
  vo_hash : option Hasher;
  vo_autoreconnect : bool;
  vo_backoffResetTime : Z;
  vo_storageBuilder : option SB;
  vo_consumerSaramaBuilder : option CSB;
  vo_topicmgrBuilder : option TMB;
  vo_backoffBuilder : option BB
}.

Definition new_voptions : voptions := mkVoptions None "" None None None false 0 None None None None.

(** [type ViewOption func( *voptions, Table, Codec)] *)
Definition ViewOption : Type := string -> option Codec -> voptions * World -> voptions * World.
Definition vopt (f : voptions -> voptions) : ViewOption := fun _ _ '(o, w) => (f o, w).

Definition WithViewLogger (l : Logger) : ViewOption := vopt (fun '(mkVoptions _ b c d e f g h i j k) => mkVoptions (Some (as_logger l)) b c d e f g h i j k).
Definition WithViewCallback (cb : option (UpdateCallback S)) : ViewOption := vopt (fun '(mkVoptions a b c _ e f g h i j k) => mkVoptions a b c cb e f g h i j k).
Definition WithViewStorageBuilder (sb : option SB) : ViewOption := vopt (fun '(mkVoptions a b c d e f g _ i j k) => mkVoptions a b c d e f g sb i j k).
Definition WithViewConsumerSaramaBuilder (cgb : option CSB) : ViewOption := vopt (fun '(mkVoptions a b c d e f g h _ j k) => mkVoptions a b c d e f g h cgb j k).
Definition WithViewTopicManagerBuilder (tmb : option TMB) : ViewOption := vopt (fun '(mkVoptions a b c d e f g h i _ k) => mkVoptions a b c d e f g h i tmb k).
Definition WithViewBackoffBuilder (bb : option BB) : ViewOption := vopt (fun '(mkVoptions a b c d e f g h i j _) => mkVoptions a b c d e f g h i j bb).
Definition WithViewHasher (hasher : option Hasher) : ViewOption := vopt (fun '(mkVoptions a b c d _ f g h i j k) => mkVoptions a b c d hasher f g h i j k).
Definition WithViewClientID (clientID : string) : ViewOption := vopt (fun '(mkVoptions a _ c d e f g h i j k) => mkVoptions a clientID c d e f g h i j k).
Definition WithViewAutoReconnect : ViewOption := vopt (fun '(mkVoptions a b c d e _ g h i j k) => mkVoptions a b c d e true g h i j k).
Definition WithViewRestartable : ViewOption := WithViewAutoReconnect.
Definition WithViewBackoffResetTimeout (duration : Z) : ViewOption := vopt (fun '(mkVoptions a b c d e f _ h i j k) => mkVoptions a b c d e f duration h i j k).

Definition WithViewTester (t : tester_interface) : ViewOption := fun table codec '(o, w) =>
  let '(mkVoptions a _ c d e f g _ _ _ k) := o in
  let '(clientID, w) := ti_RegisterView t table codec w in
  (mkVoptions a clientID c d e f g (ti_StorageBuilder t) (ti_ConsumerBuilder t) (ti_TopicManagerBuilder t) k, w).

Definition voptions_applyOptions (topic : string) (codec : option Codec) (opts : list ViewOption) (opt : voptions) (w : World)
  : res voptions * World :=
  let '(mkVoptions _ _ c d _ f _ h i j k) := opt in
  let opt := mkVoptions (Some (pd_logger pd)) defaultClientID c d (Some (pd_hasher pd)) f defaultBackoffResetTime h i j k in
  let '(opt, w) := fold_left (fun ow o => o topic codec ow) opts (opt, w) in
  match vo_storageBuilder opt with
  | None => (Err (ErrNew "StorageBuilder not set"), w)
  | Some _ =>
      let '(mkVoptions a b c d e f g h i j k) := opt in
      (Ok (mkVoptions a b c d e f g h (or_default (pd_consumerSarama pd) i) (or_default (pd_topicmgr pd) j) (or_default (pd_backoff pd) k)), w)
  end.

(** The options [NewView] puts in front. *)
Definition view_default_options (topic : string) : list ViewOption :=
  [WithViewClientID ("goka-view-" +:+ topic);
   WithViewCallback (Some (pd_updateCallback pd));
   WithViewStorageBuilder (Some (pd_storage pd DefaultViewStoragePath))].

Definition view_options (topic : string) (codec : option Codec) (user : list ViewOption) (w : World) : res voptions * World :=
  voptions_applyOptions topic codec (view_default_options topic ++ user) new_voptions w.

(** The options with which [NewProcessor] creates the view of a lookup table; the processor's logger is
    a prefix logger. *)
Definition lookup_view_options (o : poptions) : list ViewOption :=
  [match po_log o with Some l => WithViewLogger l | None => vopt id end;
   WithViewHasher (po_hash o);
   WithViewClientID (po_clientID o);
   WithViewTopicManagerBuilder (po_topicmgrBuilder o);
   WithViewStorageBuilder (po_storageBuilder o);
   WithViewConsumerSaramaBuilder (po_consumerSaramaBuilder o)].

(** ** Emitter options *)

(** [type eoptions struct] *)
Record eoptions : Type := mkEoptions {
  eo_log : option Logger;
  eo_clientID : string;
  eo_hash : option Hasher;
  eo_defaultHeaders : Headers;
  eo_topicmgrBuilder : option TMB;
  eo_producerBuilder : option PB
}.

Definition new_eoptions : eoptions := mkEoptions None "" None None None None.

(** [type EmitterOption func( *eoptions, Stream, Codec)] *)
Definition EmitterOption : Type := string -> option Codec -> eoptions * World -> eoptions * World.
Definition eopt (f : eoptions -> eoptions) : EmitterOption := fun _ _ '(o, w) => (f o, w).

Definition WithEmitterLogger (l : Logger) : EmitterOption := eopt (fun '(mkEoptions _ b c d e f) => mkEoptions (Some (as_logger l)) b c d e f).
Definition WithEmitterClientID (clientID : string) : EmitterOption := eopt (fun '(mkEoptions a _ c d e f) => mkEoptions a clientID c d e f).
Definition WithEmitterTopicManagerBuilder (tmb : option TMB) : EmitterOption := eopt (fun '(mkEoptions a b c d _ f) => mkEoptions a b c d tmb f).
Definition WithEmitterProducerBuilder (pb : option PB) : EmitterOption := eopt (fun '(mkEoptions a b c d e _) => mkEoptions a b c d e pb).
Definition WithEmitterHasher (hasher : option Hasher) : EmitterOption := eopt (fun '(mkEoptions a b _ d e f) => mkEoptions a b hasher d e f).
Definition WithEmitterDefaultHeaders (hdr : Headers) : EmitterOption := eopt (fun '(mkEoptions a b c _ e f) => mkEoptions a b c hdr e f).

Definition WithEmitterTester (t : tester_interface) : EmitterOption := fun topic codec '(o, w) =>
  let '(mkEoptions a b c d _ _) := o in
  (mkEoptions a b c d (ti_TopicManagerBuilder t) (ti_EmitterProducerBuilder t), ti_RegisterEmitter t topic codec w).

Definition eoptions_applyOptions (topic : string) (codec : option Codec) (opts : list EmitterOption) (opt : eoptions) (w : World)
  : eoptions * World :=
  let '(mkEoptions _ _ _ d e f) := opt in
  let '(opt, w) := fold_left (fun ow o => o topic codec ow) opts
                     (mkEoptions (Some (pd_logger pd)) defaultClientID (Some (pd_hasher pd)) d e f, w) in
  let '(mkEoptions a b c d e f) := opt in
  (mkEoptions a b c d (or_default (pd_topicmgr pd) e) (or_default (pd_producer pd) f), w).
End options.
Arguments poptions : clear implicits.
Arguments voptions : clear implicits.
Arguments eoptions : clear implicits.
Arguments package_defaults : clear implicits.

(** ** Properties *)

Section facts.
Context {S CB Logger Hasher SB CSB CGB PB TMB BB World : Type}.
Variable pd : package_defaults S Logger Hasher SB CSB CGB PB TMB BB.
Abbreviation PO := (poptions S Logger Hasher SB CSB CGB PB TMB BB).
Abbreviation POption := (@ProcessorOption S CB Logger Hasher SB CSB CGB PB TMB BB World).

(** The option does not take the storage builder away. *)
Definition keeps_storage (u : POption) : Prop :=
  forall gg o w, is_Some (po_storageBuilder o) -> is_Some (po_storageBuilder (u gg (o, w)).1).

(** The builders that are set. *)
Definition builders_set (o : PO) : Prop :=
  is_Some (po_storageBuilder o) /\ is_Some (po_consumerSaramaBuilder o) /\ is_Some (po_consumerGroupBuilder o) /\
  is_Some (po_producerBuilder o) /\ is_Some (po_topicmgrBuilder o) /\ is_Some (po_backoffBuilder o).

Lemma fold_keeps_storage (l : list POption) gg o w :
  Forall keeps_storage l -> is_Some (po_storageBuilder o) ->
  is_Some (po_storageBuilder (fold_left (fun ow u => u gg ow) l (o, w)).1).
Proof.
  intros HF. revert o w. induction HF as [|u l Hu HF IH]; intros o w Ho; simpl; [done|].
  specialize (Hu gg o w Ho). destruct (u gg (o, w)) as [o' w']. by apply IH.
Qed.

Lemma popt_keeps_storage (f : PO -> PO) :
  (forall o, po_storageBuilder (f o) = po_storageBuilder o) -> keeps_storage (popt f).
Proof. intros Hf gg o w Ho. simpl. by rewrite Hf. Qed.

(** The options of the package keep the builder, unless they are given a nil one. *)
Lemma package_options_keep_storage :
  (forall cb, keeps_storage (WithUpdateCallback cb)) /\ (forall id, keeps_storage (WithClientID id)) /\
  (forall sb, is_Some sb -> keeps_storage (WithStorageBuilder sb)) /\ (forall b, keeps_storage (WithTopicManagerBuilder b)) /\
  (forall b, keeps_storage (WithConsumerGroupBuilder b)) /\ (forall b, keeps_storage (WithConsumerSaramaBuilder b)) /\
  (forall b, keeps_storage (WithProducerBuilder b)) /\ (forall b, keeps_storage (WithBackoffBuilder b)) /\
  (forall n, keeps_storage (WithPartitionChannelSize n)) /\ (forall l, keeps_storage (WithLogger pd l)) /\
  (forall h, keeps_storage (WithHasher h)) /\ keeps_storage WithHotStandby /\ keeps_storage WithRecoverAhead /\
  (forall hook, keeps_storage (WithGroupGraphHook hook)) /\ (forall d, keeps_storage (WithBackoffResetTimeout d)) /\
  (forall h, keeps_storage (WithProducerDefaultHeaders h)) /\ (forall nh, keeps_storage (WithNilHandling nh)) /\
  (forall cb, keeps_storage (WithRebalanceCallback cb)) /\
  (forall t, is_Some (ti_StorageBuilder t) -> keeps_storage (WithTester t)).
Proof.
  split_and!; intros; try (apply popt_keeps_storage; by intros []); intros gg o w Ho; try done.
  - by destruct o.
  - destruct o. simpl. by destruct (ti_RegisterGroupGraph t gg w).
Qed.
End facts.

(** Creating a processor with options: unless a user option takes the storage builder away, applying
    the options fails exactly if the configuration asks for no acknowledgements; and when they are
    applied every builder is set, so that no call of one is a nil dereference. *)
Theorem processor_options_applied {S CB Logger Hasher SB CSB CGB PB TMB BB World}
    (pd : package_defaults S Logger Hasher SB CSB CGB PB TMB BB) (noResponse : bool) (gg : GroupGraph CB)
    (user : list (@ProcessorOption S CB Logger Hasher SB CSB CGB PB TMB BB World)) (w : World) :
  Forall keeps_storage user ->
  match (processor_options pd noResponse gg user w).1 with
  | Ok o => noResponse = false /\ builders_set o
  | Err _ => noResponse = true
  end.
Proof.
  intros HF. unfold processor_options, poptions_applyOptions. cbn [new_poptions].
  pose proof (fun o => fold_keeps_storage user gg o w HF) as Hk. rewrite fold_left_app.
  match goal with |- context [fold_left _ user ?x] => set (init := x) end.
  specialize (Hk init.1). assert (init = (init.1, w)) as E by reflexivity. rewrite E.
  destruct (fold_left _ user (init.1, w)) as [o w'] eqn:Ef. specialize (Hk ltac:(done)).
  assert (is_Some (po_storageBuilder o)) as Ho by (change o with ((o, w').1); rewrite <- Ef; exact Hk).
  destruct (po_storageBuilder o) as [sb|] eqn:Es; [|by destruct Ho]. destruct noResponse; [done|].
  destruct o as [a b c d e f g h i j k l m n p q r]. simpl in *. subst l. split; [done|].
  unfold builders_set. simpl. split_and!; [done|by destruct m|by destruct n|by destruct p|by destruct q|by destruct r].
Qed.

(** Trivial types for what is only passed on. *)
Definition unit_defaults : package_defaults nat unit unit unit unit unit unit unit unit :=
  mkDefaults tt id (fun _ => true) tt (fun _ => tt) tt tt tt tt tt (fun _ s => (None, s)).
Definition options_graph : GroupGraph nat := mkGraph "group" [] [] [] [] [] [] ∅ ∅ ∅ ∅.

Lemma processor_options_applied_witness :
  exists o, (processor_options unit_defaults false options_graph [WithHotStandby; WithClientID "me"] tt).1 = Ok o /\
    builders_set o /\ po_clientID o = "me"%string.
Proof.
  pose proof (processor_options_applied unit_defaults false options_graph [WithHotStandby; WithClientID "me"] tt) as H.
  destruct (processor_options _ _ _ _ _).1 as [o|e] eqn:E.
  - exists o. split; [done|]. destruct H as [_ Hb].
    + pose proof (package_options_keep_storage (CB := nat) (World := unit) unit_defaults) as Hk. repeat constructor; apply Hk.
    + split; [exact Hb|]. by injection E as <-.
  - discriminate E.
Defined.

(** The views of lookup tables that a processor creates agree with it: applying their options never
    fails, and the view has the hasher, the client id and the builders of the processor, so that it
    finds a key in the partition to which the processor's hasher assigns it. *)
Theorem lookup_view_options_agree {S CB Logger Hasher SB CSB CGB PB TMB BB World}
    (pd : package_defaults S Logger Hasher SB CSB CGB PB TMB BB) noResponse (gg : GroupGraph CB)
    (user : list (@ProcessorOption S CB Logger Hasher SB CSB CGB PB TMB BB World)) (w w1 w2 : World) o topic codec :
  processor_options pd noResponse gg user w = (Ok o, w1) ->
  exists v, view_options pd topic codec (lookup_view_options pd o) w2 = (Ok v, w2) /\
    vo_hash v = po_hash o /\ vo_clientID v = po_clientID o /\ vo_topicmgrBuilder v = po_topicmgrBuilder o /\
    vo_storageBuilder v = po_storageBuilder o /\ vo_consumerSaramaBuilder v = po_consumerSaramaBuilder o.
Proof.
  intros E. assert (is_Some (po_storageBuilder o) /\ is_Some (po_topicmgrBuilder o) /\ is_Some (po_consumerSaramaBuilder o)) as (H1 & H2 & H3).
  { unfold processor_options, poptions_applyOptions in E. cbn [new_poptions] in E.
    destruct (fold_left _ (processor_default_options pd gg ++ user) _) as [o' w'].
    destruct (po_storageBuilder o') as [sb|] eqn:Es; [|done]. destruct noResponse; [done|].
    destruct o' as [a b c d e f g h i j k l m n p q r]. simpl in *. injection E as <- _. simpl.
    split_and!; [by rewrite Es|by destruct q|by destruct m]. }
  destruct o as [a b c d e f g h i j k l m n p q r]. simpl in *. destruct H1 as [sb ->], H2 as [tm ->], H3 as [cs ->].
  unfold view_options, voptions_applyOptions. simpl. destruct a; simpl; eexists; split; done.
Qed.

Lemma lookup_view_options_agree_witness :
  exists o v, processor_options unit_defaults false options_graph [WithClientID "me"] tt = (Ok o, tt) /\
    view_options unit_defaults "table" None (lookup_view_options unit_defaults o) tt = (Ok v, tt) /\ vo_clientID v = "me"%string.
Proof.
  eexists. destruct (lookup_view_options_agree unit_defaults false options_graph [WithClientID "me"] tt tt tt
    (default (new_poptions) (match (processor_options unit_defaults false options_graph [WithClientID "me"] tt).1 with Ok o => Some o | Err _ => None end))
    "table" None) as (v & E & _ & Hc & _); [reflexivity|]. exists v. split; [reflexivity|]. split; [exact E|]. rewrite Hc. reflexivity.
Defined.
