(* ===== verification/Builders.v ===== *)
(** * Configuration and builders

    [config.go], [builders.go] and [storage/builders.go]: how the clients of Kafka and the storages are
    made.  A client keeps the pointer to the configuration it is given, so configurations live on a
    heap; the global configuration is a value that is copied. *)
From Stdlib Require Import ZArith Lia Ascii.
From stdpp Require Import base gmap strings list.
From S2P Require Import Prelude Multierr Signal Codec Storage Memory LevelDB Headers Stats Proxy PartitionTable Paths.
Open Scope Z_scope.

(** ** Configuration *)

Section config.
(** A hash function, and the settings of [sarama.Config] the code leaves alone. *)
Context {H R : Type}.

(** The settings of [sarama.Config] the code uses; a partitioner is made from a hash function. *)
Record Config : Type := mkConfig {
  cfg_ClientID : string;
  cfg_Version : string;
  cfg_Consumer_Return_Errors : bool;
  cfg_Consumer_MaxProcessingTime : Z;
  cfg_Consumer_Offsets_Initial : Z;
  cfg_Consumer_Group_Strategy : string;
  cfg_Producer_RequiredAcks : Z;
  cfg_Producer_Compression : Z;
  cfg_Producer_Flush_Frequency : Z;
  cfg_Producer_Flush_Bytes : Z;
  cfg_Producer_Return_Successes : bool;
  cfg_Producer_Return_Errors : bool;
  cfg_Producer_Retry_Max : Z;
  cfg_Producer_Partitioner : option H;
  cfg_rest : R
}.

Definition defaultChannelBufferSize : Z := 256.
Definition defaultMaxProcessingTime : Z := second.
Definition defaultFlushFrequency : Z := 100000000.
Definition defaultFlushBytes : Z := 64 * 1024.
Definition defaultProducerMaxRetries : Z := 10.

(** [DefaultConfig] on top of what [sarama.NewConfig] returns; [-1] is [sarama.OffsetNewest], [1]
    [sarama.WaitForLocal], [2] [sarama.CompressionSnappy]. *)
Definition DefaultConfig (newConfig : Config) : Config :=
  mkConfig (cfg_ClientID newConfig) "2.0.0.0" true defaultMaxProcessingTime (-1) "copartition" 1 2
    defaultFlushFrequency defaultFlushBytes true true defaultProducerMaxRetries (cfg_Producer_Partitioner newConfig)
    (cfg_rest newConfig).

(** The global configuration and the heap. *)
Record world : Type := mkWorld { globalConfig : Config; configs : gmap nat Config }.

Definition set_ClientID (id : string) (c : Config) : Config :=
  mkConfig id (cfg_Version c) (cfg_Consumer_Return_Errors c) (cfg_Consumer_MaxProcessingTime c) (cfg_Consumer_Offsets_Initial c)
    (cfg_Consumer_Group_Strategy c) (cfg_Producer_RequiredAcks c) (cfg_Producer_Compression c) (cfg_Producer_Flush_Frequency c)
    (cfg_Producer_Flush_Bytes c) (cfg_Producer_Return_Successes c) (cfg_Producer_Return_Errors c) (cfg_Producer_Retry_Max c)
    (cfg_Producer_Partitioner c) (cfg_rest c).
Definition set_Partitioner (h : H) (c : Config) : Config :=
  mkConfig (cfg_ClientID c) (cfg_Version c) (cfg_Consumer_Return_Errors c) (cfg_Consumer_MaxProcessingTime c)
    (cfg_Consumer_Offsets_Initial c) (cfg_Consumer_Group_Strategy c) (cfg_Producer_RequiredAcks c) (cfg_Producer_Compression c)
    (cfg_Producer_Flush_Frequency c) (cfg_Producer_Flush_Bytes c) (cfg_Producer_Return_Successes c)
    (cfg_Producer_Return_Errors c) (cfg_Producer_Retry_Max c) (Some h) (cfg_rest c).

(** [ReplaceGlobalConfig] *)
Definition ReplaceGlobalConfig (config : option nat) (w : world) : outcome world :=
  match config with
  | None => Panic (ErrNew "nil config registered as global config")
  | Some p =>
      match configs w !! p with
      | None => Panic (ErrNew "nil pointer dereference")
      | Some c => Ret (mkWorld c (configs w))
      end
  end.

(** ** Clients *)

(** [config := globalConfig] with its changes, and the pointer to the copy. *)
Definition copy_global (change : Config -> Config) (w : world) : nat * world :=
  let p := fresh (dom (configs w)) in (p, mkWorld (globalConfig w) (<[p := change (globalConfig w)]> (configs w))).

(** The configuration of the user is changed in place. *)
Definition change_shared (change : Config -> Config) (p : nat) (w : world) : outcome (nat * world) :=
  match configs w !! p with
  | None => Panic (ErrNew "nil pointer dereference")
  | Some c => Ret (p, mkWorld (globalConfig w) (<[p := change c]> (configs w)))
  end.

(** Every builder returns the pointer with which sarama's constructor is called. *)
Definition DefaultProducerBuilder (clientID : string) (hasher : H) (w : world) : nat * world :=
  copy_global (fun c => set_Partitioner hasher (set_ClientID clientID c)) w.
Definition ProducerBuilderWithConfig (config : nat) (clientID : string) (hasher : H) (w : world) : outcome (nat * world) :=
  change_shared (fun c => set_Partitioner hasher (set_ClientID clientID c)) config w.
Definition DefaultTopicManagerBuilder (w : world) : nat * world :=
  copy_global (set_ClientID "goka-topic-manager") w.
Definition TopicManagerBuilderWithConfig (config : nat) (w : world) : nat * world := (config, w).
Definition TopicManagerBuilderWithTopicManagerConfig (w : world) : nat * world :=
  copy_global (set_ClientID "goka-topic-manager") w.
Definition DefaultConsumerGroupBuilder (clientID : string) (w : world) : nat * world :=
  copy_global (set_ClientID clientID) w.
Definition ConsumerGroupBuilderWithConfig (config : nat) (clientID : string) (w : world) : outcome (nat * world) :=
  change_shared (set_ClientID clientID) config w.
Definition DefaultSaramaConsumerBuilder (clientID : string) (w : world) : nat * world :=
  copy_global (set_ClientID clientID) w.
Definition SaramaConsumerBuilderWithConfig (config : nat) (clientID : string) (w : world) : outcome (nat * world) :=
  change_shared (set_ClientID clientID) config w.

(** [DefaultBackoffBuilder] *)
Definition DefaultBackoffBuilder : simpleBackoff := NewSimpleBackoff (second * 10).

(** ** Sequences of clients *)

(** A client to build: with the default builders or with those that take a configuration. *)
Inductive build : Type :=
| BProducer (config : option nat) (clientID : string) (hasher : H)
| BTopicManager (config : option nat)
| BConsumerGroup (config : option nat) (clientID : string)
| BConsumer (config : option nat) (clientID : string).

Definition run_build (b : build) (w : world) : outcome (nat * world) :=
  match b with
  | BProducer None id h => Ret (DefaultProducerBuilder id h w)
  | BProducer (Some p) id h => ProducerBuilderWithConfig p id h w
  | BTopicManager None => Ret (DefaultTopicManagerBuilder w)
  | BTopicManager (Some p) => Ret (TopicManagerBuilderWithConfig p w)
  | BConsumerGroup None id => Ret (DefaultConsumerGroupBuilder id w)
  | BConsumerGroup (Some p) id => ConsumerGroupBuilderWithConfig p id w
  | BConsumer None id => Ret (DefaultSaramaConsumerBuilder id w)
  | BConsumer (Some p) id => SaramaConsumerBuilderWithConfig p id w
  end.

Fixpoint run_builds (l : list build) (w : world) : outcome (list nat * world) :=
  match l with
  | [] => Ret ([], w)
  | b :: l => '(p, w) ← run_build b w; '(ps, w) ← run_builds l w; Ret (p :: ps, w)
  end.

(** The configuration a build uses, and what it does to it. *)
Definition build_config (b : build) : option nat :=
  match b with BProducer c _ _ | BTopicManager c | BConsumerGroup c _ | BConsumer c _ => c end.
Definition build_change (b : build) (c : Config) : Config :=
  match b with
  | BProducer _ id h => set_Partitioner h (set_ClientID id c)
  | BTopicManager None => set_ClientID "goka-topic-manager" c
  | BTopicManager (Some _) => c
  | BConsumerGroup _ id | BConsumer _ id => set_ClientID id c
  end.

(** ** Lemmas *)

Lemma run_build_spec b w p w' :
  run_build b w = Ret (p, w') ->
  globalConfig w' = globalConfig w /\
  match build_config b with
  | None => (p ∉ dom (configs w)) /\ configs w' = <[p := build_change b (globalConfig w)]> (configs w)
  | Some q => p = q /\ (is_Some (configs w !! q) \/ configs w' = configs w) /\
      configs w' = alter (build_change b) q (configs w)
  end.
Proof.
  assert (forall (f : Config -> Config) q, change_shared f q w = Ret (p, w') ->
    globalConfig w' = globalConfig w /\ p = q /\ is_Some (configs w !! q) /\ configs w' = alter f q (configs w)) as HS.
  { intros f q Hq. unfold change_shared in Hq. destruct (configs w !! q) as [c|] eqn:E; [|done]. injection Hq as <- <-. simpl.
    split_and!; try done. apply map_eq. intros k. destruct (decide (k = q)) as [->|Hk].
    - by rewrite lookup_insert_eq, lookup_alter_eq, E.
    - by rewrite lookup_insert_ne, lookup_alter_ne. }
  assert (fresh (dom (configs w)) ∉ dom (configs w)) as Hf by apply is_fresh.
  destruct b as [[q|] id h|[q|]|[q|] id|[q|] id]; simpl; intros Hb;
    try (apply HS in Hb as (? & ? & ? & ?); by auto); injection Hb as <- <-; simpl; split_and!; try done; [by right|].
  apply map_eq. intros k. destruct (decide (k = q)) as [->|Hk]; [|by rewrite lookup_alter_ne].
  rewrite lookup_alter_eq. by destruct (configs w !! q).
Qed.

(** What the builds that come later do to a configuration. *)
Definition changes (p : nat) (l : list build) (c : Config) : Config :=
  fold_left (fun c b => build_change b c) (filter (fun b => build_config b = Some p) l) c.

Lemma run_builds_spec l w ps w' :
  run_builds l w = Ret (ps, w') ->
  globalConfig w' = globalConfig w /\ dom (configs w) ⊆ dom (configs w') /\
  forall p c, configs w !! p = Some c -> configs w' !! p = Some (changes p l c).
Proof.
  revert w ps. induction l as [|b l IH]; intros w ps Hrun; simpl in Hrun.
  { injection Hrun as <- <-. done. }
  destruct (run_build b w) as [[q w1]| |] eqn:Eb; [|done|done]. simpl in Hrun.
  destruct (run_builds l w1) as [[qs w2]| |] eqn:El; [|done|done]. injection Hrun as <- <-.
  destruct (IH w1 qs El) as (Hg & Hd & Hc). destruct (run_build_spec b w q w1 Eb) as [Hg1 Hspec].
  assert (dom (configs w) ⊆ dom (configs w1) /\ forall p c, configs w !! p = Some c ->
    configs w1 !! p = Some (if decide (build_config b = Some p) then build_change b c else c)) as [Hd1 Hc1].
  { destruct (build_config b) as [q'|].
    - destruct Hspec as (-> & _ & ->). split; [by rewrite dom_alter_L|]. intros p c Hp.
      destruct (decide (Some q' = Some p)) as [[= ->]|Hne]; [by rewrite lookup_alter_eq, Hp|].
      rewrite lookup_alter_ne by congruence. done.
    - destruct Hspec as [Hq ->]. split; [rewrite dom_insert_L; set_solver|]. intros p c Hp.
      rewrite decide_False by done. rewrite lookup_insert_ne; [done|]. intros ->. apply Hq. apply elem_of_dom. by exists c. }
  split_and!; [congruence|set_solver|]. intros p c Hp. rewrite (Hc p _ (Hc1 p c Hp)). unfold changes.
  destruct (decide (build_config b = Some p)) as [Eq|Hne]; [by rewrite filter_cons_True|by rewrite filter_cons_False].
Qed.
End config.
Arguments Config : clear implicits.
Arguments world : clear implicits.
Arguments build : clear implicits.

(** A sequence of builds, cut at one of them. *)
Lemma run_builds_split {H R} (before after : list (build H)) b (w : world H R) ps w' :
  run_builds (before ++ b :: after) w = Ret (ps, w') ->
  exists ps1 w1 p w2 ps2, run_builds before w = Ret (ps1, w1) /\ run_build b w1 = Ret (p, w2) /\
    run_builds after w2 = Ret (ps2, w') /\ ps = ps1 ++ p :: ps2 /\ length ps1 = length before.
Proof.
  revert w ps. induction before as [|x before IH]; intros w ps Hr; simpl in Hr.
  - destruct (run_build b w) as [[p w1]| |] eqn:Eb; [|done|done]. simpl in Hr.
    destruct (run_builds after w1) as [[qs w2]| |] eqn:El; [|done|done]. injection Hr as <- <-.
    by exists [], w, p, w1, qs.
  - destruct (run_build x w) as [[p w1]| |] eqn:Eb; [|done|done]. simpl in Hr.
    destruct (run_builds (before ++ b :: after) w1) as [[qs w2]| |] eqn:El; [|done|done]. injection Hr as <- <-.
    destruct (IH w1 qs El) as (ps1 & w3 & q & w4 & ps2 & E1 & E2 & E3 & -> & Hlen).
    exists (p :: ps1), w3, q, w4, ps2. simpl. rewrite Eb. simpl. rewrite E1. simpl. by rewrite Hlen.
Qed.

Section clients.
Context {H R : Type}.
Implicit Types (b : build H) (l : list (build H)).

(** The client ID and the hash function that a builder writes into a configuration of the user. *)
Definition build_id b : option string :=
  match b with BProducer _ id _ | BConsumerGroup _ id | BConsumer _ id => Some id | BTopicManager _ => None end.
Definition build_hasher b : option H := match b with BProducer _ _ h => Some h | _ => None end.

(** What the last one of the builds with configuration [p] writes. *)
Definition last_of {A} (f : build H -> option A) (p : nat) l : option A :=
  last (omap f (filter (fun b => build_config b = Some p) l)).

Lemma changes_last p l (c : Config H R) :
  cfg_ClientID (changes p l c) = default (cfg_ClientID c) (last_of build_id p l) /\
  cfg_Producer_Partitioner (changes p l c) = match last_of build_hasher p l with Some h => Some h | None => cfg_Producer_Partitioner c end.
Proof.
  unfold changes, last_of.
  assert (Forall (fun b => build_config b <> None) (filter (fun b => build_config b = Some p) l)) as HF.
  { apply Forall_forall. intros b [Hb _]%list_elem_of_filter. by rewrite Hb. }
  revert HF c. generalize (filter (fun b => build_config b = Some p) l) as bs. clear l.
  assert (forall A (x d : A) xs, default d (last (x :: xs)) = default x (last xs)) as HL.
  { intros A x d xs. rewrite last_cons. by destruct (last xs). }
  assert (forall A (x : A) d xs, match last (x :: xs) with Some h => Some h | None => d end =
    match last xs with Some h => Some h | None => Some x end) as HM by (intros A x d xs; rewrite last_cons; by destruct (last xs)).
  induction 1 as [|b bs Hb HF IH]; intros c; [done|]. simpl. destruct (IH (build_change b c)) as [-> ->].
  destruct b as [q id h|q|q id|q id]; simpl in *; rewrite ?HL, ?HM; try done. by destruct q.
Qed.
End clients.

(** ** Storages *)

(** The path of the database of a table partition. *)
Definition db_path (path topic : string) (partition : Z) : string := Join [path; topic +:+ "." +:+ FormatInt partition].

Section storages.
Context {DB : Type} (OpenFile : string -> res DB).

(** [DefaultBuilder], and [BuilderWithOptions], which passes its options on to [leveldb.OpenFile]. *)
Definition DefaultBuilder (path topic : string) (partition : Z) : res (storage DB) :=
  match OpenFile (db_path path topic partition) with
  | Err e => Err (ErrWrap "error opening leveldb" e)
  | Ok db => Ok (storage_New db)
  end.
Definition BuilderWithOptions {O} (OpenWith : string -> O -> res DB) (path : string) (opts : O) (topic : string) (partition : Z)
  : res (storage DB) :=
  match OpenWith (db_path path topic partition) opts with
  | Err e => Err (ErrWrap "error opening leveldb" e)
  | Ok db => Ok (storage_New db)
  end.
End storages.

Definition MemoryBuilder (topic : string) (partition : Z) : res memory := Ok NewMemory.

(** Distinct table partitions have distinct databases in a directory. *)
Lemma db_name_plain topic partition :
  no_char slash topic = true -> plain (topic +:+ "." +:+ FormatInt partition).
Proof.
  intros Ht.
  assert (no_char slash (FormatInt partition) = true) as Hf by (apply no_char_FormatInt; [done|right; done]).
  assert (no_char "."%char (FormatInt partition) = true) as Hd by (apply no_char_FormatInt; [done|right; done]).
  assert (FormatInt partition <> ""%string) as Hne by apply FormatInt_nonempty.
  split_and!.
  - clear Hd Hne. induction topic as [|c topic IH]; [exact Hf|]. cbn [no_char] in Ht. apply andb_true_iff in Ht as [Hc Ht].
    change (negb (Ascii.eqb c slash) && no_char slash (topic +:+ "." +:+ FormatInt partition) = true).
    by rewrite Hc, IH.
  - by destruct topic.
  - destruct topic as [|c topic]; [by injection 1|]. injection 1 as _ E. by destruct topic.
  - destruct topic as [|c [|c' topic]].
    + injection 1 as E. change (FormatInt partition = "."%string) in E. rewrite E in Hd. done.
    + injection 1 as _ E. by apply Hne.
    + injection 1 as _ _ E. by destruct topic.
Qed.

(** ** Properties *)

(** What becomes of the configurations of clients, for every sequence of clients: a client of the
    default builders has a copy of the global configuration with its own client ID and hash function,
    which no later client changes.  A client built with a configuration of the user shares it with all
    others built with it, and the builders write into it: in the end it has the client ID and the hash
    function of the last of them, whatever the earlier ones were built with. *)
Theorem client_configs {H R} (before after : list (build H)) (b : build H) (w w' : world H R) (ps : list nat) (p : nat) :
  run_builds (before ++ b :: after) w = Ret (ps, w') -> ps !! length before = Some p ->
  (forall b' q, b' ∈ before ++ b :: after -> build_config b' = Some q -> is_Some (configs w !! q)) ->
  globalConfig w' = globalConfig w /\
  match build_config b with
  | None => configs w' !! p = Some (build_change b (globalConfig w))
  | Some q => exists c, p = q /\ configs w' !! q = Some c /\
      (forall id, last_of build_id q (before ++ b :: after) = Some id -> cfg_ClientID c = id) /\
      (forall h, last_of build_hasher q (before ++ b :: after) = Some h -> cfg_Producer_Partitioner c = Some h)
  end.
Proof.
  intros Hrun Hp Huser. destruct (run_builds_spec _ _ _ _ Hrun) as (Hg & _ & Hc). split; [done|].
  destruct (run_builds_split before after b w ps w' Hrun) as (ps1 & w1 & p1 & w2 & ps2 & E1 & E2 & E3 & -> & Hlen).
  rewrite <- Hlen, list_lookup_middle in Hp by done. injection Hp as <-.
  destruct (run_build_spec _ _ _ _ E2) as [Hg2 Hspec]. destruct (run_builds_spec _ _ _ _ E1) as (Hg1 & Hd1 & _).
  destruct (run_builds_spec _ _ _ _ E3) as (_ & _ & Hc3).
  destruct (build_config b) as [q|] eqn:Eb.
  - destruct Hspec as [-> _]. destruct (Huser b q) as [c0 Hc0]; [set_solver|done|]. specialize (Hc q c0 Hc0).
    eexists. split_and!; [done|exact Hc|..]; intros x Hx; destruct (changes_last q (before ++ b :: after) c0) as [Ei Eh].
    + by rewrite Ei, Hx.
    + by rewrite Eh, Hx.
  - destruct Hspec as [Hnew Hw2]. assert (configs w2 !! p1 = Some (build_change b (globalConfig w1))) as H2
      by (rewrite Hw2; apply lookup_insert_eq).
    rewrite (Hc3 _ _ H2), Hg1. unfold changes. rewrite filter_none; [done|].
    intros b' Hb' Hcfg. destruct (Huser b' p1) as [c Hcc]; [set_solver|done|].
    apply Hnew, Hd1. apply elem_of_dom. by exists c.
Qed.

Definition demo_config : Config nat unit :=
  DefaultConfig (mkConfig "sarama" "" false 0 0 "" 0 0 0 0 false false 0 None tt).

(** Two emitters with hash functions 1 and 2 that share a configuration: the first one ends up with the
    client ID and the hash function of the second. *)
Lemma client_configs_witness :
  let w := mkWorld demo_config {[7%nat := demo_config]} in
  exists w' c, run_builds [BProducer (Some 7%nat) "a" 1%nat; BProducer (Some 7%nat) "b" 2%nat] w = Ret ([7; 7]%nat, w') /\
    configs w' !! 7%nat = Some c /\ cfg_ClientID c = "b"%string /\ cfg_Producer_Partitioner c = Some 2%nat.
Proof.
  intros w. eexists _. edestruct (client_configs [] [BProducer (Some 7%nat) "b" 2%nat] (BProducer (Some 7%nat) "a" 1%nat) w)
    as [_ Hc]; [reflexivity|reflexivity| |].
  - intros b q Hb Hq. assert (q = 7%nat) as -> by (simpl in Hb; apply elem_of_cons in Hb as [->|Hb];
      [|apply list_elem_of_singleton in Hb as ->]; by injection Hq). by eexists.
  - destruct Hc as (c & _ & Hc & Hid & Hh). exists c. split; [reflexivity|]. split; [exact Hc|].
    split; [by apply Hid|by apply Hh].
Defined.

(** Every table partition has a database of its own: in one storage directory the paths of two table
    partitions agree only if topic and partition agree, for topic names without a slash. *)
Theorem table_paths_distinct (path t1 t2 : string) (p1 p2 : Z) :
  no_char slash t1 = true -> no_char slash t2 = true -> in_int32 p1 -> in_int32 p2 ->
  db_path path t1 p1 = db_path path t2 p2 -> t1 = t2 /\ p1 = p2.
Proof.
  intros H1 H2 Hp1 Hp2 E. unfold db_path in E. destruct (Join_plain path) as [prefix Hj].
  rewrite !Hj in E by (by apply db_name_plain). apply (inj (String.append prefix)) in E.
  change ("." +:+ ?x) with (String "."%char x) in E.
  apply sep_split in E as [-> E]; [|by apply no_char_FormatInt; auto..]. split; [done|].
  apply FormatInt_inj in E; [done|unfold in_int64, in_int32 in *; lia..].
Qed.

Lemma table_paths_distinct_witness :
  db_path "/tmp/goka/view" "a.1" 0 <> db_path "/tmp/goka/view" "a" 10.
Proof.
  intros E. destruct (table_paths_distinct "/tmp/goka/view" "a.1" "a" 0 10) as [Ht _];
    [done|done|unfold in_int32; lia|unfold in_int32; lia|exact E|done].
Defined.

(** The default back-off is documented to have steps of ten seconds: it has steps of one second. *)
Theorem default_backoff_steps :
  (Backoff_Duration DefaultBackoffBuilder).1 = second /\
  (Backoff_Duration (Backoff_Duration DefaultBackoffBuilder).2).1 = 2 * second.
Proof. split; reflexivity. Qed.

(** The global configuration is a copy: what the caller changes in the configuration afterwards does not
    reach it. *)
Theorem global_config_is_copied {H R} (p : nat) (c : Config H R) (w w1 : world H R) change q w2 :
  ReplaceGlobalConfig (Some p) w = Ret w1 -> configs w !! p = Some c -> change_shared change p w1 = Ret (q, w2) ->
  globalConfig w2 = c /\ configs w2 !! p = Some (change c).
Proof.
  unfold ReplaceGlobalConfig, change_shared. intros H1 Hp H2. rewrite Hp in H1. injection H1 as <-. simpl in H2.
  rewrite Hp in H2. injection H2 as <- <-. split; [done|]. apply lookup_insert_eq.
Qed.
