(* ===== verification/WaitReady.v ===== *)
(** * Waiting for a processor to be ready

    [WaitForReady] and [Stop] of [processor.go].  The waiting goroutine interleaves with the processor:
    the environment is a sequence of snapshots of the processor, taken at every change, and between any
    two of its operations the goroutine may be overtaken by any number of changes. *)
From Stdlib Require Import ZArith Lia.
From stdpp Require Import base gmap strings list.
From S2P Require Import Prelude Multierr Signal Codec Storage Headers Stats Proxy PartitionTable Promise Graph View Context.
From S2P Require Import PartitionProcessor TopicManager Processor.
Open Scope Z_scope.

(** ** The processor as the goroutine sees it *)

(** The state of the processor, its partition processors by partition, the states of all partition
    processors that were ever created (a partition processor that is stopped keeps its state although
    the processor has forgotten it), and whether [g.done] is closed. *)
Record snapshot : Type := mkSnapshot {
  sn_state : Z;
  sn_partitions : gmap Z nat;
  sn_ppstate : gmap nat Z;
  sn_done : bool
}.

Definition pp_running (p : nat) (s : snapshot) : bool := bool_decide (sn_ppstate s !! p = Some PPStateRunning).

(** Where the goroutine is.  A channel of [WaitForState] and [WaitForStateMin] is closed as soon as the
    state is reached after it was requested, even if the state changes again: [fired] tells whether
    it is. *)
Inductive ready_pc : Type :=
| AwaitStarted (fired : bool)
| AwaitRunning (fired : bool)
| CopyPartitions
| AwaitPartitions (parts : list nat) (fired : bool)
| Ready.

(** The channel for the state of the first partition processor of the list, requested now. *)
Definition await_parts (parts : list nat) (s : snapshot) : ready_pc :=
  match parts with
  | [] => Ready
  | p :: _ => AwaitPartitions parts (pp_running p s)
  end.

Definition WaitForReady_start (s : snapshot) : ready_pc := AwaitStarted (ProcStateStarting <=? sn_state s).

(** The processor changes to [s]. *)
Definition notify (s : snapshot) (pc : ready_pc) : ready_pc :=
  match pc with
  | AwaitStarted fired => AwaitStarted (fired || (ProcStateStarting <=? sn_state s))
  | AwaitRunning fired => AwaitRunning (fired || (sn_state s =? ProcStateRunning))
  | AwaitPartitions (p :: l) fired => AwaitPartitions (p :: l) (fired || pp_running p s)
  | pc => pc
  end.

(** [Stop]: [g.cancel] is nil until [Run] has been called; otherwise the context of [Run] is cancelled. *)
Definition processor_Stop (cancel : option bool) : outcome (option bool) :=
  match cancel with
  | None => Panic (ErrNew "nil pointer dereference")
  | Some _ => Ret (Some true)
  end.

Section ready.
(** The order in which a [range] over the partition processors visits them. *)
Context (range : gmap Z nat -> list (Z * nat)).

(** One step of the goroutine; [viaDone] says which branch of a [select] is taken when it is ready. *)
Definition WaitForReady_step (viaDone : bool) (s : snapshot) (pc : ready_pc) : outcome ready_pc :=
  match pc with
  | AwaitStarted fired =>
      if viaDone then (if sn_done s then Ret Ready else Blocked)
      else if fired then Ret (AwaitRunning (sn_state s =? ProcStateRunning)) else Blocked
  | AwaitRunning fired =>
      if viaDone then (if sn_done s then Ret CopyPartitions else Blocked)
      else if fired then Ret CopyPartitions else Blocked
  | CopyPartitions => Ret (await_parts (snd <$> range (sn_partitions s)) s)
  | AwaitPartitions parts fired =>
      if viaDone then (if sn_done s then Ret (await_parts (tail parts) s) else Blocked)
      else if fired then Ret (await_parts (tail parts) s) else Blocked
  | Ready => Ret Ready
  end.

(** A run: changes of the processor and steps of the goroutine. *)
Inductive ready_event : Type := Change (s : snapshot) | Step (viaDone : bool).

Fixpoint ready_run (l : list ready_event) (s : snapshot) (pc : ready_pc) : outcome (snapshot * ready_pc) :=
  match l with
  | [] => Ret (s, pc)
  | Change s :: l => ready_run l s (notify s pc)
  | Step viaDone :: l => pc ← WaitForReady_step viaDone s pc; ready_run l s pc
  end.

(** ** What a goroutine that has returned has seen *)

(** The snapshots of a run, the first one included. *)
Definition seen (l : list ready_event) (s : snapshot) : list snapshot :=
  s :: omap (fun e => match e with Change s => Some s | _ => None end) l.

(** In the snapshots [h], in this order: the processor was running, then its partition processors were
    [parts], and each of those in [parts] but not in [left] was running then or later. *)
Definition progress (h : list snapshot) (parts left : list nat) : Prop :=
  exists h1 s h2, h = h1 ++ s :: h2 /\ (exists r, r ∈ h1 ++ [s] /\ sn_state r = ProcStateRunning) /\
    parts = snd <$> range (sn_partitions s) /\
    forall p, p ∈ parts -> p ∈ left \/ exists r, r ∈ s :: h2 /\ pp_running p r = true.

(** What the position of the goroutine says about the snapshots so far, of which [s] is the last. *)
Definition ready_inv (h : list snapshot) (s : snapshot) (pc : ready_pc) : Prop :=
  last h = Some s /\ Forall (fun s => sn_done s = false) h /\
  match pc with
  | AwaitStarted _ => True
  | AwaitRunning fired => fired = true -> exists r, r ∈ h /\ sn_state r = ProcStateRunning
  | CopyPartitions => exists r, r ∈ h /\ sn_state r = ProcStateRunning
  | AwaitPartitions parts fired => exists p rest all, parts = p :: rest /\
      progress h all (if fired then rest else p :: rest)
  | Ready => exists all, progress h all []
  end.

Lemma progress_snoc h s parts left : progress h parts left -> progress (h ++ [s]) parts left.
Proof.
  intros (h1 & s1 & h2 & -> & Hr & Hp & Hl). exists h1, s1, (h2 ++ [s]).
  split_and!; [by rewrite <- app_assoc|done|done|]. intros p Hin. destruct (Hl p Hin) as [?|(r & Hr' & ?)]; [by left|].
  right. exists r. split; [|done]. set_solver.
Qed.

(** A partition processor seen running in the last snapshot need not be awaited. *)
Lemma progress_done h s parts p rest :
  last h = Some s -> pp_running p s = true -> progress h parts (p :: rest) -> progress h parts rest.
Proof.
  intros Hlast Hrun (h1 & s1 & h2 & -> & Hr & Hp & Hl). exists h1, s1, h2. split_and!; try done.
  intros q Hin. destruct (Hl q Hin) as [[->|?]%elem_of_cons|?]; [right|by left|by right].
  exists s. split; [|done]. rewrite last_app_cons in Hlast. apply last_Some_elem_of in Hlast. done.
Qed.

Lemma await_parts_inv h s parts all :
  last h = Some s -> Forall (fun s => sn_done s = false) h -> progress h all parts -> ready_inv h s (await_parts parts s).
Proof.
  intros Hlast Hd Hp. unfold ready_inv, await_parts. destruct parts as [|p rest]; [by eauto|].
  split_and!; try done. exists p, rest, all. split; [done|]. destruct (pp_running p s) eqn:E; [|done].
  by eapply progress_done.
Qed.

Lemma notify_inv h s s' pc :
  ready_inv h s pc -> sn_done s' = false -> ready_inv (h ++ [s']) s' (notify s' pc).
Proof.
  intros (Hlast & Hd & Hpc) Hd'. unfold ready_inv. rewrite last_snoc.
  assert (Forall (fun s => sn_done s = false) (h ++ [s'])) as HF by (apply Forall_app; split; [done|by constructor]).
  split; [done|]. split; [done|]. destruct pc as [f|f| |[|p rest] f|]; simpl.
  - done.
  - intros [->|Hs%Z.eqb_eq]%orb_true_iff; [destruct Hpc as (r & Hr & ?); [done|]; exists r; set_solver|].
    exists s'. set_solver.
  - destruct Hpc as (r & Hr & ?). exists r. set_solver.
  - destruct Hpc as (? & ? & ? & ? & _). done.
  - destruct Hpc as (p' & rest' & all & [= <- <-] & Hp). exists p, rest, all. split; [done|].
    apply (progress_snoc _ s') in Hp. destruct f; [done|]. simpl. destruct (pp_running p s') eqn:E; [|done].
    eapply progress_done; [apply last_snoc|done|done].
  - destruct Hpc as [all Hp]. exists all. by apply progress_snoc.
Qed.

Lemma step_ready_inv viaDone h s pc pc' :
  ready_inv h s pc -> WaitForReady_step viaDone s pc = Ret pc' -> ready_inv h s pc'.
Proof.
  intros (Hlast & Hd & Hpc) H.
  assert (s ∈ h) as Hin by (by apply last_Some_elem_of).
  assert (sn_done s = false) as Hs by (rewrite Forall_forall in Hd; by apply Hd).
  destruct pc as [f|f| |parts f|]; simpl in H; rewrite ?Hs in H.
  - destruct viaDone, f; try done. injection H as <-. split_and!; try done. intros E%Z.eqb_eq. by exists s.
  - destruct viaDone, f; try done. injection H as <-. split_and!; try done. by apply Hpc.
  - injection H as <-. eapply await_parts_inv; [done|done|]. apply last_Some in Hlast as [h1 ->].
    exists h1, s, []. split_and!; [done|done|done|]. by left.
  - destruct viaDone, f; try done. injection H as <-. destruct Hpc as (p & rest & all & -> & Hp).
    by eapply await_parts_inv.
  - injection H as <-. done.
Qed.

Lemma ready_run_inv l h s pc s' pc' :
  ready_inv h s pc -> Forall (fun s => sn_done s = false) (seen l s) -> ready_run l s pc = Ret (s', pc') ->
  ready_inv (h ++ tail (seen l s)) s' pc'.
Proof.
  revert h s pc. induction l as [|e l IH]; intros h s pc Hi Hd H; simpl in H.
  { injection H as <- <-. simpl. by rewrite app_nil_r. }
  destruct e as [s1|b].
  - simpl in Hd. apply Forall_cons in Hd as [_ Hd]. pose proof Hd as Hd'. apply Forall_cons in Hd' as [H1 _].
    replace (h ++ tail (seen (Change s1 :: l) s)) with ((h ++ [s1]) ++ tail (seen l s1)) by (by rewrite <- app_assoc).
    eapply (IH (h ++ [s1])); [by eapply notify_inv|exact Hd|exact H].
  - destruct (WaitForReady_step b s pc) as [pc1| |] eqn:E; [|done|done]. simpl in H. simpl in *.
    eapply (IH h); [by eapply step_ready_inv|done|done].
Qed.

(** ** Properties *)

Hypothesis range_perm : forall m, range m ≡ₚ map_to_list m.

(** C34. [WaitForReady] returns only when the processor is ready: if the processor has not ended, then at
    some time it was running, at that time or later the partition processors were copied, and every one
    of those was running then or later, however the goroutine and the processor interleave. *)
Theorem WaitForReady_was_ready (l : list ready_event) (s s' : snapshot) :
  Forall (fun s => sn_done s = false) (seen l s) ->
  ready_run l s (WaitForReady_start s) = Ret (s', Ready) ->
  exists h1 c h2, seen l s = h1 ++ c :: h2 /\ (exists r, r ∈ h1 ++ [c] /\ sn_state r = ProcStateRunning) /\
    forall part p, sn_partitions c !! part = Some p -> exists r, r ∈ c :: h2 /\ pp_running p r = true.
Proof.
  intros Hd H. assert (ready_inv [s] s (WaitForReady_start s)) as Hi.
  { split; [done|]. split; [|done]. constructor; [|done]. by apply Forall_cons in Hd as [? _]. }
  destruct (ready_run_inv l [s] s _ s' Ready Hi Hd H) as (_ & _ & all & h1 & c & h2 & E & Hr & -> & Hp).
  exists h1, c, h2. split_and!; [exact E|exact Hr|]. intros part p Hpart.
  destruct (Hp p) as [Hnil|?]; [|set_solver|done].
  apply list_elem_of_fmap. exists (part, p). split; [done|]. rewrite range_perm. by apply elem_of_map_to_list.
Qed.
End ready.

(** A processor that starts and runs with one partition. *)
Definition sn_idle : snapshot := mkSnapshot ProcStateIdle ∅ ∅ false.
Definition sn_setup : snapshot := mkSnapshot ProcStateSetup {[0 := 1%nat]} {[1%nat := PPStateRecovering]} false.
Definition sn_run : snapshot := mkSnapshot ProcStateRunning {[0 := 1%nat]} {[1%nat := PPStateRunning]} false.

Lemma WaitForReady_was_ready_witness :
  exists h1 c h2, [sn_idle; sn_setup; sn_run] = h1 ++ c :: h2 /\ (exists r, r ∈ h1 ++ [c] /\ sn_state r = ProcStateRunning) /\
    forall part p, sn_partitions c !! part = Some p -> exists r, r ∈ c :: h2 /\ pp_running p r = true.
Proof.
  apply (WaitForReady_was_ready map_to_list (fun _ => reflexivity _)
    [Change sn_setup; Step false; Change sn_run; Step false; Step false; Step false] sn_idle sn_run).
  - by repeat constructor.
  - vm_compute. reflexivity.
Defined.

(** The session ends after the goroutine has seen the processor running and before it copies the
    partition processors, which are stopped by then; the processor goes on with new ones. *)
Definition sn_stopping : snapshot := mkSnapshot ProcStateStopping {[0 := 1%nat]} {[1%nat := PPStateIdle]} false.
Definition sn_next : snapshot :=
  mkSnapshot ProcStateRunning {[0 := 2%nat]} {[1%nat := PPStateIdle; 2%nat := PPStateRunning]} false.

(** [WaitForReady] can miss that the processor is ready: a goroutine that is overtaken by the end of a
    session waits for a partition processor that is stopped for good, and stays blocked, although the
    processor runs and all its partition processors do. *)
Theorem WaitForReady_stuck :
  exists pc, ready_run map_to_list [Step false; Step false; Change sn_stopping; Step false; Change sn_next] sn_run
    (WaitForReady_start sn_run) = Ret (sn_next, pc) /\
  forall l, Forall (fun s => sn_ppstate s !! 1%nat = Some PPStateIdle /\ sn_done s = false) l ->
    exists pc', ready_run map_to_list (Change <$> l) sn_next pc = Ret (default sn_next (last l), pc') /\
      (forall b, WaitForReady_step map_to_list b (default sn_next (last l)) pc' = Blocked).
Proof.
  exists (AwaitPartitions [1%nat] false). split; [vm_compute; reflexivity|]. intros l.
  assert (sn_done sn_next = false) as Hd0 by done. revert Hd0. generalize sn_next as s0.
  induction l as [|s l IH]; intros s0 Hd0 HF.
  - exists (AwaitPartitions [1%nat] false). split; [done|]. intros []; simpl; by rewrite ?Hd0.
  - apply Forall_cons in HF as [[Hs Hd] HF]. cbn [fmap list_fmap ready_run notify].
    assert (pp_running 1 s = false) as -> by (unfold pp_running; rewrite Hs; done).
    destruct (IH s Hd HF) as (pc' & E & Hb). exists pc'. rewrite last_cons. cbn [orb].
    replace (default s0 match last l with Some y => Some y | None => Some s end) with (default s (last l))
      by (by destruct (last l)). done.
Qed.
