(* ===== verification/StatsExchange.v ===== *)
(** * Requesting statistics

    The statistics of a partition table ([partition_table.go]) and of a partition processor
    ([partition_processor.go]) are owned by a loop: other goroutines send it updates through a buffered
    channel, and [fetchStats] sends a request over one channel and waits for the answer on another, with
    a timeout for both.  The exchange is a step relation over the loop, the answer channel and the
    goroutines that fetch; views ([view.go]) and processors ([processor.go]) collect the answers. *)
From Stdlib Require Import ZArith Lia.
From stdpp Require Import base gmap strings list relations.
From S2P Require Import Prelude Signal Storage Stats Proxy PartitionTable View PartitionProcessor Processor.
Open Scope Z_scope.

(** ** The exchange *)

(** What a loop does: [srv_snapshot] computes an answer (it may use other sources [A]), [srv_work]
    handles an update or a tick, [srv_offer] is what other goroutines do to its update channel, and
    [srv_leaves] tells whether the loop ends when its context is done while it waits to answer. *)
Class StatsServer (St A W O R : Type) : Type := {
  srv_snapshot : A -> St -> outcome (R * St);
  srv_work : W -> St -> outcome St;
  srv_offer : O -> St -> St;
  srv_leaves : bool
}.

(** The requests are numbered; an answer carries the number of the request it was computed for. *)
Inductive loop_state (R : Type) : Type :=
| Selecting
| Collecting (i : nat)
| Responding (i : nat) (r : R)
| LoopExited.
Arguments Selecting {R}.
Arguments Collecting {R} i.
Arguments Responding {R} i r.
Arguments LoopExited {R}.

Inductive fetch_state (R : Type) : Type :=
| Requesting
| Awaiting
| Fetched (answer : option (nat * R)).
Arguments Requesting {R}.
Arguments Awaiting {R}.
Arguments Fetched {R} answer.

Section exchange.
Context {St A W O R : Type} {SV : StatsServer St A W O R}.

(** The server, its loop, the answer channel (of capacity 1), the goroutines in [fetchStats], and
    whether the context of the loop is done. *)
Record exchange : Type := mkExchange {
  x_server : St;
  x_loop : loop_state R;
  x_response : list (nat * R);
  x_fetches : gmap nat (fetch_state R);
  x_cancelled : bool
}.

Definition response_cap : nat := 1.

Definition new_exchange (s : St) : exchange := mkExchange s Selecting [] ∅ false.

Definition x_set (s : St) (l : loop_state R) (resp : list (nat * R)) (f : gmap nat (fetch_state R)) (x : exchange) : exchange :=
  mkExchange s l resp f (x_cancelled x).

(** [fetchStats] is called. *)
Definition fetch_start (i : nat) (x : exchange) : outcome exchange :=
  match x_fetches x !! i with
  | Some _ => Blocked
  | None => Ret (x_set (x_server x) (x_loop x) (x_response x) (<[i := Requesting]> (x_fetches x)) x)
  end.

(** The first [select] of [fetchStats]: the request channel has no buffer, so the loop must be in its
    [select]. *)
Definition fetch_request (i : nat) (x : exchange) : outcome exchange :=
  match x_fetches x !! i, x_loop x with
  | Some Requesting, Selecting =>
      Ret (x_set (x_server x) (Collecting i) (x_response x) (<[i := Awaiting]> (x_fetches x)) x)
  | _, _ => Blocked
  end.

(** The second [select]: an answer is taken from the channel. *)
Definition fetch_response (i : nat) (x : exchange) : outcome exchange :=
  match x_fetches x !! i, x_response x with
  | Some Awaiting, a :: resp => Ret (x_set (x_server x) (x_loop x) resp (<[i := Fetched (Some a)]> (x_fetches x)) x)
  | _, _ => Blocked
  end.

(** The timeout or the end of the caller's context, in either [select]. *)
Definition fetch_give_up (i : nat) (x : exchange) : outcome exchange :=
  match x_fetches x !! i with
  | Some Requesting | Some Awaiting =>
      Ret (x_set (x_server x) (x_loop x) (x_response x) (<[i := Fetched None]> (x_fetches x)) x)
  | _ => Blocked
  end.

(** The loop: computing the answer, sending it, and its other cases. *)
Definition loop_collect (a : A) (x : exchange) : outcome exchange :=
  match x_loop x with
  | Collecting i => '(r, s) ← srv_snapshot a (x_server x); Ret (x_set s (Responding i r) (x_response x) (x_fetches x) x)
  | _ => Blocked
  end.

Definition loop_respond (x : exchange) : outcome exchange :=
  match x_loop x with
  | Responding i r =>
      if (length (x_response x) <? response_cap)%nat
      then Ret (x_set (x_server x) Selecting (x_response x ++ [(i, r)]) (x_fetches x) x)
      else Blocked
  | _ => Blocked
  end.

Definition loop_work (w : W) (x : exchange) : outcome exchange :=
  match x_loop x with
  | Selecting => s ← srv_work w (x_server x); Ret (x_set s Selecting (x_response x) (x_fetches x) x)
  | _ => Blocked
  end.

(** The case of the context. *)
Definition loop_cancelled (x : exchange) : outcome exchange :=
  if x_cancelled x then
    match x_loop x with
    | Selecting => Ret (x_set (x_server x) LoopExited (x_response x) (x_fetches x) x)
    | Responding _ _ =>
        Ret (x_set (x_server x) (if srv_leaves then LoopExited else Selecting) (x_response x) (x_fetches x) x)
    | _ => Blocked
    end
  else Blocked.

Inductive x_action : Type :=
| XStart (i : nat)
| XRequest (i : nat)
| XResponse (i : nat)
| XGiveUp (i : nat)
| XCollect (a : A)
| XRespond
| XWork (w : W)
| XOffer (o : O)
| XCancel
| XCancelled.

Definition x_exec (a : x_action) (x : exchange) : outcome exchange :=
  match a with
  | XStart i => fetch_start i x
  | XRequest i => fetch_request i x
  | XResponse i => fetch_response i x
  | XGiveUp i => fetch_give_up i x
  | XCollect a => loop_collect a x
  | XRespond => loop_respond x
  | XWork w => loop_work w x
  | XOffer o => Ret (x_set (srv_offer o (x_server x)) (x_loop x) (x_response x) (x_fetches x) x)
  | XCancel => Ret (mkExchange (x_server x) (x_loop x) (x_response x) (x_fetches x) true)
  | XCancelled => loop_cancelled x
  end.

Fixpoint x_execs (l : list x_action) (x : exchange) : outcome exchange :=
  match l with
  | [] => Ret x
  | a :: l => x ← x_exec a x; x_execs l x
  end.
End exchange.
Arguments exchange : clear implicits.
Arguments x_action : clear implicits.

(** ** The two servers *)

(** The statistics of a partition table. *)
Inductive table_work : Type := TUpdate (now : Z) | THwm (hwm : Z).

#[export] Instance table_server {S I} `{Storage S I} :
    StatsServer (PartitionTable S) unit table_work (bool * stats_update) TableStats := {
  srv_snapshot _ p :=
    match handleStatsRequest p with Some x => Ret x | None => Panic (ErrNew "nil pointer dereference") end;
  srv_work w p :=
    match w with
    | TUpdate now => match pt_updateStats p with
                     | [] => Blocked
                     | u :: us => Ret (run_update now u (pt_set_updates us p))
                     end
    | THwm hwm => Ret (updateHwmStats hwm p)
    end;
  srv_offer o p := enqueueStatsUpdate o.1 o.2 p;
  srv_leaves := false
}.

(** The statistics of a partition processor: the updates are those of [enqueueStatsUpdate] in [run] and
    of [enqueueTrackOutputStats]. *)
Inductive pp_update : Type := PMessage (ev : ConsumerMessage) | PTrackOutput (topic : string) (size : Z).

Record pp_stats : Type := mkPPS {
  ps_stats : PartitionProcStats;
  ps_heap : stats_heap;
  ps_updateStats : list pp_update;
  ps_joins : list string;
  ps_hasTable : bool;
  ps_runMode : Z
}.

Definition ps_set (h : stats_heap) (us : list pp_update) (s : pp_stats) : pp_stats :=
  mkPPS (ps_stats s) h us (ps_joins s) (ps_hasTable s) (ps_runMode s).

Definition pp_enqueueStatsUpdate (skip : bool) (u : pp_update) (s : pp_stats) : pp_stats :=
  if skip then s
  else if (length (ps_updateStats s) <? updateStats_cap)%nat then ps_set (ps_heap s) (ps_updateStats s ++ [u]) s
  else s.

Definition enqueueTrackOutputStats (skip : bool) (topic : string) (size : Z) (s : pp_stats) : pp_stats :=
  pp_enqueueStatsUpdate skip (PTrackOutput topic size) s.

Definition pp_run_update (now : Z) (u : pp_update) (s : pp_stats) : outcome pp_stats :=
  match u with
  | PMessage ev =>
      match updateStatsWithMessage now ev (ps_stats s) (ps_heap s) with
      | None => Panic (ErrNew "nil pointer dereference")
      | Some h => Ret (ps_set h (ps_updateStats s) s)
      end
  | PTrackOutput topic size => Ret (ps_set (trackOutput topic size (ps_stats s) (ps_heap s)) (ps_updateStats s) s)
  end.

(** [updateHwmStats]: [hwms] are the high watermarks of the topics, 0 for a topic without one. *)
Definition pp_updateHwmStats (hwms : string -> Z) (s : pp_stats) : pp_stats :=
  ps_set (fold_left (fun h x => updateHwmStat (hwms x.1) x.2 h) (map_to_list (pps_Input (ps_stats s))) (ps_heap s))
    (ps_updateStats s) s.

(** What the tables answered, if they did: the joins by topic, and the group table. *)
Record table_answers : Type := mkAnswers { ta_now : Z; ta_join : string -> option TableStats; ta_table : option TableStats }.

Definition with_runMode (mode : Z) (ts : TableStats) : TableStats :=
  mkTableStats (ts_Stalled ts) (ts_Status ts) mode (ts_Recovery ts) (ts_Input ts) (ts_Writes ts).

Definition collectStats (ans : table_answers) (s : pp_stats) : PartitionProcStats :=
  let stats := PartitionProcStats_clone (ta_now ans) (ps_stats s) in
  mkPPStats (pps_Now stats)
    (if ps_hasTable s then with_runMode (ps_runMode s) <$> ta_table ans else pps_TableStats stats)
    (fold_left (fun m topic => <[topic := with_runMode (ps_runMode s) <$> ta_join ans topic]> m) (ps_joins s) (pps_Joined stats))
    (pps_Input stats) (pps_Output stats).

Inductive pp_work : Type := PUpdate (now : Z) | PHwm (hwms : string -> Z).

(** [runStatsLoop] *)
#[export] Instance pp_server : StatsServer pp_stats table_answers pp_work (bool * pp_update) PartitionProcStats := {
  srv_snapshot ans s := Ret (collectStats ans s, s);
  srv_work w s :=
    match w with
    | PUpdate now => match ps_updateStats s with
                     | [] => Blocked
                     | u :: us => pp_run_update now u (ps_set (ps_heap s) us s)
                     end
    | PHwm hwms => Ret (pp_updateHwmStats hwms s)
    end;
  srv_offer o s := pp_enqueueStatsUpdate o.1 o.2 s;
  srv_leaves := true
}.

(** ** Collecting the answers *)

(** [type ViewStats struct] *)
Record ViewStats : Type := mkViewStats { vs_Partitions : gmap Z (option TableStats) }.
Definition newViewStats : ViewStats := mkViewStats ∅.

(** [type ProcessorStats struct] *)
Record ProcessorStats : Type := mkProcessorStats {
  gs_Group : gmap Z (option PartitionProcStats); gs_Lookup : gmap string ViewStats
}.
Definition newProcessorStats : ProcessorStats := mkProcessorStats ∅ ∅.

(** [statsWithContext] of a view: [fetch] is what [fetchStats] returns for a partition's table, and
    [order] the order in which the goroutines finish. *)
Definition statsWithContext {S} (fetch : PartitionTable S -> option TableStats) (order : list (PartitionTable S)) : ViewStats :=
  fold_left (fun s t => mkViewStats (<[pt_partition t := fetch t]> (vs_Partitions s))) order newViewStats.

(** [StatsWithContext] of a processor: [parts] and [views] are the entries of its two maps in the order
    in which their goroutines finish. *)
Definition StatsWithContext {S CB} (fetch : Z -> option PartitionProcStats) (stats : View S -> ViewStats)
    (parts : list (Z * (PPRunMode * PartitionProcessor S CB))) (views : list (string * View S)) : ProcessorStats :=
  let s := fold_left (fun s x => mkProcessorStats (<[x.1 := fetch x.1]> (gs_Group s)) (gs_Lookup s)) parts newProcessorStats in
  fold_left (fun s x => mkProcessorStats (gs_Group s) (<[x.1 := stats x.2]> (gs_Lookup s))) views s.

(** ** What is promised of a server *)

Class StatsServerLaws (St A W O R : Type) `{SV : StatsServer St A W O R} : Type := {
  srv_ok : St -> Prop;
  law_snapshot a s : srv_ok s -> exists r s', srv_snapshot a s = Ret (r, s') /\ srv_ok s';
  law_work w s s' : srv_ok s -> srv_work w s = Ret s' -> srv_ok s';
  law_offer o s : srv_ok s -> srv_ok (srv_offer o s)
}.

#[export, refine] Instance pp_server_laws : StatsServerLaws pp_stats table_answers pp_work (bool * pp_update) PartitionProcStats :=
  {| srv_ok _ := True |}.
Proof.
  - intros a s _. by eexists _, _.
  - done.
  - done.
Defined.

Lemma is_Some_insert {A} (m : gmap loc A) l x k : is_Some (m !! k) -> is_Some (<[l := x]> m !! k).
Proof. intros Hk. rewrite lookup_insert_is_Some'. by right. Qed.

#[local] Hint Resolve is_Some_insert Nat.le_refl : core.

Lemma run_update_tstats {S} now u (p : PartitionTable S) :
  tstats_ok (pt_stats p) (pt_heap p) -> tstats_ok (pt_stats (run_update now u p)) (pt_heap (run_update now u p)).
Proof.
  intros [H1 H2 H3 H4]. destruct u; simpl; unfold trackIncomingMessageStats; repeat case_match; constructor; simpl; auto; naive_solver.
Qed.

#[export, refine] Instance table_server_laws {S I} `{Storage S I} :
    StatsServerLaws (PartitionTable S) unit table_work (bool * stats_update) TableStats :=
  {| srv_ok p := tstats_ok (pt_stats p) (pt_heap p) |}.
Proof.
  - intros [] p Hok. simpl. unfold handleStatsRequest, TableStats_clone, RecoveryStats_clone.
    destruct Hok as [H1 H2 [r Hr] H4]. rewrite Hr. simpl. eexists _, _. split; [done|]. simpl.
    constructor; simpl; [done|done|by apply is_Some_insert; eexists|lia].
  - intros [now|hwm] p p' Hok; simpl.
    + destruct (pt_updateStats p) as [|u us]; [done|]. intros [= <-]. by apply run_update_tstats.
    + intros [= <-]. unfold updateHwmStats. destruct (hwm =? 0); [done|]. destruct (_ !! _); [|done]. simpl.
      destruct Hok as [H1 H2 H3 H4]. constructor; simpl; auto.
  - intros [skip u] p Hok. simpl. destruct (enqueue_shape skip u p) as [us ->]. done.
Defined.

(** ** The invariant of undisturbed exchanges *)

Section exchange_facts.
Context {St A W O R : Type} {SV : StatsServer St A W O R} {SL : StatsServerLaws St A W O R}.
Implicit Types (x : exchange St R) (a : x_action A W O).

Definition is_requesting (f : fetch_state R) : bool := match f with Requesting => true | _ => false end.
Definition is_awaiting (f : fetch_state R) : bool := match f with Awaiting => true | _ => false end.

(** The answers the loop still owes. *)
Definition owed (l : loop_state R) : nat := match l with Collecting _ | Responding _ _ => 1 | _ => 0 end.

(** Nobody gives up, and the context of the loop is not done. *)
Definition undisturbed_action a : bool := match a with XGiveUp _ | XCancel | XCancelled => false | _ => true end.

(** The steps of the exchange proper. *)
Definition exchange_action a : bool := match a with XRequest _ | XResponse _ | XCollect _ | XRespond => true | _ => false end.

Record x_inv x : Prop := {
  xi_server : srv_ok (x_server x);
  xi_count : (count_map is_awaiting (x_fetches x) = length (x_response x) + owed (x_loop x))%nat;
  xi_cap : (length (x_response x) <= response_cap)%nat;
  xi_loop : x_loop x <> LoopExited;
  xi_none : forall i, x_fetches x !! i <> Some (Fetched None)
}.

(** How much is left to do. *)
Definition x_measure x : nat :=
  (4 * count_map is_requesting (x_fetches x) + count_map is_awaiting (x_fetches x) +
   match x_loop x with Collecting _ => 2 | Responding _ _ => 1 | _ => 0 end)%nat.

Lemma new_exchange_inv s : srv_ok s -> x_inv (new_exchange s).
Proof. intros Hs. constructor; simpl; try done. lia. Qed.

(** A step writes one fetch; the two counts follow. *)
Lemma count_fetch f (m : gmap nat (fetch_state R)) i old new :
  m !! i = old ->
  (count_map f (<[i := new]> m) + match old with Some o => b2n (f o) | None => 0 end = count_map f m + b2n (f new))%nat.
Proof. intros <-. apply count_map_insert. Qed.

Lemma x_exec_inv a x x' :
  undisturbed_action a = true -> x_inv x -> x_exec a x = Ret x' ->
  x_inv x' /\ (exchange_action a = true -> S (x_measure x') = x_measure x).
Proof.
  intros Ha [Hs Hc Hr Hl Hn]. unfold x_measure.
  destruct a as [i|i|i|i|src| |w|o| |]; try done; simpl; intros E.
  - unfold fetch_start in E. destruct (x_fetches x !! i) eqn:Ei; [done|]. injection E as <-. split; [|done].
    pose proof (count_fetch is_awaiting _ i _ Requesting Ei) as H1. constructor; simpl in *; try done; [lia|].
    intros j. rewrite lookup_insert. case_decide; [done|apply Hn].
  - unfold fetch_request in E. destruct (x_fetches x !! i) as [[]|] eqn:Ei; try done. destruct (x_loop x) eqn:El; try done.
    injection E as <-. pose proof (count_fetch is_awaiting _ i _ Awaiting Ei) as H1.
    pose proof (count_fetch is_requesting _ i _ Awaiting Ei) as H2. split; [|simpl in *; lia].
    constructor; simpl in *; try done; [lia|]. intros j. rewrite lookup_insert. case_decide; [done|apply Hn].
  - unfold fetch_response in E. destruct (x_fetches x !! i) as [[]|] eqn:Ei; try done. destruct (x_response x) as [|b resp] eqn:El; try done.
    injection E as <-. pose proof (count_fetch is_awaiting _ i _ (Fetched (Some b)) Ei) as H1.
    pose proof (count_fetch is_requesting _ i _ (Fetched (Some b)) Ei) as H2. split; [|simpl in *; lia].
    constructor; simpl in *; try done; [lia|lia|]. intros j. rewrite lookup_insert. case_decide; [done|apply Hn].
  - unfold loop_collect in E. destruct (x_loop x) eqn:El; try done.
    destruct (law_snapshot src (x_server x) Hs) as (r & s' & Er & Hs'). rewrite Er in E. injection E as <-.
    split; [constructor|]; simpl in *; try done; lia.
  - unfold loop_respond in E. destruct (x_loop x) eqn:El; try done. destruct (Nat.ltb_spec (length (x_response x)) response_cap); [|done].
    injection E as <-. split; [constructor|]; simpl in *; rewrite ?length_app; simpl; try done; lia.
  - unfold loop_work in E. destruct (x_loop x) eqn:El; try done. destruct (srv_work w (x_server x)) eqn:Ew; try done.
    injection E as <-. split; [|done]. constructor; simpl in *; try done. by eapply law_work.
  - injection E as <-. split; [|done]. constructor; simpl in *; try done. by apply law_offer.
Qed.

Lemma x_execs_inv l x x' :
  Forall (fun a => undisturbed_action a = true) l -> x_inv x -> x_execs l x = Ret x' -> x_inv x'.
Proof.
  intros HF. revert x. induction HF as [|a l Ha HF IH]; intros x Hx; simpl; [by intros [= <-]|].
  destruct (x_exec a x) as [x1| |] eqn:E; [|done|done]. simpl. apply IH. by apply (x_exec_inv a x x1).
Qed.

(** The exchange is never stuck. *)
Lemma exchange_progress (src : A) x :
  x_inv x -> (exists i f, x_fetches x !! i = Some f /\ (f = Requesting \/ f = Awaiting)) ->
  exists a x', exchange_action a = true /\ x_exec a x = Ret x'.
Proof.
  intros [Hs Hc Hr Hl Hn] (i & f & Hi & Hf). destruct (x_response x) as [|b resp] eqn:Er.
  - destruct (x_loop x) as [|j|j r|] eqn:El; [| | |done].
    + simpl in Hc. rewrite count_map_zero in Hc. destruct Hf as [-> | ->]; [|by specialize (Hc i _ Hi)].
      exists (XRequest i). eexists. split; [done|]. simpl. unfold fetch_request. by rewrite Hi, El.
    + destruct (law_snapshot src (x_server x) Hs) as (r & s' & E & _). exists (XCollect src). eexists. split; [done|].
      simpl. unfold loop_collect. by rewrite El, E.
    + exists XRespond. eexists. split; [done|]. simpl. unfold loop_respond. by rewrite El, Er.
  - destruct (count_map_pos is_awaiting (x_fetches x)) as (k & g & Hk & Hg); [simpl in Hc; lia|].
    exists (XResponse k). eexists. split; [done|]. simpl. unfold fetch_response. rewrite Hk, Er. by destruct g.
Qed.

Lemma exchange_bounded l x x' :
  Forall (fun a => exchange_action a = true) l -> x_inv x -> x_execs l x = Ret x' -> (length l + x_measure x' = x_measure x)%nat.
Proof.
  intros HF. revert x. induction HF as [|a l Ha HF IH]; intros x Hx; simpl; [by intros [= <-]|].
  destruct (x_exec a x) as [x1| |] eqn:E; [|done|done]. simpl. intros Hrun.
  destruct (x_exec_inv a x x1) as [Hx1 Hm]; [by destruct a|done|done|]. specialize (IH x1 Hx1 Hrun). specialize (Hm Ha). lia.
Qed.

(** ** Fetching one at a time *)

Definition all_fetched x : Prop := forall i f, x_fetches x !! i = Some f -> exists o, f = Fetched o.

(** A step in which a fetch starts only when the earlier ones have returned. *)
Inductive seq_step x x' : Prop :=
| SeqStep a : undisturbed_action a = true -> (forall i, a = XStart i -> all_fetched x) -> x_exec a x = Ret x' -> seq_step x x'.

Definition others_fetched (i : nat) x : Prop := forall j f, j <> i -> x_fetches x !! j = Some f -> exists o, f = Fetched o.

Inductive seq_phase x : Prop :=
| PhaseIdle : all_fetched x -> x_loop x = Selecting -> x_response x = [] -> seq_phase x
| PhaseRequesting i : x_fetches x !! i = Some Requesting -> others_fetched i x -> x_loop x = Selecting ->
    x_response x = [] -> seq_phase x
| PhaseCollecting i : x_fetches x !! i = Some Awaiting -> others_fetched i x -> x_loop x = Collecting i ->
    x_response x = [] -> seq_phase x
| PhaseResponding i r : x_fetches x !! i = Some Awaiting -> others_fetched i x -> x_loop x = Responding i r ->
    x_response x = [] -> seq_phase x
| PhaseAnswered i r : x_fetches x !! i = Some Awaiting -> others_fetched i x -> x_loop x = Selecting ->
    x_response x = [(i, r)] -> seq_phase x.

Definition own_answers x : Prop := forall i j r, x_fetches x !! i = Some (Fetched (Some (j, r))) -> j = i.

(** The fetch in progress is the only one that is not finished. *)
Lemma others_unique i j f x : others_fetched i x -> x_fetches x !! j = Some f -> f = Requesting \/ f = Awaiting -> j = i.
Proof.
  intros Ho Hj Hf. destruct (decide (j = i)) as [|Hne]; [done|]. destruct (Ho j f Hne Hj) as [o ->]. by destruct Hf.
Qed.

Lemma all_fetched_not x i f : all_fetched x -> x_fetches x !! i = Some f -> f = Requesting \/ f = Awaiting -> False.
Proof. intros Hall Hi Hf. destruct (Hall i f Hi) as [o ->]. by destruct Hf. Qed.

Lemma others_insert i f x s l resp :
  others_fetched i x -> others_fetched i (x_set s l resp (<[i := f]> (x_fetches x)) x).
Proof. intros Ho j g Hne. simpl. rewrite lookup_insert_ne by done. by apply Ho. Qed.

(** Each action belongs to one phase. *)
Lemma seq_step_phase x x' : seq_step x x' -> seq_phase x /\ own_answers x -> seq_phase x' /\ own_answers x'.
Proof.
  intros [a Hu Hstart E] [Hp Hown].
  assert (forall i f, (forall j r, f = Fetched (Some (j, r)) -> j = i) ->
    forall s l resp, own_answers (x_set s l resp (<[i := f]> (x_fetches x)) x)) as Hins.
  { intros i f Hf s l resp k j r. simpl. rewrite lookup_insert. case_decide; [|apply Hown]. intros [= ->]. subst. by eapply Hf. }
  destruct a as [i|i|i|i|src| |w|o| |]; try done; simpl in E.
  - unfold fetch_start in E. destruct (x_fetches x !! i) eqn:Ei; [done|]. injection E as <-. split; [|by apply Hins].
    specialize (Hstart i eq_refl). destruct Hp as [_ Hl Hr|j Hj|j Hj|j r Hj|j r Hj];
      [|exfalso; eapply all_fetched_not; eauto..].
    apply (PhaseRequesting _ i); simpl; [by rewrite lookup_insert_eq| |done|done].
    intros j f Hne. simpl. rewrite lookup_insert_ne by done. apply Hstart.
  - unfold fetch_request in E. destruct (x_fetches x !! i) as [[]|] eqn:Ei; try done. destruct (x_loop x) eqn:El; try done.
    injection E as <-. split; [|by apply Hins].
    destruct Hp as [Hall|j Hj Ho _ Hr|j Hj Ho Hl|j r Hj Ho Hl|j r Hj Ho]; [by edestruct all_fetched_not; eauto| |congruence|congruence|].
    + pose proof (others_unique j i _ x Ho Ei ltac:(by left)) as ->.
      apply (PhaseCollecting _ j); simpl; [by rewrite lookup_insert_eq|by apply others_insert|done|done].
    + pose proof (others_unique j i _ x Ho Ei ltac:(by left)) as ->. congruence.
  - unfold fetch_response in E. destruct (x_fetches x !! i) as [[]|] eqn:Ei; try done.
    destruct (x_response x) as [|[k r'] resp] eqn:Er; try done. injection E as <-.
    destruct Hp as [? ? ?|j ? ? ? ?|j ? ? ? ?|j r ? ? ? ?|j r Hj Ho Hl Hr]; try congruence.
    pose proof (others_unique j i _ x Ho Ei ltac:(by right)) as ->. rewrite Er in Hr. injection Hr as -> -> ->. split.
    + apply PhaseIdle; simpl; [|done|done]. intros j0 f. simpl. rewrite lookup_insert. case_decide; [intros [= <-]; by eexists|].
      intros Hf. by apply (Ho j0 f); [congruence|].
    + apply Hins. by intros ? ? [= <- _].
  - unfold loop_collect in E. destruct (x_loop x) eqn:El; try done. destruct (srv_snapshot src (x_server x)) as [[r s]| |]; try done.
    injection E as <-. split; [|done]. destruct Hp as [? ? ?|j ? ? ? ?|j Hj Ho Hl Hr|j r0 ? ? ? ?|j r0 ? ? ? ?]; try congruence.
    apply (PhaseResponding _ j r); simpl; [done|done|congruence|done].
  - unfold loop_respond in E. destruct (x_loop x) eqn:El; try done. destruct (_ <? _)%nat; [|done].
    injection E as <-. split; [|done]. destruct Hp as [? ? ?|j ? ? ? ?|j ? ? ? ?|j r0 Hj Ho Hl Hr|j r0 ? ? ? ?]; try congruence.
    apply (PhaseAnswered _ j r0); simpl; [done|done|done|]. rewrite Hr. simpl. congruence.
  - unfold loop_work in E. destruct (x_loop x) eqn:El; try done. destruct (srv_work w (x_server x)); try done.
    injection E as <-. split; [|done].
    destruct Hp; [by apply PhaseIdle|by eapply PhaseRequesting|congruence|congruence|by eapply PhaseAnswered].
  - injection E as <-. split; [|done].
    destruct Hp; [by apply PhaseIdle|by eapply PhaseRequesting|by eapply PhaseCollecting|by eapply PhaseResponding|by eapply PhaseAnswered].
Qed.

(** ** After fetches were abandoned *)

(** The loop waits to send, the channel is full, and nobody will take an answer. *)
Definition wedged x : Prop :=
  (exists i r, x_loop x = Responding i r) /\ x_response x <> [] /\ x_cancelled x = false /\
  forall i, x_fetches x !! i <> Some Awaiting.

Lemma wedged_step a x x' :
  a <> XCancel -> wedged x -> x_exec a x = Ret x' ->
  wedged x' /\ (exists o, x_server x' = fold_left (flip srv_offer) o (x_server x)) /\
  forall i b, x_fetches x' !! i = Some (Fetched (Some b)) -> x_fetches x !! i = Some (Fetched (Some b)).
Proof.
  intros Hc [(k & r & Hl) (Hr & Hx & Ha)] E.
  assert (forall i f, f <> Awaiting -> forall j, <[i := f]> (x_fetches x) !! j <> Some Awaiting) as Hins.
  { intros i f Hf j. rewrite lookup_insert. case_decide; [congruence|apply Ha]. }
  destruct a as [i|i|i|i|src| |w|o| |]; try done; simpl in E;
    unfold fetch_start, fetch_request, fetch_response, fetch_give_up, loop_collect, loop_respond, loop_work, loop_cancelled in E.
  - destruct (x_fetches x !! i) eqn:Ei; [done|]. injection E as <-. split_and!; [|by exists []|].
    + split_and!; simpl; eauto; by apply Hins.
    + intros j b. simpl. rewrite lookup_insert. by case_decide.
  - rewrite Hl in E. by destruct (x_fetches x !! i) as [[]|].
  - specialize (Ha i). destruct (x_fetches x !! i) as [[]|] eqn:Ei; try done.
  - specialize (Ha i). destruct (x_fetches x !! i) as [[]|] eqn:Ei; try done. injection E as <-. split_and!; [|by exists []|].
    + split_and!; simpl; eauto; by apply Hins.
    + intros j b. simpl. rewrite lookup_insert. by case_decide.
  - by rewrite Hl in E.
  - rewrite Hl in E. destruct (x_response x); [done|]. done.
  - by rewrite Hl in E.
  - injection E as <-. split_and!; [|by exists [o]|done]. split_and!; simpl; eauto.
  - by rewrite Hx in E.
Qed.

Lemma wedged_run l x x' :
  Forall (fun a => a <> XCancel) l -> wedged x -> x_execs l x = Ret x' ->
  wedged x' /\ (exists o, x_server x' = fold_left (flip srv_offer) o (x_server x)) /\
  forall i b, x_fetches x' !! i = Some (Fetched (Some b)) -> x_fetches x !! i = Some (Fetched (Some b)).
Proof.
  intros HF. revert x. induction HF as [|a l Ha HF IH]; intros x Hw; simpl.
  - intros [= <-]. split_and!; [done|by exists []|done].
  - destruct (x_exec a x) as [x1| |] eqn:E; [|done|done]. simpl. intros Hrun.
    destruct (wedged_step a x x1 Ha Hw E) as (Hw1 & [o1 Ho1] & Hf1). destruct (IH x1 Hw1 Hrun) as (Hw' & [o Ho] & Hf).
    split_and!; [done| |auto]. exists (o1 ++ o). by rewrite fold_left_app, <- Ho1.
Qed.
End exchange_facts.

(** ** Properties *)

(** C30. Statistics can always be fetched: as long as no caller gives up and the context of the loop is
    not done, then however requests, answers, updates and ticks interleave, no fetch fails, and the
    exchange neither deadlocks nor goes on for ever: from every state there are at most as many steps
    as the measure says, and when no step is left every fetch has an answer. *)
Theorem stats_fetches_answered {St A W O R} `{SL : StatsServerLaws St A W O R} (src : A) (s : St)
    (l : list (x_action A W O)) (x : exchange St R) :
  srv_ok s -> Forall (fun a => undisturbed_action a = true) l -> x_execs l (new_exchange s) = Ret x ->
  forall l' x', Forall (fun a : x_action A W O => exchange_action a = true) l' -> x_execs l' x = Ret x' ->
    (length l' <= x_measure x)%nat /\
    ((forall i f, x_fetches x' !! i = Some f -> exists b, f = Fetched (Some b)) \/
     exists (a : x_action A W O) x'', exchange_action a = true /\ x_exec a x' = Ret x'').
Proof.
  intros Hs HF E l' x' HF' E'. pose proof (x_execs_inv l _ x HF (new_exchange_inv s Hs) E) as Hx.
  assert (Forall (fun a : x_action A W O => undisturbed_action a = true) l') as HF2.
  { eapply Forall_impl; [exact HF'|]. by intros []. }
  pose proof (x_execs_inv l' x x' HF2 Hx E') as Hx'. pose proof (exchange_bounded l' x x' HF' Hx E') as Hb. split; [lia|].
  destruct (decide (count_map is_requesting (x_fetches x') + count_map is_awaiting (x_fetches x') = 0)%nat) as [Hz|Hz].
  - left. intros i f Hi. assert (count_map is_requesting (x_fetches x') = 0)%nat as H1 by lia.
    assert (count_map is_awaiting (x_fetches x') = 0)%nat as H2 by lia. rewrite count_map_zero in H1, H2.
    specialize (H1 i f Hi). specialize (H2 i f Hi). pose proof (xi_none x' Hx' i) as Hn. rewrite Hi in Hn.
    destruct f as [| |[b|]]; by eauto.
  - right. apply (exchange_progress src x' Hx').
    destruct (decide (count_map is_requesting (x_fetches x') = 0)%nat) as [H1|H1].
    + destruct (count_map_pos is_awaiting (x_fetches x')) as (i & f & Hi & Hf); [lia|]. exists i, f. destruct f; by auto.
    + destruct (count_map_pos is_requesting (x_fetches x')) as (i & f & Hi & Hf); [lia|]. exists i, f. destruct f; by auto.
Qed.

(** The statistics of a partition processor with one input topic. *)
Definition pp_stats_demo : pp_stats :=
  let '(s, h) := newPartitionProcStats 0 ["in"]%string [] empty_heap in mkPPS s h [] [] false 0.
Definition answers_demo : table_answers := mkAnswers 1 (fun _ => None) None.

(** Two callers request at the same time, with an update in between. *)
Definition stats_demo_actions : list (x_action table_answers pp_work (bool * pp_update)) :=
  [XStart 0; XStart 1; XRequest 0; XOffer (false, PTrackOutput "out" 3); XCollect answers_demo; XRespond; XRequest 1; XResponse 1].

Definition stats_demo : exchange pp_stats PartitionProcStats := ret_or (new_exchange pp_stats_demo) (x_execs stats_demo_actions (new_exchange pp_stats_demo)).
Definition stats_demo_rest : list (x_action table_answers pp_work (bool * pp_update)) := [XCollect answers_demo; XRespond; XResponse 0].

Lemma stats_fetches_answered_witness :
  x_measure stats_demo = 3%nat /\
  let x' := ret_or stats_demo (x_execs stats_demo_rest stats_demo) in
  ((forall i f, x_fetches x' !! i = Some f -> exists b, f = Fetched (Some b)) \/
   exists (a : x_action table_answers pp_work (bool * pp_update)) x'', exchange_action a = true /\ x_exec a x' = Ret x'').
Proof.
  split; [vm_compute; reflexivity|].
  apply (fun H1 H2 H3 H4 => proj2 (stats_fetches_answered (SL := pp_server_laws) answers_demo pp_stats_demo
    stats_demo_actions stats_demo I H1 H2 stats_demo_rest _ H3 H4));
    [repeat constructor|apply ret_or_ok; vm_compute; reflexivity|repeat constructor|apply ret_or_ok; vm_compute; reflexivity].
Defined.

(** If callers fetch one after the other and none gives up, each gets the answer that was computed
    for its own request, so the statistics are not older than the call. *)
Theorem stats_fetch_own {St A W O R} `{SL : StatsServerLaws St A W O R} (s : St) (x : exchange St R) i j (r : R) :
  rtc seq_step (new_exchange s) x -> x_fetches x !! i = Some (Fetched (Some (j, r))) -> j = i.
Proof.
  intros Hrun. assert (seq_phase (new_exchange s : exchange St R) /\ own_answers (new_exchange s : exchange St R)) as H0.
  { split; [by apply PhaseIdle|done]. }
  assert (seq_phase x /\ own_answers x) as [_ Hown]; [|apply Hown].
  revert H0. induction Hrun as [x|x y z Hstep _ IH]; [done|]. intros H0. apply IH. by eapply seq_step_phase.
Qed.

(** Two fetches, one after the other. *)
Definition fetch_demo (i : nat) : list (x_action table_answers pp_work (bool * pp_update)) :=
  [XStart i; XRequest i; XCollect answers_demo; XRespond; XResponse i].
Definition stats_seq_demo : exchange pp_stats PartitionProcStats :=
  ret_or (new_exchange pp_stats_demo) (x_execs (fetch_demo 0 ++ fetch_demo 1) (new_exchange pp_stats_demo)).

(** Whether all fetches have returned, as a test. *)
Definition all_fetchedb {St R} (x : exchange St R) : bool :=
  forallb (fun p => match p.2 with Fetched _ => true | _ => false end) (map_to_list (x_fetches x)).

Lemma all_fetchedb_ok {St R} (x : exchange St R) : all_fetchedb x = true -> all_fetched x.
Proof.
  intros H i f Hi. unfold all_fetchedb in H. rewrite forallb_forall in H. apply elem_of_map_to_list, list_elem_of_In in Hi.
  specialize (H _ Hi). simpl in H. destruct f; eauto; done.
Qed.

(** Whether a list of actions runs and starts a fetch only when all have returned. *)
Fixpoint seq_runs {St A W O R} `{SV : StatsServer St A W O R} (l : list (x_action A W O)) (x : exchange St R) : bool :=
  match l with
  | [] => true
  | a :: l =>
      undisturbed_action a && match a with XStart _ => all_fetchedb x | _ => true end &&
      match x_exec a x with Ret x => seq_runs l x | _ => false end
  end.

Lemma seq_runs_ok {St A W O R} `{SV : StatsServer St A W O R} (l : list (x_action A W O)) (x d : exchange St R) :
  seq_runs l x = true -> rtc seq_step x (ret_or d (x_execs l x)).
Proof.
  revert x. induction l as [|a l IH]; intros x; simpl; [constructor|]. intros [[Hu Hs]%andb_true_iff H]%andb_true_iff.
  destruct (x_exec a x) as [x1| |] eqn:E; [|done|done]. simpl. econstructor; [|by apply IH].
  apply (SeqStep x x1 a); [done| |done]. intros i ->. by apply all_fetchedb_ok.
Qed.

Lemma stats_fetch_own_witness :
  (exists r, x_fetches stats_seq_demo !! 1%nat = Some (Fetched (Some (1%nat, r)))) /\
  forall j r, x_fetches stats_seq_demo !! 1%nat = Some (Fetched (Some (j, r))) -> j = 1%nat.
Proof.
  split.
  - exists (PartitionProcStats_clone 1 (ps_stats pp_stats_demo)). vm_compute. reflexivity.
  - intros j r. apply (stats_fetch_own (SL := pp_server_laws) pp_stats_demo stats_seq_demo 1 j r). apply seq_runs_ok. vm_compute. reflexivity.
Defined.

(** Giving up breaks the exchange: an answer whose caller timed out stays in the channel, and a
    second one blocks the loop.  After two callers have given up while waiting for their answer, no
    later fetch ever gets an answer and no update or tick is ever handled, whatever else happens until
    the context of the loop is done: all that changes is the queue of updates that nobody reads. *)
Theorem stats_abandoned_wedge {St A W O R} `{SL : StatsServerLaws St A W O R} (src1 src2 : A) (s : St) :
  srv_ok s ->
  exists x : exchange St R,
    x_execs [XStart 0; XRequest 0; XCollect src1; XRespond; XGiveUp 0; XStart 1; XRequest 1; XCollect src2; XGiveUp 1]
      (new_exchange s) = Ret x /\
    forall (l : list (x_action A W O)) x', Forall (fun a => a <> XCancel) l -> x_execs l x = Ret x' ->
      (forall i b, x_fetches x' !! i <> Some (Fetched (Some b))) /\
      exists offers, x_server x' = fold_left (flip srv_offer) offers (x_server x).
Proof.
  intros Hs. destruct (law_snapshot src1 s Hs) as (r1 & s1 & E1 & Hs1). destruct (law_snapshot src2 s1 Hs1) as (r2 & s2 & E2 & _).
  assert (exists x : exchange St R,
    x_execs [XStart 0; XRequest 0; XCollect src1; XRespond; XGiveUp 0; XStart 1; XRequest 1; XCollect src2; XGiveUp 1]
      (new_exchange s) = Ret x /\ x = mkExchange s2 (Responding 1 r2) [(0%nat, r1)] (<[1%nat := Fetched None]> (<[0%nat := Fetched None]> ∅)) false)
    as (x & E & Ex).
  { eexists. split; [|reflexivity]. cbn [x_execs x_exec]. unfold fetch_start, fetch_request, fetch_give_up, loop_collect, loop_respond.
    repeat first [progress cbn [mbind outcome_bind x_set new_exchange x_server x_loop x_response x_fetches x_cancelled length Nat.ltb Nat.leb response_cap app]
      |rewrite lookup_insert_eq|rewrite lookup_insert_ne by done|rewrite lookup_empty|rewrite E1|rewrite E2].
    by rewrite !insert_insert_eq. }
  exists x. split; [exact E|]. intros l x' HF Hrun.
  assert (wedged x) as Hw.
  { subst x. split_and!; simpl; [by eexists _, _|done|done|]. intros i. rewrite !lookup_insert, lookup_empty. by repeat case_decide. }
  destruct (wedged_run l x x' HF Hw Hrun) as (_ & Ho & Hf). split; [|exact Ho]. intros i b Hi. apply Hf in Hi. subst x.
  simpl in Hi. rewrite !lookup_insert, lookup_empty in Hi. by repeat case_decide.
Qed.

Lemma stats_abandoned_wedge_witness :
  exists x : exchange pp_stats PartitionProcStats,
    x_execs [XStart 0; XRequest 0; XCollect answers_demo; XRespond; XGiveUp 0; XStart 1; XRequest 1; XCollect answers_demo; XGiveUp 1]
      (new_exchange pp_stats_demo) = Ret x /\
    forall (l : list (x_action table_answers pp_work (bool * pp_update))) x', Forall (fun a => a <> XCancel) l -> x_execs l x = Ret x' ->
      forall i b, x_fetches x' !! i <> Some (Fetched (Some b)).
Proof.
  destruct (stats_abandoned_wedge (SL := pp_server_laws) answers_demo answers_demo pp_stats_demo I) as (x & E & Hx). exists x. split; [exact E|].
  intros l x' HF Hrun. by apply (Hx l x' HF Hrun).
Defined.

(** ** Collected statistics *)

Lemma fold_insert_map {K V B} `{Countable K} (key : B -> K) (val : B -> V) (l : list B) (m : gmap K V) :
  NoDup (key <$> l) ->
  fold_left (fun m b => <[key b := val b]> m) l m = list_to_map ((fun b => (key b, val b)) <$> l) ∪ m.
Proof.
  revert m. induction l as [|b l IH]; intros m; simpl; [by rewrite (left_id_L ∅ (∪))|].
  intros [Hb Hl]%NoDup_cons. rewrite IH by done. rewrite <- insert_union_r.
  - by rewrite insert_union_l.
  - apply not_elem_of_list_to_map_1. rewrite <- list_fmap_compose. exact Hb.
Qed.

(** A fold over records is a fold over a projection. *)
Lemma fold_left_proj {S T B} (p : S -> T) (h : S -> B -> S) (k : T -> B -> T) (l : list B) (s : S) :
  (forall s b, p (h s b) = k (p s) b) -> p (fold_left h l s) = fold_left k l (p s).
Proof. intros H. revert s. induction l as [|b l IH]; intros s; [done|]. simpl. by rewrite IH, H. Qed.

Lemma fold_left_same {T B} (l : list B) (t : T) : fold_left (fun t _ => t) l t = t.
Proof. by induction l. Qed.

(** Visiting the entries of a map in any order. *)
Lemma fold_insert_entries {K V B} `{Countable K} (f : K -> B -> V) (m : gmap K B) (l : list (K * B)) :
  l ≡ₚ map_to_list m -> fold_left (fun acc x => <[x.1 := f x.1 x.2]> acc) l ∅ = map_imap (fun k x => Some (f k x)) m.
Proof.
  intros Hp. assert (NoDup l.*1) as Hnd by (rewrite Hp; apply NoDup_fst_map_to_list).
  rewrite fold_insert_map by done. rewrite (right_id_L ∅ (∪)). apply map_eq. intros k. apply option_eq. intros y.
  rewrite <- elem_of_list_to_map by (by rewrite <- list_fmap_compose). rewrite list_elem_of_fmap, map_lookup_imap.
  setoid_rewrite Hp. split.
  - intros ([k' x] & [= -> ->] & Hk). apply elem_of_map_to_list in Hk. by rewrite Hk.
  - destruct (m !! k) as [x|] eqn:Ex; [|done]. intros [= <-]. exists (k, x). split; [done|]. by apply elem_of_map_to_list.
Qed.

(** The statistics of a view have one entry per partition, and those of a processor one per partition
    processor and one per lookup table, in whatever order the goroutines deliver them. *)
Theorem stats_collected {S CB M} (fetch : PartitionTable S -> option TableStats) (v : View S) order
    (fetchProc : Z -> option PartitionProcStats) (stats : View S -> ViewStats) (g : Processor S CB M) parts views :
  order ≡ₚ v_partitions v -> NoDup (pt_partition <$> v_partitions v) ->
  parts ≡ₚ map_to_list (g_partitions g) -> views ≡ₚ map_to_list (g_lookupTables g) ->
  vs_Partitions (statsWithContext fetch order) = list_to_map ((fun t => (pt_partition t, fetch t)) <$> v_partitions v) /\
  gs_Group (StatsWithContext fetchProc stats parts views) = map_imap (fun p _ => Some (fetchProc p)) (g_partitions g) /\
  gs_Lookup (StatsWithContext fetchProc stats parts views) = map_imap (fun _ view => Some (stats view)) (g_lookupTables g).
Proof.
  intros Ho Hnd Hp Hv. split_and!.
  - unfold statsWithContext. rewrite (fold_left_proj vs_Partitions _ (fun m t => <[pt_partition t := fetch t]> m)) by done.
    simpl. rewrite fold_insert_map by (by rewrite Ho). rewrite (right_id_L ∅ (∪)).
    apply list_to_map_proper; [rewrite <- list_fmap_compose; by rewrite Ho|by rewrite Ho].
  - unfold StatsWithContext. rewrite (fold_left_proj gs_Group _ (fun m _ => m)) by done. rewrite fold_left_same.
    rewrite (fold_left_proj gs_Group _ (fun m x => <[x.1 := fetchProc x.1]> m)) by done.
    by apply (fold_insert_entries (fun p _ => fetchProc p)).
  - unfold StatsWithContext. rewrite (fold_left_proj gs_Lookup _ (fun m x => <[x.1 := stats x.2]> m)) by done.
    rewrite (fold_left_proj gs_Lookup _ (fun m _ => m)) by done. rewrite fold_left_same.
    by apply (fold_insert_entries (fun _ => stats)).
Qed.
