(* ===== verification/Tester.v ===== *)
(** * The tester

    [tester/]: the in-process replacement for Kafka that the library offers to the tests of its users,
    without its consumer groups, which are in the next file.  Topics are queues with one partition;
    emitting appends to a queue and resolves the promise at once; table consumers read the queues;
    storages are in memory and shared by topic. *)
From Stdlib Require Import ZArith Lia.
From stdpp Require Import base gmap strings list.
From S2P Require Import Prelude Codec Storage Memory Headers Stats Proxy Promise Graph TopicManager.
Open Scope Z_scope.

(** ** Queues *)

(** [type message struct] *)
Record message : Type := mkMessage { m_offset : Z; m_key : string; m_value : bytes; m_headers : Headers }.

(** [order] visits the headers. *)
Definition saramaHeaders (order : list (string * bytes)) : list RecordHeader :=
  (fun kv => mkRecordHeader (Some kv.1) kv.2) <$> order.

(** [type queue struct] *)
Record queue : Type := mkQueue { q_topic : string; q_messages : list message; q_hwm : Z }.

Definition newQueue (topic : string) : queue := mkQueue topic [] 0.

Definition queue_Hwm (q : queue) : Z := q_hwm q.

Definition queue_push (key : string) (value : bytes) (hdr : Headers) (q : queue) : Z * queue :=
  let offset := q_hwm q in
  (offset, mkQueue (q_topic q) (q_messages q ++ [mkMessage offset key value hdr]) (int64 (q_hwm q + 1))).

Definition queue_message (offset : Z) (q : queue) : outcome message :=
  if offset <? 0 then Panic (ErrNew "index out of range")
  else match q_messages q !! Z.to_nat offset with
       | Some m => Ret m
       | None => Panic (ErrNew "index out of range")
       end.

Definition messagesFromOffset (offset : Z) (q : queue) : outcome (list message) :=
  if (offset <? 0) || (Z.of_nat (length (q_messages q)) <? offset) then Panic (ErrNew "slice bounds out of range")
  else Ret (drop (Z.to_nat offset) (q_messages q)).

Definition queue_size (q : queue) : Z := Z.of_nat (length (q_messages q)).

(** ** The tester's state *)

(** [type emitOption struct] and its options. *)
Record emitOption : Type := mkEmitOption { eo_headers : Headers }.

Definition WithHeaders (hdr : list (string * bytes)) (opts : emitOption) : emitOption :=
  mkEmitOption (Some (put_all hdr (entries (eo_headers opts)))).

Definition emitOption_applyOptions (opts : list (emitOption -> emitOption)) (o : emitOption) : emitOption :=
  fold_left (fun o f => f o) opts o.

Section tester.
(** [reflect.TypeOf] of a codec. *)
Variable TypeOf : option Codec -> nat.

(** [type Tester struct] without its clients. *)
Record Tester : Type := mkTester {
  tt_codecs : gmap string (option Codec);
  tt_topicQueues : gmap string queue;
  tt_storages : gmap string memory
}.

Definition tester_New : Tester := mkTester ∅ ∅ ∅.

Definition set_queue (topic : string) (q : queue) (tst : Tester) : Tester :=
  mkTester (tt_codecs tst) (<[topic := q]> (tt_topicQueues tst)) (tt_storages tst).

Definition getOrCreateQueue (topic : string) (tst : Tester) : queue * Tester :=
  match tt_topicQueues tst !! topic with
  | Some q => (q, tst)
  | None => (newQueue topic, set_queue topic (newQueue topic) tst)
  end.

Definition codecForTopic (topic : string) (tst : Tester) : outcome (option Codec) :=
  match tt_codecs tst !! topic with
  | Some c => Ret c
  | None => Panic (ErrNew "no codec for topic registered")
  end.

Definition registerCodec (topic : string) (codec : option Codec) (tst : Tester) : outcome Tester :=
  let '(_, tst) := getOrCreateQueue topic tst in
  let conflict := match tt_codecs tst !! topic with
                  | Some existing => negb (TypeOf codec =? TypeOf existing)%nat
                  | None => false
                  end in
  if conflict then Panic (ErrNew "There are different codecs for the same topic. This is messed up")
  else Ret (mkTester (<[topic := codec]> (tt_codecs tst)) (tt_topicQueues tst) (tt_storages tst)).

Fixpoint registerCodecs (ts : list topicDef) (tst : Tester) : outcome Tester :=
  match ts with
  | [] => Ret tst
  | t :: ts => tst ← registerCodec (td_name t) (td_codec t) tst; registerCodecs ts tst
  end.

(** [RegisterGroupGraph]: the result tells whether a consumer group is created. *)
Definition RegisterGroupGraph {CB} (gg : GroupGraph CB) (tst : Tester) : outcome (bool * Tester) :=
  let group := match GroupTable gg with Some _ => true | None => (0 <? length (InputStreams gg))%nat end in
  tst ← registerCodecs match GroupTable gg with Some t => [t] | None => [] end tst;
  tst ← registerCodecs (InputStreams gg) tst;
  tst ← registerCodecs (OutputStreams gg) tst;
  tst ← registerCodecs (JointTables gg) tst;
  tst ← registerCodecs match LoopStream gg with Some t => [t] | None => [] end tst;
  tst ← registerCodecs (LookupTables gg) tst;
  Ret (group, tst).

Definition RegisterEmitter (topic : string) (codec : option Codec) (tst : Tester) : outcome Tester :=
  registerCodec topic codec tst.

(** ** Emitting *)

Definition pushMessage (topic key : string) (data : bytes) (hdr : Headers) (tst : Tester) : Z * Tester :=
  let '(q, tst) := getOrCreateQueue topic tst in
  let '(offset, q) := queue_push key data hdr q in
  (offset, set_queue topic q tst).

(** [handleEmit]: the promise is finished when it is returned. *)
Definition handleEmit {CB} (topic key : string) (value : bytes) (options : list (emitOption -> emitOption)) (tst : Tester)
  : Promise CB * Tester :=
  let opts := emitOption_applyOptions options (mkEmitOption None) in
  let '(offset, tst) := pushMessage topic key value (eo_headers opts) tst in
  ((Promise_finish (Some (mkPMsg 0 offset)) None NewPromise).2, tst).

Definition producerMock_Emit {CB} (topic key : string) (value : bytes) (tst : Tester) : Promise CB * Tester :=
  handleEmit topic key value [] tst.

Definition producerMock_EmitWithHeaders {CB} (topic key : string) (value : bytes) (header : list (string * bytes)) (tst : Tester)
  : Promise CB * Tester :=
  handleEmit topic key value [WithHeaders header] tst.

(** The part of [Consume] before it waits for the clients; [isNil] tells whether [msg] is a nil
    pointer in a non-nil interface. *)
Definition tester_Consume (topic key : string) (msg : value) (isNil : bool) (options : list (emitOption -> emitOption)) (tst : Tester)
  : outcome Tester :=
  let opts := emitOption_applyOptions options (mkEmitOption None) in
  match msg, isNil with
  | VNil, _ | _, true => Ret (pushMessage topic key None (eo_headers opts) tst).2
  | _, false =>
      codec ← codecForTopic topic tst;
      match codec with
      | None => Panic (ErrNew "nil pointer dereference")
      | Some codec =>
          match Encode codec msg with
          | Err e => Panic (ErrWrap "Error encoding value" e)
          | Ok data => Ret (pushMessage topic key data (eo_headers opts) tst).2
          end
      end
  end.

(** ** Trackers *)

(** [type QueueTracker struct] *)
Record QueueTracker : Type := mkTracker { qt_topic : string; qt_nextOffset : Z }.

Definition newQueueTracker (topic : string) (tst : Tester) : QueueTracker * Tester :=
  let '(q, tst) := getOrCreateQueue topic tst in (mkTracker topic (q_hwm q), tst).

(** [NextRawWithHeaders] *)
Definition NextRawWithHeaders (mt : QueueTracker) (tst : Tester)
  : outcome (Headers * string * bytes * bool * QueueTracker * Tester) :=
  let '(q, tst) := getOrCreateQueue (qt_topic mt) tst in
  if queue_size q <=? qt_nextOffset mt then Ret (Some ∅, EmptyString, None, false, mt, tst)
  else
    msg ← queue_message (qt_nextOffset mt) q;
    Ret (m_headers msg, m_key msg, m_value msg, true, mkTracker (qt_topic mt) (int64 (qt_nextOffset mt + 1)), tst).

(** [Fatalf] does not return. *)
Definition Fatalf (msg : string) : error := ErrNew msg.

Definition NextWithHeaders (mt : QueueTracker) (tst : Tester)
  : outcome (Headers * string * value * bool * QueueTracker * Tester) :=
  '(hdr, key, msgRaw, hasNext, mt, tst) ← NextRawWithHeaders mt tst;
  if negb hasNext then Ret (hdr, key, VBytes msgRaw, hasNext, mt, tst)
  else
    codec ← codecForTopic (qt_topic mt) tst;
    match codec with
    | None => Panic (ErrNew "nil pointer dereference")
    | Some codec =>
        match Decode codec msgRaw with
        | Err e => Panic (Fatalf "Error decoding message")
        | Ok decoded => Ret (hdr, key, decoded, true, mt, tst)
        end
    end.

Definition tracker_Next (mt : QueueTracker) (tst : Tester) : outcome (string * value * bool * QueueTracker * Tester) :=
  '(_, key, msg, hasNext, mt, tst) ← NextWithHeaders mt tst; Ret (key, msg, hasNext, mt, tst).

Definition NextRaw (mt : QueueTracker) (tst : Tester) : outcome (string * bytes * bool * QueueTracker * Tester) :=
  '(_, key, value, hasNext, mt, tst) ← NextRawWithHeaders mt tst; Ret (key, value, hasNext, mt, tst).

Definition tracker_Seek (offset : Z) (mt : QueueTracker) : QueueTracker := mkTracker (qt_topic mt) offset.

Definition tracker_Hwm (mt : QueueTracker) (tst : Tester) : Z := queue_Hwm (getOrCreateQueue (qt_topic mt) tst).1.

Definition NextOffset (mt : QueueTracker) : Z := qt_nextOffset mt.

(** ** Tables *)

Definition getOrCreateStorage (table : string) (tst : Tester) : memory * Tester :=
  match tt_storages tst !! table with
  | Some st => (st, tst)
  | None => (NewMemory, mkTester (tt_codecs tst) (tt_topicQueues tst) (<[table := NewMemory]> (tt_storages tst)))
  end.

Definition TableValue (table key : string) (tst : Tester) : outcome value :=
  match tt_storages tst !! table with
  | None => Panic (ErrNew "topic does not exist")
  | Some st =>
      match memory_Get key st with
      | Err e => Panic (Fatalf "Error getting table value from storage")
      | Ok None => Ret VNil
      | Ok (Some item) =>
          codec ← codecForTopic table tst;
          match codec with
          | None => Panic (ErrNew "nil pointer dereference")
          | Some codec =>
              match Decode codec (Some item) with
              | Err e => Panic (Fatalf "error decoding value from storage")
              | Ok v => Ret v
              end
          end
      end
  end.

Definition SetTableValue (table key : string) (v : value) (tst : Tester) : outcome Tester :=
  let '(st, tst) := getOrCreateStorage table tst in
  codec ← codecForTopic table tst;
  match codec with
  | None => Panic (ErrNew "nil pointer dereference")
  | Some codec =>
      match Encode codec v with
      | Err e => Panic (Fatalf "error decoding value from storage")
      | Ok data =>
          let '(err, st) := memory_Set key data st in
          match err with
          | Some e => Panic (ErrWrap "Error setting key in storage" e)
          | None => Ret (mkTester (tt_codecs tst) (tt_topicQueues tst) (<[table := st]> (tt_storages tst)))
          end
      end
  end.

(** The keys that [for it.Next()] visits; there are at most as many as the iterator has. *)
Fixpoint iter_keys (fuel : nat) (it : memiter) : outcome (list string) :=
  match fuel with
  | O => Blocked
  | S fuel =>
      '(ok, it) ← memiter_Next it;
      if (ok : bool) then
        key ← memiter_Key it;
        keys ← iter_keys fuel it;
        Ret (string_of_bytes key :: keys)
      else Ret []
  end.

Definition storage_keys (st : memory) : outcome (list string) :=
  match memory_Iterator st with
  | Err e => Panic (ErrNew "nil pointer dereference")
  | Ok it => iter_keys (S (length (mi_keys it))) it
  end.

Definition clear_storage (st : memory) : outcome memory :=
  keys ← storage_keys st;
  Ret (fold_left (fun st key => (memory_Delete key st).2) keys st).

(** [ClearValues]: [order] visits the storages. *)
Fixpoint ClearValues (order : list (string * memory)) (tst : Tester) : outcome Tester :=
  match order with
  | [] => Ret tst
  | (topic, st) :: order =>
      st ← clear_storage st;
      ClearValues order (mkTester (tt_codecs tst) (tt_topicQueues tst) (<[topic := st]> (tt_storages tst)))
  end.

Definition GetTableKeys (table : string) (tst : Tester) : outcome (list string) :=
  match tt_storages tst !! table with
  | None => Panic (Fatalf "topic does not exist")
  | Some st => storage_keys st
  end.

(** ** Consumers of tables *)

(** [type partConsumerMock struct]; the queue is that of the topic. *)
Record partConsumerMock : Type := mkPartConsumer { pcm_topic : string; pcm_hwm : Z }.

(** [type consumerMock struct] *)
Record consumerMock : Type := mkConsumerMock {
  cmk_requiredTopics : gset string;
  cmk_partConsumers : gmap string partConsumerMock
}.

Definition newConsumerMock : consumerMock := mkConsumerMock ∅ ∅.

Definition requirePartConsumer (topic : string) (cm : consumerMock) : consumerMock :=
  mkConsumerMock ({[topic]} ∪ cmk_requiredTopics cm) (cmk_partConsumers cm).

(** The check that [waitRequiredConsumersStartup] repeats until it holds. *)
Definition requiredConsumersStarted (cm : consumerMock) : bool :=
  forallb (fun topic => bool_decide (is_Some (cmk_partConsumers cm !! topic))) (elements (cmk_requiredTopics cm)).

Definition ConsumePartition (topic : string) (partition offset : Z) (cm : consumerMock) (tst : Tester)
  : res partConsumerMock * consumerMock * Tester :=
  match cmk_partConsumers cm !! topic with
  | Some _ => (Err (ErrNew "Got duplicate consume partition for topic"), cm, tst)
  | None =>
      let cons := mkPartConsumer topic offset in
      (Ok cons, mkConsumerMock (cmk_requiredTopics cm) (<[topic := cons]> (cmk_partConsumers cm)), (getOrCreateQueue topic tst).2)
  end.

(** [Close] of a partition consumer, without its channels. *)
Definition partConsumer_Close (topic : string) (cm : consumerMock) : option error * consumerMock :=
  match cmk_partConsumers cm !! topic with
  | None => (Some (ErrNew "partition consumer seems already closed"), cm)
  | Some _ => (None, mkConsumerMock (cmk_requiredTopics cm) (delete topic (cmk_partConsumers cm)))
  end.

(** The message the mocks hand out; [range] visits the headers. *)
Definition consumer_message (range : Headers -> list (string * bytes)) (topic : string) (m : message) : ConsumerMessage :=
  mkMsg topic 0 (Some (m_key m)) (m_value m) (m_offset m) (saramaHeaders (range (m_headers m))) None.

(** [catchup] of a partition consumer: what it sends, with a nil message after each one. *)
Definition partConsumer_catchup (range : Headers -> list (string * bytes)) (pcm : partConsumerMock) (tst : Tester)
  : outcome (list (option ConsumerMessage) * Z * partConsumerMock) :=
  msgs ← messagesFromOffset (pcm_hwm pcm) (getOrCreateQueue (pcm_topic pcm) tst).1;
  Ret (concat ((fun m => [Some (consumer_message range (pcm_topic pcm) m); None]) <$> msgs),
       Z.of_nat (length msgs),
       mkPartConsumer (pcm_topic pcm) (fold_left (fun _ m => int64 (m_offset m + 1)) msgs (pcm_hwm pcm))).
End tester.

(** ** The topic manager *)

Definition mockEnsureTableExists (topic : string) (npar : Z) (tst : Tester) : option error * Tester :=
  if negb (npar =? 1) then (Some (ErrNew "Mock only supports 1 partition"), tst)
  else (None, (getOrCreateQueue topic tst).2).

Definition mockEnsureStreamExists (topic : string) (npar : Z) (tst : Tester) : option error * Tester :=
  (None, (getOrCreateQueue topic tst).2).

Definition mockEnsureTopicExists (topic : string) (npar rfactor : Z) (config : list (string * string)) (tst : Tester)
  : option error * Tester :=
  (None, (getOrCreateQueue topic tst).2).

Definition mockPartitions (topic : string) (tst : Tester) : res (list Z) := Ok [0].

(** [sarama.OffsetOldest] and [sarama.OffsetNewest] are -2 and -1. *)
Definition mockGetOffset (topic : string) (partition time : Z) (tst : Tester) : res Z :=
  if time =? -2 then Ok 0
  else if time =? -1 then Ok (queue_Hwm (getOrCreateQueue topic tst).1)
  else Err (ErrNew "only oldest and newest are supported in the mock").

Definition mockClose (tst : Tester) : option error * Tester := (None, tst).

#[export] Instance MockTopicManager : TopicManager Tester := {
  tm_EnsureTableExists := mockEnsureTableExists;
  tm_EnsureStreamExists := mockEnsureStreamExists;
  tm_EnsureTopicExists := mockEnsureTopicExists;
  tm_Partitions t tst := (mockPartitions t tst, tst);
  tm_GetOffset := mockGetOffset;
  tm_Close := mockClose
}.

(** ** The invariant *)

(** A queue is the list of its messages with their positions as offsets. *)
Record queue_wf (topic : string) (q : queue) : Prop := {
  qw_topic : q_topic q = topic;
  qw_hwm : q_hwm q = Z.of_nat (length (q_messages q));
  qw_bound : Z.of_nat (length (q_messages q)) < 2 ^ 63;
  qw_offset : forall i m, q_messages q !! i = Some m -> m_offset m = Z.of_nat i
}.

Definition tester_wf (tst : Tester) : Prop := forall topic q, tt_topicQueues tst !! topic = Some q -> queue_wf topic q.

(** The messages of a topic; a topic without a queue has none. *)
Definition topic_messages (topic : string) (tst : Tester) : list message :=
  match tt_topicQueues tst !! topic with Some q => q_messages q | None => [] end.

Lemma newQueue_wf topic : queue_wf topic (newQueue topic).
Proof. constructor; simpl; done || lia. Qed.

Lemma getOrCreateQueue_ok topic tst :
  tester_wf tst ->
  exists q tst', getOrCreateQueue topic tst = (q, tst') /\ tester_wf tst' /\ queue_wf topic q /\
    q_messages q = topic_messages topic tst /\ tt_topicQueues tst' !! topic = Some q /\
    (forall t, topic_messages t tst' = topic_messages t tst) /\
    tt_codecs tst' = tt_codecs tst /\ tt_storages tst' = tt_storages tst.
Proof.
  intros W. unfold getOrCreateQueue, topic_messages. destruct (tt_topicQueues tst !! topic) as [q|] eqn:E.
  - exists q, tst. split_and!; try done. by apply W.
  - eexists _, _. split; [done|]. simpl. split_and!; try done.
    + intros t q. simpl. rewrite lookup_insert. case_decide; [intros [= <-]; subst; apply newQueue_wf|apply W].
    + by rewrite lookup_insert_eq.
    + intros t. rewrite lookup_insert. case_decide; [subst; by rewrite E|done].
Qed.

(** Pushing appends one message, with its position as the offset. *)
Lemma pushMessage_ok topic key data hdr tst :
  tester_wf tst -> Z.of_nat (length (topic_messages topic tst)) < 2 ^ 63 - 1 ->
  exists tst', pushMessage topic key data hdr tst = (Z.of_nat (length (topic_messages topic tst)), tst') /\ tester_wf tst' /\
    (forall t, topic_messages t tst' = topic_messages t tst ++
       if decide (t = topic) then [mkMessage (Z.of_nat (length (topic_messages topic tst))) key data hdr] else []).
Proof.
  intros W Hb. unfold pushMessage. destruct (getOrCreateQueue_ok topic tst W) as (q & tst' & -> & W' & [Q1 Q2 Q3 Q4] & Em & Eq & Ht & _).
  simpl. rewrite <- Em in *. rewrite Q2. eexists. split; [done|]. split.
  - intros t q'. simpl. rewrite lookup_insert. case_decide; [|apply W']. subst t. intros [= <-]. constructor; simpl; [done| | |].
    + rewrite length_app, int64_id by (unfold in_int64; lia). simpl. lia.
    + rewrite length_app. simpl. lia.
    + intros i m. rewrite lookup_app. destruct (q_messages q !! i) as [m'|] eqn:Ei; [intros [= <-]; by apply Q4|].
      apply lookup_ge_None in Ei. intros Hm. pose proof (lookup_lt_Some _ _ _ Hm) as Hlt. simpl in Hlt.
      assert (i = length (q_messages q)) as -> by lia. rewrite Nat.sub_diag in Hm. by injection Hm as <-.
  - intros t. unfold topic_messages at 1. simpl. rewrite lookup_insert. destruct (decide (t = topic)) as [->|Hne].
    + by rewrite decide_True, Em.
    + rewrite decide_False by done. fold (topic_messages t tst'). by rewrite Ht, app_nil_r.
Qed.

(** ** Trackers and pushes *)

(** An emit to the tester, and what of it a reader sees. *)
Record emit : Type := mkEmit { em_topic : string; em_key : string; em_data : bytes; em_headers : Headers }.

Definition push_all (l : list emit) (tst : Tester) : Tester :=
  fold_left (fun tst e => (pushMessage (em_topic e) (em_key e) (em_data e) (em_headers e) tst).2) l tst.

Definition payload (m : message) : Headers * string * bytes := (m_headers m, m_key m, m_value m).
Definition emitted (topic : string) (l : list emit) : list (Headers * string * bytes) :=
  (fun e => (em_headers e, em_key e, em_data e)) <$> filter (fun e => em_topic e = topic) l.

(** There is room for [n] more messages in every topic. *)
Definition has_room (n : nat) (tst : Tester) : Prop :=
  forall t, Z.of_nat (length (topic_messages t tst) + n) < 2 ^ 63.

Lemma push_all_ok l tst :
  tester_wf tst -> has_room (length l) tst ->
  tester_wf (push_all l tst) /\
  forall t, exists ms, topic_messages t (push_all l tst) = topic_messages t tst ++ ms /\ payload <$> ms = emitted t l.
Proof.
  revert tst. induction l as [|e l IH]; intros tst W Hr; simpl.
  { split; [done|]. intros t. exists []. by rewrite app_nil_r. }
  pose proof (Hr (em_topic e)) as Hb. simpl in Hb.
  destruct (pushMessage_ok (em_topic e) (em_key e) (em_data e) (em_headers e) tst W) as (tst' & E & W' & Ht); [lia|].
  rewrite E. simpl. destruct (IH tst' W') as [W2 Ht2].
  { intros t. specialize (Hr t). rewrite Ht, length_app. case_decide; simpl in *; lia. }
  split; [done|]. intros t. destruct (Ht2 t) as (ms & Em & Ep). rewrite Em, Ht, <- (assoc_L (++)).
  eexists. split; [done|]. rewrite fmap_app, Ep. unfold emitted. rewrite filter_cons.
  destruct (decide (t = em_topic e)) as [->|Hne]; [by rewrite decide_True|by rewrite decide_False by done].
Qed.

(** Reading with a tracker until there is nothing more. *)
Fixpoint read_all (fuel : nat) (mt : QueueTracker) (tst : Tester) : outcome (list (Headers * string * bytes)) :=
  match fuel with
  | O => Blocked
  | S fuel =>
      '(hdr, key, v, hasNext, mt, tst) ← NextRawWithHeaders mt tst;
      if (hasNext : bool) then rest ← read_all fuel mt tst; Ret ((hdr, key, v) :: rest) else Ret []
  end.

Lemma NextRawWithHeaders_ok mt tst :
  tester_wf tst -> 0 <= qt_nextOffset mt < 2 ^ 63 - 1 ->
  exists tst', tester_wf tst' /\ (forall t, topic_messages t tst' = topic_messages t tst) /\
    NextRawWithHeaders mt tst =
      match topic_messages (qt_topic mt) tst !! Z.to_nat (qt_nextOffset mt) with
      | Some m => Ret (m_headers m, m_key m, m_value m, true, mkTracker (qt_topic mt) (qt_nextOffset mt + 1), tst')
      | None => Ret (Some ∅, EmptyString, None, false, mt, tst')
      end.
Proof.
  intros W Hn. destruct (getOrCreateQueue_ok (qt_topic mt) tst W) as (q & tst' & E & W' & Q & Em & _ & Ht & _).
  exists tst'. split_and!; [done|done|]. unfold NextRawWithHeaders. rewrite E. rewrite <- Em. unfold queue_size, queue_message.
  destruct (q_messages q !! Z.to_nat (qt_nextOffset mt)) as [m|] eqn:Ei.
  - pose proof (lookup_lt_Some _ _ _ Ei). rewrite (proj2 (Z.leb_gt _ _)), (proj2 (Z.ltb_ge _ _)) by lia. simpl.
    by rewrite int64_id by (unfold in_int64; lia).
  - apply lookup_ge_None in Ei. by rewrite (proj2 (Z.leb_le _ _)) by lia.
Qed.

Lemma read_all_ok fuel mt tst :
  tester_wf tst -> 0 <= qt_nextOffset mt ->
  let ms := drop (Z.to_nat (qt_nextOffset mt)) (topic_messages (qt_topic mt) tst) in
  (length ms < fuel)%nat -> qt_nextOffset mt + Z.of_nat (length ms) < 2 ^ 63 - 1 ->
  read_all fuel mt tst = Ret (payload <$> ms).
Proof.
  revert mt tst. induction fuel as [|fuel IH]; intros mt tst W H0 ms Hf Hb; [lia|]. simpl.
  destruct (NextRawWithHeaders_ok mt tst W) as (tst' & W' & Ht & ->); [lia|].
  destruct (topic_messages (qt_topic mt) tst !! Z.to_nat (qt_nextOffset mt)) as [m|] eqn:Ei; simpl.
  - assert (ms = m :: drop (Z.to_nat (qt_nextOffset mt + 1)) (topic_messages (qt_topic mt) tst)) as Ems.
    { unfold ms. rewrite (drop_S _ _ _ Ei). do 2 f_equal. lia. }
    rewrite IH; simpl; [| done | lia | | ]; rewrite Ht; [by rewrite Ems| |]; rewrite Ems in Hf, Hb; simpl in *; lia.
  - apply lookup_ge_None in Ei. unfold ms. by rewrite drop_ge by done.
Qed.

(** ** Consumers *)

(** Rounds of emits, each followed by a catch-up of a consumer; what the consumer was sent. *)
Fixpoint consumer_rounds (range : Headers -> list (string * bytes)) (rounds : list (list emit)) (pcm : partConsumerMock) (tst : Tester)
  : outcome (list (option ConsumerMessage) * Tester) :=
  match rounds with
  | [] => Ret ([], tst)
  | l :: rounds =>
      let tst := push_all l tst in
      '(sent, _, pcm) ← partConsumer_catchup range pcm tst;
      '(rest, tst) ← consumer_rounds range rounds pcm tst;
      Ret (sent ++ rest, tst)
  end.

(** The nil messages are ignored. *)
Lemma omap_sent {A B} (f : A -> B) (l : list A) : omap id (concat ((fun m => [Some (f m); None]) <$> l)) = f <$> l.
Proof. induction l as [|m l IH]; [done|]. csimpl. by f_equal. Qed.

(** The messages of a queue are numbered, so the last offset is where the queue ends. *)
Lemma last_offset topic q o :
  queue_wf topic q -> 0 <= o <= Z.of_nat (length (q_messages q)) ->
  fold_left (fun _ m => int64 (m_offset m + 1)) (drop (Z.to_nat o) (q_messages q)) o = Z.of_nat (length (q_messages q)).
Proof.
  intros [_ _ Hb Hoff] Ho. destruct (decide (o = Z.of_nat (length (q_messages q)))) as [->|Hne].
  { by rewrite drop_ge by lia. }
  assert (exists ms m, q_messages q = ms ++ [m]) as (ms & m & Eq).
  { induction (q_messages q) as [|m ms _] using rev_ind; [simpl in *; lia|eauto]. }
  rewrite Eq in *. rewrite length_app in *. simpl in *. rewrite drop_app_le by lia. rewrite fold_left_app. simpl.
  rewrite (Hoff (length ms) m) by (by rewrite lookup_app_r, Nat.sub_diag by lia).
  rewrite int64_id; [lia|]. unfold in_int64. lia.
Qed.

Lemma catchup_ok range pcm tst :
  tester_wf tst -> 0 <= pcm_hwm pcm <= Z.of_nat (length (topic_messages (pcm_topic pcm) tst)) ->
  let ms := drop (Z.to_nat (pcm_hwm pcm)) (topic_messages (pcm_topic pcm) tst) in
  partConsumer_catchup range pcm tst =
    Ret (concat ((fun m => [Some (consumer_message range (pcm_topic pcm) m); None]) <$> ms), Z.of_nat (length ms),
         mkPartConsumer (pcm_topic pcm) (Z.of_nat (length (topic_messages (pcm_topic pcm) tst)))).
Proof.
  intros W Ho ms. unfold partConsumer_catchup, messagesFromOffset.
  destruct (getOrCreateQueue_ok (pcm_topic pcm) tst W) as (q & tst' & -> & _ & Q & Em & _). simpl. rewrite <- Em in Ho.
  rewrite (proj2 (Z.ltb_ge _ _)), (proj2 (Z.ltb_ge _ _)) by lia. simpl. rewrite (last_offset _ _ _ Q Ho).
  unfold ms. by rewrite Em.
Qed.

(** ** Tables *)

Lemma iter_keys_ok fuel it :
  memiter_ok it -> (length (mi_rest it) < fuel)%nat -> iter_keys fuel it = Ret (mi_rest it).*1.
Proof.
  revert it. induction fuel as [|fuel IH]; intros it Hok Hf; [lia|]. simpl.
  destruct (memiter_Next_cases it Hok) as [(Hr & c & ->)|(c & k & v & -> & Hc & Hk & Hv & _ & Hr)].
  - by rewrite Hr.
  - simpl. rewrite (memiter_Key_at c k) by done. simpl. rewrite Hr in *. simpl in *.
    rewrite IH; [done|apply memiter_ok_set; [done|lia]|lia].
Qed.

Lemma storage_keys_ok st :
  memory_wf st -> storage_keys st = Ret (mi_pairs (mem_storage st) (mem_keys st)).*1.
Proof.
  intros W. unfold storage_keys, memory_Iterator. rewrite iter_keys_ok; [done|by apply memory_Iterator_ok|].
  unfold mi_rest, mi_pairs. simpl. apply le_n_S, omap_length_le.
Qed.

Lemma delete_all_ok keys st :
  memory_wf st -> let st' := fold_left (fun st key => (memory_Delete key st).2) keys st in
  memory_wf st' /\ forall k, mem_storage st' !! k = if decide (k ∈ keys) then None else mem_storage st !! k.
Proof.
  revert st. induction keys as [|key keys IH]; intros st W; cbn [fold_left]; [done|].
  destruct (memory_Delete_wf key st W) as (st' & Ed & W' & Es & _). rewrite Ed. cbn [snd].
  destruct (IH st' W') as [W2 Hl]. split; [done|]. intros k. rewrite Hl, Es.
  destruct (decide (k = key)) as [->|Hne].
  - rewrite lookup_delete_eq. destruct (decide (key ∈ key :: keys)) as [|Hn]; [by case_decide|]. destruct Hn. left.
  - rewrite lookup_delete_ne by done. destruct (decide (k ∈ keys)) as [Hi|Hi], (decide (k ∈ key :: keys)) as [Hj|Hj]; try done;
      rewrite elem_of_cons in Hj; naive_solver.
Qed.

(** A cleared storage has at most the reserved key. *)
Lemma clear_storage_ok st :
  memory_wf st -> exists st', clear_storage st = Ret st' /\ memory_wf st' /\ forall k, k <> offsetKey -> mem_storage st' !! k = None.
Proof.
  intros W. unfold clear_storage. rewrite storage_keys_ok by done. simpl. eexists. split; [done|].
  destruct (delete_all_ok (mi_pairs (mem_storage st) (mem_keys st)).*1 st W) as [W' Hl]. split; [done|].
  intros k Hk. rewrite Hl. case_decide as Hin; [done|]. destruct (mem_storage st !! k) as [v|] eqn:E; [|done].
  destruct Hin. apply list_elem_of_fmap. exists (k, v). split; [done|]. apply elem_of_mi_pairs.
  split_and!; [|done|done]. apply (mwf_keys st W). by rewrite E.
Qed.

(** ** Properties *)

(** A tracker sees what is emitted: a new tracker, read until it reports that there is nothing more,
    delivers exactly the messages that were emitted to its topic since it was created, in order, with
    their keys, values and headers, whatever was emitted to other topics in between. *)
Theorem tracker_delivers topic tst l :
  tester_wf tst -> has_room (S (length l)) tst ->
  let '(mt, tst) := newQueueTracker topic tst in
  read_all (S (length l)) mt (push_all l tst) = Ret (emitted topic l).
Proof.
  intros W Hr. unfold newQueueTracker. destruct (getOrCreateQueue_ok topic tst W) as (q & tst' & E & W' & Q & Em & _ & Ht & _).
  rewrite E. destruct (push_all_ok l tst' W') as [W2 H2].
  { intros t. rewrite Ht. specialize (Hr t). lia. }
  destruct (H2 topic) as (ms & Hms & Hp). rewrite (qw_hwm _ _ Q), Em. specialize (Hr topic). rewrite Ht in Hms.
  assert (length ms <= length l)%nat as Hl.
  { apply (f_equal length) in Hp. rewrite length_fmap in Hp. rewrite Hp. unfold emitted. rewrite length_fmap. apply length_filter. }
  rewrite read_all_ok; simpl; [|done|lia| |]; rewrite Nat2Z.id, Hms, drop_app_length; [by rewrite Hp|lia|lia].
Qed.

Definition emits_demo : list emit :=
  [mkEmit "in" "k" (Some "1"%string) None; mkEmit "out" "k" (Some "2"%string) None; mkEmit "in" "l" None None].

Lemma tracker_delivers_witness :
  let '(mt, tst) := newQueueTracker "in" tester_New in
  read_all 4 mt (push_all emits_demo tst) = Ret [(None, "k", Some "1"); (None, "l", None)]%string.
Proof. apply (tracker_delivers "in" tester_New emits_demo); [done|]. intros t. unfold topic_messages, tester_New. cbn [tt_topicQueues]. rewrite lookup_empty. simpl. lia. Defined.

(** A table consumer of the tester gets every message exactly once: in whatever portions messages
    are emitted between its catch-ups, what it is sent in all, without the nil messages in between, is
    the topic from the offset at which it started, in order. *)
Theorem consumer_gets_each_once range (rounds : list (list emit)) pcm tst :
  tester_wf tst -> has_room (length (concat rounds)) tst ->
  0 <= pcm_hwm pcm <= Z.of_nat (length (topic_messages (pcm_topic pcm) tst)) ->
  exists sent tst', consumer_rounds range rounds pcm tst = Ret (sent, tst') /\ tst' = push_all (concat rounds) tst /\
    (rounds <> [] -> omap id sent =
       consumer_message range (pcm_topic pcm) <$> drop (Z.to_nat (pcm_hwm pcm)) (topic_messages (pcm_topic pcm) tst')).
Proof.
  revert pcm tst. induction rounds as [|l rounds IH]; intros pcm tst W Hr Ho; simpl.
  { by exists [], tst. }
  simpl in Hr. rewrite length_app in Hr.
  destruct (push_all_ok l tst W) as [W1 H1]; [intros t; specialize (Hr t); lia|].
  destruct (H1 (pcm_topic pcm)) as (ms & Hms & _).
  assert (forall t, length (topic_messages t (push_all l tst)) <= length (topic_messages t tst) + length l)%nat as Hle.
  { intros t. destruct (H1 t) as (ms' & -> & Hp). rewrite length_app. apply (f_equal length) in Hp. rewrite length_fmap in Hp.
    rewrite Hp. unfold emitted. rewrite length_fmap. pose proof (length_filter (fun e => em_topic e = t) l). lia. }
  rewrite catchup_ok; [|done|rewrite Hms, length_app; lia]. simpl.
  set (ms1 := drop (Z.to_nat (pcm_hwm pcm)) (topic_messages (pcm_topic pcm) (push_all l tst))).
  destruct (IH (mkPartConsumer (pcm_topic pcm) (Z.of_nat (length (topic_messages (pcm_topic pcm) (push_all l tst))))) (push_all l tst))
    as (sent & tst' & E & Et & Hs); [done| |simpl; lia|].
  { intros t. specialize (Hr t). specialize (Hle t). lia. }
  rewrite E. simpl. eexists _, tst'. split; [done|]. split; [rewrite Et; unfold push_all; by rewrite fold_left_app|]. intros _.
  rewrite omap_app, omap_sent. destruct rounds as [|l2 rounds].
  - simpl in E. injection E as <- <-. simpl. by rewrite app_nil_r.
  - rewrite Hs by done. simpl. rewrite Nat2Z.id, <- fmap_app. f_equal.
    destruct (push_all_ok (concat (l2 :: rounds)) (push_all l tst) W1) as [_ H2].
    { intros t. specialize (Hr t). specialize (Hle t). lia. }
    destruct (H2 (pcm_topic pcm)) as (ms2 & Hms2 & _). rewrite Et, Hms2, drop_app_length, drop_app_le; [done|].
    rewrite Hms, length_app. lia.
Qed.

Lemma consumer_gets_each_once_witness :
  exists sent tst', consumer_rounds (fun h => map_to_list (entries h)) [emits_demo; []; emits_demo] (mkPartConsumer "in" 1)
      (push_all emits_demo tester_New) = Ret (sent, tst') /\
    length (omap id sent) = 5%nat.
Proof.
  destruct (push_all_ok emits_demo tester_New) as [W H]; [done| |].
  { intros t. unfold topic_messages, tester_New. cbn [tt_topicQueues]. rewrite lookup_empty. simpl. lia. }
  destruct (consumer_gets_each_once (fun h => map_to_list (entries h)) [emits_demo; []; emits_demo] (mkPartConsumer "in" 1)
    (push_all emits_demo tester_New)) as (sent & tst' & E & Et & Hs); [exact W| | |].
  - intros t. destruct (H t) as (ms & -> & Hp). unfold topic_messages, tester_New. cbn [tt_topicQueues]. rewrite lookup_empty. simpl.
    apply (f_equal length) in Hp. rewrite length_fmap in Hp. rewrite Hp. unfold emitted. rewrite length_fmap.
    pose proof (length_filter (fun e => em_topic e = t) emits_demo) as Hl. simpl in Hl. lia.
  - vm_compute. by split.
  - exists sent, tst'. split; [exact E|]. rewrite Hs by done. rewrite Et. vm_compute. reflexivity.
Defined.

(** The tables of the tester: a value that was set is read back, if the codec of the table can decode
    what it encodes and encodes to non-nil data; [GetTableKeys] then lists the key (unless it is the
    reserved one), and the other tables and keys are as before. *)
Theorem table_value_roundtrip table key v c data tst :
  (forall st, tt_storages tst !! table = Some st -> memory_wf st) ->
  tt_codecs tst !! table = Some (Some c) -> Encode c v = Ok (Some data) -> Decode c (Some data) = Ok v ->
  exists tst', SetTableValue table key v tst = Ret tst' /\ TableValue table key tst' = Ret v /\
    (key <> offsetKey -> exists keys, GetTableKeys table tst' = Ret keys /\ key ∈ keys) /\
    (forall t k, (t, k) <> (table, key) -> (t <> table \/ is_Some (tt_storages tst !! table)) ->
       TableValue t k tst' = TableValue t k tst).
Proof.
  intros W Hc He Hd. set (st := (getOrCreateStorage table tst).1).
  assert (memory_wf st /\ tt_codecs (getOrCreateStorage table tst).2 = tt_codecs tst /\
    (forall t, t <> table -> tt_storages (getOrCreateStorage table tst).2 !! t = tt_storages tst !! t) /\
    (is_Some (tt_storages tst !! table) -> tt_storages tst !! table = Some st)) as (Wst & Ec & Eo & Es).
  { unfold st, getOrCreateStorage. destruct (tt_storages tst !! table) as [st0|] eqn:E; simpl.
    - split_and!; [by apply W|done|done|done].
    - split_and!; [apply NewMemory_wf|done| |by intros []]. intros t Ht. by rewrite lookup_insert_ne. }
  destruct (memory_Set_wf key data st Wst) as (st' & Eset & Wst' & Em & _).
  exists (mkTester (tt_codecs tst) (tt_topicQueues (getOrCreateStorage table tst).2)
    (<[table := st']> (tt_storages (getOrCreateStorage table tst).2))).
  unfold SetTableValue. rewrite (surjective_pairing (getOrCreateStorage table tst)). fold st. unfold codecForTopic. rewrite Ec, Hc.
  cbn [mbind outcome_bind]. rewrite He, Eset. split; [done|]. split_and!.
  - unfold TableValue. simpl. rewrite lookup_insert_eq. unfold memory_Get. rewrite Em, lookup_insert_eq.
    unfold codecForTopic. simpl. rewrite Hc. simpl. by rewrite Hd.
  - intros Hk. unfold GetTableKeys. simpl. rewrite lookup_insert_eq, storage_keys_ok by done. eexists. split; [done|].
    apply list_elem_of_fmap. exists (key, data). split; [done|]. apply elem_of_mi_pairs.
    rewrite Em, lookup_insert_eq. split_and!; [|done|done]. apply (mwf_keys st' Wst'). by rewrite Em, lookup_insert_eq.
  - intros t k Hne Ht. unfold TableValue. simpl. rewrite lookup_insert. case_decide as E.
    + subst t. destruct Ht as [?|Ht]; [done|]. rewrite (Es Ht). unfold memory_Get. rewrite Em, lookup_insert_ne by congruence. done.
    + by rewrite Eo by congruence.
Qed.

(** [ClearValues] terminates and leaves no value in any table, except under the reserved offset
    key, which iterators skip. *)
Theorem ClearValues_clears order tst :
  order ≡ₚ map_to_list (tt_storages tst) -> map_Forall (fun _ => memory_wf) (tt_storages tst) ->
  exists tst', ClearValues order tst = Ret tst' /\ dom (tt_storages tst') = dom (tt_storages tst) /\
    forall table st k, tt_storages tst' !! table = Some st -> k <> offsetKey -> mem_storage st !! k = None.
Proof.
  intros Hp HW.
  assert (forall order tst0, (forall t st, (t, st) ∈ order -> memory_wf st) ->
    exists tst', ClearValues order tst0 = Ret tst' /\ dom (tt_storages tst') = list_to_set (order.*1) ∪ dom (tt_storages tst0) /\
      forall table st, tt_storages tst' !! table = Some st ->
        (forall k, k <> offsetKey -> mem_storage st !! k = None) \/ (table ∉ order.*1 /\ tt_storages tst0 !! table = Some st)) as Hgen.
  { clear. induction order as [|[t st] order IH]; intros tst0 HW; simpl.
    - exists tst0. split_and!; [done|set_solver|]. intros table st Hst. right. split; [apply not_elem_of_nil|done].
    - destruct (clear_storage_ok st) as (st' & -> & _ & Hst'); [apply (HW t); left|]. simpl.
      destruct (IH (mkTester (tt_codecs tst0) (tt_topicQueues tst0) (<[t := st']> (tt_storages tst0)))) as (tst' & E & Hd & Hl).
      { intros t' s' Hin. apply (HW t'). by right. }
      exists tst'. split_and!; [done|rewrite Hd; simpl; rewrite dom_insert_L; set_solver|].
      intros table s Hs. destruct (Hl table s Hs) as [?|[Hn Hs0]]; [by left|]. simpl in Hs0. rewrite lookup_insert in Hs0.
      case_decide; [left; by simplify_eq|]. right. split; [|done]. by intros [?|?]%elem_of_cons. }
  destruct (Hgen order tst) as (tst' & E & Hd & Hl).
  { intros t st Hin. rewrite Hp in Hin. apply elem_of_map_to_list in Hin. by apply (HW t). }
  exists tst'. split_and!; [done| |].
  - rewrite Hd, Hp. apply leibniz_equiv. intros t. rewrite elem_of_union, elem_of_list_to_set, elem_of_dom. split; [|by right].
    intros [([t' st] & -> & Hin)%list_elem_of_fmap|?]; [|done]. apply elem_of_map_to_list in Hin. simpl. by rewrite Hin.
  - intros table st k Hst Hk. destruct (Hl table st Hst) as [H|[Hn Hs]]; [by apply H|]. destruct Hn. rewrite Hp.
    apply list_elem_of_fmap. exists (table, st). split; [done|]. by apply elem_of_map_to_list.
Qed.

(** A tester with one table. *)
Definition tester_demo : Tester := mkTester {["table" := Some StringCodec]}%string ∅ ∅.

Lemma table_value_roundtrip_witness :
  exists tst', SetTableValue "table" "k" (VString "v") tester_demo = Ret tst' /\ TableValue "table" "k" tst' = Ret (VString "v").
Proof.
  destruct (table_value_roundtrip "table" "k" (VString "v") StringCodec "v" tester_demo) as (tst' & E & Hv & _); [done|done|done|done|].
  by exists tst'.
Defined.

Lemma ClearValues_clears_witness :
  let tst := mkTester ∅ ∅ {["table" := mem_of [("a", "1"); ("b", "2")]]}%string in
  exists tst', ClearValues (map_to_list (tt_storages tst)) tst = Ret tst' /\
    forall st, tt_storages tst' !! "table"%string = Some st -> mem_storage st !! "a"%string = None.
Proof.
  intros tst. destruct (ClearValues_clears (map_to_list (tt_storages tst)) tst) as (tst' & E & _ & H); [done| |].
  - apply map_Forall_singleton. apply mem_of_wf.
  - exists tst'. split; [exact E|]. intros st Hst. by apply (H "table"%string st).
Defined.
