(* ===== verification/TesterGroup.v ===== *)
(** * The consumer groups of the tester

    [tester/consumergroup.go]: a session hands the messages of its topics' queues to the claims and
    waits until the processor has marked them.  The steps of the tester's goroutine and of the
    processor that consumes and marks messages interleave. *)
From Stdlib Require Import ZArith Lia Ascii.
From stdpp Require Import base gmap strings list relations.
From S2P Require Import Prelude Multierr Signal Codec Headers Tester.
Open Scope Z_scope.

(** ** The session *)

(** [type cgSession struct]: [cs_queues] has the high watermark of each topic's [queueSession],
    [cs_waitingMessages] the keys of the messages that are not marked yet.  [cs_delivered] are the
    messages that the claims have taken, in order. *)
Record cgSession : Type := mkSession {
  cs_queues : gmap string Z;
  cs_waitingMessages : gset string;
  cs_wgMessages : Z;
  cs_ctxDone : bool;
  cs_delivered : list (string * message)
}.

Definition newCgSession (topics : list string) : cgSession :=
  mkSession (list_to_map ((fun t => (t, 0)) <$> topics)) ∅ 0 false [].

Definition makeMsgKey (topic : string) (offset : Z) : string := topic +:+ String "-"%char (FormatInt offset).

(** [Claims] gives each topic its only partition. *)
Definition cg_Claims (cgs : cgSession) : gmap string (list Z) := (fun _ => [0]) <$> cs_queues cgs.

Definition setHwmIfNewer (hwm old : Z) : Z := if old <? hwm then hwm else old.

Definition wg_Done (wg : Z) : outcome Z :=
  if wg - 1 <? 0 then Panic (ErrNew "sync: negative WaitGroup counter") else Ret (wg - 1).

Definition MarkOffset (topic : string) (partition offset : Z) (cgs : cgSession) : outcome cgSession :=
  let msgKey := makeMsgKey topic offset in
  cgs ← if decide (msgKey ∈ cs_waitingMessages cgs) then
          wg ← wg_Done (cs_wgMessages cgs);
          Ret (mkSession (cs_queues cgs) (cs_waitingMessages cgs ∖ {[msgKey]}) wg (cs_ctxDone cgs) (cs_delivered cgs))
        else Ret cgs;
  match cs_queues cgs !! topic with
  | None => Panic (ErrNew "nil pointer dereference")
  | Some hwm =>
      Ret (mkSession (<[topic := setHwmIfNewer (int64 (offset + 1)) hwm]> (cs_queues cgs)) (cs_waitingMessages cgs)
             (cs_wgMessages cgs) (cs_ctxDone cgs) (cs_delivered cgs))
  end.

Definition MarkMessage (topic : string) (m : message) (cgs : cgSession) : outcome cgSession :=
  MarkOffset topic 0 (m_offset m) cgs.

(** [pushMessageToClaim]: [taken] tells which case the [select] takes; without a consumer it waits for
    the context. *)
Definition pushMessageToClaim (topic : string) (msg : message) (taken : bool) (cgs : cgSession) : outcome cgSession :=
  let msgKey := makeMsgKey topic (m_offset msg) in
  if decide (msgKey ∈ cs_waitingMessages cgs) then Panic (ErrNew "There's a duplicate message offset in the same topic/partition")
  else
    let waiting := {[msgKey]} ∪ cs_waitingMessages cgs in
    let wg := cs_wgMessages cgs + 1 in
    if taken then Ret (mkSession (cs_queues cgs) waiting wg (cs_ctxDone cgs) (cs_delivered cgs ++ [(topic, msg)]))
    else if cs_ctxDone cgs then wg ← wg_Done wg; Ret (mkSession (cs_queues cgs) waiting wg (cs_ctxDone cgs) (cs_delivered cgs))
    else Blocked.

(** ** Catching up *)

(** How far [catchupAndWait] is: the topic whose messages are being pushed with those that are left,
    the topics that are left, and the number of messages pushed.  [began] is the number of messages
    each topic had at the call; the code does not use it. *)
Inductive catchup_state : Type :=
| NoCatchup
| Catchup (topic : string) (msgs : list message) (topics : list string) (msgPushed : Z) (began : gmap string nat).

(** The tester, the session, the catch-up in progress, and the results of those that returned. *)
Record group : Type := mkGroup {
  gr_tester : Tester;
  gr_session : cgSession;
  gr_catchup : catchup_state;
  gr_results : list Z
}.

Definition gr_set (s : cgSession) (c : catchup_state) (g : group) : group :=
  mkGroup (gr_tester g) s c (gr_results g).

(** Entering the loop over the queues, in the order of the map; the lock admits one caller. *)
Definition catchup_begin (order : list string) (g : group) : outcome group :=
  match gr_catchup g with
  | Catchup _ _ _ _ _ => Blocked
  | NoCatchup =>
      if decide (order ≡ₚ elements (dom (cs_queues (gr_session g)))) then
        Ret (gr_set (gr_session g)
               (Catchup "" [] order 0 (map_imap (fun t _ => Some (length (topic_messages t (gr_tester g)))) (cs_queues (gr_session g)))) g)
      else Blocked
  end.

(** The next iteration of the outer loop. *)
Definition catchup_topic (g : group) : outcome group :=
  match gr_catchup g with
  | Catchup _ [] (topic :: topics) n began =>
      match cs_queues (gr_session g) !! topic with
      | None => Blocked
      | Some queueHwm =>
          msgs ← messagesFromOffset queueHwm (getOrCreateQueue topic (gr_tester g)).1;
          Ret (gr_set (gr_session g) (Catchup topic msgs topics n began) g)
      end
  | _ => Blocked
  end.

(** The inner loop. *)
Definition catchup_push (taken : bool) (g : group) : outcome group :=
  match gr_catchup g with
  | Catchup topic (msg :: msgs) topics n began =>
      s ← pushMessageToClaim topic msg taken (gr_session g);
      Ret (gr_set s (Catchup topic msgs topics (n + 1) began) g)
  | _ => Blocked
  end.

(** The final [select]; [done] tells which case it takes. *)
Definition catchup_return (done : bool) (g : group) : outcome group :=
  match gr_catchup g with
  | Catchup _ [] [] n _ =>
      if (if done then cs_wgMessages (gr_session g) =? 0 else cs_ctxDone (gr_session g))
      then Ret (mkGroup (gr_tester g) (gr_session g) NoCatchup (gr_results g ++ [if done then n else 0]))
      else Blocked
  | _ => Blocked
  end.

(** What can happen: someone emits to a queue; a catch-up proceeds; the processor marks a message; the
    context of the session ends. *)
Inductive group_action : Type :=
| GEmit (e : emit)
| GBegin (order : list string)
| GTopic
| GPush (taken : bool)
| GMark (topic : string) (m : message)
| GReturn (done : bool)
| GCancel.

Definition group_exec (a : group_action) (g : group) : outcome group :=
  match a with
  | GEmit e => Ret (mkGroup (pushMessage (em_topic e) (em_key e) (em_data e) (em_headers e) (gr_tester g)).2
                      (gr_session g) (gr_catchup g) (gr_results g))
  | GBegin order => catchup_begin order g
  | GTopic => catchup_topic g
  | GPush taken => catchup_push taken g
  | GMark topic m => s ← MarkMessage topic m (gr_session g); Ret (gr_set s (gr_catchup g) g)
  | GReturn done => catchup_return done g
  | GCancel =>
      let s := gr_session g in
      Ret (gr_set (mkSession (cs_queues s) (cs_waitingMessages s) (cs_wgMessages s) true (cs_delivered s)) (gr_catchup g) g)
  end.

Fixpoint group_execs (l : list group_action) (g : group) : outcome group :=
  match l with
  | [] => Ret g
  | a :: l => g ← group_exec a g; group_execs l g
  end.

Definition new_group (topics : list string) (tst : Tester) : group := mkGroup tst (newCgSession topics) NoCatchup [].

(** What the environment of a running session may do: the processor marks only messages it was given,
    the queues do not overflow, and the context is not done. *)
Definition group_allowed (a : group_action) (g : group) : Prop :=
  match a with
  | GMark topic m => (topic, m) ∈ cs_delivered (gr_session g)
  | GEmit e => Z.of_nat (length (topic_messages (em_topic e) (gr_tester g))) < 2 ^ 63 - 1
  | GPush taken => taken = true
  | GCancel => False
  | _ => True
  end.

Inductive group_step (g g' : group) : Prop :=
| GroupStep a : group_allowed a g -> group_exec a g = Ret g' -> group_step g g'.

(** ** Consuming *)

Definition cgStateStopped : Z := 0.
Definition cgStateRebalancing : Z := 1.
Definition cgStateSetup : Z := 2.
Definition cgStateConsuming : Z := 3.
Definition cgStateCleaning : Z := 4.

(** [type consumerGroup struct]: its state, the generation, the counter of offsets, and the errors sent on
    the current channel.  The current session is the state of the sections above. *)
Record consumerGroup : Type := mkCG { cg_state : Signal; cg_generation : Z; cg_offset : Z; cg_errs : list error }.

Definition newConsumerGroup : outcome consumerGroup :=
  s ← Signal_SetState (fun _ => false) cgStateStopped
        (NewSignal [cgStateStopped; cgStateRebalancing; cgStateSetup; cgStateConsuming; cgStateCleaning]);
  Ret (mkCG s 0 0 []).

Definition cg_SetState (pick : nat -> bool) (st : Z) (cg : consumerGroup) : outcome consumerGroup :=
  s ← Signal_SetState pick st (cg_state cg); Ret (mkCG s (cg_generation cg) (cg_offset cg) (cg_errs cg)).

(** A send on the channel of errors; [taken] tells whether it has room or a receiver. *)
Definition cg_SendError (taken : bool) (err : error) (cg : consumerGroup) : outcome consumerGroup :=
  if taken then Ret (mkCG (cg_state cg) (cg_generation cg) (cg_offset cg) (cg_errs cg ++ [err])) else Blocked.

Definition cg_nextOffset (cg : consumerGroup) : Z * consumerGroup :=
  let o := int64 (cg_offset cg + 1) in (o, mkCG (cg_state cg) (cg_generation cg) o (cg_errs cg)).

(** [Close]: the channel is closed and replaced, the counters start again. *)
Definition cg_Close (cg : consumerGroup) : consumerGroup := mkCG (cg_state cg) 0 0 [].

(** One generation: the result of [Setup], the errors of [ConsumeClaim], the result of [Cleanup], and
    whether the context is done at the end. *)
Record generation : Type := mkGeneration {
  gn_setup : option error; gn_claims : list error; gn_cleanup : option error; gn_ctxDone : bool
}.

(** The loop of [Consume].  The goroutines of the claims return nil, and one of each claim waits for the
    context: [errg.Wait] returns when the context is done, without an error. *)
Fixpoint consume_loop (pick : nat -> bool) (gens : list generation) (cg : consumerGroup) : outcome (option error * consumerGroup) :=
  match gens with
  | [] => Blocked
  | gn :: gens =>
      cg ← cg_SetState pick cgStateRebalancing cg;
      cg ← cg_SetState pick cgStateSetup (mkCG (cg_state cg) (int32 (cg_generation cg + 1)) (cg_offset cg) (cg_errs cg));
      match gn_setup gn with
      | Some e => Ret (Some (ErrWrap "Error setting up" e), cg)
      | None =>
          cg ← cg_SetState pick cgStateConsuming
                 (mkCG (cg_state cg) (cg_generation cg) (cg_offset cg) (cg_errs cg ++ gn_claims gn));
          if negb (gn_ctxDone gn) then Blocked
          else
            cg ← cg_SetState pick cgStateCleaning cg;
            match Errors_NilOrError (Errors_Collect (Errors_Collect new_Errors None) (gn_cleanup gn)) with
            | Some e => Ret (Some (ErrWrap "Error running or cleaning" e), cg)
            | None => if gn_ctxDone gn then Ret (None, cg) else consume_loop pick gens cg
            end
      end
  end.

(** [Consume], with the deferred change of state. *)
Definition cg_Consume (pick : nat -> bool) (topics : list string) (gens : list generation) (cg : consumerGroup)
  : outcome (option error * consumerGroup) :=
  if negb (Signal_IsState cgStateStopped (cg_state cg))
  then Ret (Some (ErrNew "Tried to double-consume this consumer-group, which is not supported by the mock"), cg)
  else
    '(err, cg) ← match topics with
                 | [] => Ret (Some (ErrNew "no topics specified"), cg)
                 | _ => consume_loop pick gens cg
                 end;
    cg ← cg_SetState pick cgStateStopped cg;
    Ret (err, cg).

(** ** The invariant *)

Lemma makeMsgKey_inj t1 t2 o1 o2 :
  0 <= o1 < 2 ^ 63 -> 0 <= o2 < 2 ^ 63 -> makeMsgKey t1 o1 = makeMsgKey t2 o2 -> t1 = t2 /\ o1 = o2.
Proof.
  intros H1 H2 E. apply sep_split in E as [-> E]; [|apply no_char_FormatInt; [done|lia]..]. split; [done|].
  apply FormatInt_inj in E; [done|unfold in_int64; lia..].
Qed.

(** The messages delivered for a topic, and those of it that are about to be pushed. *)
Definition delivered (t : string) (s : cgSession) : list message :=
  snd <$> filter (fun x => x.1 = t) (cs_delivered s).
Definition pending (t : string) (c : catchup_state) : list message :=
  match c with Catchup topic msgs _ _ _ => if decide (t = topic) then msgs else [] | NoCatchup => [] end.

Lemma delivered_app t s l : delivered t (mkSession (cs_queues s) (cs_waitingMessages s) (cs_wgMessages s) (cs_ctxDone s) (cs_delivered s ++ l)) =
  delivered t s ++ (snd <$> filter (fun x => x.1 = t) l).
Proof. unfold delivered. simpl. by rewrite filter_app, fmap_app. Qed.

Lemma elem_of_delivered t m s : m ∈ delivered t s <-> (t, m) ∈ cs_delivered s.
Proof.
  unfold delivered. rewrite list_elem_of_fmap. split.
  - intros ([t' m'] & -> & [<- Hin]%list_elem_of_filter). done.
  - intros Hin. exists (t, m). split; [done|]. by apply list_elem_of_filter.
Qed.

(** The topics whose turn in the catch-up has not come. *)
Definition unvisited (t : string) (c : catchup_state) : Prop :=
  match c with NoCatchup => True | Catchup _ _ topics _ _ => t ∈ topics end.

Record group_inv (g : group) : Prop := {
  gi_tester : tester_wf (gr_tester g);
  gi_ctx : cs_ctxDone (gr_session g) = false;
  gi_topics : forall t m, (t, m) ∈ cs_delivered (gr_session g) -> is_Some (cs_queues (gr_session g) !! t);
  gi_prefix : forall t, delivered t (gr_session g) ++ pending t (gr_catchup g) `prefix_of` topic_messages t (gr_tester g);
  gi_waiting : forall key, key ∈ cs_waitingMessages (gr_session g) ->
    exists t m, (t, m) ∈ cs_delivered (gr_session g) /\ key = makeMsgKey t (m_offset m);
  gi_wg : cs_wgMessages (gr_session g) = Z.of_nat (size (cs_waitingMessages (gr_session g)));
  gi_hwm : forall t hwm, cs_queues (gr_session g) !! t = Some hwm -> 0 <= hwm <= Z.of_nat (length (delivered t (gr_session g)));
  gi_marked : forall t hwm m, cs_queues (gr_session g) !! t = Some hwm -> (t, m) ∈ cs_delivered (gr_session g) ->
    makeMsgKey t (m_offset m) ∉ cs_waitingMessages (gr_session g) -> m_offset m + 1 <= hwm;
  gi_unvisited : forall t m, unvisited t (gr_catchup g) -> (t, m) ∈ cs_delivered (gr_session g) ->
    makeMsgKey t (m_offset m) ∉ cs_waitingMessages (gr_session g);
  gi_catchup : match gr_catchup g with
    | NoCatchup => True
    | Catchup topic msgs topics _ began =>
        NoDup topics /\ (topic ∉ topics \/ msgs = []) /\ (msgs <> [] -> is_Some (cs_queues (gr_session g) !! topic)) /\
        (forall t n, began !! t = Some n -> (n <= length (topic_messages t (gr_tester g)))%nat) /\
        forall t n, t ∉ topics -> began !! t = Some n ->
          (n <= length (delivered t (gr_session g)) + length (pending t (gr_catchup g)))%nat
    end
}.

(** In a topic that was not visited, everything delivered is marked: its high watermark is where the
    next catch-up goes on. *)
Lemma unvisited_hwm g t hwm :
  group_inv g -> unvisited t (gr_catchup g) -> cs_queues (gr_session g) !! t = Some hwm ->
  hwm = Z.of_nat (length (delivered t (gr_session g))).
Proof.
  intros W Hu Hq. pose proof (gi_hwm g W t hwm Hq) as Hb.
  destruct (decide (hwm = Z.of_nat (length (delivered t (gr_session g))))) as [|Hne]; [done|exfalso].
  destruct (delivered t (gr_session g) !! (length (delivered t (gr_session g)) - 1)%nat) as [m|] eqn:Em.
  2:{ apply lookup_ge_None in Em. lia. }
  assert ((t, m) ∈ cs_delivered (gr_session g)) as Hm by (apply elem_of_delivered; by eapply list_elem_of_lookup_2).
  pose proof (gi_marked g W t hwm m Hq Hm (gi_unvisited g W t m Hu Hm)) as Hle.
  assert (m_offset m = Z.of_nat (length (delivered t (gr_session g)) - 1)) as Eo; [|lia].
  pose proof (gi_prefix g W t) as [rest Hp]. unfold topic_messages in Hp.
  destruct (tt_topicQueues (gr_tester g) !! t) as [q|] eqn:Eq.
  - apply (qw_offset t q (gi_tester g W t q Eq)). rewrite Hp. by do 2 apply lookup_app_l_Some.
  - destruct (delivered t (gr_session g)); [done|]. done.
Qed.

(** The offset of a delivered or pending message is its position. *)
Lemma prefix_offset g t i m :
  group_inv g -> (delivered t (gr_session g) ++ pending t (gr_catchup g)) !! i = Some m ->
  m_offset m = Z.of_nat i /\ Z.of_nat i < 2 ^ 63.
Proof.
  intros W Hi. pose proof (gi_prefix g W t) as [rest Hp]. unfold topic_messages in Hp.
  destruct (tt_topicQueues (gr_tester g) !! t) as [q|] eqn:Eq.
  - pose proof (gi_tester g W t q Eq) as Q. assert (q_messages q !! i = Some m) as Hq by (rewrite Hp; by apply lookup_app_l_Some).
    split; [by apply (qw_offset t q Q)|]. apply lookup_lt_Some in Hq. pose proof (qw_bound t q Q). lia.
  - symmetry in Hp. apply app_nil in Hp as [Hp _]. by rewrite Hp in Hi.
Qed.

Lemma delivered_offset g t m :
  group_inv g -> (t, m) ∈ cs_delivered (gr_session g) -> 0 <= m_offset m < 2 ^ 63 /\ m_offset m < Z.of_nat (length (delivered t (gr_session g))).
Proof.
  intros W [i Hi]%elem_of_delivered%list_elem_of_lookup. pose proof (lookup_lt_Some _ _ _ Hi).
  destruct (prefix_offset g t i m W) as [E Hb]; [by apply lookup_app_l_Some|]. lia.
Qed.

(** The next message to push is not waiting. *)
Lemma next_not_waiting g topic msg msgs topics n began :
  group_inv g -> gr_catchup g = Catchup topic (msg :: msgs) topics n began ->
  makeMsgKey topic (m_offset msg) ∉ cs_waitingMessages (gr_session g) /\
  m_offset msg = Z.of_nat (length (delivered topic (gr_session g))).
Proof.
  intros W Hc. destruct (prefix_offset g topic (length (delivered topic (gr_session g))) msg W) as [Eo Hb].
  { rewrite lookup_app_r, Nat.sub_diag by lia. rewrite Hc. simpl. by rewrite decide_True. }
  split; [|done]. intros (t & m & Hm & Hk)%(gi_waiting g W). destruct (delivered_offset g t m W Hm) as [H1 H2].
  apply makeMsgKey_inj in Hk as [<- Ek]; [lia|lia|lia].
Qed.

(** ** The steps keep the invariant and do not panic *)

Definition safe_step (a : group_action) (g : group) : Prop :=
  match group_exec a g with Ret g' => group_inv g' | Panic _ => False | Blocked => True end.

Lemma emit_safe e g : group_inv g -> group_allowed (GEmit e) g -> safe_step (GEmit e) g.
Proof.
  intros [I1 I1' I2 I3 I4 I5 I6 I7 I8 I9] Ha. unfold safe_step. simpl in *.
  destruct (pushMessage_ok (em_topic e) (em_key e) (em_data e) (em_headers e) (gr_tester g) I1 Ha) as (tst' & -> & W' & Ht). simpl.
  constructor; simpl; try done.
  - intros t. rewrite Ht. by apply prefix_app_r.
  - destruct (gr_catchup g); [done|]. destruct I9 as (H1 & H2 & H3 & H4 & H5). split_and!; try done.
    intros t n Hn. rewrite Ht, length_app. specialize (H4 t n Hn). lia.
Qed.

Lemma begin_safe order g : group_inv g -> safe_step (GBegin order) g.
Proof.
  intros [I1 I1' I2 I3 I4 I5 I6 I7 I8 I9]. unfold safe_step. simpl. unfold catchup_begin.
  destruct (gr_catchup g) eqn:Ec; [|done]. case_decide as Ho; [|done]. constructor; simpl; try done.
  - intros t. specialize (I3 t). simpl in I3. by case_decide.
  - intros t m _. by apply I8.
  - split_and!; [rewrite Ho; apply NoDup_elements|by right|done| |].
    + intros t n. rewrite map_lookup_imap. destruct (cs_queues (gr_session g) !! t); simpl; [|done]. intros [= <-]. done.
    + intros t n Hn. rewrite map_lookup_imap. destruct (cs_queues (gr_session g) !! t) eqn:Eq; simpl; [|done].
      destruct Hn. rewrite Ho. by apply elem_of_elements, elem_of_dom.
Qed.

Lemma topic_safe g : group_inv g -> safe_step GTopic g.
Proof.
  intros W. unfold safe_step. simpl. unfold catchup_topic.
  destruct (gr_catchup g) as [|top [|? ?] [|topic topics] n began] eqn:Ec; try done.
  destruct (cs_queues (gr_session g) !! topic) as [hwm|] eqn:Eq; [|done].
  assert (unvisited topic (gr_catchup g)) as Hu by (rewrite Ec; simpl; left).
  rewrite (unvisited_hwm g topic hwm W Hu Eq). clear Hu.
  destruct W as [I1 I1' I2 I3 I4 I5 I6 I7 I8 I9]. rewrite Ec in *. destruct I9 as (H1 & H2 & _ & H4 & H5).
  destruct (getOrCreateQueue_ok topic (gr_tester g) I1) as (q & tst' & -> & _ & Q & Em & _). simpl. unfold messagesFromOffset.
  assert (forall t, delivered t (gr_session g) `prefix_of` topic_messages t (gr_tester g)) as Hp.
  { intros t. etransitivity; [|apply I3]. by apply prefix_app_r. }
  pose proof (prefix_length _ _ (Hp topic)) as Hlen. rewrite Em.
  rewrite (proj2 (Z.ltb_ge _ _)), (proj2 (Z.ltb_ge _ _)) by lia. simpl. rewrite Nat2Z.id.
  apply NoDup_cons in H1 as [Hn Hnd]. constructor; simpl; try done.
  - intros t. case_decide; [subst t|by rewrite app_nil_r]. destruct (Hp topic) as [r ->]. by rewrite drop_app_length.
  - intros t m Ht. apply I8. simpl. by right.
  - split_and!; [done|by left|by rewrite Eq|done|]. intros t k Ht Hk. destruct (decide (t = topic)) as [->|Hne].
    + specialize (H4 topic k Hk). rewrite length_drop. lia.
    + specialize (H5 t k). rewrite elem_of_cons in H5. simpl in *. destruct (decide (t = top)); simpl in H5; apply H5; naive_solver.
Qed.

Lemma push_safe g : group_inv g -> safe_step (GPush true) g.
Proof.
  intros W. unfold safe_step. simpl. unfold catchup_push.
  destruct (gr_catchup g) as [|topic [|msg msgs] topics n began] eqn:Ec; try done.
  destruct (next_not_waiting g topic msg msgs topics n began W Ec) as [Hnw Eo]. unfold pushMessageToClaim.
  rewrite decide_False by done. simpl.
  pose proof (delivered_offset g) as Hoff. pose proof (prefix_offset g topic (length (delivered topic (gr_session g))) msg W) as Hmsg.
  rewrite Ec in Hmsg. simpl in Hmsg. rewrite decide_True in Hmsg by done. rewrite lookup_app_r, Nat.sub_diag in Hmsg by lia. specialize (Hmsg eq_refl).
  pose proof W as [I1 I1' I2 I3 I4 I5 I6 I7 I8 I9]. rewrite Ec in I3, I8, I9. destruct I9 as (H1 & H2 & H3 & H4 & H5).
  assert (topic ∉ topics) as Ht by (by destruct H2). specialize (H3 ltac:(done)).
  set (s := gr_session g) in *. set (key := makeMsgKey topic (m_offset msg)) in *.
  assert (forall t, delivered t (mkSession (cs_queues s) ({[key]} ∪ cs_waitingMessages s) (cs_wgMessages s + 1) (cs_ctxDone s)
    (cs_delivered s ++ [(topic, msg)])) = delivered t s ++ if decide (t = topic) then [msg] else []) as Hd.
  { intros t. unfold delivered. simpl. rewrite filter_app, fmap_app. f_equal. rewrite filter_cons. simpl.
    destruct (decide (t = topic)) as [->|Hne]; [by rewrite decide_True|by rewrite decide_False]. }
  assert (forall t m, (t, m) ∈ cs_delivered s ++ [(topic, msg)] <-> (t, m) ∈ cs_delivered s \/ (t = topic /\ m = msg)) as Hin.
  { intros t m. rewrite elem_of_app, list_elem_of_singleton. naive_solver. }
  constructor; simpl; try done.
  - intros t m [Hm|[-> ->]]%Hin; [by eapply I2|done].
  - intros t. rewrite Hd, <- (assoc_L (++)). specialize (I3 t). simpl in I3. by case_decide.
  - intros k [->%elem_of_singleton|Hk]%elem_of_union.
    + exists topic, msg. split; [apply Hin; by right|done].
    + destruct (I4 k Hk) as (t & m & Hm & ->). exists t, m. split; [apply Hin; by left|done].
  - rewrite I5, size_union, size_singleton; [lia|]. set_solver.
  - intros t hwm Hq. rewrite Hd, length_app. specialize (I6 t hwm Hq). lia.
  - intros t hwm m Hq [Hm|[-> ->]]%Hin Hk; [apply (I7 t hwm m Hq Hm); set_solver|set_solver].
  - intros t m Hu [Hm|[-> ->]]%Hin; [|done]. specialize (I8 t m Hu Hm). intros [Hk%elem_of_singleton|?]%elem_of_union; [|done].
    unfold key in Hk. destruct (Hoff t m W Hm) as [Ho _]. apply makeMsgKey_inj in Hk as [-> _]; [done|lia|lia].
  - split_and!; [done|by left|done|done|]. intros t k Hn Hk. specialize (H5 t k Hn Hk). simpl in H5. rewrite Hd, length_app.
    case_decide; simpl in *; lia.
Qed.

Lemma mark_safe topic m g : group_inv g -> group_allowed (GMark topic m) g -> safe_step (GMark topic m) g.
Proof.
  intros W Hm. simpl in Hm. unfold safe_step. simpl. unfold MarkMessage, MarkOffset.
  destruct (delivered_offset g topic m W Hm) as [Ho Ho2]. pose proof (delivered_offset g) as Hoff.
  pose proof (prefix_length _ _ (gi_prefix g W topic)) as Hlen. rewrite length_app in Hlen.
  assert (Z.of_nat (length (topic_messages topic (gr_tester g))) < 2 ^ 63) as Hb.
  { unfold topic_messages. destruct (tt_topicQueues (gr_tester g) !! topic) eqn:E; [|simpl; lia]. by apply (qw_bound topic), (gi_tester g W). }
  pose proof W as [I1 I1' I2 I3 I4 I5 I6 I7 I8 I9]. set (s := gr_session g) in *. set (key := makeMsgKey topic (m_offset m)) in *.
  destruct (I2 topic m Hm) as [hwm Hq]. pose proof (I6 topic hwm Hq) as Hhwm.
  assert (exists waiting wg, (if decide (key ∈ cs_waitingMessages s) then
      wg ← wg_Done (cs_wgMessages s);
      Ret (mkSession (cs_queues s) (cs_waitingMessages s ∖ {[key]}) wg (cs_ctxDone s) (cs_delivered s))
    else Ret s) = Ret (mkSession (cs_queues s) waiting wg (cs_ctxDone s) (cs_delivered s)) /\
    wg = Z.of_nat (size waiting) /\ waiting = cs_waitingMessages s ∖ {[key]}) as (waiting & wg & -> & Ewg & Ew).
  { case_decide as Hk.
    - assert (size (cs_waitingMessages s) <> 0)%nat as Hz.
      { rewrite size_non_empty_iff. set_solver. }
      unfold wg_Done. rewrite (proj2 (Z.ltb_ge _ _)) by lia. simpl. eexists _, _. split; [done|]. split; [|done].
      rewrite size_difference, size_singleton by set_solver. lia.
    - exists (cs_waitingMessages s), (cs_wgMessages s). split_and!; [by destruct s|done|set_solver]. }
  simpl. rewrite Hq. rewrite int64_id by (unfold in_int64; lia). constructor; simpl; try done.
  - intros t m' Hm'. rewrite lookup_insert_is_Some'. right. by eapply I2.
  - intros k Hk. apply I4. set_solver.
  - intros t h. change (delivered t _) with (delivered t s). rewrite lookup_insert. case_decide; [|apply I6]. subst t. intros [= <-].
    unfold setHwmIfNewer. destruct (_ <? _); lia.
  - intros t h m' Hh Hm' Hk. destruct (decide (makeMsgKey t (m_offset m') = key)) as [Ek|Ek].
    + unfold key in Ek. destruct (Hoff t m' W Hm') as [Ho' _]. apply makeMsgKey_inj in Ek as [-> Eo]; [|lia|lia].
      rewrite lookup_insert_eq in Hh. injection Hh as <-. unfold setHwmIfNewer. destruct (hwm <? _) eqn:E; simp_bool; lia.
    + rewrite lookup_insert in Hh. case_decide; [subst t; injection Hh as <-|apply (I7 t h m' Hh Hm'); set_solver].
      specialize (I7 topic hwm m' Hq Hm' ltac:(set_solver)). unfold setHwmIfNewer. destruct (hwm <? _) eqn:E; simp_bool; lia.
  - intros t m' Hu Hm'. specialize (I8 t m' Hu Hm'). set_solver.
  - destruct (gr_catchup g); [done|]. destruct I9 as (H1 & H2 & H3 & H4 & H5). split_and!; try done.
    intros Hne. rewrite lookup_insert_is_Some'. right. by apply H3.
Qed.

Lemma return_safe d g : group_inv g -> safe_step (GReturn d) g.
Proof.
  intros [I1 I1' I2 I3 I4 I5 I6 I7 I8 I9]. unfold safe_step. simpl. unfold catchup_return.
  destruct (gr_catchup g) as [|topic [|? ?] [|? ?] n began] eqn:Ec; try done. rewrite I1'.
  destruct d; [|done]. destruct (Z.eqb_spec (cs_wgMessages (gr_session g)) 0) as [Hz|]; [|done].
  constructor; simpl; try done.
  - intros t. specialize (I3 t). simpl in I3. by case_decide.
  - intros t m _ Hm Hk. assert (size (cs_waitingMessages (gr_session g)) = 0%nat) as Hs by lia.
    apply size_empty_inv in Hs. set_solver.
Qed.

Lemma group_step_safe a g : group_inv g -> group_allowed a g -> safe_step a g.
Proof.
  intros W Ha. destruct a as [e|order| |taken|topic m|d|].
  - by apply emit_safe.
  - by apply begin_safe.
  - by apply topic_safe.
  - simpl in Ha. subst. by apply push_safe.
  - by apply mark_safe.
  - by apply return_safe.
  - done.
Qed.

Lemma new_group_inv topics tst : tester_wf tst -> group_inv (new_group topics tst).
Proof.
  intros W. constructor; simpl; try done.
  - intros t m []%not_elem_of_nil.
  - intros t. apply prefix_nil.
  - intros t hwm Hq. apply elem_of_list_to_map_2, list_elem_of_fmap in Hq as (t' & [= -> ->] & _). done.
  - intros t hwm m _ []%not_elem_of_nil.
Qed.

Lemma group_reachable_inv topics tst g : tester_wf tst -> rtc group_step (new_group topics tst) g -> group_inv g.
Proof.
  intros W Hr. pose proof (new_group_inv topics tst W) as H0. revert H0.
  induction Hr as [g|g1 g2 g3 [a Ha E] _ IH]; [done|]. intros H1. apply IH.
  pose proof (group_step_safe a g1 H1 Ha) as Hs. unfold safe_step in Hs. by rewrite E in Hs.
Qed.

(** ** Properties *)

(** C27. The consumer group of the tester delivers each message once: in every state of a session whose
    context is not done and whose processor marks only messages it was given, however emits, the
    catch-up and the marks interleave, nothing panics (no message is pushed twice, the wait group does
    not become negative, and no slice is out of range), the messages handed out for a topic are the
    first messages of its queue, in order; and when a catch-up returns, every message is marked and
    every message that was in a topic when the catch-up began has been handed out. *)
Theorem catchup_delivers_once topics tst g :
  tester_wf tst -> rtc group_step (new_group topics tst) g ->
  (forall a e, group_allowed a g -> group_exec a g <> Panic e) /\
  (forall t, delivered t (gr_session g) `prefix_of` topic_messages t (gr_tester g)) /\
  (forall topic msgs ts n began g', gr_catchup g = Catchup topic msgs ts n began -> group_exec (GReturn true) g = Ret g' ->
     cs_waitingMessages (gr_session g') = ∅ /\
     forall t k, began !! t = Some k -> (k <= length (delivered t (gr_session g')))%nat).
Proof.
  intros W Hr. pose proof (group_reachable_inv topics tst g W Hr) as Hi. split_and!.
  - intros a e Ha E. pose proof (group_step_safe a g Hi Ha) as Hs. unfold safe_step in Hs. by rewrite E in Hs.
  - intros t. etransitivity; [|apply (gi_prefix g Hi)]. by apply prefix_app_r.
  - intros topic msgs ts n began g' Hc E. pose proof (gi_catchup g Hi) as Hcat. pose proof (gi_wg g Hi) as Hwg. rewrite Hc in Hcat.
    simpl in E. unfold catchup_return in E. rewrite Hc in E. destruct msgs; [|done]. destruct ts; [|done].
    destruct (Z.eqb_spec (cs_wgMessages (gr_session g)) 0) as [Hz|]; [|done]. injection E as <-. simpl. split.
    + apply leibniz_equiv, size_empty_inv. lia.
    + intros t k Hk. destruct Hcat as (_ & _ & _ & _ & H). specialize (H t k ltac:(apply not_elem_of_nil) Hk).
      simpl in H. case_decide; simpl in H; lia.
Qed.

(** A session on one topic with one message, which is handed out but not marked yet. *)
Definition group_demo0 : group := new_group ["in"]%string (push_all [mkEmit "in" "k" (Some "1"%string) None] tester_New).
Definition group_demo_actions : list group_action := [GBegin ["in"]%string; GTopic; GPush true].
Definition group_demo : group := ret_or group_demo0 (group_execs group_demo_actions group_demo0).

Lemma group_demo_tester : tester_wf (push_all [mkEmit "in" "k" (Some "1"%string) None] tester_New).
Proof.
  apply push_all_ok; [done|]. intros t. unfold topic_messages, tester_New. cbn [tt_topicQueues]. rewrite lookup_empty. simpl. lia.
Qed.

Lemma group_execs_rtc l g d :
  Forall (fun a => match a with GBegin _ | GTopic | GPush true | GReturn _ => True | _ => False end) l ->
  is_ret (group_execs l g) = true -> rtc group_step g (ret_or d (group_execs l g)).
Proof.
  intros HF. revert g. induction HF as [|a l Ha HF IH]; intros g; simpl; [constructor|].
  destruct (group_exec a g) as [g1| |] eqn:E; [|done|done]. simpl. intros Hr. econstructor; [|by apply IH].
  apply (GroupStep g g1 a); [|done]. by destruct a as [| | |[]| | |].
Qed.

Lemma catchup_delivers_once_witness :
  length (delivered "in" (gr_session group_demo)) = 1%nat /\
  (forall a e, group_allowed a group_demo -> group_exec a group_demo <> Panic e) /\
  delivered "in" (gr_session group_demo) `prefix_of` topic_messages "in" (gr_tester group_demo).
Proof.
  split; [vm_compute; reflexivity|].
  destruct (catchup_delivers_once ["in"]%string (push_all [mkEmit "in" "k" (Some "1"%string) None] tester_New) group_demo)
    as (H1 & H2 & _).
  - apply group_demo_tester.
  - apply group_execs_rtc; [repeat constructor|vm_compute; reflexivity].
  - split; [exact H1|exact (H2 "in"%string)].
Defined.

(** When the context of a session ends while a message is pushed, the message stays registered as
    waiting although it was not handed out; the next catch-up of the same session pushes it again and
    panics. *)
Theorem cancelled_catchup_panics :
  exists e, group_execs [GBegin ["in"]%string; GTopic; GCancel; GPush false; GReturn false; GBegin ["in"]%string; GTopic; GPush false]
    group_demo0 = Panic e.
Proof. eexists. vm_compute. reflexivity. Qed.

Lemma cg_SetState_spec pick st cg cg' :
  cg_SetState pick st cg = Ret cg' ->
  Signal_IsState st (cg_state cg') = true /\ cg_generation cg' = cg_generation cg /\ cg_errs cg' = cg_errs cg.
Proof.
  unfold cg_SetState, Signal_SetState, Signal_IsState. destruct (negb _); [done|]. simpl.
  destruct (sig_state (cg_state cg) =? st) eqn:E; simpl; [by intros [= <-]|].
  destruct (release_waiters _ _ _) as [[ws closed]| |]; [|done|done]. simpl.
  destruct (notify_observers _ _ _ _) as [h| |]; [|done|done]. intros [= <-]. simpl. by rewrite Z.eqb_refl.
Qed.

(** A group that consumes ends with its context: [Consume] of a stopped group returns an error only if the
    handler's set-up or clean-up fails; errors of the claims are sent instead of returned, and the group
    is stopped again, one generation later. *)
Theorem cg_Consume_returns pick topics gens (cg cg' : consumerGroup) err :
  Signal_IsState cgStateStopped (cg_state cg) = true -> topics <> [] ->
  cg_Consume pick topics gens cg = Ret (err, cg') ->
  exists gn, head gens = Some gn /\ Signal_IsState cgStateStopped (cg_state cg') = true /\
    cg_generation cg' = int32 (cg_generation cg + 1) /\
    (err = None -> gn_ctxDone gn = true /\ cg_errs cg' = cg_errs cg ++ gn_claims gn) /\
    (err = None <-> gn_setup gn = None /\ gn_cleanup gn = None).
Proof.
  intros Hst Ht. unfold cg_Consume. rewrite Hst. simpl. destruct topics as [|t topics]; [done|]. clear Ht.
  destruct gens as [|gn gens]; [done|]. cbn [consume_loop]. intros H. exists gn. split; [done|].
  destruct (cg_SetState pick cgStateRebalancing cg) as [cg1| |] eqn:E1; [|done|done]. apply cg_SetState_spec in E1 as (_ & G1 & R1).
  cbn [mbind outcome_bind] in H. destruct (cg_SetState pick cgStateSetup _) as [cg2| |] eqn:E2; [|done|done].
  apply cg_SetState_spec in E2 as (_ & G2 & R2). cbn [mbind outcome_bind cg_generation cg_errs] in *. rewrite G1 in G2. rewrite R1 in R2.
  destruct (gn_setup gn) as [e|].
  { cbn [mbind outcome_bind] in H. destruct (cg_SetState pick cgStateStopped cg2) as [cg3| |] eqn:E3; [|done|done].
    apply cg_SetState_spec in E3 as (S3 & G3 & _). injection H as <- <-. split_and!; [done|by rewrite G3|done|]. split; [done|by intros []]. }
  destruct (cg_SetState pick cgStateConsuming _) as [cg3| |] eqn:E3; [|done|done]. apply cg_SetState_spec in E3 as (_ & G3 & R3).
  cbn [mbind outcome_bind cg_generation cg_errs] in *. rewrite G2 in G3. rewrite R2 in R3.
  destruct (gn_ctxDone gn); [|done]. cbn [negb] in H.
  destruct (cg_SetState pick cgStateCleaning cg3) as [cg4| |] eqn:E4; [|done|done]. apply cg_SetState_spec in E4 as (_ & G4 & R4).
  cbn [mbind outcome_bind] in H.
  destruct (gn_cleanup gn) as [e|]; simpl in H;
    (destruct (cg_SetState pick cgStateStopped cg4) as [cg5| |] eqn:E5; [|done|done]); apply cg_SetState_spec in E5 as (S5 & G5 & R5);
    injection H as <- <-; (split_and!; [done|by rewrite G5, G4|by rewrite R5, R4|]); [split; [done|by intros []]|done].
Qed.
