(* ===== verification/TesterClients.v ===== *)
(** * The clients of the tester

    [tester/tester.go], [tester/client.go], [tester/consumer.go] and [tester/producer.go]: processors and
    views register with the tester and become its clients; [Consume], [Catchup] and the producers of
    emitters hand out messages round by round until no client has anything left to catch up.

    What a processor does with a message is an argument, [react]: the messages it emits before it marks
    the message (a message has its offset, so that a processor whose reactions depend on its state is
    covered).  The goroutines interleave as another argument, [sched], decides. *)
From Stdlib Require Import ZArith Lia Ascii.
From stdpp Require Import base gmap strings list.
From S2P Require Import Prelude Codec Storage Memory Headers Stats Proxy Promise Graph TopicManager Tester TesterGroup.
Open Scope Z_scope.

(** ** Clients *)

(** [type client struct]: a consumer group, if one is expected, with its current session, if there is one;
    and the consumers of tables. *)
Record client : Type := mkClient {
  c_clientID : string;
  c_consumerGroup : option (option cgSession);
  c_consumer : consumerMock
}.

(** [type Tester struct] with its clients. *)
Record Hub : Type := mkHub { h_tester : Tester; h_clients : gmap string client }.

Definition client_name (n : nat) : string := "client-" +:+ FormatInt (Z.of_nat n).

Definition nextClient (h : Hub) : client * Hub :=
  let c := mkClient (client_name (size (h_clients h))) None newConsumerMock in
  (c, mkHub (h_tester h) (<[c_clientID c := c]> (h_clients h))).

Definition requireConsumer (topic : string) (c : client) : client :=
  mkClient (c_clientID c) (c_consumerGroup c) (requirePartConsumer topic (c_consumer c)).

(** [ConsumerGroupBuilder] and [ConsumerBuilder]. *)
Definition ConsumerGroupBuilder (clientID : string) (h : Hub) : res (option cgSession) :=
  match h_clients h !! clientID with
  | None => Err (ErrNew ("cannot create consumergroup because no client registered with ID: " +:+ clientID))
  | Some c =>
      match c_consumerGroup c with
      | None => Err (ErrNew "Did not expect a group graph")
      | Some cg => Ok cg
      end
  end.
Definition ConsumerBuilder (clientID : string) (h : Hub) : res consumerMock :=
  match h_clients h !! clientID with
  | None => Err (ErrNew ("cannot create sarama consumer because no client registered with ID: " +:+ clientID))
  | Some c => Ok (c_consumer c)
  end.

(** [waitStartup] of a client returns once its group is consuming and the required consumers exist. *)
Definition client_started (c : client) (groupConsuming : bool) : bool :=
  match c_consumerGroup c with None => true | Some _ => groupConsuming end && requiredConsumersStarted (c_consumer c).

(** A message that a processor was handed and has not marked yet, with what it still emits before. *)
Record task : Type := mkTask { tk_topic : string; tk_msg : message; tk_emits : list emit }.

(** A session that is catching up, with the tester and the messages that are not marked. *)
Record catching : Type := mkCatching { ct_tester : Tester; ct_session : cgSession; ct_tasks : list task }.

(** What happens while the goroutine of the tester pauses: the processor proceeds with one of the messages
    it was handed, or the context of the session ends. *)
Inductive move : Type := MTask (i : nat) | MCancel.

(** The processor emits the next message, or marks the one it was handed if there is nothing to emit. *)
Definition task_move (i : nat) (x : catching) : outcome catching :=
  match ct_tasks x !! i with
  | None => Ret x
  | Some tk =>
      match tk_emits tk with
      | e :: es => Ret (mkCatching (push_all [e] (ct_tester x)) (ct_session x) (<[i := mkTask (tk_topic tk) (tk_msg tk) es]> (ct_tasks x)))
      | [] => s ← MarkMessage (tk_topic tk) (tk_msg tk) (ct_session x); Ret (mkCatching (ct_tester x) s (delete i (ct_tasks x)))
      end
  end.

Definition exec_move (mv : move) (x : catching) : outcome catching :=
  match mv with
  | MTask i => task_move i x
  | MCancel =>
      let s := ct_session x in
      Ret (mkCatching (ct_tester x) (mkSession (cs_queues s) (cs_waitingMessages s) (cs_wgMessages s) true (cs_delivered s)) (ct_tasks x))
  end.

Fixpoint exec_moves (l : list move) (x : catching) : outcome catching :=
  match l with
  | [] => Ret x
  | mv :: l => x ← exec_move mv x; exec_moves l x
  end.

(** What the processor still has to do, one message after the other. *)
Fixpoint finish_tasks (l : list task) (x : catching) : outcome catching :=
  match l with
  | [] => Ret x
  | tk :: l =>
      s ← MarkMessage (tk_topic tk) (tk_msg tk) (ct_session x);
      finish_tasks l (mkCatching (push_all (tk_emits tk) (ct_tester x)) s l)
  end.

Section hub.
Variable TypeOf : option Codec -> nat.
(** The messages a processor emits while it processes a message; the order in which maps are visited;
    the order of headers. *)
Variable react : string -> string -> message -> list emit.
Variable visit : forall A, gmap string A -> list (string * A).
Variable range : Headers -> list (string * bytes).
(** What happens in a client before the next step of its catch-up, which is told by the topics that are
    left, the messages that are left of the current topic and the state; and, if the context of the
    session is done, whether a [select] takes the other case nevertheless. *)
Variable sched : string -> list string -> list message -> catching -> list move * bool.

(** [RegisterGroupGraph] and [RegisterView] with their clients. *)
Definition hub_RegisterGroupGraph {CB} (gg : GroupGraph CB) (h : Hub) : outcome (string * Hub) :=
  let '(c, h) := nextClient h in
  '(group, tst) ← RegisterGroupGraph TypeOf gg (h_tester h);
  let c := mkClient (c_clientID c) (if (group : bool) then Some None else None) (c_consumer c) in
  Ret (c_clientID c, mkHub tst (<[c_clientID c := c]> (h_clients h))).

Definition RegisterView (table : string) (codec : option Codec) (h : Hub) : outcome (string * Hub) :=
  tst ← registerCodec TypeOf table codec (h_tester h);
  let '(c, h) := nextClient (mkHub tst (h_clients h)) in
  let c := requireConsumer table c in
  Ret (c_clientID c, mkHub (h_tester h) (<[c_clientID c := c]> (h_clients h))).

(** ** Catching up *)

(** The inner loop of [catchupAndWait]: the messages of a topic are pushed to its claim. *)
Fixpoint push_claims (cid topic : string) (topics : list string) (msgs : list message) (x : catching) : outcome catching :=
  match msgs with
  | [] => Ret x
  | m :: rest =>
      let '(moves, other) := sched cid topics msgs x in
      x ← exec_moves moves x;
      let taken := negb (cs_ctxDone (ct_session x)) || other in
      s ← pushMessageToClaim topic m taken (ct_session x);
      let tasks := if taken then ct_tasks x ++ [mkTask topic m (react cid topic m)] else ct_tasks x in
      push_claims cid topic topics rest (mkCatching (ct_tester x) s tasks)
  end.

(** The outer loop; the number of messages pushed. *)
Fixpoint session_topics (cid : string) (topics : list string) (x : catching) : outcome (Z * catching) :=
  match topics with
  | [] => Ret (0, x)
  | t :: topics' =>
      x ← exec_moves (sched cid topics [] x).1 x;
      match cs_queues (ct_session x) !! t with
      | None => Blocked
      | Some queueHwm =>
          msgs ← messagesFromOffset queueHwm (getOrCreateQueue t (ct_tester x)).1;
          x ← push_claims cid t topics' msgs x;
          '(n, x) ← session_topics cid topics' x;
          Ret (Z.of_nat (length msgs) + n, x)
      end
  end.

(** [catchupAndWait] of a session.  If the wait group is not waited for because the context is done, what
    the processor does afterwards is left out. *)
Definition session_catchup (cid : string) (s : cgSession) (tst : Tester) : outcome (Z * cgSession * Tester) :=
  '(msgPushed, x) ← session_topics cid (visit Z (cs_queues s)).*1 (mkCatching tst s []);
  let '(moves, other) := sched cid [] [] x in
  x ← exec_moves moves x;
  if cs_ctxDone (ct_session x) && negb other then Ret (0, ct_session x, ct_tester x)
  else
    x ← finish_tasks (ct_tasks x) x;
    if cs_wgMessages (ct_session x) =? 0 then Ret (msgPushed, ct_session x, ct_tester x)
    else if cs_ctxDone (ct_session x) then Ret (0, ct_session x, ct_tester x)
    else Blocked.

(** [catchup] of the table consumers; what they send goes to tables, which emit nothing. *)
Fixpoint consumers_catchup (l : list (string * partConsumerMock)) (cm : consumerMock) (tst : Tester)
  : outcome (Z * consumerMock) :=
  match l with
  | [] => Ret (0, cm)
  | (t, pcm) :: l =>
      '(_, n, pcm) ← partConsumer_catchup range pcm tst;
      '(m, cm) ← consumers_catchup l (mkConsumerMock (cmk_requiredTopics cm) (<[t := pcm]> (cmk_partConsumers cm))) tst;
      Ret (n + m, cm)
  end.

(** [client.catchup] *)
Definition client_catchup (c : client) (tst : Tester) : outcome (Z * client * Tester) :=
  '(n, cg, tst) ← match c_consumerGroup c with
                  | None => Ret (0, None, tst)
                  | Some None => Panic (ErrNew "There is currently no session. Cannot catchup, but we shouldn't be at this point")
                  | Some (Some s) =>
                      '(n, s, tst) ← session_catchup (c_clientID c) s tst;
                      Ret (n, Some (Some s), tst)
                  end;
  '(m, cm) ← consumers_catchup (visit partConsumerMock (cmk_partConsumers (c_consumer c))) (c_consumer c) tst;
  Ret (n + m, mkClient (c_clientID c) cg cm, tst).

(** One round of [waitForClients] over the clients in the order visited. *)
Fixpoint round (l : list (string * client)) (h : Hub) : outcome (Z * Hub) :=
  match l with
  | [] => Ret (0, h)
  | (cid, c) :: l =>
      '(n, c, tst) ← client_catchup c (h_tester h);
      '(m, h) ← round l (mkHub tst (<[cid := c]> (h_clients h)));
      Ret (n + m, h)
  end.

(** [waitForClients]: rounds until one has nothing to catch up; [fuel] bounds their number. *)
Fixpoint waitForClients (fuel : nat) (h : Hub) : outcome Hub :=
  match fuel with
  | O => Blocked
  | S fuel =>
      '(total, h) ← round (visit client (h_clients h)) h;
      if total =? 0 then Ret h else waitForClients fuel h
  end.

(** [waitStartup] returns once all clients are started, [Catchup] then catches up. *)
Definition waitStartup (consuming : string -> bool) (h : Hub) : outcome unit :=
  if forallb (fun x => client_started x.2 (consuming x.1)) (visit client (h_clients h)) then Ret tt else Blocked.
Definition tester_Catchup (consuming : string -> bool) (fuel : nat) (h : Hub) : outcome Hub :=
  _ ← waitStartup consuming h; waitForClients fuel h.

(** [Consume] with its waiting. *)
Definition hub_Consume (consuming : string -> bool) (fuel : nat) (topic key : string) (msg : value) (isNil : bool)
    (options : list (emitOption -> emitOption)) (h : Hub) : outcome Hub :=
  _ ← waitStartup consuming h;
  tst ← tester_Consume topic key msg isNil options (h_tester h);
  waitForClients fuel (mkHub tst (h_clients h)).

(** [flushingProducer] of an emitter. *)
Definition flushing_EmitWithHeaders {CB} (fuel : nat) (topic key : string) (value : bytes) (header : list (string * bytes)) (h : Hub)
  : outcome (Promise CB * Hub) :=
  let '(prom, tst) := producerMock_EmitWithHeaders topic key value header (h_tester h) in
  h ← waitForClients fuel (mkHub tst (h_clients h)); Ret (prom, h).
Definition flushing_Emit {CB} (fuel : nat) (topic key : string) (value : bytes) (h : Hub) : outcome (Promise CB * Hub) :=
  let '(prom, tst) := producerMock_Emit topic key value (h_tester h) in
  h ← waitForClients fuel (mkHub tst (h_clients h)); Ret (prom, h).

(** ** The invariant *)

Definition topic_len (t : string) (tst : Tester) : Z := Z.of_nat (length (topic_messages t tst)).

(** The client has been handed every message of its topics. *)
Record caught_up (tst : Tester) (c : client) : Prop := {
  cu_group s t hwm : c_consumerGroup c = Some (Some s) -> cs_queues s !! t = Some hwm -> hwm = topic_len t tst;
  cu_consumer t pcm : cmk_partConsumers (c_consumer c) !! t = Some pcm -> pcm_hwm pcm = topic_len t tst
}.

(** A client whose session has marked what it was handed, and whose table consumers are within their
    queues. *)
Record client_ok (tst : Tester) (c : client) : Prop := {
  co_group s : c_consumerGroup c = Some (Some s) -> group_inv (mkGroup tst s NoCatchup []);
  co_consumer t pcm : cmk_partConsumers (c_consumer c) !! t = Some pcm -> pcm_topic pcm = t /\ 0 <= pcm_hwm pcm <= topic_len t tst
}.

(** The tester and all its clients. *)
Record hub_ok (h : Hub) : Prop := {
  ho_tester : tester_wf (h_tester h);
  ho_clients cid c : h_clients h !! cid = Some c -> client_ok (h_tester h) c
}.

(** Topics grow, and the later state is well formed if the earlier one is and no queue overflows. *)
Definition grows (tst tst' : Tester) : Prop :=
  (forall t, topic_messages t tst `prefix_of` topic_messages t tst') /\
  ((forall t, topic_len t tst' < 2 ^ 63) -> tester_wf tst -> tester_wf tst').

Lemma grows_refl tst : grows tst tst.
Proof. split; [done|done]. Qed.

Lemma grows_len tst tst' t : grows tst tst' -> topic_len t tst <= topic_len t tst'.
Proof. intros [Hp _]. specialize (Hp t). apply prefix_length in Hp. unfold topic_len. lia. Qed.

Lemma grows_trans tst1 tst2 tst3 : grows tst1 tst2 -> grows tst2 tst3 -> grows tst1 tst3.
Proof.
  intros G1 G2. split; [intros t; etransitivity; [apply G1|apply G2]|]. intros Hb W.
  apply (proj2 G2); [done|]. apply (proj2 G1); [|done]. intros t. pose proof (grows_len _ _ t G2). specialize (Hb t). lia.
Qed.

Lemma pushMessage_messages topic key data hdr tst t :
  topic_messages t (pushMessage topic key data hdr tst).2 = topic_messages t tst ++
    if decide (t = topic) then [mkMessage (q_hwm (getOrCreateQueue topic tst).1) key data hdr] else [].
Proof.
  unfold pushMessage, getOrCreateQueue, topic_messages. destruct (tt_topicQueues tst !! topic) as [q|] eqn:E; simpl;
    rewrite lookup_insert; destruct (decide (t = topic)) as [->|Hne].
  - by rewrite decide_True, E.
  - rewrite decide_False by done. by rewrite app_nil_r.
  - by rewrite decide_True, E.
  - rewrite decide_False by done. rewrite lookup_insert_ne by done. by rewrite app_nil_r.
Qed.

Lemma pushMessage_grows topic key data hdr tst : grows tst (pushMessage topic key data hdr tst).2.
Proof.
  pose proof (pushMessage_messages topic key data hdr tst) as Hm. split.
  - intros t. rewrite Hm. by apply prefix_app_r.
  - intros Hb W. specialize (Hb topic). unfold topic_len in Hb. rewrite Hm, length_app, decide_True in Hb by done. simpl in Hb.
    destruct (pushMessage_ok topic key data hdr tst W) as (tst' & -> & W' & _); [lia|done].
Qed.

Lemma push_all_grows l tst : grows tst (push_all l tst).
Proof.
  revert tst. induction l as [|e l IH]; intros tst; [apply grows_refl|].
  eapply grows_trans; [apply pushMessage_grows|apply IH].
Qed.

Lemma group_inv_grows tst tst' s c l l' :
  grows tst tst' -> tester_wf tst' -> group_inv (mkGroup tst s c l) -> group_inv (mkGroup tst' s c l').
Proof.
  intros [Hp _] W [I1 I1' I2 I3 I4 I5 I6 I7 I8 I9]. constructor; try done.
  - intros t. etransitivity; [apply I3|apply Hp].
  - simpl in *. destruct c as [|topic msgs topics n began]; [done|]. destruct I9 as (H1 & H2 & H3 & H4 & H5). split_and!; try done.
    intros t k Hk. specialize (H4 t k Hk). specialize (Hp t). apply prefix_length in Hp. lia.
Qed.

Lemma client_ok_grows c tst tst' : grows tst tst' -> tester_wf tst' -> client_ok tst c -> client_ok tst' c.
Proof.
  intros G W [H1 H2]. constructor.
  - intros s Hs. eapply group_inv_grows; [done|done|by apply H1].
  - intros t pcm Ht. destruct (H2 t pcm Ht). pose proof (grows_len _ _ t G). split; [done|lia].
Qed.

(** What is left of a queue behind a position. *)
Lemma messagesFrom_ok t hwm tst :
  tester_wf tst -> 0 <= hwm <= topic_len t tst ->
  messagesFromOffset hwm (getOrCreateQueue t tst).1 = Ret (drop (Z.to_nat hwm) (topic_messages t tst)) /\
  Z.of_nat (length (drop (Z.to_nat hwm) (topic_messages t tst))) = topic_len t tst - hwm /\
  topic_len t tst < 2 ^ 63 /\
  forall i m, drop (Z.to_nat hwm) (topic_messages t tst) !! i = Some m -> m_offset m = hwm + Z.of_nat i.
Proof.
  intros W H. unfold topic_len in *.
  destruct (getOrCreateQueue_ok t tst W) as (q & tst' & -> & _ & [Q1 Q2 Q3 Q4] & Em & _). simpl.
  unfold messagesFromOffset. rewrite Em in *. rewrite (proj2 (Z.ltb_ge _ _)), (proj2 (Z.ltb_ge _ _)) by lia.
  split_and!; [done|rewrite length_drop; lia|lia|]. intros i m Hi. rewrite lookup_drop in Hi. rewrite (Q4 _ _ Hi). lia.
Qed.

Lemma consumers_catchup_spec l cm tst n cm' :
  consumers_catchup l cm tst = Ret (n, cm') -> tester_wf tst ->
  NoDup l.*1 -> (forall t pcm, (t, pcm) ∈ l -> cmk_partConsumers cm !! t = Some pcm) ->
  (forall t pcm, cmk_partConsumers cm !! t = Some pcm -> pcm_topic pcm = t /\ 0 <= pcm_hwm pcm <= topic_len t tst) ->
  0 <= n /\
  (forall t pcm, cmk_partConsumers cm' !! t = Some pcm -> pcm_topic pcm = t /\ 0 <= pcm_hwm pcm <= topic_len t tst) /\
  (n = 0 -> cm' = cm /\ forall t pcm, (t, pcm) ∈ l -> pcm_hwm pcm = topic_len t tst).
Proof.
  intros H W. revert cm n H. induction l as [|[t pcm] l IH]; intros cm n H Hnd Hin Hok; simpl in H.
  { injection H as <- <-. split_and!; [lia|done|]. intros _. split; [done|set_solver]. }
  assert (cmk_partConsumers cm !! t = Some pcm) as Ht by (apply Hin; left). destruct (Hok t pcm Ht) as [Etop Hpos].
  assert (0 <= pcm_hwm pcm <= Z.of_nat (length (topic_messages (pcm_topic pcm) tst))) as Hpos' by (by rewrite Etop).
  rewrite catchup_ok in H by done. rewrite Etop in H. simpl in H.
  destruct (consumers_catchup l _ tst) as [[m cm2]| |] eqn:E; [|done|done]. injection H as <- <-.
  fold (topic_len t tst) in *. apply NoDup_cons in Hnd as [Hnt Hnd].
  assert (Z.of_nat (length (drop (Z.to_nat (pcm_hwm pcm)) (topic_messages t tst))) = topic_len t tst - pcm_hwm pcm) as Hlen
    by (rewrite length_drop; unfold topic_len in *; lia).
  destruct (IH _ _ E Hnd) as (Hm & Hok' & Hz); simpl.
  - intros t' p Htp. rewrite lookup_insert_ne; [apply Hin; by right|]. intros <-. apply Hnt. apply list_elem_of_fmap.
    by exists (t, p).
  - intros t' p. rewrite lookup_insert. case_decide; [|apply Hok]. intros [= <-]. subst t'. simpl.
    split; [done|]. unfold topic_len in *. lia.
  - rewrite Hlen. split_and!; [lia|done|]. intros Hsum. assert (pcm_hwm pcm = topic_len t tst) as Eh by lia.
    destruct (Hz ltac:(lia)) as (-> & Hall). split.
    + destruct cm as [req pcs]. simpl in *. f_equal. apply insert_id. rewrite Ht. f_equal. destruct pcm as [pt ph].
      simpl in *. congruence.
    + intros t' p [[= -> ->]|Htp]%elem_of_cons; [done|by apply Hall].
Qed.

Context (visit_perm : forall A (m : gmap string A), visit A m ≡ₚ map_to_list m).

Lemma visit_elem {A} (m : gmap string A) k a : (k, a) ∈ visit A m <-> m !! k = Some a.
Proof. rewrite visit_perm. apply elem_of_map_to_list. Qed.

Lemma visit_NoDup {A} (m : gmap string A) : NoDup (visit A m).*1.
Proof. rewrite visit_perm. apply NoDup_fst_map_to_list. Qed.

End hub.

(** ** Properties *)

Lemma tester_Consume_pushes topic key msg isNil options tst tst' :
  tester_Consume topic key msg isNil options tst = Ret tst' ->
  exists data hdr, tst' = (pushMessage topic key data hdr tst).2.
Proof.
  unfold tester_Consume. set (hdr := eo_headers _). intros H.
  assert (forall o, (codec ← codecForTopic topic tst; match codec with
    | None => Panic (ErrNew "nil pointer dereference")
    | Some codec => match Encode codec o with
        | Err e => Panic (ErrWrap "Error encoding value" e)
        | Ok data => Ret (pushMessage topic key data hdr tst).2 end end) = Ret tst' ->
    exists data hdr, tst' = (pushMessage topic key data hdr tst).2) as Henc.
  { intros o Ho. destruct (codecForTopic topic tst) as [[codec|]| |]; try done. simpl in Ho.
    destruct (Encode codec o) as [data|]; [|done]. injection Ho as <-. eauto. }
  destruct msg, isNil; try (injection H as <-; eauto; fail); by eapply Henc.
Qed.

(** A processor that sends on to "out" what it gets from "in", and a second one that consumes "out". *)
Definition hub_react (cid topic : string) (m : message) : list emit :=
  if String.eqb topic "in" then [mkEmit "out" (m_key m) (m_value m) None] else [].

Definition hub_demo : Hub :=
  mkHub (mkTester {["in" := Some StringCodec]}%string ∅ ∅)
    {["client-0" := mkClient "client-0" (Some (Some (newCgSession ["in"]))) newConsumerMock;
      "client-1" := mkClient "client-1" (Some (Some (newCgSession ["out"]))) newConsumerMock]}%string.

Definition hub_visit (A : Type) (m : gmap string A) : list (string * A) := map_to_list m.

(** The processor works on the last message it was handed. *)
Definition hub_sched (cid : string) (topics : list string) (msgs : list message) (x : catching) : list move * bool :=
  ([MTask (length (ct_tasks x) - 1)], false).

Definition hub_demo_run : outcome Hub :=
  hub_Consume hub_react hub_visit (fun h => map_to_list (entries h)) hub_sched (fun _ => true) 3 "in" "k" (VString "hi") false [] hub_demo.

Definition hub_demo_end : Hub := ret_or hub_demo hub_demo_run.

Lemma hub_demo_client cid c :
  h_clients hub_demo !! cid = Some c -> exists t, c_consumerGroup c = Some (Some (newCgSession [t])) /\ c_consumer c = newConsumerMock.
Proof.
  unfold hub_demo. cbn [h_clients]. intros Hc.
  apply lookup_insert_Some in Hc as [[_ <-]|[_ Hc]]; [by eexists|]. apply lookup_singleton_Some in Hc as [_ <-]. by eexists.
Qed.

Lemma hub_demo_ok : hub_ok hub_demo.
Proof.
  constructor; [done|]. intros cid c Hc. destruct (hub_demo_client cid c Hc) as (t & Eg & Ec). constructor.
  - intros s Hs. rewrite Eg in Hs. injection Hs as <-. by apply new_group_inv.
  - intros t' pcm Hp. rewrite Ec in Hp. unfold newConsumerMock in Hp. cbn [cmk_partConsumers] in Hp. by apply lookup_empty_Some in Hp.
Qed.

(** Both groups are at the end, and the second one has been handed the message of the first. *)
Example hub_demo_delivers : (length (topic_messages "out" (h_tester hub_demo_end)) = 1)%nat.
Proof. vm_compute. reflexivity. Qed.

(** Clients have names of their own: the client that registers next gets a name that no other has. *)
Definition names_ok (h : Hub) : Prop :=
  forall cid, is_Some (h_clients h !! cid) <-> exists n, (n < size (h_clients h))%nat /\ cid = client_name n.

Theorem nextClient_fresh (h : Hub) :
  names_ok h -> Z.of_nat (size (h_clients h)) < 2 ^ 63 ->
  h_clients h !! c_clientID (nextClient h).1 = None /\ names_ok (nextClient h).2.
Proof.
  intros Hn Hb. simpl. set (n := size (h_clients h)).
  assert (forall a b, (a <= n)%nat -> (b <= n)%nat -> client_name a = client_name b -> a = b) as Hinj.
  { intros a b Ha Hb' E. unfold client_name in E. apply (inj (String.append "client-")) in E.
    apply FormatInt_inj in E; [lia|unfold in_int64; lia..]. }
  assert (h_clients h !! client_name n = None) as Hnew.
  { apply eq_None_not_Some. intros Hs. apply Hn in Hs as (m & Hm & E). apply Hinj in E; unfold n in *; lia. }
  split; [done|]. intros cid. simpl. rewrite (map_size_insert_None _ _ _ Hnew), lookup_insert_is_Some'. fold n. rewrite (Hn cid). fold n.
  split.
  - intros [<-|(m & Hm & ->)]; [exists n|exists m]; split; try done; lia.
  - intros (m & Hm & ->). destruct (decide (m = n)) as [->|]; [by left|right]. exists m. split; [lia|done].
Qed.
