(* ===== verification/TesterRounds.v ===== *)
(** * The rounds of the tester end

    [waitForClients] of [tester/tester.go] repeats rounds until one has nothing to catch up.  If the
    processors pass messages on without cycles, as many rounds are enough as there are stages, and two
    more.  Each message has a bounded number of descendants, which bounds the queues. *)
From Stdlib Require Import ZArith Lia.
From stdpp Require Import base gmap strings list.
From S2P Require Import Prelude Multierr Signal Codec Storage Memory Headers Stats Proxy PartitionTable Recovery Promise Graph.
From S2P Require Import TopicManager Tester TesterGroup TesterClients.
Open Scope Z_scope.

(** ** Sums *)

Definition zsum {A} (f : A -> Z) (l : list A) : Z := foldr (fun x s => f x + s) 0 l.

Lemma zsum_app {A} (f : A -> Z) l k : zsum f (l ++ k) = zsum f l + zsum f k.
Proof. unfold zsum. induction l as [|x l IH]; simpl; lia. Qed.

#[export] Instance zsum_Proper {A} (f : A -> Z) : Proper ((≡ₚ) ==> eq) (zsum f).
Proof. unfold zsum. induction 1; simpl; lia. Qed.

Lemma zsum_le {A} (f g : A -> Z) l : (forall x, x ∈ l -> f x <= g x) -> zsum f l <= zsum g l.
Proof.
  unfold zsum. induction l as [|x l IH]; intros H; simpl; [lia|].
  specialize (IH ltac:(intros y Hy; apply H; by right)). specialize (H x ltac:(left)). lia.
Qed.

Lemma zsum_const {A} (f : A -> Z) d l : (forall x, x ∈ l -> f x <= d) -> zsum f l <= Z.of_nat (length l) * d.
Proof.
  unfold zsum. induction l as [|x l IH]; intros H; cbn [foldr length]; [lia|].
  specialize (IH ltac:(intros y Hy; apply H; by right)). specialize (H x ltac:(left)). lia.
Qed.

Lemma zsum_nonneg {A} (f : A -> Z) l : (forall x, x ∈ l -> 0 <= f x) -> 0 <= zsum f l.
Proof.
  unfold zsum. induction l as [|x l IH]; intros H; simpl; [lia|].
  specialize (IH ltac:(intros y Hy; apply H; by right)). specialize (H x ltac:(left)). lia.
Qed.

Lemma zsum_shift {A} (f g : A -> Z) d l : (forall x, x ∈ l -> g x <= f x + d) -> zsum g l <= zsum f l + Z.of_nat (length l) * d.
Proof.
  unfold zsum. induction l as [|x l IH]; intros H; cbn [foldr length]; [lia|].
  specialize (IH ltac:(intros y Hy; apply H; by right)). specialize (H x ltac:(left)). lia.
Qed.

(** A change at one place of a list without duplicates. *)
Lemma zsum_at {A} `{EqDecision A} (f g : A -> Z) k d l :
  NoDup l -> (forall x, x <> k -> g x = f x) -> g k = f k + d -> zsum g l = zsum f l + if decide (k ∈ l) then d else 0.
Proof.
  intros Hnd Hne Hk. induction Hnd as [|x l Hx Hnd IH]; [done|]. unfold zsum in *. cbn [foldr]. rewrite IH.
  destruct (decide (x = k)) as [->|Hxk].
  - rewrite decide_False by done. rewrite decide_True by (by left). lia.
  - rewrite (Hne x Hxk). destruct (decide (k ∈ l)).
    + rewrite decide_True by (by right). lia.
    + rewrite decide_False by set_solver. lia.
Qed.

(** ** Descendants *)

(** How many messages can follow from a message of a topic of stage [r], if each message makes at most [K]
    messages in each of [C] clients. *)
Fixpoint descendants (K C : Z) (r : nat) : Z :=
  match r with O => 0 | S r => K * (1 + C * descendants K C r) end.

Lemma descendants_nonneg K C r : 0 <= K -> 0 <= C -> 0 <= descendants K C r.
Proof. intros HK HC. induction r as [|r IH]; simpl; [lia|]. apply Z.mul_nonneg_nonneg; [done|]. nia. Qed.

Lemma descendants_S K C r : 0 <= K -> 0 <= C -> descendants K C r <= descendants K C (S r).
Proof.
  intros HK HC. induction r as [|r IH]; [cbn; nia|].
  change (K * (1 + C * descendants K C r) <= K * (1 + C * descendants K C (S r))).
  apply Z.mul_le_mono_nonneg_l; [done|]. nia.
Qed.

Lemma descendants_mono K C r r' : 0 <= K -> 0 <= C -> (r <= r')%nat -> descendants K C r <= descendants K C r'.
Proof. intros HK HC. induction 1 as [|r' _ IH]; [lia|]. pose proof (descendants_S K C r' HK HC). lia. Qed.

(** Emitting to other topics leaves a topic alone. *)
Lemma push_all_other l tst t :
  (forall e, e ∈ l -> em_topic e <> t) -> topic_messages t (push_all l tst) = topic_messages t tst.
Proof.
  revert tst. induction l as [|e l IH]; intros tst Hne; [done|]. unfold push_all in *. cbn [fold_left].
  rewrite IH by (intros e' He'; apply Hne; by right).
  rewrite pushMessage_messages, decide_False by (intros ->; eapply Hne; [left|done]). by rewrite app_nil_r.
Qed.

Lemma push_one_len e tst t : topic_len t (push_all [e] tst) = topic_len t tst + if decide (em_topic e = t) then 1 else 0.
Proof.
  unfold topic_len, push_all. cbn [fold_left]. rewrite pushMessage_messages, length_app. rewrite Nat2Z.inj_add. f_equal.
  destruct (decide (t = em_topic e)) as [->|]; [by rewrite decide_True|by rewrite decide_False by congruence].
Qed.

(** ** Marking *)

Definition task_key (tk : task) : string := makeMsgKey (tk_topic tk) (m_offset (tk_msg tk)).

Lemma MarkMessage_spec topic m s s' :
  MarkMessage topic m s = Ret s' ->
  cs_waitingMessages s' = cs_waitingMessages s ∖ {[makeMsgKey topic (m_offset m)]} /\
  cs_delivered s' = cs_delivered s /\ dom (cs_queues s') = dom (cs_queues s).
Proof.
  unfold MarkMessage, MarkOffset. set (key := makeMsgKey topic (m_offset m)). intros H.
  destruct (decide (key ∈ cs_waitingMessages s)) as [Hk|Hk].
  - destruct (wg_Done _) as [wg| |]; [|done|done]. simpl in H. destruct (cs_queues s !! topic) as [hwm|] eqn:Eq; [|done].
    injection H as <-. simpl. split_and!; [done|done|]. rewrite dom_insert_L. apply elem_of_dom_2 in Eq. set_solver.
  - simpl in H. destruct (cs_queues s !! topic) as [hwm|] eqn:Eq; [|done].
    injection H as <-. simpl. split_and!; [set_solver|done|]. rewrite dom_insert_L. apply elem_of_dom_2 in Eq. set_solver.
Qed.

Lemma MarkMessage_not_blocked topic m s : MarkMessage topic m s <> Blocked.
Proof.
  unfold MarkMessage, MarkOffset, wg_Done. destruct (decide _); [destruct (_ <? 0)|]; simpl; try done; by destruct (cs_queues s !! topic).
Qed.

Lemma delivered_snoc t s q w g c topic m :
  delivered t (mkSession q w g c (cs_delivered s ++ [(topic, m)])) = delivered t s ++ if decide (t = topic) then [m] else [].
Proof.
  unfold delivered. simpl. rewrite filter_app, fmap_app. f_equal. rewrite filter_cons. simpl.
  destruct (decide (t = topic)) as [->|Hne]; [by rewrite decide_True|by rewrite decide_False by congruence].
Qed.

Section rounds.
Context (react : string -> string -> message -> list emit) (visit : forall A, gmap string A -> list (string * A)).
Context (range : Headers -> list (string * bytes)) (sched : string -> list string -> list message -> catching -> list move * bool).
Hypothesis visit_perm : forall A (m : gmap string A), visit A m ≡ₚ map_to_list m.
Hypothesis running : forall cid topics msgs x, MCancel ∉ (sched cid topics msgs x).1.

(** The stage of a topic: what is emitted in reaction to a message goes to topics of lower stages, and
    there are at most [K] such messages, in each of [C] clients. *)
Context (rank : string -> nat) (K C : Z).
Hypothesis acyclic : forall cid t m e, e ∈ react cid t m -> (rank (em_topic e) < rank t)%nat.
Hypothesis fanout : forall cid t m, Z.of_nat (length (react cid t m)) <= K.
Hypothesis clients_nonneg : 0 <= C.

Lemma K_nonneg : 0 <= K.
Proof. pose proof (fanout "" "" (mkMessage 0 "" None None)). lia. Qed.

Definition follow (t : string) : Z := descendants K C (rank t).

Lemma follow_nonneg t : 0 <= follow t.
Proof. apply descendants_nonneg; [apply K_nonneg|done]. Qed.
Local Hint Resolve K_nonneg follow_nonneg : core.

(** The topics that nobody writes to any more when all topics from stage [r] on have been read. *)
Definition kept (r : nat) (tst tst' : Tester) : Prop :=
  forall t, (r <= S (rank t))%nat -> topic_messages t tst' = topic_messages t tst.

Lemma kept_trans r tst1 tst2 tst3 : kept r tst1 tst2 -> kept r tst2 tst3 -> kept r tst1 tst3.
Proof. intros H1 H2 t Ht. by rewrite H2, H1. Qed.

Lemma kept_len r tst tst' t : kept r tst tst' -> (r <= S (rank t))%nat -> topic_len t tst' = topic_len t tst.
Proof. intros H Ht. unfold topic_len. by rewrite H. Qed.

(** ** What can still be emitted *)

(** The messages of a topic that a session was not handed. *)
Definition unread (tst : Tester) (s : cgSession) (t : string) : Z := topic_len t tst - Z.of_nat (length (delivered t s)).

(** What can follow from the messages that a session was not handed, and from what a processor is about
    to emit. *)
Definition session_credit (tst : Tester) (s : cgSession) : Z :=
  zsum (fun t => unread tst s t * follow t) (elements (dom (cs_queues s))).
Definition emits_credit (l : list emit) : Z := zsum (fun e => 1 + C * follow (em_topic e)) l.
Definition tasks_credit (l : list task) : Z := zsum (fun tk => emits_credit (tk_emits tk)) l.

Lemma emits_credit_nonneg l : 0 <= emits_credit l.
Proof. apply zsum_nonneg. intros e _. pose proof (follow_nonneg (em_topic e)). nia. Qed.

Lemma tasks_credit_nonneg l : 0 <= tasks_credit l.
Proof. apply zsum_nonneg. intros tk _. apply emits_credit_nonneg. Qed.

Lemma session_credit_push e tst s : session_credit (push_all [e] tst) s <= session_credit tst s + follow (em_topic e).
Proof.
  unfold session_credit. rewrite (zsum_at (fun t => unread tst s t * follow t) _ (em_topic e) (follow (em_topic e))).
  - pose proof (follow_nonneg (em_topic e)). case_decide; lia.
  - apply NoDup_elements.
  - intros t Ht. unfold unread. rewrite push_one_len, decide_False by done. ring.
  - unfold unread. rewrite push_one_len, decide_True by done. ring.
Qed.

(** The reactions to a message are among its descendants. *)
Lemma react_credit cid t m : emits_credit (react cid t m) <= follow t.
Proof.
  unfold emits_credit, follow. destruct (rank t) as [|r] eqn:Er.
  - destruct (react cid t m) as [|e l] eqn:E; [done|]. pose proof (acyclic cid t m e). rewrite E in H. specialize (H ltac:(left)). lia.
  - etransitivity; [apply (zsum_const _ (1 + C * descendants K C r))|].
    + intros e He. pose proof (acyclic cid t m e He) as Hr. pose proof (descendants_mono K C (rank (em_topic e)) r K_nonneg clients_nonneg ltac:(lia)).
      unfold follow. nia.
    + cbn [descendants]. apply Z.mul_le_mono_nonneg_r; [|apply fanout]. pose proof (descendants_nonneg K C r K_nonneg clients_nonneg). nia.
Qed.

(** ** A session that catches up *)

Section session.
(** The state at the beginning, the topics of stage [r] and more have been read, and what can follow in
    the other clients. *)
Context (r : nat) (M : Z) (others : Tester -> Z) (s0 : cgSession) (tst0 : Tester).
Hypothesis others_push : forall e tst, others (push_all [e] tst) <= others tst + (C - 1) * follow (em_topic e).
Hypothesis others_nonneg : forall tst, grows tst0 tst -> 0 <= others tst.
Hypothesis M_bound : M < 2 ^ 63.

Record catching_inv (x : catching) (c : catchup_state) : Prop := {
  ck_group : group_inv (mkGroup (ct_tester x) (ct_session x) c []);
  ck_delivered : forall tk, tk ∈ ct_tasks x -> (tk_topic tk, tk_msg tk) ∈ cs_delivered (ct_session x);
  ck_waiting : cs_waitingMessages (ct_session x) = list_to_set (task_key <$> ct_tasks x);
  ck_nodup : NoDup (task_key <$> ct_tasks x);
  ck_rank : forall tk e, tk ∈ ct_tasks x -> e ∈ tk_emits tk -> (S (rank (em_topic e)) < r)%nat;
  ck_kept : kept r tst0 (ct_tester x);
  ck_grows : grows tst0 (ct_tester x);
  ck_queues : dom (cs_queues (ct_session x)) = dom (cs_queues s0);
  ck_credit : forall t, topic_len t (ct_tester x) + (others (ct_tester x) + session_credit (ct_tester x) (ct_session x) + tasks_credit (ct_tasks x)) <= M;
  ck_still : exists l, cs_delivered (ct_session x) = cs_delivered s0 ++ l /\
    (l <> [] \/ (ct_tester x = tst0 /\ ct_session x = s0 /\ ct_tasks x = []))
}.

Lemma credit_nonneg tst s c l : group_inv (mkGroup tst s c l) -> 0 <= session_credit tst s.
Proof.
  intros W. apply zsum_nonneg. intros t _. pose proof (gi_prefix _ W t) as Hp. simpl in Hp. apply prefix_length in Hp.
  rewrite length_app in Hp. pose proof (follow_nonneg t). unfold unread, topic_len. nia.
Qed.

(** There is room for what is about to be emitted. *)
Lemma catching_room x c tk e es :
  catching_inv x c -> tk ∈ ct_tasks x -> tk_emits tk = e :: es -> forall t, topic_len t (ct_tester x) < 2 ^ 63 - 1.
Proof.
  intros I Htk He t. pose proof (ck_credit _ _ I t) as Hc. pose proof (others_nonneg _ (ck_grows _ _ I)).
  pose proof (credit_nonneg _ _ _ _ (ck_group _ _ I)). apply list_elem_of_split in Htk as (l1 & l2 & E). rewrite E in Hc.
  unfold tasks_credit in Hc. rewrite zsum_app in Hc. cbn [zsum foldr] in Hc. rewrite He in Hc. unfold emits_credit at 2 in Hc. cbn [zsum foldr] in Hc.
  pose proof (tasks_credit_nonneg l1). pose proof (tasks_credit_nonneg l2). pose proof (emits_credit_nonneg es).
  pose proof (follow_nonneg (em_topic e)). unfold tasks_credit, emits_credit, zsum in *. nia.
Qed.

(** Emitting a message. *)
Lemma catching_emit i x c tk e es :
  catching_inv x c -> ct_tasks x !! i = Some tk -> tk_emits tk = e :: es ->
  catching_inv (mkCatching (push_all [e] (ct_tester x)) (ct_session x) (<[i := mkTask (tk_topic tk) (tk_msg tk) es]> (ct_tasks x))) c.
Proof.
  intros I Hi He. pose proof (list_elem_of_lookup_2 _ _ _ Hi) as Hin.
  pose proof (catching_room x c tk e es I Hin He) as Hroom. pose proof (push_all_grows [e] (ct_tester x)) as G.
  destruct I as [I1 I2 I3 I4 I5 I6 I7 I8 I9 I10].
  assert (task_key <$> <[i := mkTask (tk_topic tk) (tk_msg tk) es]> (ct_tasks x) = task_key <$> ct_tasks x) as Hkeys.
  { rewrite list_fmap_insert. apply list_insert_id. by rewrite list_lookup_fmap, Hi. }
  assert (forall tk', tk' ∈ <[i := mkTask (tk_topic tk) (tk_msg tk) es]> (ct_tasks x) ->
    tk' = mkTask (tk_topic tk) (tk_msg tk) es \/ tk' ∈ ct_tasks x) as Htk.
  { intros tk' [j Hj]%list_elem_of_lookup. apply list_lookup_insert_Some in Hj as [(_ & <- & _)|[_ Hj]]; [by left|right]. by eapply list_elem_of_lookup_2. }
  constructor; cbn [ct_tester ct_session ct_tasks].
  - eapply group_inv_grows; [exact G| |exact I1]. apply (proj2 G); [|exact (gi_tester _ I1)].
    intros t. rewrite push_one_len. specialize (Hroom t). case_decide; lia.
  - intros tk' [->|Ht]%Htk; [by apply (I2 tk)|by apply I2].
  - by rewrite Hkeys.
  - by rewrite Hkeys.
  - intros tk' e' [->|Ht]%Htk He'; [|by eapply I5]. apply (I5 tk e' Hin). rewrite He. by right.
  - eapply kept_trans; [exact I6|]. intros t Ht. apply push_all_other. intros e' ->%list_elem_of_singleton Hte.
    specialize (I5 tk e Hin). rewrite He, Hte in I5. specialize (I5 ltac:(left)). lia.
  - by eapply grows_trans.
  - done.
  - intros t. specialize (I9 t). rewrite push_one_len. pose proof (others_push e (ct_tester x)).
    pose proof (session_credit_push e (ct_tester x) (ct_session x)).
    assert (tasks_credit (ct_tasks x) = tasks_credit (<[i := mkTask (tk_topic tk) (tk_msg tk) es]> (ct_tasks x)) + (1 + C * follow (em_topic e))) as Hw.
    { rewrite (insert_take_drop (ct_tasks x)) by (by eapply lookup_lt_Some). rewrite <- (take_drop_middle _ _ _ Hi) at 1.
      unfold tasks_credit. rewrite !zsum_app. cbn [zsum foldr tk_emits]. rewrite He. unfold emits_credit at 2. cbn [zsum foldr].
      unfold emits_credit, zsum. lia. }
    case_decide; lia.
  - destruct I10 as (l & Hl & [Hne|(_ & _ & Hn)]); [|by rewrite Hn in Hi]. exists l. split; [done|by left].
Qed.

(** Marking a message. *)
Lemma catching_mark i x c tk :
  catching_inv x c -> ct_tasks x !! i = Some tk ->
  exists s, MarkMessage (tk_topic tk) (tk_msg tk) (ct_session x) = Ret s /\ cs_delivered s = cs_delivered (ct_session x) /\
    (tk_emits tk = [] -> catching_inv (mkCatching (ct_tester x) s (delete i (ct_tasks x))) c).
Proof.
  intros [I1 I2 I3 I4 I5 I6 I7 I8 I9 I10] Hi. pose proof (list_elem_of_lookup_2 _ _ _ Hi) as Hin.
  pose proof (mark_safe (tk_topic tk) (tk_msg tk) _ I1 (I2 tk Hin)) as Hs. unfold safe_step in Hs. simpl in Hs.
  destruct (MarkMessage _ _ _) as [s| |] eqn:E; [|done|by apply MarkMessage_not_blocked in E]. exists s. split; [done|].
  apply MarkMessage_spec in E as (Ew & Ed & Eq). split; [done|]. intros He.
  assert (ct_tasks x ≡ₚ tk :: delete i (ct_tasks x)) as Hp by (by apply delete_Permutation).
  set (rest := delete i (ct_tasks x)) in *. clearbody rest.
  constructor; cbn [ct_tester ct_session ct_tasks].
  - exact Hs.
  - intros tk' Ht. rewrite Ed. apply I2. rewrite Hp. by right.
  - rewrite Ew, I3. rewrite Hp in I4. apply NoDup_cons in I4 as [Hn _].
    assert (list_to_set (task_key <$> ct_tasks x) =@{gset string} {[task_key tk]} ∪ list_to_set (task_key <$> rest)) as -> by (by rewrite Hp).
    fold (task_key tk). set_solver.
  - rewrite Hp in I4. by apply NoDup_cons in I4 as [_ ?].
  - intros tk' e Ht. apply I5. rewrite Hp. by right.
  - done.
  - done.
  - by rewrite Eq.
  - intros t. specialize (I9 t). assert (session_credit (ct_tester x) s = session_credit (ct_tester x) (ct_session x)) as ->.
    { unfold session_credit, unread, delivered. by rewrite Ed, Eq. }
    assert (tasks_credit (ct_tasks x) = tasks_credit rest) as <-; [|done].
    unfold tasks_credit. rewrite Hp. cbn [zsum foldr]. rewrite He. done.
  - destruct I10 as (l & Hl & [Hne|(_ & _ & Hn)]); [|by rewrite Hn in Hi]. exists l. rewrite Ed. split; [done|by left].
Qed.

Lemma catching_ctx x c : catching_inv x c -> cs_ctxDone (ct_session x) = false.
Proof. intros I. exact (gi_ctx _ (ck_group _ _ I)). Qed.

Lemma exec_moves_ok l x c :
  MCancel ∉ l -> catching_inv x c ->
  exists x', exec_moves l x = Ret x' /\ catching_inv x' c /\ cs_delivered (ct_session x') = cs_delivered (ct_session x).
Proof.
  revert x. induction l as [|[i|] l IH]; intros x Hl I; [by exists x| |set_solver]. simpl.
  assert (exists x1, task_move i x = Ret x1 /\ catching_inv x1 c /\ cs_delivered (ct_session x1) = cs_delivered (ct_session x)) as (x1 & -> & I1 & E1).
  { unfold task_move. destruct (ct_tasks x !! i) as [tk|] eqn:Ei; [|by exists x]. destruct (tk_emits tk) as [|e es] eqn:Ee.
    - destruct (catching_mark i x c tk I Ei) as (s & -> & Ed & I'). eexists. split; [done|]. split; [by apply I'|done].
    - eexists. split; [done|]. split; [by eapply catching_emit|done]. }
  simpl. destruct (IH x1) as (x' & E & I' & Ed); [set_solver|done|]. exists x'. split_and!; [done|done|congruence].
Qed.

Lemma catching_emits es tst s t m l c :
  catching_inv (mkCatching tst s (mkTask t m es :: l)) c -> catching_inv (mkCatching (push_all es tst) s (mkTask t m [] :: l)) c.
Proof.
  revert tst. induction es as [|e es IH]; intros tst I; [done|]. apply (IH (push_all [e] tst)).
  exact (catching_emit 0 _ c (mkTask t m (e :: es)) e es I eq_refl eq_refl).
Qed.

Lemma finish_tasks_ok l x c :
  catching_inv x c -> ct_tasks x = l ->
  exists x', finish_tasks l x = Ret x' /\ catching_inv x' c /\ ct_tasks x' = [] /\ cs_delivered (ct_session x') = cs_delivered (ct_session x).
Proof.
  revert x. induction l as [|[t m es] l IH]; intros x I El; [by exists x|]. destruct x as [tst s tasks]. simpl in *. subst tasks.
  apply catching_emits in I. destruct (catching_mark 0 _ c (mkTask t m []) I eq_refl) as (s' & E & Ed & I'). simpl in *. rewrite E. simpl.
  destruct (IH (mkCatching (push_all es tst) s' l)) as (x' & Ef & If & Et & Ed'); [by apply I'|done|].
  exists x'. split_and!; [done|done|done|]. simpl in Ed'. congruence.
Qed.

(** Handing out a message. *)
Lemma catching_push cid x topic m msgs topics n began :
  catching_inv x (Catchup topic (m :: msgs) topics n began) -> (rank topic < r)%nat ->
  exists s, pushMessageToClaim topic m true (ct_session x) = Ret s /\ cs_delivered s = cs_delivered (ct_session x) ++ [(topic, m)] /\
    catching_inv (mkCatching (ct_tester x) s (ct_tasks x ++ [mkTask topic m (react cid topic m)])) (Catchup topic msgs topics (n + 1) began).
Proof.
  intros [I1 I2 I3 I4 I5 I6 I7 I8 I9 I10] Hr.
  destruct (next_not_waiting _ topic m msgs topics n began I1 eq_refl) as [Hnw _]. simpl in Hnw.
  pose proof (push_safe _ I1) as Hs. unfold safe_step in Hs. cbn [group_exec] in Hs. unfold catchup_push, pushMessageToClaim in *.
  cbn [gr_catchup gr_session] in Hs. rewrite decide_False in Hs |- * by done. cbn in Hs. eexists. split; [done|]. split; [done|].
  pose proof (gi_catchup _ I1) as (_ & _ & Hq & _). specialize (Hq ltac:(done)). simpl in Hq. apply elem_of_dom in Hq.
  constructor; cbn [ct_tester ct_session ct_tasks cs_waitingMessages cs_delivered cs_queues].
  - exact Hs.
  - intros tk [Ht| ->%list_elem_of_singleton]%elem_of_app; apply elem_of_app; [left; by apply I2|right; by left].
  - rewrite fmap_app, list_to_set_app_L, I3. simpl. unfold task_key at 2. simpl. set_solver.
  - rewrite fmap_app. apply NoDup_app. split_and!; [done| |apply NoDup_singleton]. intros key Hk ->%list_elem_of_singleton.
    apply Hnw. rewrite I3. by apply elem_of_list_to_set.
  - intros tk e [Ht| ->%list_elem_of_singleton]%elem_of_app; [by apply I5|]. simpl. intros He. apply acyclic in He. lia.
  - done.
  - done.
  - done.
  - intros t. specialize (I9 t). pose proof (react_credit cid topic m) as Hrc.
    unfold tasks_credit in *. rewrite zsum_app. cbn [zsum foldr tk_emits].
    unfold session_credit. cbn [cs_queues].
    rewrite (zsum_at (fun t => unread (ct_tester x) (ct_session x) t * follow t) _ topic (- follow topic)).
    + rewrite decide_True by (by apply elem_of_elements). unfold session_credit, zsum in *. lia.
    + apply NoDup_elements.
    + intros t' Ht'. unfold unread. rewrite delivered_snoc. rewrite decide_False by done. by rewrite app_nil_r.
    + unfold unread. rewrite delivered_snoc, decide_True, length_app by done. simpl. lia.
  - destruct I10 as (l & Hl & _). exists (l ++ [(topic, m)]). rewrite Hl, (assoc_L (++)). split; [done|left]. by destruct l.
Qed.

(** At the beginning everything handed out is marked, and the topics from stage [r] on are read. *)
Hypothesis begin_inv : group_inv (mkGroup tst0 s0 NoCatchup []).
Hypothesis begin_settled : forall t hwm, cs_queues s0 !! t = Some hwm -> (r <= rank t)%nat -> hwm = topic_len t tst0.

Lemma begin_delivered t : t ∈ dom (cs_queues s0) -> (r <= rank t)%nat -> Z.of_nat (length (delivered t s0)) = topic_len t tst0.
Proof.
  intros [hwm Hq]%elem_of_dom Hr. rewrite <- (begin_settled t hwm Hq Hr). symmetry.
  exact (unvisited_hwm _ t hwm begin_inv I Hq).
Qed.

(** Turning to the next topic. *)
Lemma catching_topic x top t topics n began :
  catching_inv x (Catchup top [] (t :: topics) n began) -> t ∈ dom (cs_queues s0) ->
  exists hwm msgs, cs_queues (ct_session x) !! t = Some hwm /\
    messagesFromOffset hwm (getOrCreateQueue t (ct_tester x)).1 = Ret msgs /\
    catching_inv x (Catchup t msgs topics n began) /\ (msgs <> [] -> (rank t < r)%nat).
Proof.
  intros Ix Ht. pose proof (ck_group _ _ Ix) as W. rewrite <- (ck_queues _ _ Ix) in Ht. pose proof Ht as [hwm Hq]%elem_of_dom.
  pose proof (unvisited_hwm _ t hwm W ltac:(left) Hq) as Hh. simpl in Hh.
  pose proof (topic_safe _ W) as Hs. unfold safe_step in Hs. cbn [group_exec] in Hs. unfold catchup_topic in Hs.
  cbn [gr_catchup gr_session gr_tester] in Hs. rewrite Hq in Hs. pose proof (prefix_length _ _ (gi_prefix _ W t)) as Hp.
  rewrite length_app in Hp. simpl in Hp.
  destruct (messagesFrom_ok t hwm (ct_tester x) (gi_tester _ W)) as (Em & Hlen & _ & _); [unfold topic_len; lia|].
  rewrite Em in Hs. simpl in Hs. exists hwm. eexists. split; [done|]. split; [exact Em|]. split.
  - destruct Ix as [I1 I2 I3 I4 I5 I6 I7 I8 I9 I10]. by constructor.
  - intros Hne. destruct (decide (r <= rank t)%nat) as [Hr|]; [|lia]. destruct Hne. apply nil_length_inv.
    rewrite (ck_queues _ _ Ix) in Ht. pose proof (begin_delivered t Ht Hr) as Hd. rewrite (kept_len r tst0 (ct_tester x) t) in Hlen;
      [|apply (ck_kept _ _ Ix)|lia].
    destruct (ck_still _ _ Ix) as (l & Hl & _). unfold delivered in Hh, Hd. rewrite Hl, filter_app, fmap_app, length_app in Hh. lia.
Qed.

Lemma push_claims_ok cid topic topics began msgs x n :
  catching_inv x (Catchup topic msgs topics n began) -> (msgs <> [] -> (rank topic < r)%nat) ->
  exists x' n', push_claims react sched cid topic topics msgs x = Ret x' /\ catching_inv x' (Catchup topic [] topics n' began) /\
    length (cs_delivered (ct_session x')) = (length (cs_delivered (ct_session x)) + length msgs)%nat.
Proof.
  revert x n. induction msgs as [|m msgs IH]; intros x n Ix Hr; [exists x, n; split_and!; [done|done|simpl; lia]|]. simpl.
  pose proof (running cid topics (m :: msgs) x) as Hm. destruct (sched cid topics (m :: msgs) x) as [moves other]. simpl in Hm.
  destruct (exec_moves_ok moves x _ Hm Ix) as (x1 & -> & I1 & E1). simpl.
  rewrite (catching_ctx _ _ I1). simpl.
  destruct (catching_push cid x1 topic m msgs topics n began I1 (Hr ltac:(done))) as (s & -> & Ed & I2). simpl.
  destruct (IH _ _ I2) as (x' & n' & E & I' & Hlen); [intros _; by apply Hr|]. exists x', n'. split_and!; [done|done|].
  simpl in Hlen. rewrite Hlen, Ed, E1, length_app. simpl. lia.
Qed.

Lemma session_topics_ok cid topics began top x n :
  catching_inv x (Catchup top [] topics n began) -> Forall (fun t => t ∈ dom (cs_queues s0)) topics ->
  exists k x' top' n', session_topics react sched cid topics x = Ret (k, x') /\ catching_inv x' (Catchup top' [] [] n' began) /\
    Z.of_nat (length (cs_delivered (ct_session x'))) = Z.of_nat (length (cs_delivered (ct_session x))) + k.
Proof.
  revert top x n. induction topics as [|t topics IH]; intros top x n Ix HF; [exists 0, x, top, n; split_and!; [done|done|lia]|].
  apply Forall_cons in HF as [Ht HF]. simpl.
  destruct (exec_moves_ok _ x _ (running cid (t :: topics) [] x) Ix) as (x1 & -> & I1 & E1). simpl.
  destruct (catching_topic x1 top t topics n began I1 Ht) as (hwm & msgs & -> & -> & I2 & Hr). simpl.
  destruct (push_claims_ok cid t topics began msgs x1 n I2 Hr) as (x2 & n2 & -> & I3 & Hl). simpl.
  destruct (IH t x2 n2 I3 HF) as (k & x' & top' & n' & -> & I' & Hl'). simpl. eexists _, _, _, _. split; [done|]. split; [exact I'|].
  rewrite Hl', Hl, E1. lia.
Qed.

Lemma catching_end x top n began k :
  catching_inv x (Catchup top [] [] n began) -> ct_tasks x = [] -> cs_wgMessages (ct_session x) = 0 ->
  (forall t, t ∈ dom (cs_queues s0) -> began !! t = Some (length (topic_messages t tst0))) ->
  Z.of_nat (length (cs_delivered (ct_session x))) = Z.of_nat (length (cs_delivered s0)) + k ->
  let s := ct_session x in let tst := ct_tester x in
  0 <= k /\ group_inv (mkGroup tst s NoCatchup []) /\ grows tst0 tst /\ kept r tst0 tst /\ dom (cs_queues s) = dom (cs_queues s0) /\
  (forall t, topic_len t tst + (others tst + session_credit tst s) <= M) /\
  (forall t, t ∈ dom (cs_queues s0) -> topic_len t tst0 <= Z.of_nat (length (delivered t s))) /\
  (k = 0 -> tst = tst0 /\ s = s0) /\ (r = 0%nat -> k = 0).
Proof.
  intros [I1 I2 I3 I4 I5 I6 I7 I8 I9 I10] Et Hwg Hbegan Hk s tst. destruct I10 as (l & Hl & Hstill).
  assert (k = Z.of_nat (length l)) as ->. { rewrite Hl, length_app in Hk. lia. }
  assert (group_inv (mkGroup tst s NoCatchup [])) as W.
  { pose proof (return_safe true _ I1) as Hs. unfold safe_step in Hs. cbn [group_exec] in Hs. unfold catchup_return in Hs.
    cbn [gr_catchup gr_session] in Hs. rewrite Hwg in Hs. simpl in Hs.
    eapply group_inv_grows; [apply grows_refl|exact (gi_tester _ I1)|exact Hs]. }
  split_and!; try done.
  - lia.
  - intros t. specialize (I9 t). rewrite Et in I9. unfold tasks_credit in I9. simpl in I9. fold s tst in I9. lia.
  - intros t Ht. pose proof (gi_catchup _ I1) as (_ & _ & _ & _ & H). specialize (H t _ ltac:(apply not_elem_of_nil) (Hbegan t Ht)).
    simpl in H. unfold topic_len. fold s in H. destruct (decide (t = top)); simpl in H; lia.
  - intros Hz. destruct Hstill as [Hne|(? & ? & _)]; [|done]. by destruct l.
  - intros Hr0. destruct l as [|[t m] l]; [done|exfalso].
    assert ((t, m) ∈ cs_delivered s) as Hm by (unfold s; rewrite Hl; apply elem_of_app; right; left).
    assert (t ∈ dom (cs_queues s0)) as Ht by (rewrite <- I8; apply elem_of_dom; exact (gi_topics _ I1 t m Hm)).
    pose proof (begin_delivered t Ht ltac:(lia)) as Hd. pose proof (kept_len r tst0 (ct_tester x) t I6 ltac:(lia)) as Hlen.
    pose proof (prefix_length _ _ (gi_prefix _ W t)) as Hp. rewrite length_app in Hp. simpl in Hp.
    unfold delivered in Hd, Hp. unfold s in Hp. rewrite Hl, filter_app, fmap_app, length_app, filter_cons, decide_True in Hp by done.
    unfold topic_len in *. simpl in Hp. fold tst in Hlen. lia.
Qed.

Lemma catching_begin order :
  order ≡ₚ elements (dom (cs_queues s0)) -> (forall t, topic_len t tst0 + (others tst0 + session_credit tst0 s0) <= M) ->
  exists began, (forall t, t ∈ dom (cs_queues s0) -> began !! t = Some (length (topic_messages t tst0))) /\
    catching_inv (mkCatching tst0 s0 []) (Catchup "" [] order 0 began).
Proof.
  intros Ho HM. pose proof (begin_safe order _ begin_inv) as Hs. unfold safe_step in Hs. cbn [group_exec] in Hs.
  unfold catchup_begin in Hs. cbn [gr_catchup gr_session gr_tester] in Hs. rewrite decide_True in Hs by done. eexists. split.
  2:{ constructor; cbn [ct_tester ct_session ct_tasks]; [exact Hs|set_solver| |constructor|set_solver|done|apply grows_refl|done| |].
      - apply leibniz_equiv, equiv_empty. intros key Hk. destruct (gi_waiting _ begin_inv key Hk) as (t & m & Hm & ->).
        destruct (gi_unvisited _ begin_inv t m I Hm Hk).
      - intros t. specialize (HM t). unfold tasks_credit. simpl. lia.
      - exists []. rewrite app_nil_r. split; [done|by right]. }
  intros t [hwm Hq]%elem_of_dom. rewrite map_lookup_imap, Hq. done.
Qed.

(** A catch-up of a session returns, however its steps and those of the processor interleave. *)
Lemma session_catchup_ok cid :
  (forall t, topic_len t tst0 + (others tst0 + session_credit tst0 s0) <= M) ->
  exists n s tst, session_catchup react visit sched cid s0 tst0 = Ret (n, s, tst) /\ 0 <= n /\
    group_inv (mkGroup tst s NoCatchup []) /\ grows tst0 tst /\ kept r tst0 tst /\ dom (cs_queues s) = dom (cs_queues s0) /\
    (forall t, topic_len t tst + (others tst + session_credit tst s) <= M) /\
    (forall t, t ∈ dom (cs_queues s0) -> topic_len t tst0 <= Z.of_nat (length (delivered t s))) /\
    (n = 0 -> tst = tst0 /\ s = s0) /\ (r = 0%nat -> n = 0).
Proof.
  intros HM. set (order := (visit Z (cs_queues s0)).*1).
  assert (order ≡ₚ elements (dom (cs_queues s0))) as Ho.
  { apply NoDup_Permutation; [by apply visit_NoDup|apply NoDup_elements|]. intros t. unfold order.
    rewrite elem_of_elements, elem_of_dom, visit_perm, list_elem_of_fmap. split.
    - intros ([? hwm] & -> & H%elem_of_map_to_list). by exists hwm.
    - intros [hwm Hq]. exists (t, hwm). split; [done|]. by apply elem_of_map_to_list. }
  destruct (catching_begin order Ho HM) as (began & Hbegan & I0).
  destruct (session_topics_ok cid order began _ _ _ I0) as (k & x1 & top & n1 & E1 & I1 & Hk).
  { apply Forall_forall. intros t Ht. rewrite Ho in Ht. by apply elem_of_elements. }
  unfold session_catchup. fold order. rewrite E1. cbn [mbind outcome_bind].
  pose proof (running cid [] [] x1) as Hm. destruct (sched cid [] [] x1) as [moves other]. simpl in Hm.
  destruct (exec_moves_ok moves x1 _ Hm I1) as (x2 & -> & I2 & E2). cbn [mbind outcome_bind]. rewrite (catching_ctx _ _ I2). simpl.
  destruct (finish_tasks_ok _ x2 _ I2 eq_refl) as (x3 & -> & I3 & Et & E3). cbn [mbind outcome_bind].
  assert (cs_wgMessages (ct_session x3) = 0) as Hwg.
  { etransitivity; [exact (gi_wg _ (ck_group _ _ I3))|]. simpl. by rewrite (ck_waiting _ _ I3), Et. }
  rewrite Hwg. simpl. exists k, (ct_session x3), (ct_tester x3). split; [done|]. rewrite <- E2, <- E3 in Hk. simpl in Hk.
  exact (catching_end _ _ _ _ _ I3 Et Hwg Hbegan Hk).
Qed.
End session.

(** ** Clients *)

(** A client whose topics from stage [r] on have been read. *)
Record settled (r : nat) (tst : Tester) (c : client) : Prop := {
  se_group s t hwm : c_consumerGroup c = Some (Some s) -> cs_queues s !! t = Some hwm -> (r <= rank t)%nat -> hwm = topic_len t tst;
  se_consumer t pcm : cmk_partConsumers (c_consumer c) !! t = Some pcm -> (r <= rank t)%nat -> pcm_hwm pcm = topic_len t tst
}.

Lemma settled_kept r r' tst tst' c :
  (r <= S r')%nat -> kept r tst tst' -> settled r' tst c -> settled r' tst' c.
Proof.
  intros Hr Hk [H1 H2]. constructor.
  - intros s t hwm Hc Ht Hrt. rewrite (kept_len r tst tst') by (done || lia). by eapply H1.
  - intros t pcm Ht Hrt. rewrite (kept_len r tst tst') by (done || lia). by eapply H2.
Qed.

Definition client_credit (tst : Tester) (c : client) : Z :=
  match c_consumerGroup c with Some (Some s) => session_credit tst s | _ => 0 end.

Lemma client_credit_push e tst c : client_credit (push_all [e] tst) c <= client_credit tst c + follow (em_topic e).
Proof.
  unfold client_credit. pose proof (follow_nonneg (em_topic e)). destruct (c_consumerGroup c) as [[s|]|]; [|lia..].
  apply session_credit_push.
Qed.

Lemma client_credit_nonneg tst tst' c : client_ok tst c -> grows tst tst' -> 0 <= client_credit tst' c.
Proof.
  intros Hok G. unfold client_credit. destruct (c_consumerGroup c) as [[s|]|] eqn:Es; [|lia..].
  apply zsum_nonneg. intros t _. pose proof (prefix_length _ _ (gi_prefix _ (co_group _ _ Hok s Es) t)) as Hp. rewrite length_app in Hp. simpl in Hp.
  pose proof (grows_len _ _ t G). pose proof (follow_nonneg t). unfold unread, topic_len in *. nia.
Qed.

(** A catch-up of the table consumers returns with all of them at the end. *)
Lemma consumers_catchup_ok l cm tst r :
  tester_wf tst -> NoDup l.*1 ->
  (forall t pcm, (t, pcm) ∈ l -> pcm_topic pcm = t /\ 0 <= pcm_hwm pcm <= topic_len t tst /\ ((r <= rank t)%nat -> pcm_hwm pcm = topic_len t tst)) ->
  exists n cm', consumers_catchup range l cm tst = Ret (n, cm') /\
    (forall t, t ∉ l.*1 -> cmk_partConsumers cm' !! t = cmk_partConsumers cm !! t) /\
    (forall t pcm, t ∈ l.*1 -> cmk_partConsumers cm' !! t = Some pcm -> pcm_hwm pcm = topic_len t tst) /\ (r = 0%nat -> n = 0).
Proof.
  intros W. revert cm. induction l as [|[t pcm] l IH]; intros cm Hnd Hpos.
  { exists 0, cm. split_and!; try done. set_solver. }
  destruct (Hpos t pcm) as (Et & Hp & Hr); [left|]. apply NoDup_cons in Hnd as [Hnt Hnd]. simpl.
  rewrite catchup_ok by (rewrite ?Et; done). rewrite Et. simpl.
  destruct (IH (mkConsumerMock (cmk_requiredTopics cm)
    (<[t := mkPartConsumer t (Z.of_nat (length (topic_messages t tst)))]> (cmk_partConsumers cm)))) as (n & cm' & E & Hout & Hat & Hz).
  - done.
  - intros t' p Htp. apply Hpos. by right.
  - rewrite E. simpl. eexists _, _. split; [done|]. split_and!.
    + intros t' Hn. rewrite Hout by set_solver. simpl. apply lookup_insert_ne. set_solver.
    + intros t' p Hin Hc. destruct (decide (t' ∈ l.*1)) as [Hi|Hi]; [by eapply Hat|]. assert (t' = t) as -> by set_solver.
      rewrite Hout in Hc by done. simpl in Hc. rewrite lookup_insert_eq in Hc. by injection Hc as <-.
    + intros ->. rewrite (Hz eq_refl), length_drop. specialize (Hr ltac:(lia)). unfold topic_len in Hr. lia.
Qed.

(** The client after a catch-up, from what it was before. *)
Record caught (r : nat) (M : Z) (others : Tester -> Z) (tst tst' : Tester) (n : Z) (c c' : client) : Prop := {
  ca_count : 0 <= n;
  ca_ok : client_ok tst' c';
  ca_session : c_consumerGroup c' <> Some None;
  ca_grows : grows tst tst';
  ca_wf : tester_wf tst';
  ca_kept : kept r tst tst';
  ca_credit : forall t, topic_len t tst' + (others tst' + client_credit tst' c') <= M;
  ca_settled : settled (pred r) tst' c';
  ca_none : n = 0 -> tst' = tst /\ c' = c /\ caught_up tst c;
  ca_end : r = 0%nat -> n = 0
}.

(** The catch-up of the group of a client, if it has one. *)
Lemma group_catchup_ok r M others c tst :
  (forall e tst, others (push_all [e] tst) <= others tst + (C - 1) * follow (em_topic e)) ->
  (forall tst', grows tst tst' -> 0 <= others tst') -> M < 2 ^ 63 ->
  tester_wf tst -> client_ok tst c -> c_consumerGroup c <> Some None -> settled r tst c ->
  (forall t, topic_len t tst + (others tst + client_credit tst c) <= M) ->
  exists n cg tst',
    match c_consumerGroup c with
    | None => Ret (0, None, tst)
    | Some None => Panic (ErrNew "There is currently no session. Cannot catchup, but we shouldn't be at this point")
    | Some (Some s) => '(n, s, tst) ← session_catchup react visit sched (c_clientID c) s tst; Ret (n, Some (Some s), tst)
    end = Ret (n, cg, tst') /\
    let c' := mkClient (c_clientID c) cg (c_consumer c) in
    0 <= n /\ client_ok tst' c' /\ cg <> Some None /\ grows tst tst' /\ tester_wf tst' /\ kept r tst tst' /\
    (forall t, topic_len t tst' + (others tst' + client_credit tst' c') <= M) /\
    (forall s t hwm, cg = Some (Some s) -> cs_queues s !! t = Some hwm -> topic_len t tst <= hwm <= topic_len t tst') /\
    (n = 0 -> tst' = tst /\ c' = c) /\ (r = 0%nat -> n = 0).
Proof.
  intros Hop Hon HM W Hok Hg Hs Hcr. destruct (c_consumerGroup c) as [[s|]|] eqn:Eg; [|done|].
  - unfold client_credit in Hcr. rewrite Eg in Hcr.
    destruct (session_catchup_ok r M others s tst Hop Hon HM (co_group _ _ Hok s Eg) (fun t hwm => se_group _ _ _ Hs s t hwm Eg) (c_clientID c) Hcr)
      as (n & s' & tst' & E & Hn & W' & G & Hk & Hd & Hcr' & Hdel & Hz & Hr).
    rewrite E. simpl. eexists _, _, _. split; [done|]. pose proof (gi_tester _ W') as Wt.
    split_and!; try done.
    + pose proof (client_ok_grows c _ _ G Wt Hok) as [_ H2]. constructor; simpl; [by intros ? [= <-]|done].
    + intros ? t hwm [= <-] Ht. pose proof (unvisited_hwm _ t hwm W' I Ht) as Hh. simpl in Hh.
      pose proof (prefix_length _ _ (gi_prefix _ W' t)) as Hp. rewrite length_app in Hp. simpl in Hp.
      assert (t ∈ dom (cs_queues s)) as Htd by (rewrite <- Hd; by eapply elem_of_dom_2). specialize (Hdel t Htd). unfold topic_len in *. lia.
    + intros Hn0. destruct (Hz Hn0) as [-> ->]. split; [done|]. destruct c. simpl in *. congruence.
  - eexists _, _, _. split; [done|]. unfold client_credit in *. rewrite Eg in Hcr. simpl. split_and!; try done.
    + destruct Hok as [_ H2]. by constructor.
    + intros _. split; [done|]. destruct c. simpl in *. congruence.
Qed.

Lemma client_catchup_ok r M others c tst :
  (forall e tst, others (push_all [e] tst) <= others tst + (C - 1) * follow (em_topic e)) ->
  (forall tst', grows tst tst' -> 0 <= others tst') -> M < 2 ^ 63 ->
  tester_wf tst -> client_ok tst c -> c_consumerGroup c <> Some None -> settled r tst c ->
  (forall t, topic_len t tst + (others tst + client_credit tst c) <= M) ->
  exists n c' tst', client_catchup react visit range sched c tst = Ret (n, c', tst') /\ caught r M others tst tst' n c c'.
Proof.
  intros Hop Hon HM W Hok Hg Hs Hcr.
  destruct (group_catchup_ok r M others c tst Hop Hon HM W Hok Hg Hs Hcr)
    as (n & cg & tst' & E1 & Hn & Hok1 & Hcg & G & W' & Hk & Hcr' & Hpos & Hz & Hr).
  pose proof (co_consumer _ _ (client_ok_grows c _ _ G W' Hok)) as Hcons.
  assert (forall t pcm, (t, pcm) ∈ visit _ (cmk_partConsumers (c_consumer c)) -> cmk_partConsumers (c_consumer c) !! t = Some pcm) as Hin
    by (intros t pcm; by apply visit_elem).
  destruct (consumers_catchup_ok (visit _ (cmk_partConsumers (c_consumer c))) (c_consumer c) tst' r W') as (m & cm' & E2 & Hout & Hat & Hz2).
  - by apply visit_NoDup.
  - intros t pcm Ht%Hin. destruct (Hcons t pcm Ht) as [Etop Hp]. split; [done|]. split; [done|]. intros Hrt.
    rewrite (kept_len r tst tst') by (done || lia). by eapply se_consumer.
  - destruct (consumers_catchup_spec _ _ _ _ _ _ E2 W' (visit_NoDup _ visit_perm _) Hin Hcons) as (Hm & Hcm & Hz3).
    unfold client_catchup. rewrite E1. simpl. rewrite E2. simpl. eexists _, _, _. split; [done|]. constructor; simpl; try done.
    + lia.
    + destruct Hok1 as [H1 _]. by constructor.
    + constructor; simpl.
      * intros s t hwm Es Ht Hrt. specialize (Hpos s t hwm Es Ht). pose proof (kept_len r tst tst' t Hk ltac:(lia)). lia.
      * intros t pcm Ht Hrt. apply (Hat t pcm); [|done]. destruct (decide (t ∈ (visit _ (cmk_partConsumers (c_consumer c))).*1)) as [|Hn'']; [done|].
        exfalso. apply Hn'', list_elem_of_fmap. exists (t, pcm). split; [done|]. apply visit_elem; [done|]. by rewrite <- Hout.
    + intros Hsum. destruct (Hz ltac:(lia)) as [-> Ec]. destruct (Hz3 ltac:(lia)) as [-> Hall].
      split_and!; [done|exact Ec|]. constructor.
      * intros s t hwm Es Ht. rewrite <- Ec in Es. simpl in Es. specialize (Hpos s t hwm Es Ht). lia.
      * intros t pcm Ht. apply Hall. by apply visit_elem.
    + intros Hr0. rewrite (Hr Hr0), (Hz2 Hr0). done.
Qed.

(** ** Rounds *)

(** What can still follow from the messages that the clients were not handed. *)
Definition hub_credit (h : Hub) : Z := zsum (fun x => client_credit (h_tester h) x.2) (map_to_list (h_clients h)).

(** Nothing overflows even if every message that can follow is emitted. *)
Record hub_fits (M : Z) (h : Hub) : Prop := {
  hf_ok : hub_ok h;
  hf_size : Z.of_nat (size (h_clients h)) = C;
  hf_credit : forall t, topic_len t (h_tester h) + hub_credit h <= M;
  hf_session : forall cid c, h_clients h !! cid = Some c -> c_consumerGroup c <> Some None
}.

(** One client of many. *)
Definition others_of (cid : string) (h : Hub) (tst : Tester) : Z := zsum (fun x => client_credit tst x.2) (map_to_list (delete cid (h_clients h))).

Lemma hub_credit_split cid c tst clients :
  clients !! cid = Some c ->
  hub_credit (mkHub tst clients) = others_of cid (mkHub tst clients) tst + client_credit tst c.
Proof.
  intros Hc. unfold hub_credit, others_of. cbn [h_tester h_clients].
  rewrite <- (insert_delete_id clients cid c Hc) at 1. rewrite map_to_list_insert by apply lookup_delete_eq.
  cbn [zsum foldr snd]. unfold zsum. lia.
Qed.

Lemma others_push_ok cid c h :
  Z.of_nat (size (h_clients h)) = C -> h_clients h !! cid = Some c ->
  forall e tst, others_of cid h (push_all [e] tst) <= others_of cid h tst + (C - 1) * follow (em_topic e).
Proof.
  intros Hs Hc e tst. unfold others_of. etransitivity; [apply zsum_shift; intros x _; apply client_credit_push|].
  rewrite length_map_to_list, map_size_delete, Hc. apply elem_of_dom_2 in Hc as Hd.
  assert (size (h_clients h) <> 0)%nat by (rewrite <- size_dom, size_non_empty_iff; set_solver). simpl.
  replace (Z.of_nat (pred (size (h_clients h)))) with (C - 1) by lia. lia.
Qed.

Lemma client_step_ok cid c h r M :
  hub_fits M h -> M < 2 ^ 63 -> h_clients h !! cid = Some c -> settled r (h_tester h) c ->
  exists n c' tst', client_catchup react visit range sched c (h_tester h) = Ret (n, c', tst') /\
    caught r M (others_of cid h) (h_tester h) tst' n c c' /\ hub_fits M (mkHub tst' (<[cid := c']> (h_clients h))).
Proof.
  intros [Hok Hs Hcr Hss] HM Hc Hset. destruct h as [tst clients]. cbn [h_tester h_clients] in *.
  destruct (client_catchup_ok r M (others_of cid (mkHub tst clients)) c tst) as (n & c' & tst' & E & Hca); try done.
  - by eapply others_push_ok.
  - intros tst' G. apply zsum_nonneg. intros [cid' c'] Hin%elem_of_map_to_list. apply lookup_delete_Some in Hin as [_ Hc'].
    eapply client_credit_nonneg; [by eapply (ho_clients _ Hok)|done].
  - apply Hok.
  - by eapply (ho_clients _ Hok).
  - by eapply Hss.
  - intros t. rewrite <- hub_credit_split by done. apply Hcr.
  - exists n, c', tst'. split; [done|]. split; [done|]. destruct Hca as [H1 H2 H3 G W Hk Hcr' _ _ _]. constructor; cbn [h_tester h_clients].
    + constructor; cbn [h_tester h_clients]; [done|]. intros cid' c1. rewrite lookup_insert. case_decide; [by intros [= <-]|].
      intros Hc1. eapply client_ok_grows; [done|done|]. by eapply (ho_clients _ Hok).
    + by rewrite map_size_insert_Some by (by eexists).
    + intros t. rewrite (hub_credit_split cid c') by apply lookup_insert_eq. unfold others_of. cbn [h_clients].
      rewrite delete_insert_eq. apply Hcr'.
    + intros cid' c1. rewrite lookup_insert. case_decide; [by intros [= <-]|]. apply Hss.
Qed.

(** A round moves the reading of all clients one stage down. *)
Lemma round_ok l h r M :
  hub_fits M h -> M < 2 ^ 63 -> NoDup l.*1 -> (forall cid c, (cid, c) ∈ l -> h_clients h !! cid = Some c) ->
  (forall cid c, h_clients h !! cid = Some c -> settled (if decide (cid ∈ l.*1) then r else pred r) (h_tester h) c) ->
  exists n h', round react visit range sched l h = Ret (n, h') /\ hub_fits M h' /\ grows (h_tester h) (h_tester h') /\
    (forall cid c, h_clients h' !! cid = Some c -> settled (pred r) (h_tester h') c) /\
    0 <= n /\ (n = 0 -> h' = h /\ forall cid c, (cid, c) ∈ l -> caught_up (h_tester h) c) /\ (r = 0%nat -> n = 0).
Proof.
  intros Hf HM. revert h Hf. induction l as [|[cid c] l IH]; intros h Hf Hnd Hin Hcl.
  { exists 0, h. split_and!; try done. intros _. split; [done|set_solver]. }
  assert (h_clients h !! cid = Some c) as Hc by (apply Hin; left). apply NoDup_cons in Hnd as [Hncid Hnd].
  pose proof (Hcl cid c Hc) as Hs. rewrite decide_True in Hs by (simpl; left).
  destruct (client_step_ok cid c h r M Hf HM Hc Hs) as (n & c' & tst' & E1 & [H1 _ _ G _ Hk _ Hs' Hz He] & Hf1). simpl. rewrite E1. simpl.
  destruct (IH _ Hf1 Hnd) as (m & h' & E2 & Hf2 & G2 & Hall & Hm & Hz2 & He2).
  - intros cid' c1 Hi. simpl. rewrite lookup_insert_ne; [apply Hin; by right|]. intros <-. apply Hncid. apply list_elem_of_fmap. by exists (cid, c1).
  - simpl. intros cid' c1. rewrite lookup_insert. case_decide as Hd.
    + intros [= <-]. subst cid'. by rewrite decide_False.
    + intros Hc1. specialize (Hcl cid' c1 Hc1). destruct (decide (cid' ∈ l.*1)) as [Hi|Hi].
      * rewrite decide_True in Hcl by (simpl; by right). eapply (settled_kept r); [lia|done|done].
      * rewrite decide_False in Hcl by (simpl; set_solver). eapply (settled_kept r); [lia|done|done].
  - rewrite E2. simpl in *. exists (n + m), h'. split; [done|]. split_and!; try done.
    + by eapply grows_trans.
    + lia.
    + intros Hsum. destruct (Hz ltac:(lia)) as (-> & -> & Hup). destruct (Hz2 ltac:(lia)) as [-> Hall2]. split.
      * destruct h as [tst cs]. simpl in *. f_equal. by apply insert_id.
      * intros cid' c1 [[= -> ->]|Hi]%elem_of_cons; [done|by eapply Hall2].
    + intros Hr. rewrite (He Hr), (He2 Hr). done.
Qed.

(** When everything from stage [r] on has been read, [r] rounds read the rest and one more finds nothing. *)
Lemma waitForClients_ok r h M :
  hub_fits M h -> M < 2 ^ 63 -> (forall cid c, h_clients h !! cid = Some c -> settled r (h_tester h) c) ->
  exists h', waitForClients react visit range sched (S r) h = Ret h' /\ grows (h_tester h) (h_tester h') /\
    forall cid c, h_clients h' !! cid = Some c -> caught_up (h_tester h') c.
Proof.
  intros Hf HM. revert h Hf. induction r as [r IH] using lt_wf_ind. intros h Hf Hcl. cbn [waitForClients].
  destruct (round_ok (visit _ (h_clients h)) h r M Hf HM) as (n & h1 & E & Hf1 & G & Hall & Hn & Hz & He).
  - by apply visit_NoDup.
  - intros cid c. by apply visit_elem.
  - intros cid c Hc. rewrite decide_True by (apply list_elem_of_fmap; exists (cid, c); split; [done|by apply visit_elem]). by eapply Hcl.
  - rewrite E. simpl. destruct (Z.eqb_spec n 0) as [Hn0|Hn0].
    + destruct (Hz Hn0) as [-> Hup]. exists h. split_and!; [done|done|]. intros cid c Hc. apply (Hup cid). by apply visit_elem.
    + destruct r as [|r]; [by destruct Hn0; apply He|]. destruct (IH r ltac:(lia) h1 Hf1 Hall) as (h' & E' & G' & Hup).
      exists h'. split; [exact E'|]. split; [by eapply grows_trans|done].
Qed.
End rounds.

(** ** Properties *)

(** C28. [Consume] of the tester returns, with everything consumed: if the processors pass messages on
    without cycles (what is emitted in reaction to a message goes to topics of lower stages than its
    own, at most [K] messages), [R] + 2 rounds are enough for [R] stages above the lowest; then the
    message is in its topic behind those that were there, and every consumer group and every table
    consumer of every client is at the end of the queue of each of its topics.  This holds in whatever
    order the clients and their topics are visited, and however the processors' emits and marks
    interleave with the catch-up of their session, as long as the context of no session ends.  The
    queues have to have room for the messages that can follow from those that were not handed out yet:
    the number of messages of a topic plus, for each session and message it was not handed, the number
    of descendants that [descendants] bounds, stays below 2^63. *)
Theorem Consume_returns react (visit : forall A, gmap string A -> list (string * A)) range sched consuming
    topic key msg isNil options (h : Hub) (tst : Tester) (rank : string -> nat) (R : nat) (K : Z) :
  (forall A (m : gmap string A), visit A m ≡ₚ map_to_list m) ->
  (forall cid topics msgs x, MCancel ∉ (sched cid topics msgs x).1) ->
  hub_ok h -> (forall cid c, h_clients h !! cid = Some c -> c_consumerGroup c <> Some None) ->
  waitStartup visit consuming h = Ret tt ->
  tester_Consume topic key msg isNil options (h_tester h) = Ret tst ->
  (forall cid t m e, e ∈ react cid t m -> (rank (em_topic e) < rank t)%nat) -> (forall t, (rank t <= R)%nat) ->
  (forall cid t m, Z.of_nat (length (react cid t m)) <= K) ->
  (forall t, topic_len t tst + hub_credit rank K (Z.of_nat (size (h_clients h))) (mkHub tst (h_clients h)) < 2 ^ 63) ->
  exists h', hub_Consume react visit range sched consuming (R + 2) topic key msg isNil options h = Ret h' /\
    (exists m, m_key m = key /\ m_offset m = topic_len topic (h_tester h) /\
       (topic_messages topic (h_tester h) ++ [m]) `prefix_of` topic_messages topic (h_tester h')) /\
    forall cid c, h_clients h' !! cid = Some c -> caught_up (h_tester h') c.
Proof.
  intros Hv Hrun Hok Hss Hst Ht Hac HR HK Hroom. replace (R + 2)%nat with (S (S R)) in * by lia.
  destruct (tester_Consume_pushes _ _ _ _ _ _ _ Ht) as (data & hdr & Etst).
  pose proof (pushMessage_grows topic key data hdr (h_tester h)) as G. rewrite <- Etst in G.
  assert (0 <= hub_credit rank K (Z.of_nat (size (h_clients h))) (mkHub tst (h_clients h))) as Hcr.
  { apply zsum_nonneg. intros [cid c] Hc%elem_of_map_to_list. eapply client_credit_nonneg; [done|lia|by eapply ho_clients|done]. }
  assert (tester_wf tst) as W by (apply (proj2 G); [intros t; specialize (Hroom t); lia|by apply Hok]).
  destruct (waitForClients_ok react visit range sched Hv Hrun rank K (Z.of_nat (size (h_clients h))) Hac HK ltac:(lia)
    (S R) (mkHub tst (h_clients h)) (2 ^ 63 - 1)) as (h' & E & G' & Hup).
  - constructor; simpl; [|done| |done].
    + constructor; simpl; [done|]. intros cid c Hc. eapply client_ok_grows; [done|done|by eapply ho_clients].
    + intros t. specialize (Hroom t). lia.
  - lia.
  - intros cid c Hc. constructor; intros; specialize (HR t); lia.
  - exists h'. split; [|split; [|done]].
    + unfold hub_Consume. rewrite Hst. cbn [mbind outcome_bind]. rewrite Ht. cbn [mbind outcome_bind]. exact E.
    + cbn [h_tester] in G'. pose proof (proj1 G' topic) as Hp. rewrite Etst, pushMessage_messages, decide_True in Hp by done.
      eexists. split_and!; [| |exact Hp]; simpl; [done|].
      destruct (getOrCreateQueue_ok topic (h_tester h) (ho_tester _ Hok)) as (q & tst' & -> & _ & [_ Q2 _ _] & Em & _). simpl.
      unfold topic_len. by rewrite Q2, Em.
Qed.

Lemma Consume_returns_witness :
  exists h', hub_demo_run = Ret h' /\ forall cid c, h_clients h' !! cid = Some c -> caught_up (h_tester h') c.
Proof.
  destruct (tester_Consume "in" "k" (VString "hi") false [] (h_tester hub_demo)) as [tst| |] eqn:Ht; [|by vm_compute in Ht..].
  destruct (Consume_returns hub_react hub_visit (fun h => map_to_list (entries h)) hub_sched (fun _ => true) "in" "k" (VString "hi") false []
    hub_demo tst (fun t => if String.eqb t "in" then 1 else 0)%nat 1 1) as (h' & E & _ & Hup).
  - done.
  - intros cid topics msgs x. unfold hub_sched. set_solver.
  - apply hub_demo_ok.
  - intros cid c Hc. destruct (hub_demo_client cid c Hc) as (t & Eg & _). by rewrite Eg.
  - vm_compute. reflexivity.
  - exact Ht.
  - intros cid t m e. unfold hub_react. destruct (String.eqb t "in"); [|set_solver]. intros ->%list_elem_of_singleton. simpl. lia.
  - intros t. destruct (String.eqb t "in"); lia.
  - intros cid t m. unfold hub_react. destruct (String.eqb t "in"); simpl; lia.
  - intros t. assert (topic_len t tst <= 1) as Hl.
    { destruct (tester_Consume_pushes _ _ _ _ _ _ _ Ht) as (data & hdr & ->). unfold topic_len.
      rewrite pushMessage_messages, length_app. change (topic_messages t (h_tester hub_demo)) with (@nil message). case_decide; simpl; lia. }
    eapply Z.le_lt_trans; [apply Z.add_le_mono_r, Hl|]. clear Hl. vm_compute in Ht. injection Ht as <-. vm_compute. reflexivity.
  - exists h'. split; [exact E|exact Hup].
Defined.
