(* ===== verification/TesterTable.v ===== *)
(** * Tables on the tester

    The composition of [partition_table.go] with the topic manager and the table consumers of the
    [tester] package: a table that recovers from the tester gets what is in the queue of its topic. *)
From Stdlib Require Import ZArith Lia.
From stdpp Require Import base gmap strings list sorting.
From S2P Require Import Prelude Multierr Signal Codec Storage Memory Headers Stats Proxy PartitionTable Recovery Promise Graph.
From S2P Require Import TopicManager Tester.
Open Scope Z_scope.

(** The queue of a topic as the table sees it. *)
Definition queue_log (range : Headers -> list (string * bytes)) (topic : string) (tst : Tester) : list ConsumerMessage :=
  consumer_message range topic <$> topic_messages topic tst.

(** [ConsumePartition] of the tester's consumer, followed by a catch-up of the consumer it returned: the
    messages the table receives.  A catch-up that panics sends nothing. *)
Definition tester_consume (range : Headers -> list (string * bytes)) (cm : consumerMock) (tst : Tester) (now : Z)
    (topic : string) (partition offset : Z) : res (list load_event) :=
  let '(r, _, tst) := ConsumePartition topic partition offset cm tst in
  pcm ← r;
  match partConsumer_catchup range pcm tst with
  | Ret (sent, _, _) => Ok ((fun m => EvMsg m now false false) <$> sent)
  | _ => Ok []
  end.

(** One recovery against the tester: the offsets come from its topic manager, the messages from its
    consumer, opened where [load] asks for it; then the storage is marked. *)
Definition tester_env (range : Headers -> list (string * bytes)) (cm : consumerMock) (tst : Tester) (now : Z) : load_env :=
  mkLoadEnv (fun topic partition time => tm_GetOffset topic partition time tst) (tester_consume range cm tst now)
    [] [] [MDone] now false (fun _ => false).

(** ** Lemmas *)

Lemma queue_log_lookup range topic tst i m :
  queue_log range topic tst !! i = Some m -> tester_wf tst ->
  cm_Offset m = Z.of_nat i /\ exists x, topic_messages topic tst !! i = Some x /\ m = consumer_message range topic x.
Proof.
  unfold queue_log. rewrite list_lookup_fmap. intros (x & Hx & ->)%fmap_Some W. split; [|by exists x].
  destruct (getOrCreateQueue_ok topic tst W) as (q & tst' & _ & _ & [_ _ _ Q4] & Em & _). rewrite <- Em in Hx. simpl. by apply Q4.
Qed.

Lemma queue_log_len range topic tst : tester_wf tst -> Z.of_nat (length (queue_log range topic tst)) < 2 ^ 63.
Proof.
  intros W. unfold queue_log. rewrite length_fmap.
  destruct (getOrCreateQueue_ok topic tst W) as (q & tst' & _ & _ & [_ _ Q3 _] & Em & _). by rewrite <- Em.
Qed.

(** Lists whose offsets are their positions. *)
Lemma positions_sorted (l : list ConsumerMessage) (o : Z) :
  (forall i m, l !! i = Some m -> cm_Offset m = o + Z.of_nat i) -> log_sorted l.
Proof.
  revert o. induction l as [|m l IH]; intros o Hp; constructor.
  - apply (IH (o + 1)). intros i x Hx. rewrite (Hp (S i) x Hx). lia.
  - apply Forall_lookup. intros i x Hx. rewrite (Hp 0%nat m eq_refl), (Hp (S i) x Hx). lia.
Qed.

Lemma positions_filter (l : list ConsumerMessage) (o s : Z) :
  (forall i m, l !! i = Some m -> cm_Offset m = o + Z.of_nat i) ->
  filter (fun m => s <= cm_Offset m) l = drop (Z.to_nat (s - o)) l.
Proof.
  revert o. induction l as [|m l IH]; intros o Hp; [by rewrite drop_nil|].
  pose proof (Hp 0%nat m eq_refl) as Hm. simpl in Hm.
  assert (forall i x, l !! i = Some x -> cm_Offset x = o + 1 + Z.of_nat i) as Hp' by (intros i x Hx; rewrite (Hp (S i) x Hx); lia).
  destruct (decide (s <= o)) as [Hlt|Hge].
  - replace (Z.to_nat (s - o)) with 0%nat by lia. rewrite drop_0. rewrite filter_cons_True by lia. f_equal.
    rewrite (IH (o + 1) Hp'). by replace (Z.to_nat (s - (o + 1))) with 0%nat by lia.
  - rewrite filter_cons_False by lia. rewrite (IH (o + 1) Hp').
    replace (Z.to_nat (s - o)) with (S (Z.to_nat (s - (o + 1)))) by lia. done.
Qed.

Lemma ev_msgs_sent (now : Z) (sent : list (option ConsumerMessage)) :
  ev_msgs ((fun m => EvMsg m now false false) <$> sent) = omap id sent.
Proof. induction sent as [|[m|] sent IH]; cbn; [done|by f_equal|done]. Qed.

Lemma tester_kafka_log {S I} `{SL : StorageLaws S I} range topic tst :
  tester_wf tst -> (forall m, m ∈ topic_messages topic tst -> ~ st_reserved (m_key m)) ->
  kafka_log (queue_log range topic tst) (queue_log range topic tst) 0 (Z.of_nat (length (topic_messages topic tst))).
Proof.
  intros W Hk. set (l := queue_log range topic tst).
  assert (length l = length (topic_messages topic tst)) as Hl by (unfold l, queue_log; by rewrite length_fmap).
  pose proof (queue_log_len range topic tst W) as Hb. fold l in Hb.
  assert (forall i m, l !! i = Some m -> cm_Offset m = 0 + Z.of_nat i) as Hp.
  { intros i m Hi. by apply queue_log_lookup in Hi as [-> _]. }
  assert (forall m, m ∈ l -> 0 <= cm_Offset m < Z.of_nat (length l)) as Hr.
  { intros m [i Hi]%list_elem_of_lookup. rewrite (Hp i m Hi). apply lookup_lt_Some in Hi. lia. }
  rewrite <- Hl. constructor.
  - by eapply positions_sorted.
  - split; [done|]. intros l1 r l2 -> _. set_solver.
  - exact Hr.
  - split; [lia|]. intros r Hin. by apply Hr.
  - lia.
  - intros Hlt. destruct (lookup_lt_is_Some_2 l (length l - 1)) as [r Hi]; [lia|]. exists r.
    split; [by eapply list_elem_of_lookup_2|]. rewrite (Hp _ _ Hi). lia.
  - intros m [i Hi]%list_elem_of_lookup. apply queue_log_lookup in Hi as (_ & x & Hx & ->); [|done]. simpl.
    apply Hk. by eapply list_elem_of_lookup_2.
Qed.

(** The tester's consumer delivers the queue from any offset it is opened at. *)
Lemma tester_consume_ok range cm tst now topic partition o :
  tester_wf tst -> cmk_partConsumers cm !! topic = None -> 0 <= o <= Z.of_nat (length (topic_messages topic tst)) ->
  exists evs, tester_consume range cm tst now topic partition o = Ok evs /\ Forall (fun e => ev_quiet e = true) evs /\
    ev_msgs evs = filter (fun r => o <= cm_Offset r) (queue_log range topic tst).
Proof.
  intros W Hcm Ho. unfold tester_consume, ConsumePartition. rewrite Hcm. simpl.
  destruct (getOrCreateQueue_ok topic tst W) as (q & tst' & Eq & W' & _ & _ & Hsame). rewrite Eq. simpl.
  assert (topic_messages topic tst' = topic_messages topic tst) as Em by apply Hsame.
  rewrite catchup_ok by (simpl; rewrite ?Em; done). cbn [pcm_hwm pcm_topic]. rewrite Em. eexists. split; [done|]. split.
  - apply Forall_fmap, Forall_forall. done.
  - rewrite ev_msgs_sent, omap_sent, (positions_filter _ 0);
      [|intros i m Hi; apply queue_log_lookup in Hi as [-> _]; [lia|done]].
    unfold queue_log. by rewrite fmap_drop, Z.sub_0_r.
Qed.

(** ** Properties *)

(** C29. A table recovers from the tester: with the offsets of the tester's topic manager and the
    messages that its consumer sends when it is opened where [load] asks for it (with nil messages in
    between), [load] returns without error, and the running table reads for every key what the queue of
    the topic says, whichever storage it has, if that was right for every key without a message after
    the offset it stored, which is that of a message of the topic if there is one, and if the topic is
    not consumed yet and its keys are not reserved by the storage. *)
Theorem table_recovers_on_tester {S I} `{StorageLaws S I} range (cm : consumerMock) (tst : Tester)
    (p : PartitionTable S) (st : storageProxy S) (now : Z) :
  tester_wf tst -> table_ready p st -> cmk_partConsumers cm !! pt_topic p = None ->
  (forall m, m ∈ topic_messages (pt_topic p) tst -> ~ st_reserved (m_key m)) ->
  offsetNotStored = stored_offset st \/ 0 <= stored_offset st < Z.of_nat (length (topic_messages (pt_topic p) tst)) ->
  reflects (queue_log range (pt_topic p) tst) (stored_offset st) (st_contents (sp_Storage st)) ->
  exists p', load (tester_env range cm tst now) true p = Ret (None, p') /\ CurrentState p' = PartitionRunning /\
    forall key, ~ st_reserved key -> table_Get key p' = Ret (Ok (replay (queue_log range (pt_topic p) tst) ∅ !! key)).
Proof.
  intros W Hready Hcm Hk Hst Hc. set (topic := pt_topic p) in *. set (len := Z.of_nat (length (topic_messages topic tst))) in *.
  pose proof (queue_log_len range topic tst W) as Hb. unfold queue_log in Hb. rewrite length_fmap in Hb. fold len in Hb.
  destruct (load_undisturbed (tester_env range cm tst now) p st (queue_log range topic tst) (queue_log range topic tst) 0 len)
    as (p' & s' & Hl & Hr & _ & _ & _ & Hg); try done.
  - by apply tester_kafka_log.
  - constructor; fold topic; simpl; try done.
    + unfold mockGetOffset. simpl. f_equal. destruct (getOrCreateQueue_ok topic tst W) as (q & t' & -> & _ & [_ Q2 _ _] & Em & _).
      simpl. unfold queue_Hwm. by rewrite Q2, Em.
    + intros o Ho. destruct (tester_consume_ok range cm tst now topic (pt_partition p) o W Hcm Ho) as (evs & -> & Hq & Hm).
      exists evs, []. by rewrite app_nil_r.
    + by exists 0%nat, [].
  - unfold offsetNotStored in *. lia.
  - unfold offsetNotStored in *. lia.
  - by exists p'.
Qed.

Lemma table_recovers_on_tester_witness :
  let range := fun h => map_to_list (entries h) in let tst := push_all emits_demo tester_New in
  let u := @DefaultUpdate _ _ (memory_Storage id) in
  let st := mkProxy NewMemory "in" 0 false u None None in
  let '(ts, h) := newTableStats empty_heap in
  exists p' : PartitionTable memory,
    load (ST := memory_Storage id) (tester_env range newConsumerMock tst 0) true
      (mkPT "in" 0 table_signal0 (Some st) u ts h [] defaultStalledTimeout) = Ret (None, p') /\
    table_Get (ST := memory_Storage id) "k" p' = Ret (Ok (Some "1"%string)) /\
    table_Get (ST := memory_Storage id) "l" p' = Ret (Ok None).
Proof.
  intros range tst u st. destruct (newTableStats empty_heap) as [ts h].
  destruct (push_all_ok emits_demo tester_New) as [W _]; [done| |].
  { intros t. unfold topic_messages, tester_New. cbn [tt_topicQueues]. rewrite lookup_empty. simpl. lia. }
  destruct (table_recovers_on_tester (H0 := memory_Laws id) range newConsumerMock tst
    (mkPT "in" 0 table_signal0 (Some st) u ts h [] defaultStalledTimeout) st 0) as (p' & E & _ & Hg).
  - exact W.
  - constructor; [done|done|apply NewMemory_wf|done|apply table_signal0_ok].
  - reflexivity.
  - intros m _ [].
  - left. reflexivity.
  - apply reflects_empty. intros r [i Hi]%list_elem_of_lookup. apply queue_log_lookup in Hi as [-> _]; [|exact W].
    change (stored_offset st) with (-3). lia.
  - exists p'. split; [exact E|].
    split; rewrite Hg; [vm_compute; reflexivity|intros []|vm_compute; reflexivity|intros []].
Defined.
