(* ===== verification/MockConsumer.v ===== *)
(** * The mock consumer

    The first half of [mockautoconsumers.go]: the consumer of partitions with which tables and views are
    tested.  Messages and errors are yielded to it ahead, on buffered channels; violated expectations
    are reported to the test. *)
From Stdlib Require Import ZArith Lia.
From stdpp Require Import base gmap strings list.
From S2P Require Import Prelude Multierr Codec Headers Proxy.
Open Scope Z_scope.

Definition anyOffset : Z := -1000.
Definition errOutOfExpectations : error := ErrNew "error out of expectations".

(** ** Partition consumers *)

(** [sarama.ConsumerError] *)
Record ConsumerError : Type := mkConsumerError { ce_Topic : string; ce_Partition : Z; ce_Err : error }.

(** What [Close] returns: [errPartitionConsumerNotStarted], or the errors that were left. *)
Inductive close_error : Type := NotStarted | LeftErrors (l : list ConsumerError).

(** [type MockAutoPartitionConsumer struct]: the buffers of the two channels with their common capacity,
    and whether [singleClose] has closed them. *)
Record MockAutoPartitionConsumer : Type := mkAPC {
  apc_highWaterMarkOffset : Z;
  apc_topic : string;
  apc_partition : Z;
  apc_offset : Z;
  apc_messages : list ConsumerMessage;
  apc_errors : list ConsumerError;
  apc_cap : nat;
  apc_closed : bool;
  apc_consumed : bool;
  apc_errorsShouldBeDrained : bool;
  apc_messagesShouldBeDrained : bool
}.

Definition apc_set_chans (hwm : Z) (msgs : list ConsumerMessage) (errs : list ConsumerError) (closed consumed : bool)
    (pc : MockAutoPartitionConsumer) : MockAutoPartitionConsumer :=
  mkAPC hwm (apc_topic pc) (apc_partition pc) (apc_offset pc) msgs errs (apc_cap pc) closed consumed
    (apc_errorsShouldBeDrained pc) (apc_messagesShouldBeDrained pc).

(** A send on a buffered channel. *)
Definition chan_send {A} (x : A) (buf : list A) (cap : nat) (closed : bool) : outcome (list A) :=
  if closed then Panic (ErrNew "send on closed channel")
  else if (cap <=? length buf)%nat then Blocked else Ret (buf ++ [x]).

(** A receive: nothing if the channel is closed and empty. *)
Definition chan_recv {A} (buf : list A) (closed : bool) : outcome (option A * list A) :=
  match buf with
  | x :: buf => Ret (Some x, buf)
  | [] => if closed then Ret (None, []) else Blocked
  end.

(** A message with the topic, the partition and the offset it gets. *)
Definition stamp (topic : string) (partition offset : Z) (m : ConsumerMessage) : ConsumerMessage :=
  mkMsg topic partition (cm_Key m) (cm_Value m) offset (cm_Headers m) (cm_Timestamp m).

Definition apc_YieldMessage (m : ConsumerMessage) (pc : MockAutoPartitionConsumer) : outcome MockAutoPartitionConsumer :=
  let m := stamp (apc_topic pc) (apc_partition pc) (apc_highWaterMarkOffset pc) m in
  msgs ← chan_send m (apc_messages pc) (apc_cap pc) (apc_closed pc);
  Ret (apc_set_chans (int64 (apc_highWaterMarkOffset pc + 1)) msgs (apc_errors pc) (apc_closed pc) (apc_consumed pc) pc).

Definition apc_YieldError (e : error) (pc : MockAutoPartitionConsumer) : outcome MockAutoPartitionConsumer :=
  errs ← chan_send (mkConsumerError (apc_topic pc) (apc_partition pc) e) (apc_errors pc) (apc_cap pc) (apc_closed pc);
  Ret (apc_set_chans (apc_highWaterMarkOffset pc) (apc_messages pc) errs (apc_closed pc) (apc_consumed pc) pc).

(** The client receives from [Messages()] or [Errors()]. *)
Definition apc_Messages (pc : MockAutoPartitionConsumer) : outcome (option ConsumerMessage * MockAutoPartitionConsumer) :=
  '(m, msgs) ← chan_recv (apc_messages pc) (apc_closed pc);
  Ret (m, apc_set_chans (apc_highWaterMarkOffset pc) msgs (apc_errors pc) (apc_closed pc) (apc_consumed pc) pc).
Definition apc_Errors (pc : MockAutoPartitionConsumer) : outcome (option ConsumerError * MockAutoPartitionConsumer) :=
  '(e, errs) ← chan_recv (apc_errors pc) (apc_closed pc);
  Ret (e, apc_set_chans (apc_highWaterMarkOffset pc) (apc_messages pc) errs (apc_closed pc) (apc_consumed pc) pc).

Definition apc_AsyncClose (pc : MockAutoPartitionConsumer) : MockAutoPartitionConsumer :=
  if apc_closed pc then pc
  else apc_set_chans (apc_highWaterMarkOffset pc) (apc_messages pc) (apc_errors pc) true false pc.

(** The name of the partition in reports. *)
Definition apc_name (pc : MockAutoPartitionConsumer) : string := apc_topic pc +:+ "/" +:+ FormatInt (apc_partition pc).
Definition len_text {A} (l : list A) : string := FormatInt (Z.of_nat (length l)).

(** [Close]: its result, what it reports to the test, and the consumer with both channels drained. *)
Definition apc_Close (pc : MockAutoPartitionConsumer)
  : option close_error * list string * MockAutoPartitionConsumer :=
  if negb (apc_consumed pc)
  then (Some NotStarted, ["Expectations set on " +:+ apc_name pc +:+ ", but no partition consumer was started."]%string, pc)
  else
    let r1 := if apc_errorsShouldBeDrained pc && negb (bool_decide (apc_errors pc = []))
              then ["Expected the errors channel for " +:+ apc_name pc +:+ " to be drained on close, but found " +:+
                    len_text (apc_errors pc) +:+ " errors."]%string else [] in
    let r2 := if apc_messagesShouldBeDrained pc && negb (bool_decide (apc_messages pc = []))
              then ["Expected the messages channel for " +:+ apc_name pc +:+ " to be drained on close, but found " +:+
                    len_text (apc_messages pc) +:+ " messages."]%string else [] in
    let pc := apc_AsyncClose pc in
    let closeErr := match apc_errors pc with [] => None | l => Some (LeftErrors l) end in
    (closeErr, r1 ++ r2, apc_set_chans (apc_highWaterMarkOffset pc) [] [] (apc_closed pc) (apc_consumed pc) pc).

Definition ExpectMessagesDrainedOnClose (pc : MockAutoPartitionConsumer) : MockAutoPartitionConsumer :=
  mkAPC (apc_highWaterMarkOffset pc) (apc_topic pc) (apc_partition pc) (apc_offset pc) (apc_messages pc) (apc_errors pc)
    (apc_cap pc) (apc_closed pc) (apc_consumed pc) (apc_errorsShouldBeDrained pc) true.
Definition ExpectErrorsDrainedOnClose (pc : MockAutoPartitionConsumer) : MockAutoPartitionConsumer :=
  mkAPC (apc_highWaterMarkOffset pc) (apc_topic pc) (apc_partition pc) (apc_offset pc) (apc_messages pc) (apc_errors pc)
    (apc_cap pc) (apc_closed pc) (apc_consumed pc) true (apc_messagesShouldBeDrained pc).

(** ** The consumer *)

Section consumer.
(** Errors of sarama. *)
Context (ConfigurationError : string -> error) (ErrOutOfBrokers ErrUnknownTopicOrPartition : error).

(** [type MockAutoConsumer struct]: the buffer size of its configuration, the partition consumers by
    topic and partition, the metadata (a nil map until it is set; an entry may be a nil slice), and what
    was reported to the test. *)
Record MockAutoConsumer : Type := mkAC {
  ac_ChannelBufferSize : nat;
  ac_partitionConsumers : gmap string (gmap Z MockAutoPartitionConsumer);
  ac_metadata : option (gmap string (option (list Z)));
  ac_reports : list string
}.

Definition NewMockAutoConsumer (bufferSize : nat) : MockAutoConsumer := mkAC bufferSize ∅ None [].

Definition ac_find (topic : string) (partition : Z) (c : MockAutoConsumer) : option MockAutoPartitionConsumer :=
  m ← ac_partitionConsumers c !! topic; m !! partition.

(** The partition consumer behind the pointer is changed. *)
Definition ac_update (topic : string) (partition : Z) (pc : MockAutoPartitionConsumer) (c : MockAutoConsumer)
  : MockAutoConsumer :=
  mkAC (ac_ChannelBufferSize c) (alter (insert partition pc) topic (ac_partitionConsumers c)) (ac_metadata c) (ac_reports c).

Definition ac_report (l : list string) (c : MockAutoConsumer) : MockAutoConsumer :=
  mkAC (ac_ChannelBufferSize c) (ac_partitionConsumers c) (ac_metadata c) (ac_reports c ++ l).

Definition ac_ExpectConsumePartition (topic : string) (partition offset : Z) (c : MockAutoConsumer) : MockAutoConsumer :=
  let m := default ∅ (ac_partitionConsumers c !! topic) in
  let m := match m !! partition with
           | Some _ => m
           | None => <[partition := mkAPC 0 topic partition offset [] [] (ac_ChannelBufferSize c) false false false false]> m
           end in
  mkAC (ac_ChannelBufferSize c) (<[topic := m]> (ac_partitionConsumers c)) (ac_metadata c) (ac_reports c).

Definition ac_ConsumePartition (topic : string) (partition offset : Z) (c : MockAutoConsumer)
  : res MockAutoPartitionConsumer * MockAutoConsumer :=
  match ac_find topic partition c with
  | None => (Err errOutOfExpectations, ac_report ["No expectations set for " +:+ topic +:+ "/" +:+ FormatInt partition]%string c)
  | Some pc =>
      if apc_consumed pc then (Err (ConfigurationError "The topic/partition is already being consumed"), c)
      else
        let c := if negb (apc_offset pc =? anyOffset) && negb (apc_offset pc =? offset)
                 then ac_report ["Unexpected offset when calling ConsumePartition for " +:+ topic +:+ "/" +:+
                        FormatInt partition +:+ ". Expected " +:+ FormatInt (apc_offset pc) +:+ ", got " +:+
                        FormatInt offset +:+ "."]%string c else c in
        let pc := apc_set_chans (apc_highWaterMarkOffset pc) (apc_messages pc) (apc_errors pc) (apc_closed pc) true pc in
        (Ok pc, ac_update topic partition pc c)
  end.

Definition ac_Topics (range : gmap string (option (list Z)) -> list (string * option (list Z))) (c : MockAutoConsumer)
  : res (list string) * MockAutoConsumer :=
  match ac_metadata c with
  | None => (Err ErrOutOfBrokers,
             ac_report ["Unexpected call to Topics. Initialize the mock's topic metadata with SetTopicMetadata."]%string c)
  | Some md => (Ok (range md).*1, c)
  end.

Definition ac_Partitions (topic : string) (c : MockAutoConsumer) : res (list Z) * MockAutoConsumer :=
  match ac_metadata c with
  | None => (Err ErrOutOfBrokers,
             ac_report ["Unexpected call to Partitions. Initialize the mock's topic metadata with SetTopicMetadata."]%string c)
  | Some md => (match md !! topic with Some (Some l) => Ok l | _ => Err ErrUnknownTopicOrPartition end, c)
  end.

Definition ac_HighWaterMarks (c : MockAutoConsumer) : gmap string (gmap Z Z) :=
  (fun pcs : gmap Z MockAutoPartitionConsumer => apc_highWaterMarkOffset <$> pcs) <$> ac_partitionConsumers c.

Definition SetTopicMetadata (md : option (gmap string (option (list Z)))) (c : MockAutoConsumer) : MockAutoConsumer :=
  mkAC (ac_ChannelBufferSize c) (ac_partitionConsumers c) md (ac_reports c).

(** [Close] closes the partition consumers, here in the order [l] in which [range] visits them, and drops
    their errors. *)
Fixpoint ac_Close (l : list (string * Z)) (c : MockAutoConsumer) : MockAutoConsumer :=
  match l with
  | [] => c
  | (topic, partition) :: l =>
      match ac_find topic partition c with
      | None => ac_Close l c
      | Some pc =>
          let '(_, reports, pc) := apc_Close pc in
          ac_Close l (ac_report reports (ac_update topic partition pc c))
      end
  end.
End consumer.

(** ** Runs of a partition consumer *)

(** What the test and the client do with a partition consumer while it is consumed. *)
Inductive apc_op : Type := YieldMsg (m : ConsumerMessage) | YieldErr (e : error) | RecvMsg | RecvErr.

(** The messages and the errors received come out. *)
Fixpoint apc_run (l : list apc_op) (pc : MockAutoPartitionConsumer)
  : outcome (list ConsumerMessage * list ConsumerError * MockAutoPartitionConsumer) :=
  match l with
  | [] => Ret ([], [], pc)
  | YieldMsg m :: l => pc ← apc_YieldMessage m pc; apc_run l pc
  | YieldErr e :: l => pc ← apc_YieldError e pc; apc_run l pc
  | RecvMsg :: l =>
      '(m, pc) ← apc_Messages pc;
      '(ms, es, pc) ← apc_run l pc; Ret (option_list m ++ ms, es, pc)
  | RecvErr :: l =>
      '(e, pc) ← apc_Errors pc;
      '(ms, es, pc) ← apc_run l pc; Ret (ms, option_list e ++ es, pc)
  end.

Definition yielded (l : list apc_op) : list ConsumerMessage :=
  omap (fun o => match o with YieldMsg m => Some m | _ => None end) l.
Definition yielded_errs (l : list apc_op) : list error :=
  omap (fun o => match o with YieldErr e => Some e | _ => None end) l.

(** Messages with consecutive offsets. *)
Fixpoint stamped (topic : string) (partition offset : Z) (l : list ConsumerMessage) : list ConsumerMessage :=
  match l with
  | [] => []
  | m :: l => stamp topic partition offset m :: stamped topic partition (offset + 1) l
  end.

(** ** Lemmas *)

#[local] Arguments chan_send : simpl never.
#[local] Arguments chan_recv : simpl never.

Lemma chan_send_Ret {A} (x : A) buf cap closed buf' :
  chan_send x buf cap closed = Ret buf' -> closed = false /\ buf' = buf ++ [x].
Proof. unfold chan_send. destruct closed; [done|]. destruct (cap <=? length buf)%nat; [done|]. by intros [= <-]. Qed.

Lemma chan_recv_Ret {A} (buf : list A) x buf' :
  chan_recv buf false = Ret (x, buf') -> exists y, x = Some y /\ buf = y :: buf'.
Proof. unfold chan_recv. destruct buf as [|y buf]; [done|]. intros [= <- <-]. by exists y. Qed.

(** What a run leaves and what it has delivered are what it found and what was yielded. *)
Lemma apc_run_spec l pc ms es pc' :
  apc_run l pc = Ret (ms, es, pc') -> apc_closed pc = false ->
  0 <= apc_highWaterMarkOffset pc -> apc_highWaterMarkOffset pc + Z.of_nat (length l) < 2 ^ 63 ->
  ms ++ apc_messages pc' =
    apc_messages pc ++ stamped (apc_topic pc) (apc_partition pc) (apc_highWaterMarkOffset pc) (yielded l) /\
  es ++ apc_errors pc' = apc_errors pc ++ (mkConsumerError (apc_topic pc) (apc_partition pc) <$> yielded_errs l) /\
  apc_highWaterMarkOffset pc' = apc_highWaterMarkOffset pc + Z.of_nat (length (yielded l)) /\
  pc' = apc_set_chans (apc_highWaterMarkOffset pc') (apc_messages pc') (apc_errors pc') false (apc_consumed pc) pc.
Proof.
  revert pc ms es. induction l as [|o l IH]; intros [hwm t p o' bm be cap cl cons d1 d2] ms es H; simpl in *; intros -> H0 Hb.
  { injection H as <- <- <-. simpl. rewrite !app_nil_r. split_and!; [done..|lia|done]. }
  destruct o as [m|e| |]; unfold apc_YieldMessage, apc_YieldError, apc_Messages, apc_Errors in H; simpl in H.
  - destruct (chan_send _ bm cap false) as [bm'| |] eqn:E; [|done|done]. apply chan_send_Ret in E as [_ ->]. simpl in H.
    rewrite int64_id in H by (unfold in_int64; lia).
    apply IH in H as (-> & -> & -> & Hpc); simpl in *; [|done|lia|lia]. rewrite <- app_assoc. split_and!; [done|done|lia|exact Hpc].
  - destruct (chan_send _ be cap false) as [be'| |] eqn:E; [|done|done]. apply chan_send_Ret in E as [_ ->]. simpl in H.
    apply IH in H as (-> & -> & -> & Hpc); simpl in *; [|done|lia|lia]. rewrite <- app_assoc. split_and!; [done|done|lia|exact Hpc].
  - destruct (chan_recv bm false) as [[x bm']| |] eqn:E; [|done|done]. apply chan_recv_Ret in E as (y & -> & ->). simpl in H.
    destruct (apc_run l _) as [[[ms1 es1] pc1]| |] eqn:Er; [|done|done]. injection H as <- <- <-.
    apply IH in Er as (Hm & He & Hh & Hpc); simpl in *; [|done|lia|lia]. split_and!; [by rewrite Hm|done|lia|exact Hpc].
  - destruct (chan_recv be false) as [[x be']| |] eqn:E; [|done|done]. apply chan_recv_Ret in E as (y & -> & ->). simpl in H.
    destruct (apc_run l _) as [[[ms1 es1] pc1]| |] eqn:Er; [|done|done]. injection H as <- <- <-.
    apply IH in Er as (Hm & He & Hh & Hpc); simpl in *; [|done|lia|lia]. split_and!; [done|by rewrite He|lia|exact Hpc].
Qed.

Lemma ac_find_update topic partition pc pc0 c :
  ac_find topic partition c = Some pc0 -> ac_find topic partition (ac_update topic partition pc c) = Some pc.
Proof.
  unfold ac_find, ac_update. simpl. rewrite lookup_alter_eq. destruct (ac_partitionConsumers c !! topic) as [m|]; [|done].
  intros _. simpl. apply lookup_insert_eq.
Qed.

Lemma ac_find_report topic partition r c : ac_find topic partition (ac_report r c) = ac_find topic partition c.
Proof. done. Qed.

(** ** Properties *)

(** A partition of the mock consumer: it can be consumed once it is expected, and only once; whatever the
    interleaving of yields and receives, the client gets the yielded messages in order, with the offsets
    0, 1, 2, ... of the partition, and the yielded errors in order; closing returns exactly the errors
    not received, reports nothing, as no draining was expected, and leaves both channels closed and empty. *)
Theorem mock_partition_lifecycle CE topic partition offset (c c1 : MockAutoConsumer) pc (l : list apc_op) ms es pc' :
  ac_find topic partition c = None ->
  ac_ConsumePartition CE topic partition offset (ac_ExpectConsumePartition topic partition offset c) = (Ok pc, c1) ->
  apc_run l pc = Ret (ms, es, pc') -> Z.of_nat (length l) < 2 ^ 63 ->
  ac_reports c1 = ac_reports c /\
  (exists e, forall o, ac_ConsumePartition CE topic partition o c1 = (Err e, c1)) /\
  ms ++ apc_messages pc' = stamped topic partition 0 (yielded l) /\
  es ++ apc_errors pc' = (mkConsumerError topic partition <$> yielded_errs l) /\
  apc_highWaterMarkOffset pc' = Z.of_nat (length (yielded l)) /\
  exists closed,
    apc_Close pc' = (match apc_errors pc' with [] => None | kept => Some (LeftErrors kept) end, [], closed) /\
    apc_Messages closed = Ret (None, closed) /\ apc_Errors closed = Ret (None, closed).
Proof.
  intros Hnew H Hrun Hlen.
  assert (ac_find topic partition (ac_ExpectConsumePartition topic partition offset c) =
    Some (mkAPC 0 topic partition offset [] [] (ac_ChannelBufferSize c) false false false false)) as Hf.
  { unfold ac_find, ac_ExpectConsumePartition in *. simpl. rewrite lookup_insert_eq. simpl.
    destruct (ac_partitionConsumers c !! topic) as [m|]; simpl in *; [rewrite Hnew|]; apply lookup_insert_eq. }
  unfold ac_ConsumePartition in H. rewrite Hf in H. simpl in H. rewrite Z.eqb_refl, andb_false_r in H. injection H as <- <-.
  split; [done|]. split.
  { eexists. intros o. unfold ac_ConsumePartition. by erewrite ac_find_update. }
  apply apc_run_spec in Hrun as (Hm & He & Hh & Hpc); simpl in *; [|done|lia|lia].
  split_and!; [done..|]. rewrite Hpc. simpl. eexists. split_and!; [done|done|done].
Qed.

(** Closing a partition consumer marks it as not started, so that [Close] of the consumer, or a second
    [Close], reports a partition that was consumed and closed as one that nobody has started. *)
Theorem closed_partition_reported pc r reports pc' :
  apc_consumed pc = true -> apc_closed pc = false -> apc_Close pc = (r, reports, pc') ->
  apc_Close pc' =
    (Some NotStarted, ["Expectations set on " +:+ apc_name pc +:+ ", but no partition consumer was started."]%string, pc').
Proof. intros Hc Hcl. unfold apc_Close, apc_AsyncClose. rewrite Hc, Hcl. simpl. by intros [= <- <- <-]. Qed.

(** Three messages and an error, of which two messages are received. *)
Definition mock_msg : ConsumerMessage := mkMsg "" 0 (Some "k"%string) (Some "v"%string) 7 [] None.
Definition mock_pc : MockAutoPartitionConsumer := mkAPC 0 "t" 3 5 [] [] 2 false true false false.
Definition mock_ops : list apc_op :=
  [YieldMsg mock_msg; YieldErr (ErrNew "e"); RecvMsg; YieldMsg mock_msg; YieldMsg mock_msg; RecvMsg].
Definition mock_end : MockAutoPartitionConsumer :=
  mkAPC 3 "t" 3 5 [stamp "t" 3 2 mock_msg] [mkConsumerError "t" 3 (ErrNew "e")] 2 false true false false.

Lemma mock_partition_lifecycle_witness :
  apc_run mock_ops mock_pc = Ret ([stamp "t" 3 0 mock_msg; stamp "t" 3 1 mock_msg], [], mock_end) /\
  exists closed, apc_Close mock_end = (Some (LeftErrors [mkConsumerError "t" 3 (ErrNew "e")]), [], closed).
Proof.
  assert (apc_run mock_ops mock_pc = Ret ([stamp "t" 3 0 mock_msg; stamp "t" 3 1 mock_msg], [], mock_end)) as Hr
    by (vm_compute; reflexivity).
  split; [exact Hr|].
  destruct (mock_partition_lifecycle ErrNew "t" 3 5 (NewMockAutoConsumer 2)
    (ac_ConsumePartition ErrNew "t" 3 5 (ac_ExpectConsumePartition "t" 3 5 (NewMockAutoConsumer 2))).2 mock_pc mock_ops
    [stamp "t" 3 0 mock_msg; stamp "t" 3 1 mock_msg] [] mock_end) as (_ & _ & _ & _ & _ & closed & E & _).
  - reflexivity.
  - vm_compute. reflexivity.
  - exact Hr.
  - done.
  - exists closed. exact E.
Defined.
