(* ===== verification/MockGroup.v ===== *)
(** * The mock consumer group

    The second half of [mockautoconsumers.go]: the consumer group with which processors are tested.  A
    message is sent to all sessions, and whoever sent it can wait until it has been marked. *)
From Stdlib Require Import ZArith Lia.
From stdpp Require Import base gmap strings list fin_maps.
From S2P Require Import Prelude Multierr Codec Headers Proxy.
Open Scope Z_scope.

(** ** Sessions *)

(** [type MockConsumerGroupSession struct], whose claims are channels that are open or closed. *)
Record MockConsumerGroupSession : Type := mkMockSession {
  mss_generation : Z;
  mss_topics : list string;
  mss_claims : gmap string bool
}.

Definition newConsumerGroupSession (generation : Z) (topics : list string) : MockConsumerGroupSession :=
  mkMockSession generation topics ∅.

Definition mss_Claims (s : MockConsumerGroupSession) : gmap string (list Z) :=
  fold_left (fun claims topic => <[topic := [0]]> claims) (mss_topics s) ∅.

Definition createGroupClaim (topic : string) (s : MockConsumerGroupSession) : MockConsumerGroupSession :=
  mkMockSession (mss_generation s) (mss_topics s) (<[topic := true]> (mss_claims s)).

(** [SendMessage] of a session: whether the message went to the claim of its topic.  The channels have no
    buffer; [taken] tells whether the consumer of the claim receives. *)
Definition mss_SendMessage (taken : bool) (topic : string) (s : MockConsumerGroupSession) : outcome bool :=
  match mss_claims s !! topic with
  | None => Ret false
  | Some false => Panic (ErrNew "send on closed channel")
  | Some true => if taken then Ret true else Blocked
  end.

(** ** The group *)

(** [type MockConsumerGroup struct]: the counter of [wgMessages] is [mg_wg]; [mg_errs] is what is
    buffered in the channel of errors, which has room for one, and [mg_errs_closed] whether it is
    closed. *)
Record MockConsumerGroup : Type := mkMG {
  mg_errs : option error;
  mg_errs_closed : bool;
  mg_failOnConsume : option error;
  mg_offset : Z;
  mg_currentGeneration : Z;
  mg_messages : gmap Z Z;
  mg_wg : Z;
  mg_sessions : gmap string MockConsumerGroupSession
}.

Definition NewMockConsumerGroup : MockConsumerGroup := mkMG None false None 0 0 ∅ 0 ∅.

Definition FailOnConsume (err : option error) (cg : MockConsumerGroup) : MockConsumerGroup :=
  mkMG (mg_errs cg) (mg_errs_closed cg) err (mg_offset cg) (mg_currentGeneration cg) (mg_messages cg) (mg_wg cg)
    (mg_sessions cg).

Definition mg_set_messages (messages : gmap Z Z) (wg : Z) (cg : MockConsumerGroup) : MockConsumerGroup :=
  mkMG (mg_errs cg) (mg_errs_closed cg) (mg_failOnConsume cg) (mg_offset cg) (mg_currentGeneration cg) messages wg
    (mg_sessions cg).

Definition mg_nextOffset (cg : MockConsumerGroup) : Z * MockConsumerGroup :=
  let o := int64 (mg_offset cg + 1) in
  (o, mkMG (mg_errs cg) (mg_errs_closed cg) (mg_failOnConsume cg) o (mg_currentGeneration cg) (mg_messages cg) (mg_wg cg)
        (mg_sessions cg)).

Definition topicKey (topics : list string) : string := String.concat "," topics.

Definition mg_markMessage (offset : Z) (cg : MockConsumerGroup) : outcome MockConsumerGroup :=
  let cnt := default 0 (mg_messages cg !! offset) in
  if cnt =? 0
  then Panic (ErrNew ("Cannot mark message with offest " +:+ FormatInt offset +:+
                      ", it's not a valid offset or was already marked"))
  else if mg_wg cg <? 1 then Panic (ErrNew "sync: negative WaitGroup counter")
  else Ret (mg_set_messages (<[offset := int64 (cnt - 1)]> (mg_messages cg)) (mg_wg cg - 1) cg).

(** The loop of [SendMessage] over the sessions, in the order visited: the sessions whose claim got the
    message, and how many sessions there are. *)
Fixpoint mg_deliver (taken : string -> bool) (topic : string) (l : list (string * MockConsumerGroupSession))
  : outcome (list string * Z) :=
  match l with
  | [] => Ret ([], 0)
  | (key, s) :: l =>
      got ← mss_SendMessage (taken key) topic s;
      '(keys, n) ← mg_deliver taken topic l;
      Ret (if (got : bool) then key :: keys else keys, n + 1)
  end.

Section sending.
(** The order in which a [range] over the sessions visits them. *)
Context (range : gmap string MockConsumerGroupSession -> list (string * MockConsumerGroupSession)).

(** [SendMessage]: the offset of the message, and the keys of the sessions it went to.  The channel that is
    returned is closed when the counter is 0, see [mg_waits]. *)
Definition mg_SendMessage (taken : string -> bool) (topic : string) (cg : MockConsumerGroup)
  : outcome (Z * list string * MockConsumerGroup) :=
  let '(offset, cg) := mg_nextOffset cg in
  '(keys, messages) ← mg_deliver taken topic (range (mg_sessions cg));
  let cnt := default 0 (mg_messages cg !! offset) in
  Ret (offset, keys, mg_set_messages (<[offset := int64 (cnt + messages)]> (mg_messages cg)) (mg_wg cg + messages) cg).

(** Whether the goroutine that [SendMessage] starts still waits. *)
Definition mg_waits (cg : MockConsumerGroup) : bool := 0 <? mg_wg cg.

(** [SendError] blocks while the error sent before has not been received. *)
Definition mg_SendError (err : error) (cg : MockConsumerGroup) : outcome MockConsumerGroup :=
  if mg_errs_closed cg then Panic (ErrNew "send on closed channel")
  else match mg_errs cg with
       | Some _ => Blocked
       | None => Ret (mkMG (Some err) false (mg_failOnConsume cg) (mg_offset cg) (mg_currentGeneration cg) (mg_messages cg)
                        (mg_wg cg) (mg_sessions cg))
       end.

Definition mg_Close (cg : MockConsumerGroup) : outcome MockConsumerGroup :=
  if mg_errs_closed cg then Panic (ErrNew "close of closed channel")
  else Ret (mkMG (mg_errs cg) true (mg_failOnConsume cg) (mg_offset cg) (mg_currentGeneration cg) ∅ (mg_wg cg)
              (mg_sessions cg)).

(** ** Consuming *)

(** One generation as the handler makes it: the result of [Setup], the results of the [ConsumeClaim]s in
    the order in which they return, the result of [Cleanup], and whether the context is done. *)
Record mock_generation : Type := mkMockGen {
  mk_setup : option error; mk_claims : list (option error); mk_cleanup : option error; mk_ctxDone : bool
}.

Definition mg_set_sessions (sessions : gmap string MockConsumerGroupSession) (cg : MockConsumerGroup) : MockConsumerGroup :=
  mkMG (mg_errs cg) (mg_errs_closed cg) (mg_failOnConsume cg) (mg_offset cg) (mg_currentGeneration cg) (mg_messages cg)
    (mg_wg cg) sessions.

Definition mg_next_generation (cg : MockConsumerGroup) : MockConsumerGroup :=
  mkMG (mg_errs cg) (mg_errs_closed cg) (mg_failOnConsume cg) (mg_offset cg) (int32 (mg_currentGeneration cg + 1))
    (mg_messages cg) (mg_wg cg) (mg_sessions cg).

(** The session of a generation, with the claims that are created for its topics. *)
Definition mg_session (topics : list string) (cg : MockConsumerGroup) : MockConsumerGroupSession :=
  fold_left (fun s topic => createGroupClaim topic s) topics (newConsumerGroupSession (mg_currentGeneration cg) topics).

(** The loop of [Consume].  For every topic a goroutine waits until the context is done, then closes the
    claim: [errg.Wait] returns only then, if there are topics. *)
Fixpoint mg_consume_loop (topics : list string) (gens : list mock_generation) (cg : MockConsumerGroup)
  : outcome (option error * MockConsumerGroup) :=
  match gens with
  | [] => Blocked
  | gn :: gens =>
      let key := topicKey topics in
      let cg := mg_next_generation cg in
      match mk_setup gn with
      | Some e =>
          Ret (Some (ErrWrap "Error setting up" e),
               mg_set_sessions (<[key := newConsumerGroupSession (mg_currentGeneration cg) topics]> (mg_sessions cg)) cg)
      | None =>
          if negb (bool_decide (topics = [])) && negb (mk_ctxDone gn) then Blocked
          else
            let errs := Errors_Collect new_Errors (Errors_NilOrError (ErrGroup_Wait NewErrGroup (mk_claims gn)).1) in
            let errs := Errors_Collect errs (mk_cleanup gn) in
            let cg := mg_set_sessions (delete key (<[key := mg_session topics cg]> (mg_sessions cg))) cg in
            match Errors_NilOrError errs with
            | Some e => Ret (Some (ErrWrap "Error running or cleaning" e), cg)
            | None => if mk_ctxDone gn then Ret (None, cg) else mg_consume_loop topics gens cg
            end
      end
  end.

Definition mg_Consume (topics : list string) (gens : list mock_generation) (cg : MockConsumerGroup)
  : outcome (option error * MockConsumerGroup) :=
  match mg_failOnConsume cg with
  | Some e => Ret (Some e, cg)
  | None => mg_consume_loop topics gens cg
  end.

(** ** Runs *)

(** Messages are sent and marked. *)
Inductive mg_op : Type := MgSend (taken : string -> bool) (topic : string) | MgMark (offset : Z).

Definition mg_step (o : mg_op) (cg : MockConsumerGroup) : outcome MockConsumerGroup :=
  match o with
  | MgSend taken topic => '(_, _, cg) ← mg_SendMessage taken topic cg; Ret cg
  | MgMark offset => mg_markMessage offset cg
  end.

Fixpoint mg_run (l : list mg_op) (cg : MockConsumerGroup) : outcome MockConsumerGroup :=
  match l with
  | [] => Ret cg
  | o :: l => cg ← mg_step o cg; mg_run l cg
  end.

(** How many messages are sent, and how often one is marked. *)
Fixpoint sends (l : list mg_op) : nat :=
  match l with [] => O | MgSend _ _ :: l => S (sends l) | MgMark _ :: l => sends l end.
Fixpoint marks (offset : Z) (l : list mg_op) : Z :=
  match l with
  | [] => 0
  | MgMark o :: l => (if o =? offset then 1 else 0) + marks offset l
  | MgSend _ _ :: l => marks offset l
  end.
End sending.

(** ** Lemmas *)

(** The sum of the counts. *)
Definition total (m : gmap Z Z) : Z := map_fold (fun _ v a => v + a) 0 m.

Lemma total_insert i x m : total (<[i := x]> m) = total m - default 0 (m !! i) + x.
Proof.
  unfold total. rewrite <- insert_delete_eq, map_fold_insert_L; [|intros; lia|apply lookup_delete_eq].
  destruct (m !! i) as [v|] eqn:E; simpl.
  - rewrite (map_fold_delete_L (fun (_ : Z) v a => v + a) 0 i v m); [lia|intros; lia|done].
  - rewrite delete_id by done. lia.
Qed.

Lemma total_zero m : (forall i v, m !! i = Some v -> 0 <= v) ->
  0 <= total m /\ (total m = 0 <-> forall i v, m !! i = Some v -> v = 0).
Proof.
  induction m as [|i x m Hi IH] using map_ind; intros Hp.
  { split; [done|]. split; [by intros _ i v; rewrite lookup_empty|done]. }
  destruct IH as [H1 H2].
  { intros j v Hj. apply (Hp j). rewrite lookup_insert_ne; [done|]. intros ->. by rewrite Hi in Hj. }
  pose proof (Hp i x (lookup_insert_eq _ _ _)) as Hx. rewrite total_insert, Hi. simpl. split; [lia|]. split.
  - intros Ht j v. destruct (decide (i = j)) as [->|Hne]; [rewrite lookup_insert_eq; intros [= <-]; lia|].
    rewrite lookup_insert_ne by done. apply H2. lia.
  - intros Hz. rewrite (proj2 H2); [rewrite (Hz i x (lookup_insert_eq _ _ _)); lia|].
    intros j v Hj. apply (Hz j). rewrite lookup_insert_ne; [done|]. intros ->. by rewrite Hi in Hj.
Qed.

(** A message goes to the sessions that claim its topic; every session is counted. *)
Lemma mg_deliver_spec taken topic l keys n :
  mg_deliver taken topic l = Ret (keys, n) ->
  n = Z.of_nat (length l) /\ keys = (filter (fun x => is_Some (mss_claims x.2 !! topic)) l).*1.
Proof.
  revert keys n. induction l as [|[key s] l IH]; intros keys n H; simpl in H; [by injection H as <- <-|].
  unfold mss_SendMessage in H. destruct (mss_claims s !! topic) as [[]|] eqn:E; [destruct (taken key)| |]; try done; simpl in H;
    (destruct (mg_deliver taken topic l) as [[keys1 n1]| |]; [|done|done]); injection H as <- <-;
    destruct (IH keys1 n1 eq_refl) as [-> ->]; (split; [rewrite length_cons; lia|]).
  - rewrite filter_cons_True by (simpl; by rewrite E). done.
  - rewrite filter_cons_False by (simpl; rewrite E; by intros []). done.
Qed.

Lemma marks_nonneg o l : 0 <= marks o l.
Proof. induction l as [|[]]; simpl; [lia|lia|]. destruct (_ =? _); lia. Qed.

Section group.
Context (range : gmap string MockConsumerGroupSession -> list (string * MockConsumerGroupSession)).
Hypothesis range_perm : forall m, range m ≡ₚ map_to_list m.

(** Between the offsets [o0] and [o0 + n], message [i] is still to be marked [left i] times. *)
Record mg_inv (sessions : gmap string MockConsumerGroupSession) (o0 n : Z) (left : Z -> Z) (cg : MockConsumerGroup) : Prop := {
  mi_sessions : mg_sessions cg = sessions;
  mi_offset : mg_offset cg = o0 + n;
  mi_messages : forall i, mg_messages cg !! i = if decide (o0 < i <= o0 + n) then Some (left i) else None;
  mi_left : forall i, o0 < i <= o0 + n -> 0 <= left i <= Z.of_nat (size sessions);
  mi_wg : mg_wg cg = total (mg_messages cg)
}.

Lemma mg_inv_send sessions o0 n left taken topic cg off keys cg' :
  mg_inv sessions o0 n left cg -> 0 <= o0 -> 0 <= n -> o0 + n < 2 ^ 63 - 1 -> Z.of_nat (size sessions) < 2 ^ 63 ->
  mg_SendMessage range taken topic cg = Ret (off, keys, cg') ->
  off = o0 + n + 1 /\ keys ≡ₚ (filter (fun x => is_Some (mss_claims x.2 !! topic)) (map_to_list sessions)).*1 /\
  mg_inv sessions o0 (n + 1) (fun i => if i =? o0 + n + 1 then Z.of_nat (size sessions) else left i) cg'.
Proof.
  intros [Hs Ho Hm Hl Hw] H0 Hn Hb Hk H. unfold mg_SendMessage in H. simpl in H. rewrite Hs, Ho in H.
  rewrite (int64_id (o0 + n + 1)) in H by (unfold in_int64; lia).
  destruct (mg_deliver taken topic (range sessions)) as [[keys1 cnt]| |] eqn:E; [|done|done]. simpl in H.
  apply mg_deliver_spec in E as [-> ->]. rewrite Hm, decide_False in H by lia. simpl in H. injection H as <- <- <-.
  assert (length (range sessions) = size sessions) as El by (rewrite range_perm; apply length_map_to_list). rewrite El.
  rewrite int64_id by (unfold in_int64; lia).
  split; [done|]. split; [by rewrite range_perm|]. constructor; simpl.
  - done.
  - lia.
  - intros i. destruct (Z.eqb_spec i (o0 + n + 1)) as [->|Hne].
    + rewrite lookup_insert_eq, decide_True by lia. done.
    + rewrite lookup_insert_ne, Hm by done. destruct (decide (o0 < i <= o0 + n)); [by rewrite decide_True by lia|].
      by rewrite decide_False by lia.
  - intros i Hi. destruct (Z.eqb_spec i (o0 + n + 1)); [lia|]. apply Hl. lia.
  - rewrite total_insert, Hm, decide_False by lia. simpl. lia.
Qed.

Lemma mg_inv_mark sessions o0 n left off cg cg' :
  mg_inv sessions o0 n left cg -> Z.of_nat (size sessions) < 2 ^ 63 -> mg_markMessage off cg = Ret cg' ->
  o0 < off <= o0 + n /\ 0 < left off /\ mg_inv sessions o0 n (fun i => if off =? i then left i - 1 else left i) cg'.
Proof.
  intros [Hs Ho Hm Hl Hw] Hk H. unfold mg_markMessage in H. rewrite Hm in H.
  destruct (decide (o0 < off <= o0 + n)) as [Hr|Hr]; simpl in H; [|done]. specialize (Hl off Hr) as Hoff.
  destruct (Z.eqb_spec (left off) 0); [done|]. destruct (Z.ltb_spec (mg_wg cg) 1); [done|]. injection H as <-.
  rewrite int64_id by (unfold in_int64; lia). split; [done|]. split; [lia|]. constructor; simpl; try done.
  - intros i. destruct (Z.eqb_spec off i) as [->|Hne]; [by rewrite lookup_insert_eq, decide_True by done|].
    by rewrite lookup_insert_ne, Hm by done.
  - intros i Hi. destruct (Z.eqb_spec off i) as [->|]; [lia|by apply Hl].
  - rewrite total_insert, Hm, decide_True by done. simpl. lia.
Qed.

Lemma mg_run_inv l sessions o0 n left cg cg' :
  mg_inv sessions o0 n left cg -> 0 <= o0 -> 0 <= n -> o0 + n + Z.of_nat (length l) < 2 ^ 63 ->
  Z.of_nat (size sessions) < 2 ^ 63 -> mg_run range l cg = Ret cg' ->
  mg_inv sessions o0 (n + Z.of_nat (sends l))
    (fun i => (if decide (i <= o0 + n) then left i else Z.of_nat (size sessions)) - marks i l) cg'.
Proof.
  revert n left cg. induction l as [|[taken topic|off] l IH]; intros n left cg Hi H0 Hn Hb Hk H; cbn [length] in Hb; simpl in H.
  - injection H as <-. destruct Hi as [Hs Ho Hm Hl Hw]. constructor; simpl; try done.
    + lia.
    + intros i. rewrite Hm, Z.add_0_r. destruct (decide (o0 < i <= o0 + n)); [|done]. rewrite decide_True by lia. f_equal. lia.
    + intros i Hi. rewrite decide_True by lia. rewrite Z.sub_0_r. apply Hl. lia.
  - destruct (mg_SendMessage range taken topic cg) as [[[off keys] cg1]| |] eqn:E; [|done|done]. simpl in H.
    apply (mg_inv_send _ _ _ _ _ _ _ _ _ _ Hi) in E as (-> & _ & Hi1); [|lia..].
    apply (IH _ _ _ Hi1) in H; [|lia..]. destruct H as [Hs Ho Hm Hl Hw]. constructor; cbn [sends marks]; try done.
    + lia.
    + intros i. rewrite Hm. replace (o0 + (n + 1 + Z.of_nat (sends l))) with (o0 + (n + Z.of_nat (S (sends l)))) by lia.
      destruct (decide (o0 < i <= _)); [|done]. f_equal. f_equal. destruct (decide (i <= o0 + n)), (decide (i <= o0 + (n + 1)));
        destruct (Z.eqb_spec i (o0 + n + 1)); lia.
    + intros i Hr. specialize (Hl i ltac:(lia)). destruct (decide (i <= o0 + n)), (decide (i <= o0 + (n + 1)));
        destruct (Z.eqb_spec i (o0 + n + 1)); lia.
  - destruct (mg_markMessage off cg) as [cg1| |] eqn:E; [|done|done]. simpl in H.
    apply (mg_inv_mark _ _ _ _ _ _ _ Hi Hk) in E as (Hr & _ & Hi1).
    apply (IH _ _ _ Hi1) in H; [|lia..]. destruct H as [Hs Ho Hm Hl Hw]. constructor; cbn [sends marks]; try done.
    + intros i. rewrite Hm. destruct (decide (o0 < i <= _)); [|done]. f_equal.
      destruct (decide (i <= o0 + n)), (Z.eqb_spec off i); lia.
    + intros i Hr'. specialize (Hl i Hr'). destruct (decide (i <= o0 + n)), (Z.eqb_spec off i); lia.
Qed.

(** ** Properties *)

(** The mock group waits for the right marks: after any sequence of messages sent and marked that did not
    panic, every message was marked at most once per session, a message can be marked again exactly if it
    was sent and has marks left, and whoever waits for the messages waits exactly until every message has
    been marked once per session, the sessions that do not consume its topic included. *)
Theorem mock_group_wait (l : list mg_op) (cg cg' : MockConsumerGroup) :
  mg_messages cg = ∅ -> mg_wg cg = 0 -> 0 <= mg_offset cg -> mg_offset cg + Z.of_nat (length l) < 2 ^ 63 ->
  Z.of_nat (size (mg_sessions cg)) < 2 ^ 63 -> mg_run range l cg = Ret cg' ->
  let k := Z.of_nat (size (mg_sessions cg)) in
  let sent i := mg_offset cg < i <= mg_offset cg + Z.of_nat (sends l) in
  (forall i, sent i -> marks i l <= k) /\
  (forall i, (exists cg'', mg_markMessage i cg' = Ret cg'') <-> sent i /\ marks i l < k) /\
  (mg_waits cg' = false <-> forall i, sent i -> marks i l = k).
Proof.
  intros Hm Hw H0 Hb Hk H k sent.
  assert (mg_inv (mg_sessions cg) (mg_offset cg) 0 (fun _ => 0) cg) as Hi.
  { constructor; try done; [lia| |lia|by rewrite Hw, Hm]. intros i. rewrite Hm, decide_False by lia. apply lookup_empty. }
  apply (mg_run_inv l _ _ _ _ _ _ Hi) in H; [|lia..]. destruct H as [Hs Ho Hmsg Hl Hwg]. simpl in *.
  assert (forall i, sent i -> mg_messages cg' !! i = Some (k - marks i l) /\ 0 <= k - marks i l) as Hsent.
  { intros i Hi'. unfold sent in Hi'. specialize (Hl i ltac:(lia)). rewrite Hmsg, decide_True by lia.
    rewrite decide_False in Hl |- * by lia. split; [done|]. unfold k. lia. }
  assert (forall i v, mg_messages cg' !! i = Some v -> sent i) as Hin.
  { intros i v. rewrite Hmsg. unfold sent. case_decide; [intros _; lia|done]. }
  destruct (total_zero (mg_messages cg')) as [Hpos Hz].
  { intros i v Hv. destruct (Hsent i (Hin i v Hv)) as [Hv' ?]. rewrite Hv' in Hv. by injection Hv as <-. }
  split_and!.
  - intros i Hi'. destruct (Hsent i Hi'). lia.
  - intros i. unfold mg_markMessage. split.
    + intros [cg'' Hc]. destruct (mg_messages cg' !! i) as [v|] eqn:E; simpl in Hc; [|done].
      destruct (Hsent i (Hin i v E)) as [Ev ?]. rewrite E in Ev. injection Ev as ->.
      split; [by eapply Hin|]. destruct (Z.eqb_spec (k - marks i l) 0); [done|lia].
    + intros [Hi' Hlt]. destruct (Hsent i Hi') as [E _]. rewrite E. simpl. rewrite (proj2 (Z.eqb_neq _ _)) by lia.
      destruct (Z.ltb_spec (mg_wg cg') 1) as [Hlt'|]; [|by eexists]. assert (total (mg_messages cg') = 0) as Ht by lia.
      pose proof (proj1 Hz Ht i _ E). lia.
  - unfold mg_waits. rewrite Z.ltb_ge, Hwg. split.
    + intros Hle i Hi'. destruct (Hsent i Hi') as [E _]. pose proof (proj1 Hz ltac:(lia) i _ E). lia.
    + intros Hall. rewrite (proj2 Hz); [done|]. intros i v Hv. pose proof (Hin i v Hv) as Hi'.
      destruct (Hsent i Hi') as [E _]. rewrite E in Hv. injection Hv as <-. rewrite (Hall i Hi'). lia.
Qed.

(** A message whose topic some session does not claim is never waited for successfully: it is counted for
    every session but goes only to those with a claim, so if it is marked at most as often as it was
    delivered, the wait does not end. *)
Theorem mock_unclaimed_waits taken topic (l : list mg_op) (cg cg1 cg' : MockConsumerGroup) off keys key s :
  mg_messages cg = ∅ -> mg_wg cg = 0 -> 0 <= mg_offset cg -> mg_offset cg + Z.of_nat (length l) + 1 < 2 ^ 63 ->
  Z.of_nat (size (mg_sessions cg)) < 2 ^ 63 ->
  mg_sessions cg !! key = Some s -> mss_claims s !! topic = None ->
  mg_SendMessage range taken topic cg = Ret (off, keys, cg1) -> mg_run range l cg1 = Ret cg' ->
  marks off l <= Z.of_nat (length keys) -> mg_waits cg' = true.
Proof.
  intros Hm Hw H0 Hb Hk Hkey Hs Hsend Hrun Hmarks.
  assert (mg_inv (mg_sessions cg) (mg_offset cg) 0 (fun _ => 0) cg) as Hi.
  { constructor; try done; [lia| |lia|by rewrite Hw, Hm]. intros i. rewrite Hm, decide_False by lia. apply lookup_empty. }
  apply (mg_inv_send _ _ _ _ _ _ _ _ _ _ Hi) in Hsend as (-> & Hkeys & Hi1); [|lia..].
  apply (mg_run_inv l _ _ _ _ _ _ Hi1) in Hrun; [|lia..]. destruct Hrun as [_ _ Hmsg Hl Hwg].
  assert (length keys < size (mg_sessions cg))%nat as Hlt.
  { rewrite Hkeys, length_fmap, <- length_map_to_list. apply elem_of_map_to_list in Hkey as (l1 & l2 & ->)%list_elem_of_split.
    rewrite filter_app, filter_cons_False by (simpl; rewrite Hs; by intros []). rewrite !length_app, length_cons.
    pose proof (length_filter (fun x => is_Some (mss_claims x.2 !! topic)) l1).
    pose proof (length_filter (fun x => is_Some (mss_claims x.2 !! topic)) l2). lia. }
  unfold mg_waits. apply Z.ltb_lt. rewrite Hwg.
  destruct (total_zero (mg_messages cg')) as [Hpos Hz].
  { intros i v. rewrite Hmsg. destruct (decide _) as [Hr|]; [|done]. intros [= <-]. by apply Hl. }
  destruct (decide (total (mg_messages cg') = 0)) as [Ht|]; [|lia].
  pose proof (proj1 Hz Ht (mg_offset cg + 0 + 1) _ ltac:(rewrite Hmsg, decide_True by lia; reflexivity)) as Hz'.
  rewrite decide_True, Z.eqb_refl in Hz' by lia. lia.
Qed.
End group.

(** [Consume] runs one generation: with topics to consume it returns only once the context is done, without
    an error exactly if no claim and no clean-up failed, and its session is gone then.  If the set-up
    fails it returns at once, and its session stays, without claims. *)
Theorem mock_Consume_returns (topics : list string) (gens : list mock_generation) (cg cg' : MockConsumerGroup) (err : option error) :
  topics <> [] -> mg_failOnConsume cg = None -> mg_Consume topics gens cg = Ret (err, cg') ->
  exists gn, head gens = Some gn /\
    ((exists e, mk_setup gn = Some e /\ err = Some (ErrWrap "Error setting up" e) /\
        mss_claims <$> mg_sessions cg' !! topicKey topics = Some ∅) \/
     (mk_setup gn = None /\ mk_ctxDone gn = true /\ mg_sessions cg' = delete (topicKey topics) (mg_sessions cg) /\
      (err = None <-> Forall (.= None) (mk_claims gn) /\ mk_cleanup gn = None))).
Proof.
  intros Ht Hf. unfold mg_Consume. rewrite Hf. destruct gens as [|gn gens]; [done|]. simpl. intros H. exists gn. split; [done|].
  destruct (mk_setup gn) as [e|].
  - left. injection H as <- <-. exists e. split_and!; [done|done|]. simpl. by rewrite lookup_insert_eq.
  - right. split; [done|]. rewrite bool_decide_false in H by done. simpl in H. destruct (mk_ctxDone gn); [|done]. simpl in H.
    split; [done|]. set (r := Errors_NilOrError (Errors_Collect _ (mk_cleanup gn))) in H.
    assert (r = None <-> Forall (.= None) (mk_claims gn) /\ mk_cleanup gn = None) as Hr.
    { unfold r. rewrite NilOrError_None, errs_Collect, errs_Collect, <- ErrGroup_Wait_None. simpl.
      clear H. destruct (Errors_NilOrError (eg_err _)), (mk_cleanup gn); simpl; clear; naive_solver. }
    rewrite <- Hr. destruct r; injection H as <- <-; simpl; (split; [by rewrite delete_insert_eq|done]).
Qed.

(** Two sessions; one consumes the topic "a", the other one the topics "a" and "b". *)
Definition mock_group : MockConsumerGroup :=
  mkMG None false None 0 2 ∅ 0 {["a" := mkMockSession 1 ["a"] {["a" := true]};
    "a,b" := mkMockSession 2 ["a"; "b"] {["a" := true; "b" := true]}]}%string.
Definition mock_run : list mg_op := [MgSend (fun _ => true) "a"; MgMark 1; MgMark 1].
Definition mock_group_end : MockConsumerGroup := ret_or mock_group (mg_run map_to_list mock_run mock_group).

Lemma mock_group_wait_witness :
  mg_run map_to_list mock_run mock_group = Ret mock_group_end /\ mg_waits mock_group_end = false.
Proof.
  assert (mg_run map_to_list mock_run mock_group = Ret mock_group_end) as Hr by (by apply ret_or_ok; vm_compute).
  split; [exact Hr|].
  apply (mock_group_wait map_to_list (fun _ => reflexivity _) mock_run mock_group mock_group_end eq_refl eq_refl);
    [done|done|by vm_compute|exact Hr|].
  intros i [H1 H2]. simpl in H1, H2. assert (i = 1) as -> by lia. by vm_compute.
Defined.
