(* ===== verification/Logging.v ===== *)
(** * Logging and stack traces

    [logger.go]: loggers with stacked prefixes on top of a logger of the user or of the standard
    library, on a heap, because the default logger is shared and can be switched to debugging; and the
    stack trace that [errors.go] builds for a callback that panics. *)
From Stdlib Require Import ZArith Lia.
From stdpp Require Import base gmap strings list.
From S2P Require Import Prelude.
Open Scope Z_scope.

(** ** Loggers *)

Section logger.
(** The arguments of a log call. *)
Context {A : Type}.

(** What a [Logger] refers to: a logger of the user or the standard library, or a [*std]. *)
Inductive Logger : Type := External (n : nat) | StdAt (l : nat).

(** [type std struct] *)
Record std : Type := mkStd { s_log : Logger; s_debug : bool; s_prefixPath : list string; s_prefix : string }.

(** What an external logger is called with. *)
Inductive log_call : Type := CPrint (n : nat) (args : list A) | CPrintf (n : nat) (format : string) (args : list A).

(** [Logger.Print]: a chain of loggers passes the arguments on; [fuel] bounds its length. *)
Fixpoint log_Print (fuel : nat) (l : Logger) (args : list A) (h : gmap nat std) : list log_call :=
  match l, fuel with
  | External n, _ => [CPrint n args]
  | StdAt _, O => []
  | StdAt p, S fuel => match h !! p with None => [] | Some s => log_Print fuel (s_log s) args h end
  end.

(** [Logger.Printf]: every logger of the chain puts its prefix in front of the format. *)
Fixpoint log_Printf (fuel : nat) (l : Logger) (msg : string) (args : list A) (h : gmap nat std) : list log_call :=
  match l, fuel with
  | External n, _ => [CPrintf n msg args]
  | StdAt _, O => []
  | StdAt p, S fuel => match h !! p with None => [] | Some s => log_Printf fuel (s_log s) (s_prefix s +:+ msg) args h end
  end.

Definition std_Print (fuel : nat) (s : std) (msgs : list A) (h : gmap nat std) : list log_call :=
  log_Print fuel (s_log s) msgs h.
(** [Println] calls [Print] of the underlying logger. *)
Definition std_Println (fuel : nat) (s : std) (msgs : list A) (h : gmap nat std) : list log_call :=
  log_Print fuel (s_log s) msgs h.
Definition std_Printf (fuel : nat) (s : std) (msg : string) (args : list A) (h : gmap nat std) : list log_call :=
  log_Printf fuel (s_log s) (s_prefix s +:+ msg) args h.
Definition std_Debugf (fuel : nat) (s : std) (msg : string) (args : list A) (h : gmap nat std) : list log_call :=
  if s_debug s then log_Printf fuel (s_log s) (s_prefix s +:+ msg) args h else [].

Definition CurrentPrefix (s : std) : string := s_prefix s.

(** The text of a path of prefixes. *)
Definition path_prefix (path : list string) : string :=
  let newPrefix := String.concat " > " path in
  if String.eqb newPrefix "" then "" else "[" +:+ newPrefix +:+ "] ".

(** [StackPrefix]: the path is copied. *)
Definition StackPrefix (prefix : string) (s : std) : std :=
  let prefPath := if String.eqb prefix "" then s_prefixPath s else s_prefixPath s ++ [prefix] in
  mkStd (s_log s) (s_debug s) prefPath (path_prefix prefPath).

Definition logger_Prefix (prefix : string) (s : std) : std := StackPrefix prefix s.

Definition wrapLogger (l : Logger) : std := mkStd l false [] "".

(** [defaultLogger] is the [*std] at 0, over the standard library's logger. *)
Definition defaultLogger : Logger := StdAt 0.
Definition initial_heap : gmap nat std := {[0%nat := mkStd (External 0) false [] ""]}.
Definition DefaultLogger : Logger := defaultLogger.

(** [Debug]: the logger for sarama, if it is set. *)
Definition Debug (gokaDebug saramaDebug : bool) (h : gmap nat std) : option std * gmap nat std :=
  let h := alter (fun s => mkStd (s_log s) gokaDebug (s_prefixPath s) (s_prefix s)) 0%nat h in
  (if saramaDebug then Some (logger_Prefix "Sarama" (mkStd defaultLogger true [] "")) else None, h).

(** ** Lemmas *)

(** Stacking prefixes one after the other. *)
Definition stack_all (prefixes : list string) (s : std) : std := fold_left (fun s p => StackPrefix p s) prefixes s.

Lemma stack_all_path prefixes s :
  s_prefixPath (stack_all prefixes s) = s_prefixPath s ++ filter (fun p => p <> ""%string) prefixes /\
  s_log (stack_all prefixes s) = s_log s /\ s_debug (stack_all prefixes s) = s_debug s.
Proof.
  revert s. induction prefixes as [|p prefixes IH]; intros s; simpl; [by rewrite app_nil_r|].
  unfold stack_all in *. simpl. destruct (IH (StackPrefix p s)) as (-> & -> & ->). split_and!; [|done|done].
  unfold StackPrefix. simpl. destruct (String.eqb_spec p "") as [->|Hp].
  - by rewrite filter_cons_False by naive_solver.
  - rewrite filter_cons_True by done. by rewrite <- app_assoc.
Qed.

Lemma stack_all_prefix prefixes s :
  s_prefix s = path_prefix (s_prefixPath s) ->
  s_prefix (stack_all prefixes s) = path_prefix (s_prefixPath (stack_all prefixes s)).
Proof.
  revert s. induction prefixes as [|p prefixes IH]; intros s Hs; [done|]. unfold stack_all in *. simpl. by apply IH.
Qed.
End logger.
Arguments log_call : clear implicits.

(** ** Stack traces *)

Section stack.
(** A frame of the stack, whether its file is one of the runtime or of goka's own package, and how it
    is printed. *)
Context {F : Type} (is_runtime is_goka : F -> bool) (format : F -> string).

(** The loop that pops frames from the top. *)
Fixpoint pop_frames (trace : list F) : list F :=
  match trace with
  | [] => []
  | f :: rest => if is_runtime f then pop_frames rest else if is_goka f then pop_frames rest else trace
  end.

(** The loop that collects lines up to the next frame of goka. *)
Fixpoint user_lines (trace : list F) : list string :=
  match trace with
  | [] => []
  | f :: trace => if is_goka f then [] else format f :: user_lines trace
  end.

(** [userStacktrace] on the trace of the goroutine. *)
Definition userStacktrace (trace : list F) : list string :=
  match user_lines (pop_frames trace) with
  | [] => format <$> trace
  | lines => lines
  end.

Lemma pop_frames_spec trace :
  exists top, trace = top ++ pop_frames trace /\ Forall (fun f => is_runtime f || is_goka f = true) top /\
    match pop_frames trace with [] => True | f :: _ => is_runtime f = false /\ is_goka f = false end.
Proof.
  induction trace as [|f trace (top & E & HF & Hh)]; simpl; [by exists []|].
  destruct (is_runtime f) eqn:Er; [|destruct (is_goka f) eqn:Eg].
  - exists (f :: top). split_and!; [simpl; by rewrite <- E|constructor; [by rewrite Er|done]|done].
  - exists (f :: top). split_and!; [simpl; by rewrite <- E|constructor; [by rewrite Er, Eg|done]|done].
  - exists []. split; [done|]. split; [by apply Forall_nil_2|done].
Qed.

Lemma user_lines_spec trace :
  exists user rest, trace = user ++ rest /\ user_lines trace = format <$> user /\
    Forall (fun f => is_goka f = false) user /\ match rest with [] => True | f :: _ => is_goka f = true end.
Proof.
  induction trace as [|f trace (user & rest & E & El & HF & Hr)]; simpl; [by exists [], []|].
  destruct (is_goka f) eqn:Eg; [by exists [], (f :: trace)|].
  exists (f :: user), rest. split_and!; [simpl; by rewrite <- E|simpl; by rewrite El|by constructor|done].
Qed.
End stack.

(** ** Properties *)

(** A stacked logger writes the message once, to the logger it was made for, behind the prefixes that
    are not empty, in order; it writes debug messages if and only if it was created from a logger that
    did. *)
Theorem stacked_logger_prints {A} (prefixes : list string) (n : nat) (debug : bool) (msg : string) (args : list A)
    (h : gmap nat std) :
  let s := stack_all prefixes (mkStd (External n) debug [] "") in
  let out := [CPrintf n (path_prefix (filter (fun p => p <> ""%string) prefixes) +:+ msg) args] in
  std_Printf 0 s msg args h = out /\ std_Debugf 0 s msg args h = (if debug then out else []).
Proof.
  intros s out. destruct (stack_all_path prefixes (mkStd (External n) debug [] "")) as (Ep & El & Ed).
  assert (s_prefix s = path_prefix (filter (fun p => p <> ""%string) prefixes)) as E.
  { unfold s. rewrite stack_all_prefix by done. by rewrite Ep. }
  unfold std_Printf, std_Debugf, s, out in *. rewrite El, Ed, E. simpl. by destruct debug.
Qed.

(** [Debug] switches the default logger, but no logger that was derived from it before: a processor that
    exists already keeps the setting it was created with. *)
Theorem debug_does_not_reach_derived {A} (prefix msg : string) (args : list A) :
  let d := default (wrapLogger (External 0)) (initial_heap !! 0%nat) in
  let s := logger_Prefix prefix d in
  let h := (Debug true false initial_heap).2 in
  (exists d', h !! 0%nat = Some d' /\ s_debug d' = true) /\ std_Debugf 1 s msg args h = [].
Proof. intros d s h. split; [by eexists|done]. Qed.

(** The stack trace of a panic shows what is the user's: if there is a frame of the user above the
    frames of goka, the lines are those of a block of the trace that starts below the frames of the
    runtime and of goka at the top and ends before the next frame of goka, with none of goka in it;
    otherwise the whole trace is shown.  It is empty only if the trace is. *)
Theorem userStacktrace_shows {F} (is_runtime is_goka : F -> bool) (format : F -> string) (trace : list F) :
  (exists top user rest, trace = top ++ user ++ rest /\ user <> [] /\
     Forall (fun f => is_runtime f || is_goka f = true) top /\ Forall (fun f => is_goka f = false) user /\
     match rest with [] => True | f :: _ => is_goka f = true end /\
     userStacktrace is_runtime is_goka format trace = format <$> user) \/
  (Forall (fun f => is_runtime f || is_goka f = true) trace /\
   userStacktrace is_runtime is_goka format trace = format <$> trace).
Proof.
  destruct (pop_frames_spec is_runtime is_goka trace) as (top & E & HF & Hh).
  destruct (user_lines_spec is_goka format (pop_frames is_runtime is_goka trace)) as (user & rest & E2 & El & HF2 & Hr).
  unfold userStacktrace. rewrite El. destruct user as [|f user]; simpl.
  - right. split; [|done]. destruct (pop_frames is_runtime is_goka trace) as [|f r] eqn:Ep.
    + rewrite E, app_nil_r. done.
    + simpl in E2. subst rest. destruct Hh as [_ Hg]. congruence.
  - left. exists top, (f :: user), rest. split_and!; try done. by rewrite E at 1; rewrite E2.
Qed.
