(* ===== verification/Web.v ===== *)
(** * The web front end

    [web/templates/utils.go] and [loader.go], [web/query/query.go], [web/monitor/monitoring.go] and
    [web/index/index.go]: the pages that show what tables hold and how processors and views do.  The
    generated assets, the template engine and the marshalling of statistics are arguments. *)
From Stdlib Require Import ZArith Lia Ascii.
From stdpp Require Import base gmap strings list sorting.
From S2P Require Import Prelude Multierr Codec Logging.
Open Scope Z_scope.

(** ** Responses *)

(** [http.ResponseWriter]: the first status that is set counts, writing sets 200. *)
Record ResponseWriter : Type := mkWriter { w_status : option Z; w_body : string }.

Definition StatusOK : Z := 200.
Definition StatusNotFound : Z := 404.
Definition StatusInternalServerError : Z := 500.

Definition new_writer : ResponseWriter := mkWriter None "".

Definition w_WriteHeader (code : Z) (w : ResponseWriter) : ResponseWriter :=
  match w_status w with None => mkWriter (Some code) (w_body w) | Some _ => w end.
Definition w_Write (s : string) (w : ResponseWriter) : ResponseWriter :=
  mkWriter (Some (default StatusOK (w_status w))) (w_body w +:+ s).

Definition newline : string := String (ascii_of_nat 10) "".

Definition http_Error (msg : string) (code : Z) (w : ResponseWriter) : ResponseWriter :=
  w_Write (msg +:+ newline) (w_WriteHeader code w).
Definition http_NotFound (w : ResponseWriter) : ResponseWriter := http_Error "404 page not found" StatusNotFound w.

(** ** Templates *)

Definition BaseTemplates : list string :=
  ["web/templates/common/base.go.html"; "web/templates/common/head.go.html"; "web/templates/common/menu.go.html"]%string.

(** [BinLoader.Get] over the generated function [Asset]. *)
Definition template_Get (asset : string -> res bytes) (filename : string) : res string :=
  match asset filename with
  | Err e => Err (ErrWrap "error loading bindata template" e)
  | Ok data => Ok (string_of_bytes data)
  end.

(** The first loop of [LoadTemplates] fills the map of the files. *)
Fixpoint get_files (asset : string -> res bytes) (filenames : list string) (files : gmap string string)
  : res (gmap string string) :=
  match filenames with
  | [] => Ok files
  | name :: filenames =>
      match template_Get asset name with
      | Err e => Err (ErrWrap ("error retrieving " +:+ name) e)
      | Ok content => get_files asset filenames (<[name := content]> files)
      end
  end.

(** The second loop parses them into one template, in the order in which the map is visited. *)
Fixpoint parse_files (parse : string -> option error) (files : list (string * string)) : res (list string) :=
  match files with
  | [] => Ok []
  | (name, content) :: files =>
      match parse content with
      | Some e => Err (ErrWrap ("error parsing " +:+ name) e)
      | None => rest ← parse_files parse files; Ok (content :: rest)
      end
  end.

Definition LoadTemplates (asset : string -> res bytes) (parse : string -> option error)
    (visit : gmap string string -> list (string * string)) (filenames : list string) : res (list string) :=
  files ← get_files asset filenames ∅; parse_files parse (visit files).

(** ** Pages *)

(** The parameters of a page. *)
Inductive pval : Type :=
| PStr (s : string)
| PNames (l : list string)
| PErr (e : error)
| PGroups (l : list string)
| PComponents (l : list (string * string)).

Abbreviation params := (gmap string pval).

Section pages.
(** A loaded template, how templates are loaded, and what executing one writes and reports. *)
Context {T : Type} (load : list string -> res T) (execute : T -> params -> string * option error).

(** The part that all handlers share: a template that cannot be loaded is reported to the client, one
    that cannot be executed to the log. *)
Definition render_page (files : list string) (ps : params) (w : ResponseWriter) : ResponseWriter * option error :=
  match load files with
  | Err e => (http_Error (error_Error e) StatusInternalServerError w, None)
  | Ok tmpl => let '(out, err) := execute tmpl ps in (w_Write out w, err)
  end.

(** ** The query server *)

(** [type Server struct] of the query package; an attached getter may be nil. *)
Record query_Server : Type := mkQuery {
  q_log : Logger;
  q_basePath : string;
  q_sources : gmap string (option (string -> res value));
  q_humanizer : value -> res string
}.

(** [DefaultHumanizer] over [json.MarshalIndent]. *)
Definition DefaultHumanizer (marshal : value -> res bytes) (v : value) : res string :=
  match marshal v with Err e => Err e | Ok h => Ok (string_of_bytes h) end.

(** The options of the query server. *)
Definition WithHumanizer (h : value -> res string) (s : query_Server) : query_Server :=
  mkQuery (q_log s) (q_basePath s) (q_sources s) h.
Definition query_WithLogger (l : Logger) (s : query_Server) : query_Server :=
  mkQuery l (q_basePath s) (q_sources s) (q_humanizer s).

Definition query_NewServer (marshal : value -> res bytes) (basePath : string) (opts : list (query_Server -> query_Server))
  : query_Server :=
  fold_left (fun srv opt => opt srv) opts (mkQuery DefaultLogger basePath ∅ (DefaultHumanizer marshal)).

Definition query_BasePath (s : query_Server) : string := q_basePath s.

Definition getter (name : string) (s : query_Server) : option (string -> res value) := mjoin (q_sources s !! name).
Definition source_exists (name : string) (s : query_Server) : bool :=
  match getter name s with None => false | Some _ => true end.

Definition sourceNames (s : query_Server) : list string := sort_Strings (elements (dom (q_sources s))).

Definition AttachSource (name : string) (g : option (string -> res value)) (s : query_Server)
  : option error * query_Server :=
  match q_sources s !! name with
  | Some _ => (Some (ErrNew ("source with name '" +:+ name +:+ "' is already attached")), s)
  | None => (None, mkQuery (q_log s) (q_basePath s) (<[name := g]> (q_sources s)) (q_humanizer s))
  end.

Definition executeQueryTemplate (s : query_Server) (ps : params) (w : ResponseWriter)
  : ResponseWriter * option error :=
  render_page (BaseTemplates ++ ["web/templates/query/index.go.html"%string])
    (<["base_path"%string := PStr (q_basePath s)]> (<["menu_title"%string := PStr "menu title"]> ps)) w.

(** The parameters with which every page of the server starts. *)
Definition default_params (s : query_Server) : params :=
  match sourceNames s with
  | [] => {["page_title"%string := PStr "Overview"]}
  | name :: _ =>
      <["sources"%string := PNames (sourceNames s)]> (<["selected_source"%string := PStr name]>
        {["page_title"%string := PStr "Overview"]})
  end.

Definition query_index (s : query_Server) (w : ResponseWriter) : ResponseWriter * option error :=
  executeQueryTemplate s (default_params s) w.

Definition source_params (name : string) (s : query_Server) : params :=
  if source_exists name s then <["selected_source"%string := PStr name]> (default_params s)
  else <["warning"%string := PErr (ErrNew ("Source '" +:+ name +:+ "' not found!"))]> (default_params s).

Definition query_source (name : string) (s : query_Server) (w : ResponseWriter) : ResponseWriter * option error :=
  executeQueryTemplate s (source_params name s) w.

(** [strings.TrimSpace]: the encodings of Unicode's white space. *)
Definition chars (l : list nat) : string := String.string_of_list_ascii (ascii_of_nat <$> l).
Definition spaces : list string :=
  ((fun n => chars [n]) <$> [9; 10; 11; 12; 13; 32]%nat) ++ [chars [194; 133]; chars [194; 160]; chars [225; 154; 128]]%nat ++
  ((fun n => chars [226; 128; n]%nat) <$> seq 128 11) ++
  [chars [226; 128; 168]; chars [226; 128; 169]; chars [226; 128; 175]; chars [226; 129; 159]; chars [227; 128; 128]]%nat.

(** Dropping a prefix, if there is one. *)
Fixpoint strip (p s : string) : option string :=
  match p, s with
  | EmptyString, _ => Some s
  | String a p, String b s => if Ascii.eqb a b then strip p s else None
  | _, _ => None
  end.

Fixpoint trim_front (spaces : list string) (fuel : nat) (s : string) : string :=
  match fuel with
  | O => s
  | S fuel => match head (omap (fun p => strip p s) spaces) with None => s | Some s => trim_front spaces fuel s end
  end.

Definition str_rev (s : string) : string := String.string_of_list_ascii (rev (String.list_ascii_of_string s)).

(** The end is trimmed like the front of the reversed string. *)
Definition TrimSpace (s : string) : string :=
  let s := trim_front spaces (String.length s) s in
  str_rev (trim_front (str_rev <$> spaces) (String.length s) (str_rev s)).

Definition key_params (name key : string) (s : query_Server) : params :=
  match getter name s with
  | None => <["error"%string := PErr (ErrNew ("Source '" +:+ name +:+ "' not found!"))]> (default_params s)
  | Some g =>
      let ps := <["selected_source"%string := PStr name]> (default_params s) in
      match g (TrimSpace key) with
      | Err e => <["error"%string := PErr (ErrWrap "error getting key" e)]> ps
      | Ok value =>
          let ps := <["key"%string := PStr key]> ps in
          match value with
          | VNil => <["warning"%string := PErr (ErrNew ("Key '" +:+ key +:+ "' not found!"))]> ps
          | _ =>
              match q_humanizer s value with
              | Err e => <["error"%string := PErr (ErrWrap "error marshaling value" e)]> ps
              | Ok data => <["value"%string := PStr data]> ps
              end
          end
      end
  end.

Definition query_key (name key : string) (s : query_Server) (w : ResponseWriter) : ResponseWriter * option error :=
  executeQueryTemplate s (key_params name key s) w.

(** ** The monitor *)

Section monitor.
(** The processors and views that are shown, with what the pages read of them. *)
Context {Proc View : Type} (Group : Proc -> string) (Topic : View -> string).

Record monitor_Server : Type := mkMonitor {
  m_log : Logger;
  m_basePath : string;
  m_views : list View;
  m_processors : list Proc
}.

Definition monitor_WithLogger (l : Logger) (s : monitor_Server) : monitor_Server :=
  mkMonitor l (m_basePath s) (m_views s) (m_processors s).

Definition monitor_NewServer (basePath : string) (opts : list (monitor_Server -> monitor_Server)) : monitor_Server :=
  fold_left (fun srv opt => opt srv) opts (mkMonitor DefaultLogger basePath [] []).

Definition monitor_BasePath (s : monitor_Server) : string := m_basePath s.

Definition AttachProcessor (p : Proc) (s : monitor_Server) : monitor_Server :=
  mkMonitor (m_log s) (m_basePath s) (m_views s) (m_processors s ++ [p]).
Definition AttachView (v : View) (s : monitor_Server) : monitor_Server :=
  mkMonitor (m_log s) (m_basePath s) (m_views s ++ [v]) (m_processors s).

Definition monitorTemplates : list string := BaseTemplates ++ ["web/templates/monitor/menu.go.html"%string].

Definition monitor_index (s : monitor_Server) (w : ResponseWriter) : ResponseWriter * option error :=
  render_page (monitorTemplates ++ ["web/templates/monitor/index.go.html"%string])
    (<["base_path"%string := PStr (m_basePath s)]> (<["page_title"%string := PStr "Monitor"]>
     (<["menu_title"%string := PStr "Index"]> (<["processors"%string := PGroups (Group <$> m_processors s)]>
      {["views"%string := PGroups (Topic <$> m_views s)]})))) w.

(** [strconv.Atoi] on a platform with 64-bit integers. *)
Definition Atoi (s : string) : res Z := ParseInt s.

(** [l[idx]], which panics outside the list. *)
Definition at_idx {A} (l : list A) (idx : Z) : outcome A :=
  if idx <? 0 then Panic (ErrNew "index out of range")
  else match l !! Z.to_nat idx with Some a => Ret a | None => Panic (ErrNew "index out of range") end.

(** The guard of the handlers: [idx < 0 || idx > len(l)]. *)
Definition idx_rejected {A} (l : list A) (idx : Z) : bool := (idx <? 0) || (Z.of_nat (length l) <? idx).

(** [renderData]: [marshal_proc] and [marshal_view] fetch and marshal the statistics. *)
Definition renderData (marshal_proc : Proc -> res string) (marshal_view : View -> res string) (typ idx : string)
    (s : monitor_Server) (w : ResponseWriter) : outcome ResponseWriter :=
  match Atoi idx with
  | Err _ => Ret (http_NotFound w)
  | Ok idx =>
      let finish (m : res string) : ResponseWriter :=
        match m with
        | Err e => w_Write (error_Error e) (w_WriteHeader StatusInternalServerError w)
        | Ok data => w_Write data w
        end in
      if String.eqb typ "processor" then
        if idx_rejected (m_processors s) idx then Ret (http_NotFound w)
        else p ← at_idx (m_processors s) idx; Ret (finish (marshal_proc p))
      else if String.eqb typ "view" then
        if idx_rejected (m_views s) idx then Ret (http_NotFound w)
        else v ← at_idx (m_views s) idx; Ret (finish (marshal_view v))
      else Ret (http_NotFound (w_Write "Invalid render type" w))
  end.

Definition details_params (kind title idx : string) (s : monitor_Server) : params :=
  <["base_path"%string := PStr (m_basePath s)]> (<["page_title"%string := PStr (kind +:+ " details for " +:+ title)]>
  (<["title"%string := PStr title]> (<["processors"%string := PGroups (Group <$> m_processors s)]>
  (<["views"%string := PGroups (Topic <$> m_views s)]> {["vars"%string := PNames [idx]]})))).

(** The loading of the templates comes before the check of the index. *)
Definition renderProcessor (idx : string) (s : monitor_Server) (w : ResponseWriter)
  : outcome (ResponseWriter * option error) :=
  match load (monitorTemplates ++ ["web/templates/monitor/details_processor.go.html"%string]) with
  | Err e => Ret (http_Error (error_Error e) StatusInternalServerError w, None)
  | Ok tmpl =>
      match Atoi idx with
      | Err _ => Ret (http_NotFound w, None)
      | Ok i =>
          if idx_rejected (m_processors s) i then Ret (http_NotFound w, None)
          else
            proc ← at_idx (m_processors s) i;
            let '(out, err) := execute tmpl (<["renderType"%string := PStr "processor"]>
                                 (details_params "Processor" (Group proc) idx s)) in
            Ret (w_Write out w, err)
      end
  end.

Definition renderView (idx : string) (s : monitor_Server) (w : ResponseWriter)
  : outcome (ResponseWriter * option error) :=
  match load (monitorTemplates ++ ["web/templates/monitor/details_view.go.html"%string]) with
  | Err e => Ret (http_Error (error_Error e) StatusInternalServerError w, None)
  | Ok tmpl =>
      match Atoi idx with
      | Err _ => Ret (http_NotFound w, None)
      | Ok i =>
          if idx_rejected (m_views s) i then Ret (http_NotFound w, None)
          else
            view ← at_idx (m_views s) i;
            let '(out, err) := execute tmpl (<["renderType"%string := PStr "view"]>
                                 (details_params "View" (Topic view) idx s)) in
            Ret (w_Write out w, err)
      end
  end.
End monitor.

(** ** The index *)

(** [type component struct] is a pair of name and path. *)
Record index_Server : Type := mkIndex { i_basePath : string; i_components : list (string * string) }.

Definition index_NewServer (basePath : string) : index_Server := mkIndex basePath [].

(** [AddComponent], given the base path of the component. *)
Definition AddComponent (path name : string) (s : index_Server) : index_Server :=
  mkIndex (i_basePath s) (i_components s ++ [(name, path)]).

Definition index_index (s : index_Server) (w : ResponseWriter) : ResponseWriter * option error :=
  render_page (BaseTemplates ++ ["web/templates/index/index.go.html"%string])
    (<["basePath"%string := PStr (i_basePath s)]> {["components"%string := PComponents (i_components s)]}) w.
End pages.

(** ** Slices of file names *)

(** The lists of templates are Go slices: a handler appends the file of its page to a slice that all
    requests share, and reads the result while it loads the templates.  [append] writes behind the
    last element if the array has room there, and allocates a new array otherwise. *)
Record slice : Type := mkSlice { sl_ptr : nat; sl_len : nat; sl_cap : nat }.

Abbreviation arrays := (gmap nat (list string)).

(** The capacity the runtime gives a small slice that has to grow: twice the old one. *)
Definition growslice (cap needed : nat) : nat := if (2 * cap <? needed)%nat then needed else (2 * cap)%nat.

Definition array (p : nat) (h : arrays) : list string := default [] (h !! p).

Definition slice_append (s : slice) (x : string) (h : arrays) : slice * arrays :=
  if (sl_len s <? sl_cap s)%nat
  then (mkSlice (sl_ptr s) (S (sl_len s)) (sl_cap s), <[sl_ptr s := <[sl_len s := x]> (array (sl_ptr s) h)]> h)
  else
    let p := fresh (dom h) in
    let cap := growslice (sl_cap s) (S (sl_len s)) in
    (mkSlice p (S (sl_len s)) cap,
     <[p := take (sl_len s) (array (sl_ptr s) h) ++ x :: replicate (cap - S (sl_len s)) ""%string]> h).

(** The elements of a slice. *)
Definition slice_elems (s : slice) (h : arrays) : list string := take (sl_len s) (array (sl_ptr s) h).

(** [templates.BaseTemplates], a literal of three elements. *)
Definition base_slice : slice := mkSlice 0 3 3.
Definition base_arrays : arrays := {[0%nat := BaseTemplates]}.

(** The package variable [baseTemplates] of the monitor: [append(templates.BaseTemplates, ...)]. *)
Definition monitor_slice : slice * arrays := slice_append base_slice "web/templates/monitor/menu.go.html" base_arrays.

(** The package variable [baseTemplates] of the index: [append(templates.BaseTemplates)]. *)
Definition index_slice : slice := base_slice.

(** Requests append the files of their pages one after the other. *)
Fixpoint requests (s : slice) (pages : list string) (h : arrays) : list slice * arrays :=
  match pages with
  | [] => ([], h)
  | x :: pages =>
      let '(s1, h) := slice_append s x h in
      let '(l, h) := requests s pages h in (s1 :: l, h)
  end.

(** ** Lemmas *)

(** A full slice is copied: a later request does not touch what an earlier one got. *)
Lemma append_full s x h :
  sl_len s = sl_cap s -> length (array (sl_ptr s) h) = sl_len s ->
  slice_elems (slice_append s x h).1 (slice_append s x h).2 = slice_elems s h ++ [x] /\
  (sl_ptr (slice_append s x h).1 ∉ dom h) /\
  forall p, p ∈ dom h -> (slice_append s x h).2 !! p = h !! p.
Proof.
  destruct s as [p n c]. cbn [sl_len sl_cap sl_ptr]. intros <- Hlen. unfold slice_append. cbn [sl_len sl_cap sl_ptr].
  rewrite Nat.ltb_irrefl. cbn [fst snd sl_ptr].
  pose proof (is_fresh (dom h)) as Hf. split_and!; [|done|].
  - unfold slice_elems. cbn [sl_ptr sl_len]. unfold array at 1. rewrite lookup_insert_eq. cbn [default from_option].
    unfold id. rewrite !(firstn_all2 (array p h)) by lia. rewrite take_app_ge by lia. rewrite Hlen.
    replace (S n - n)%nat with 1%nat by lia. done.
  - intros q Hq. apply lookup_insert_ne. intros E. by rewrite E in Hf.
Qed.

(** Requests on a full slice do not disturb each other. *)
Lemma requests_full s pages h :
  sl_len s = sl_cap s -> sl_ptr s ∈ dom h -> length (array (sl_ptr s) h) = sl_len s ->
  Forall2 (fun s1 x => slice_elems s1 (requests s pages h).2 = slice_elems s h ++ [x]) (requests s pages h).1 pages /\
  forall p, p ∈ dom h -> (requests s pages h).2 !! p = h !! p.
Proof.
  intros Hfull. revert h. induction pages as [|x pages IH]; intros h Hp Hlen; simpl; [done|].
  destruct (append_full s x h Hfull Hlen) as (He & Hnew & Hold). destruct (slice_append s x h) as [s1 h1] eqn:Ea.
  cbn [fst snd] in *.
  assert (h1 !! sl_ptr s = h !! sl_ptr s) as Hsame by auto. assert (dom h ⊆ dom h1) as Hdom.
  { intros q Hq. rewrite elem_of_dom, Hold by done. by apply elem_of_dom. }
  assert (array (sl_ptr s) h1 = array (sl_ptr s) h) as Harr by (unfold array; by rewrite Hsame).
  destruct (IH h1) as [HF Hkeep]; [by apply Hdom|by rewrite Harr|].
  destruct (requests s pages h1) as [l h2] eqn:Er. cbn [fst snd] in *.
  assert (sl_ptr s1 ∈ dom h1) as Hs1.
  { unfold slice_append in Ea. destruct (_ <? _)%nat; injection Ea as <- <-; simpl; set_solver. }
  split.
  - constructor.
    + rewrite <- He. unfold slice_elems, array. by rewrite Hkeep.
    + unfold slice_elems in HF. rewrite Harr in HF. exact HF.
  - intros q Hq. rewrite Hkeep by auto. auto.
Qed.

(** The sorted names of the sources. *)
Lemma sourceNames_elem name s : name ∈ sourceNames s <-> is_Some (q_sources s !! name).
Proof.
  unfold sourceNames, sort_Strings. rewrite merge_sort_Permutation, elem_of_elements. apply elem_of_dom.
Qed.

Lemma sourceNames_sorted s : StronglySorted String.le (sourceNames s) /\ NoDup (sourceNames s).
Proof.
  unfold sourceNames, sort_Strings. split; [apply (StronglySorted_merge_sort _)|].
  rewrite merge_sort_Permutation. apply NoDup_elements.
Qed.

(** A handler that ends without a panic, in terms of its index. *)
Lemma at_idx_panics {A} (l : list A) idx :
  idx_rejected l idx = false -> (exists e, at_idx l idx = Panic e) <-> idx = Z.of_nat (length l).
Proof.
  unfold idx_rejected, at_idx. intros [Hn Hlt]%orb_false_iff. rewrite Hn. simp_bool.
  destruct (l !! Z.to_nat idx) as [a|] eqn:E.
  - split; [by intros [e ?]|]. intros ->. apply lookup_lt_Some in E. lia.
  - split; [|by eauto]. intros _. apply lookup_ge_None in E. lia.
Qed.

Lemma guarded_panics {A B} (l : list A) i (b : B) (k : A -> outcome B) :
  (forall x, is_ret (k x) = true) ->
  (exists e, (if idx_rejected l i then Ret b else x ← at_idx l i; k x) = Panic e) <-> i = Z.of_nat (length l).
Proof.
  intros Hk. destruct (idx_rejected l i) eqn:E.
  - split; [by intros []|]. intros ->. unfold idx_rejected in E. apply orb_true_iff in E as [E|E]; simp_bool; lia.
  - rewrite <- (at_idx_panics l i E). destruct (at_idx l i) as [a|e|] eqn:Ea; simpl; [|split; eauto|split; by intros []].
    specialize (Hk a). split; intros [e He]; [|done]. by rewrite He in Hk.
Qed.

(** ** Properties *)

(** When the page of a key shows a value. *)
Lemma key_params_value name key s data :
  key_params name key s !! "value"%string = Some data <->
  exists g v d, getter name s = Some g /\ g (TrimSpace key) = Ok v /\ v <> VNil /\ q_humanizer s v = Ok d /\ data = PStr d.
Proof.
  assert (default_params s !! "value"%string = None) as Hd by (unfold default_params; by destruct (sourceNames s)).
  unfold key_params. split.
  - destruct (getter name s) as [g|]; [|by rewrite lookup_insert_ne, Hd].
    destruct (g _) as [v|] eqn:Eg; [|by rewrite !lookup_insert_ne, Hd].
    intros H. exists g, v. destruct v; [by rewrite !lookup_insert_ne, Hd in H|..];
      (destruct (q_humanizer s _) as [d|] eqn:E; [|by rewrite !lookup_insert_ne, Hd in H]);
      rewrite lookup_insert_eq in H; injection H as <-; exists d; split_and!; done.
  - intros (g & v & d & -> & -> & Hv & Hh & ->). destruct v; try done; rewrite Hh; apply lookup_insert_eq.
Qed.

(** Attaching sources one after the other. *)
Definition attach_all (l : list (string * option (string -> res value))) (s : query_Server) : query_Server :=
  fold_left (fun s x => (AttachSource x.1 x.2 s).2) l s.

(** The first source with a name. *)
Definition first_source (name : string) (l : list (string * option (string -> res value)))
  : option (option (string -> res value)) := snd <$> head (filter (fun x => x.1 = name) l).

Lemma attach_all_sources l s name :
  q_sources (attach_all l s) !! name =
    match q_sources s !! name with Some g => Some g | None => first_source name l end.
Proof.
  revert s. induction l as [|[n g] l IH]; intros s; simpl; [by destruct (q_sources s !! name)|].
  unfold attach_all in *. simpl. rewrite IH. unfold AttachSource, first_source. clear IH.
  destruct (decide (n = name)) as [->|Hne].
  - rewrite filter_cons_True by done. destruct (q_sources s !! name) eqn:E; simpl; [by rewrite E|].
    by rewrite lookup_insert_eq.
  - rewrite filter_cons_False by done. destruct (q_sources s !! n); simpl; [done|]. by rewrite lookup_insert_ne.
Qed.

Lemma attach_all_humanizer l s : q_humanizer (attach_all l s) = q_humanizer s.
Proof.
  revert s. induction l as [|[n g] l IH]; intros s; [done|]. unfold attach_all in *. simpl. rewrite IH.
  unfold AttachSource. by destruct (q_sources s !! n).
Qed.

(** The options of a server, of which the last humanizer counts. *)
Inductive query_opt : Type := OHumanizer (h : value -> res string) | OLogger (l : Logger).
Definition query_option (o : query_opt) : query_Server -> query_Server :=
  match o with OHumanizer h => WithHumanizer h | OLogger l => query_WithLogger l end.
Definition opt_humanizer (o : query_opt) : option (value -> res string) :=
  match o with OHumanizer h => Some h | OLogger _ => None end.

Lemma query_NewServer_ok marshal basePath (opts : list query_opt) :
  let s := query_NewServer marshal basePath (query_option <$> opts) in
  q_sources s = ∅ /\ q_basePath s = basePath /\
  q_humanizer s = default (DefaultHumanizer marshal) (last (omap opt_humanizer opts)).
Proof.
  induction opts as [|o opts IH] using rev_ind; [done|]. destruct IH as (H1 & H2 & H3). unfold query_NewServer in *.
  rewrite fmap_app, fold_left_app, omap_app. destruct o as [h|l]; cbn; split_and!; try done.
  - by rewrite last_snoc.
  - by rewrite app_nil_r.
Qed.

(** The query server answers from what is attached: after any sequence of attachments the names of
    the sources are listed once each and in order, the first source under a name stays, and the page of
    a key shows a value exactly if there is such a source with a getter, the getter finds a value under
    the trimmed key, and the humanizer (the last one among the options, the default one otherwise) can
    print it, which is then what is shown. *)
Theorem query_page_value marshal (basePath : string) (opts : list query_opt)
    (l : list (string * option (string -> res value))) (name key : string) (shown : pval) :
  let s := attach_all l (query_NewServer marshal basePath (query_option <$> opts)) in
  (StronglySorted String.le (sourceNames s) /\ NoDup (sourceNames s) /\ forall n, n ∈ sourceNames s <-> n ∈ l.*1) /\
  (key_params name key s !! "value"%string = Some shown <->
   exists g v d, first_source name l = Some (Some g) /\ g (TrimSpace key) = Ok v /\ v <> VNil /\
     default (DefaultHumanizer marshal) (last (omap opt_humanizer opts)) v = Ok d /\ shown = PStr d).
Proof.
  intros s. destruct (query_NewServer_ok marshal basePath opts) as (H1 & _ & H3).
  assert (forall n, q_sources s !! n = first_source n l) as Hs.
  { intros n. unfold s. by rewrite attach_all_sources, H1, lookup_empty. }
  split; [split_and!; [apply sourceNames_sorted..|]|].
  - intros n. rewrite sourceNames_elem, Hs. unfold first_source. rewrite list_elem_of_fmap. split.
    + intros [g Hg]. apply fmap_Some in Hg as (x & Hx & _). apply head_Some_elem_of, list_elem_of_filter in Hx as [<- Hx].
      by exists x.
    + intros (x & -> & Hx). destruct (filter (fun y => y.1 = x.1) l) as [|y l'] eqn:E; [|by eexists].
      assert (x ∈ filter (fun y => y.1 = x.1) l) as Hin by (by apply list_elem_of_filter). rewrite E in Hin. set_solver.
  - rewrite key_params_value. unfold getter. rewrite Hs. unfold s. rewrite attach_all_humanizer, H3.
    destruct (first_source name l) as [[g|]|]; simpl; naive_solver.
Qed.

(** The guard of the monitor's pages is off by one: for an index equal to the number of processors
    (or views), and for no other, the handlers do not answer 404 but panic with an index out of range. *)
Theorem monitor_panics_iff {T Proc View} (load : list string -> res T) (execute : T -> params -> string * option error)
    (Group : Proc -> string) (Topic : View -> string) mp mv (typ idx : string) (s : monitor_Server) (w : ResponseWriter) :
  ((exists e, renderData (Proc := Proc) (View := View) mp mv typ idx s w = Panic e) <->
     (typ = "processor"%string /\ Atoi idx = Ok (Z.of_nat (length (m_processors s)))) \/
     (typ = "view"%string /\ Atoi idx = Ok (Z.of_nat (length (m_views s))))) /\
  ((exists e, renderProcessor load execute Group Topic idx s w = Panic e) <->
     (exists t, load (monitorTemplates ++ ["web/templates/monitor/details_processor.go.html"%string]) = Ok t) /\
     Atoi idx = Ok (Z.of_nat (length (m_processors s)))) /\
  ((exists e, renderView load execute Group Topic idx s w = Panic e) <->
     (exists t, load (monitorTemplates ++ ["web/templates/monitor/details_view.go.html"%string]) = Ok t) /\
     Atoi idx = Ok (Z.of_nat (length (m_views s)))).
Proof.
  split_and!.
  - unfold renderData. destruct (Atoi idx) as [i|e]; [|split; [by intros []|naive_solver]].
    destruct (String.eqb_spec typ "processor") as [->|Hp].
    { rewrite guarded_panics by done. naive_solver. }
    destruct (String.eqb_spec typ "view") as [->|Hv]; [rewrite guarded_panics by done; naive_solver|].
    split; [by intros []|naive_solver].
  - unfold renderProcessor. destruct (load _) as [t|e]; [|split; [by intros []|naive_solver]].
    destruct (Atoi idx) as [i|e]; [|split; [by intros []|naive_solver]].
    rewrite guarded_panics; [naive_solver|]. intros x. by destruct (execute _ _).
  - unfold renderView. destruct (load _) as [t|e]; [|split; [by intros []|naive_solver]].
    destruct (Atoi idx) as [i|e]; [|split; [by intros []|naive_solver]].
    rewrite guarded_panics; [naive_solver|]. intros x. by destruct (execute _ _).
Qed.

(** The pages of the query and the index server load their own templates, however the requests
    interleave: [append] copies the shared list, which is full.  The list of the monitor is not full:
    a request for the page of a processor that is overtaken by a request for the index, after it
    appended its file and before it has read the list, loads the templates of the index. *)
Theorem request_templates :
  (forall pages, Forall2 (fun s x => slice_elems s (requests base_slice pages base_arrays).2 = BaseTemplates ++ [x])
     (requests base_slice pages base_arrays).1 pages) /\
  exists s1 s2 h,
    requests monitor_slice.1
      ["web/templates/monitor/details_processor.go.html"; "web/templates/monitor/index.go.html"]%string monitor_slice.2
    = ([s1; s2], h) /\
    slice_elems s1 h = monitorTemplates ++ ["web/templates/monitor/index.go.html"%string].
Proof.
  split.
  - intros pages. apply requests_full; [done|by apply elem_of_dom|done].
  - eexists _, _, _. split; reflexivity.
Qed.

Example TrimSpace_trims : TrimSpace ("  a b" +:+ newline) = "a b"%string /\ TrimSpace (chars [194; 160; 107; 226; 128; 131]%nat) = "k"%string.
Proof. split; reflexivity. Qed.
